(* ===== verification/_CoqProject ===== *)
-Q . S2P
Prelude.v
JsValue.v
Number.v
Counting.v
Task.v
EventLoop.v
Dashboard.v
Http.v
Machine.v
Reducer.v
Payload.v
Types.v
Server.v
Sync.v
Interleave.v
Serial.v
Presentation.v
Session.v
Quiet.v
Declared.v
Spec.v
Legacy.v
