(* ===== verification/Prelude.v ===== *)
(** * Verification of the food dashboard (src/src/pages/Dashboard/index.tsx)

    ** The program

    The repository is one React function component, [Dashboard], that keeps
    a list of food items on the page in step with a REST resource.  Its
    state is four [useState] cells ([modalOpen], [editModalOpen], [foods],
    [editingFood]).  Its operations are a fetch run once on mount
    ([getFoods]), three asynchronous handlers ([handleAddFood],
    [handleUpdateFood], [handleDeleteFood]) that call the remote store
    client [api] and then set [foods], and three synchronous handlers
    ([toggleModal], [toggleEditModal], [handleEditFood]).  It returns an
    element tree that hands these handlers to the presentation components
    ([Header], [ModalAddFood], [ModalEditFood], [Food]), which are not part
    of the sources.

    Three things make this small program subtle, and the model keeps all
    three.  (1) What it stores is untyped: the list and its items come
    from [response.data], and the editing slot starts as
    [{} as FoodProps]; an item may lack its [id], be [null], be a string,
    and the list may be something else than an array.  (2) Handlers are closures: a handler
    reads the cells as they were in the render that created it, however
    late it resumes after its [await], while the setter it calls replaces
    the cell's current value.  (3) Handlers interleave: between the call a
    handler awaits and its answer, other handlers and other answers run.

    ** The files, in dependency order

    - [Prelude] (this file).  [result], the type of computations that may
      throw; [filterM] and stdpp's [mapM], which are [Array.prototype.filter]
      and [Array.prototype.map] for a callback that may throw (left to
      right, aborted by the first exception); their lemmas; the tactics
      [case_result] and [simplify_result]; the hint databases [js].
    - [JsValue].  The values: [prim] (undefined, null, booleans, numbers as
      IEEE binary64 primitive floats, strings), objects as finite maps from
      property names to primitives (stdpp's [gmap]), [value] (a primitive or
      an object), [collection] (what the list cell holds: an array of
      values, or a value that is not an array).  The operations of the
      language the source applies to
      them: [truthy] (the test of [if (response.data)], line 52),
      [strict_eq] and [strict_neq] ([!==], lines 68 and 80), [get_id]
      ([.id], which throws a [TypeError] on [null] and [undefined]),
      [own_props], [spread] and [spread_with] (object spread, lines 47-50
      and 62-65), [iterate] (the array spread of line 53), [as_array] (the
      receiver of [foods.map] and [foods.filter]), [present] (the guard
      [foods &&] of line 114); [exn], what a [catch] can receive.  Lemmas: [===] is a
      partial equivalence ([same_per]; symmetric, transitive, reflexive
      except on [NaN]) that [===] and [!==] respect ([Proper] instances);
      the lookups of a spread.
    - [Number].  The integers among the numbers: [float_to_Z] reads the
      integer a binary64 number is from its sign, mantissa and exponent.
      Lemmas: two numbers are the same integer exactly when they are
      [===] (a valid number has one representation); every integer below
      2^53 in magnitude is a number; from 2^53 on only even integers are;
      [x + 1] is [NaN] only if [x] is.
    - [Counting].  The sum and the order of the numbers on the integers
      from 0 to 2^53, from their definitions in [SpecFloat]: [x + 1] is
      the next integer, but at 2^53 where it is 2^53 again
      ([float_to_Z_succ]); [x < y] is the order of the integers
      ([float_to_Z_ltb]).
    - [Task].  [task], the finite interaction tree of a handler's body:
      [Ret], [Throw], [Do] (a setter call or [console.log]), [Await] (a
      suspension on an api call, with the continuation for each way the
      call may settle); [task_bind], [try_catch], [await], [perform],
      [lift]; the predicates [suspends] (bound on the number of
      suspensions), [performs] (what effects occur), [resumes] (what is
      parked at a suspension); [task_equiv], equality up to the extension
      of continuations, with the monad laws and [Proper] instances.
    - [EventLoop].  The machine that runs tasks, generic in effects, calls
      and events: [config] (the world, the calls in flight with their
      continuations, what was thrown and not caught), [run] (a task up to
      its first suspension), [step]/[steps] (the labelled transition
      relation: an event fires its handler, a call in flight settles),
      [exec]/[execs] (the same machine as a function, for scripted
      executions), [finish] (a task run alone, every call answered at
      once).  Lemmas: the function follows the relation; invariants of the
      relation ([steps_invariant]); [parked], the invariant scheme for
      what is in flight; [settle_length]; [run_world_preserved].  A call
      that is never answered ([hang]) changes nothing of what the machine
      does with the rest: the moves are the same, the calls parked after
      it counted one place further ([pasts], [execs_hang]).
    - [Dashboard].  The component: [state], [initial], [effect], [act]
      (lines 30-33), [api], [url], [response] (the calls of lines 37, 47,
      62, 78), one definition per function of the source, with its name
      ([getFoods], [handleAddFood], [handleUpdateFood], [handleDeleteFood],
      [toggleModal], [toggleEditModal], [handleEditFood]; the callbacks of
      [map] and [filter] are [replace_updated] and [keep_other]), the
      returned tree ([event], [dispatch], [view], [render], lines 98-125),
      and the component on the machine ([page], [alive], [handler],
      [boot]).  The handlers are defined in a section whose variable [s] is
      the state of the render that created them.  Theorems: the behaviour
      of each handler run alone, on every branch: what it sends, what it
      sets when its call is fulfilled, what happens when the call is
      rejected or answered with an empty body, the delete and the fetch
      having no [catch] ([delete_and_fetch_uncaught]); what [render]
      returns on every array and when events can occur ([render_view]);
      what the render and each handler do when the list is not an array
      ([foods_not_array]).
    - [Http].  The text of a request.  [to_text] is the conversion of a
      primitive in a template literal, [path] the text of an address
      ([`/foods/${id}`], lines 62 and 78), [address] the text a handler
      sends; [route] is the store's reading of an address, from section 6
      of the specification ([/foods], [/foods/{id}] with an integer id in
      decimal notation).  Theorems, with the lemmas of [Number]: for
      integer ids the text reaches the store as the integer the page
      holds, and two numbers have the same address exactly when they are
      [===] ([handlers_address], [path_food_strict_eq]); every integer
      below 2^53 in magnitude is a number, addressed exactly, and from
      2^53 on only even integers are ([ids_exact_below_2_53]).
      [integer_id] is the property of an item that its id is such an
      integer.
    - [Machine].  The component run by the machine from [boot].
      Theorems on every execution: every continuation in flight neither
      suspends again nor touches anything but the list and the console
      ([reachable_parked]), so settling a call leaves one call fewer in
      flight ([settle_shrinks]) and the page always comes to rest
      ([drains]); the editing slot changes only on an edit request, an
      answer changes neither flag and an event does not change the list
      ([step_keeps_cells], [exec_slot]); what an answer leaves in the
      list does not
      depend on the list it finds ([answers_overwrite]); adds answered
      one after the other append what the server returned
      ([sequential_adds_append]); a call that is never answered leaves
      no trace on the page, whatever happens next
      ([hung_call_invisible]).  Theorems on particular executions: the
      scenario of the specification ([scenario]), the toggles
      ([synchronous_handlers]), the list losing an item when two adds overlap
      ([overlapping_adds_lose_update]), both modals open, a [null] item
      stopping the page.
    - [Reducer].  The same component as the reducer that section 9 of
      the specification recommends: the state is data ([reduced]: the
      page, the requests in flight as [job]s with the list their handler
      captured, the uncaught exceptions), [press] and [settle] are the
      transitions, and [settle] lists every branch of every handler after
      its [await] as a [verdict].  Theorem: the machine and the reducer
      go through the same states on every sequence of moves
      ([play_reduces], by the simulation [refines]).
    - [Payload].  The invariant that the component never builds an item:
      for any property [P] of items, if the answers carry items that
      satisfy [P] then so does every element of the list, in every
      configuration and on every interleaving ([carried],
      [play_carried]).  It is proved once and used twice, by [Types] and
      by [Interleave].
    - [Types].  The declarations of lines 10-27: a small type language
      ([ts_type], with the indexed access [index]), the interfaces
      [DashboardProps] and [FoodProps] and the three aliases, and what it
      is for a value to have a type ([has_type]).  Theorems: the assertion
      [{} as FoodProps] of line 33 does not hold of the initial editing
      slot ([initial_editingFood_untyped]); in a typed environment the
      list keeps its declared type, and the state has it from the first
      edit request on and not before ([play_typed]); a spread has the
      type of its last operand ([has_type_spread]).
    - [Server].  The remote store, which is not in the sources, from
      section 6 of the specification.  [RemoteStore] is the interface (a
      state with its collection [items] and the function [serve] that
      answers a call); [RemoteStoreLaws] is the contract, one law per call
      (GET returns the collection; POST stores the body under a fresh id
      and returns it; PUT and DELETE of an address in the collection
      replace and remove the item, of another address are refused and
      change nothing), each law keeping the collection well formed
      ([store_ok]: objects with unique ids).  [json_server] is an
      implementation (ids numbered from the largest) with the proof that
      it satisfies the laws, that it finds the items it holds
      ([json_serve_delete_found]) and that the ids it assigns are [===]
      to themselves ([self_eq], [json_serve_self_eq], with
      [succ_not_nan] of [Number]).  Its numbering, with [Counting]: on a
      collection whose ids are integers from 0 to 2^53 ([natural_id]) the
      largest id is the largest integer ([max_id_largest]), a creation is
      fulfilled with the next integer as long as that is below 2^53
      ([json_serve_post_next]), and the ids stay such integers
      ([json_serve_natural]).
    - [Sync].  The page and a store together, in a section that assumes
      only the laws.  [operate] is an event whose call the store answers
      before anything else happens, [operates] a sequence of them.
      [in_sync] relates a configuration and a store: nothing in flight, a
      list on the page equal to the collection, a collection of objects
      with unique ids.  Theorems: the fetch on mount establishes
      [in_sync] ([start_in_sync]); every operation, whatever its event
      and arguments, is defined and preserves it ([in_sync_operate],
      [operates_in_sync]); an operation is an execution of the machine of
      [EventLoop] ([operate_steps]); the deletion of an item just added
      restores the page and the store ([add_delete_restores]).  With
      [json_server]: the scenario of the specification.
    - [Interleave].  The page and a store when operations overlap:
      [click] fires an event, [deliver] has the store serve a call in
      flight and brings its answer, [interleave] runs a sequence of
      both.  The invariant [sound]: the collection of the store is well
      formed, the list on the page is made of objects, every call in
      flight is one of the contract and its continuation writes objects
      when answered with objects (an instance of [carried]).  Theorems:
      after any interleaving the page can be rendered and every event can
      fire ([interleave_sound]); then every order of arrival of the
      answers still awaited can be played to its end and leaves nothing
      in flight ([deliveries_settle]): no operation waits for ever once
      its answer arrives, and none starts another call.  With
      [json_server]: the page and the store
      parting when two adds overlap, the page showing an id twice when a
      delete and an add overlap.
    - [Serial].  In-flight tracking, which the specification recommends
      (sections 5 and 9): [admitted] accepts an event whose handler calls
      the store only when nothing is in flight, [serially] runs a
      sequence of events and arrivals under that rule.  Theorem: then at
      most one call is in flight, and the session is equivalent to its
      events run one at a time in the order they were pressed, which
      ends in sync with the store ([serially_sequential], and
      [serially_controller] of [Spec]): the toggles and the edit request
      pressed while a call is in flight commute with the end of the
      handler that waits.  [EventLoop]'s
      [finish_with_first] relates a handler run alone to the machine.
    - [Presentation].  The contract of the presentation components, which
      are not in the sources, from section 6 of the specification:
      [Header], [ModalAddFood], [ModalEditFood] and [Food] say which of
      the callbacks of lines 100-121 each component calls, when, and with
      what; [offered] is their union on a rendered tree, [modal] the
      stronger layer in which an open modal takes the events; [browse]
      runs the machine on the moves a layer allows.  Theorems: behind
      [offered] the edit modal is open on a listed item only and every
      offered event passes listed data ([browse_carried], which
      strengthens [carried] of [Payload]); with integer ids every request
      sent names a resource of the store ([browse_routed], with [route]
      of [Http]); behind [modal] the two flags and the editing slot
      implement the tagged variant of section 9 ([Mode], [mode_step],
      [modal_refines]); the keys of the rendered list are distinct
      exactly when the ids are ([keys], [keys_distinct]).
    - [Session].  The components together: the user acts through the
      presentation components, with an add form that passes no id
      ([form]); events whose handler calls the store wait until nothing
      is in flight ([allowed]); the store is [json_server].  Theorem: in
      such a session no exception escapes a handler, and the page is in
      sync whenever nothing is in flight ([session_calm]); the deletion,
      which has no [catch], is never refused.  Each assumption is needed
      ([double_delete_uncaught], [nan_id_delete_uncaught]).  From a
      collection whose ids are integers from 0 to 2^53 the ids stay such
      integers and every request of the session names the collection or
      an item of the store ([session_numbered]); at 2^53 creations are
      refused ([session_saturated]).
    - [Quiet].  When nothing goes wrong.  Presentation components whose
      open modal takes the events, with the add form that passes no id
      ([dialog]); every event but the toggles waits until nothing is in
      flight ([turn], [careful]); [json_server] with ids that are
      integers from 0 to 2^53 and room for the ids to come.  Theorem:
      every call of such a session is fulfilled and its answer sets the
      list, so nothing is logged and nothing escapes ([careful_quiet]);
      the answers are read off the reducer ([ready_succeeds]).  Each
      assumption is needed ([edit_during_delete_logged],
      [delete_behind_modal_logged], [session_saturated]).
    - [Declared].  The parameter types of the handlers (lines 45, 60, 77
      and 93) as a check on the events ([declared]).  Theorems: with
      arguments of the declared types every body sent is of type
      [FoodProps] and every delete names a number
      ([declared_requests]); with [json_server] the types then hold of
      the page and of the store on every interleaving, with no
      assumption on the answers ([declared_typed]).  The declarations
      are not those of the specification: an item without id is not of
      the declared type ([form_not_declared]), and a candidate that is
      names its own id, which the store keeps or refuses
      ([json_serve_declared_add]).
    - [Spec].  The controller as section 4.1 of the specification
      describes it, without tasks or event loop: [Initialize], [AddItem],
      [UpdateItem], [DeleteItem], the two toggles and [BeginEdit] as
      functions on the state and a store, each ending in a [report]
      (done, failure logged, failure unhandled); [controller] binds the
      callbacks of the rendered tree to them.  Theorems: an event whose
      handler runs alone does what its operation does
      ([operate_controller]); the fetch on mount is [Initialize]
      ([start_Initialize]); with in-flight tracking a session is the
      operations of its events, one after the other in the order they
      were pressed ([controls], [serially_controller]).
    - [Legacy].  The class component that lines 129-242 keep commented
      out: [this_state] (the constructor), [class_act] and [merge]
      ([this.setState] merges a partial state), [componentDidMount], one
      definition [this_m] per method [m], [class_render] and
      [class_dispatch], and the class on the machine ([class_boot]).
      Theorems: the two components are equivalent move for move as long as
      no POST is fulfilled with a falsy [data]
      ([class_component_equivalent], by the simulation [sim] with
      [matches] relating the tasks); the class appends a falsy [data]
      where the function component ignores it, and stops.

    ** How the model corresponds to the code

    A handler [h] of the source is the definition [h] of [Dashboard]; its
    statements are the nodes of the task, in order; [await api.m(...)] is
    [await (api_m ...)]; [try {...} catch (err) {...}] is [try_catch];
    a setter call is [perform (setX v)]; reading a cell is reading the
    section variable [s] (in the class, [this.state] read at the head of
    the method).  The address [`/foods/${id}`] is kept as
    [url_food id], with the id as a value; [Http] gives its text and
    proves that for integer ids nothing is lost by keeping the value.
    [exec (Click ev)] is React invoking the prop [ev] of the rendered
    tree: the handler is [dispatch] applied to the current state, which is
    the state of the last render.  In [Machine] any event may fire with
    any argument; in [Presentation] an event fires when the component that
    holds the prop would call it on the tree [render] returns.  [exec (Answer i ans)] is the [i]-th call
    in flight settling.  Setters replace the current value of their cell
    ([act]); the component re-renders between two steps of the machine.

    ** Bounds and fuel

    No fuel.  The handlers have no loop, so tasks are finite trees and
    every function on them is structurally recursive; [mapM] and [filterM]
    recurse on the list.  Lists and maps are unbounded.  Numbers are
    binary64 (Rocq's primitive floats, specified by [SpecFloat]): ids are
    exact integers up to 2^53 in magnitude, which [Number] and [Http]
    prove, and the numbering of [json_server] is exact from 0 to 2^53,
    where it stops ([Counting], [Server]).  The text of a number is
    modelled for [NaN], the infinities and the integers below 10^21 in
    magnitude, which JavaScript writes in decimal notation; for the other
    numbers [to_text] is [None] and the theorems of [Http] do not speak.
    Liveness is stated on finite schedules: the calls in flight are
    finitely many and no continuation starts another call, so a schedule
    of arrivals as long as the list in flight empties it.  A call that
    hangs is a call no schedule answers: [hung_call_invisible] holds for
    every finite sequence of moves after it.

    ** Not modelled

    The presentation components and the HTTP client (not in the sources):
    the theorems of [Dashboard] and [Machine] quantify over the events
    fired and over the answers given, those of [Sync] over the events and
    over the stores that satisfy the contract.  Of the presentation
    components [Presentation] models the calls they make, as an
    assumption that only its own theorems use; what they draw, the forms
    of the modals and what the user types are not modelled.  Of the
    request, only the address has a text; headers, the JSON of bodies and
    answers, time-outs and the connection are the client's.  Objects and
    arrays as property values, the prototype chain, the text of numbers
    that are not integers or are 10^21 or more in magnitude, React's
    batching and reconciliation (only: a setter replaces its cell, and no
    event fires when the render throws).  The styling ([FoodsContainer],
    line 8) and the imports.  Every other line of the source is
    translated; what remains outside the model has neither source in the
    repository nor a description in the specification, so nothing more
    of it can be modelled faithfully.

    ** Conventions

    Definitions carry the names of the source (the methods of the class
    are [this_m], since the handlers of the function component have the
    same names), and quote the lines they translate.  In each file the
    definitions come first, then the lemmas.
    Theorems that state a property of the program carry a claim id. *)

From stdpp Require Export base tactics option list.

(** ** Computations that may throw *)

Inductive result (E A : Type) : Type :=
| Ok (a : A)
| Err (e : E).
Arguments Ok {E A} a.
Arguments Err {E A} e.

#[export] Instance result_ret {E} : MRet (result E) := λ A, Ok.
#[export] Instance result_bind {E} : MBind (result E) := λ A B f r,
  match r with Ok a => f a | Err e => Err e end.
#[export] Instance result_fmap {E} : FMap (result E) := λ A B f r,
  match r with Ok a => Ok (f a) | Err e => Err e end.

#[export] Instance result_eq_dec {E A} `{EqDecision E, EqDecision A} :
  EqDecision (result E A).
Proof. solve_decision. Defined.

Definition is_ok {E A} (r : result E A) : bool :=
  match r with Ok _ => true | Err _ => false end.

(** [arr.filter(f)] for a callback that may throw: the elements are
    visited from left to right, the first exception aborts the traversal,
    the kept elements stay in their order.  ([arr.map(f)] is stdpp's
    [mapM].) *)
Fixpoint filterM {E A} (f : A → result E bool) (l : list A) : result E (list A) :=
  match l with
  | [] => Ok []
  | x :: l => b ← f x; k ← filterM f l; Ok (if b : bool then x :: k else k)
  end.

(** ** Tactics and hints *)

Create HintDb js discriminated.
Create Rewrite HintDb js.

(** Case analysis on the [result] that blocks the goal or a hypothesis. *)
Ltac case_result :=
  match goal with
  | |- context [mbind _ ?r] => destruct r eqn:?; simpl in *
  | H : context [mbind _ ?r] |- _ => destruct r eqn:?; simpl in *
  | |- context [match ?r with Ok _ => _ | Err _ => _ end] =>
      destruct r eqn:?; simpl in *
  | H : context [match ?r with Ok _ => _ | Err _ => _ end] |- _ =>
      destruct r eqn:?; simpl in *
  end.

Ltac simplify_result := repeat (simplify_eq/=; try case_result); simplify_eq/=.

(** ** Lemmas on [result] and the traversals *)

Lemma bind_Ok {E A B} (r : result E A) (g : A → result E B) b :
  r ≫= g = Ok b ↔ ∃ a, r = Ok a ∧ g a = Ok b.
Proof.
  destruct r as [a|e]; simpl; split.
  - by exists a.
  - by intros (? & [= <-] & ?).
  - done.
  - by intros (? & [=] & ?).
Qed.

Lemma bind_Err {E A B} (r : result E A) (g : A → result E B) e :
  r ≫= g = Err e ↔ r = Err e ∨ ∃ a, r = Ok a ∧ g a = Err e.
Proof.
  destruct r as [a|e']; simpl; split.
  - intros ?. right. by exists a.
  - by intros [[=] | (? & [= <-] & ?)].
  - intros [= ->]. by left.
  - by intros [[= ->] | (? & [=] & ?)].
Qed.

Section result_lemmas.
Context {E A B : Type}.
Implicit Types (f : A → result E B) (p : A → result E bool) (l : list A).

Lemma mapM_cons_Ok f x l y k :
  f x = Ok y → mapM f l = Ok k → mapM f (x :: l) = Ok (y :: k).
Proof. intros Hx Hl. simpl. by rewrite Hx, Hl. Qed.

Lemma mapM_Ok_Forall2 f l k :
  mapM f l = Ok k ↔ Forall2 (λ x y, f x = Ok y) l k.
Proof.
  revert k. induction l as [|x l IH]; intros k; simpl.
  - split; [intros [= <-]; constructor | by inversion 1].
  - split.
    + intros (y & Hy & (k' & Hk & [= <-])%bind_Ok)%bind_Ok.
      constructor; [done | by apply IH].
    + inversion 1 as [|? y ? k' Hy Hk]; subst.
      apply IH in Hk. by apply mapM_cons_Ok.
Qed.

Lemma mapM_Ok_length f l k : mapM f l = Ok k → length k = length l.
Proof. intros ?%mapM_Ok_Forall2. symmetry. by eapply Forall2_length. Qed.

Lemma mapM_pure f (g : A → B) l :
  Forall (λ x, f x = Ok (g x)) l → mapM f l = Ok (g <$> l).
Proof.
  intros H. apply mapM_Ok_Forall2.
  induction H; constructor; auto.
Qed.

Lemma mapM_is_ok f l :
  is_ok (mapM f l) = forallb (λ x, is_ok (f x)) l.
Proof.
  induction l as [|x l IH]; simpl; [done|].
  destruct (f x); simpl; [|done].
  rewrite <-IH. by destruct (mapM f l).
Qed.

Lemma mapM_Err_inv f l e :
  mapM f l = Err e → ∃ x, x ∈ l ∧ f x = Err e.
Proof.
  induction l as [|x l IH]; simpl; [done|].
  intros [Hx | (y & Hy & [Hl | (k & _ & [=])]%bind_Err)]%bind_Err.
  - exists x. split; [left | done].
  - destruct (IH Hl) as (z & ? & ?). exists z. split; [by right | done].
Qed.

(** [List.filter] keeps what holds of every element. *)
Lemma Forall_List_filter (P : A → Prop) (q : A → bool) l :
  Forall P l → Forall P (List.filter q l).
Proof.
  rewrite !Forall_forall. intros Hl x [Hx _]%list_elem_of_In%filter_In.
  apply Hl. by apply list_elem_of_In.
Qed.

Lemma filterM_pure p (q : A → bool) l :
  Forall (λ x, p x = Ok (q x)) l → filterM p l = Ok (List.filter q l).
Proof.
  induction 1 as [|x l Hx _ IH]; simpl; [done|].
  rewrite Hx, IH. simpl. by destruct (q x).
Qed.

Lemma filterM_is_ok p l :
  is_ok (filterM p l) = forallb (λ x, is_ok (p x)) l.
Proof.
  induction l as [|x l IH]; simpl; [done|].
  destruct (p x); simpl; [|done].
  rewrite <-IH. by destruct (filterM p l).
Qed.

Lemma filterM_Ok_all p l k :
  filterM p l = Ok k → Forall (λ x, is_ok (p x) = true) l.
Proof.
  intros H. apply Forall_forall. intros x Hx%list_elem_of_In.
  pose proof (filterM_is_ok p l) as Hok. rewrite H in Hok. symmetry in Hok.
  by eapply forallb_forall in Hok.
Qed.

Lemma filterM_Ok_elem_of p l k x :
  filterM p l = Ok k → x ∈ k ↔ x ∈ l ∧ p x = Ok true.
Proof.
  revert k. induction l as [|y l IH]; intros k; simpl.
  - intros [= <-]. split; [by intros ?%elem_of_nil | by intros [?%elem_of_nil _]].
  - intros (b & Hb & (k' & Hk & [= <-])%bind_Ok)%bind_Ok.
    specialize (IH _ Hk). destruct b; rewrite ?elem_of_cons, IH.
    + split; [intros [->|[? ?]] | intros [[->|?] ?]]; auto.
    + split; [intros [? ?] | intros [[->|?] ?]]; auto. congruence.
Qed.

Lemma filterM_Ok_sublist p l k : filterM p l = Ok k → sublist k l.
Proof.
  revert k. induction l as [|x l IH]; intros k; simpl.
  - intros [= <-]. constructor.
  - intros (b & Hb & (k' & Hk & [= <-])%bind_Ok)%bind_Ok.
    destruct b; [apply sublist_skip | apply sublist_cons]; auto.
Qed.

Lemma filterM_Ok_Forall (P : A → Prop) p l k :
  filterM p l = Ok k → Forall P l → Forall P k.
Proof.
  intros Hk%filterM_Ok_sublist%sublist_subseteq. rewrite !Forall_forall. auto.
Qed.

Lemma filterM_Err_inv p l e :
  filterM p l = Err e → ∃ x, x ∈ l ∧ p x = Err e.
Proof.
  induction l as [|x l IH]; simpl; [done|].
  intros [Hx | (y & Hy & [Hl | (k & _ & [=])]%bind_Err)]%bind_Err.
  - exists x. split; [left | done].
  - destruct (IH Hl) as (z & ? & ?). exists z. split; [by right | done].
Qed.

End result_lemmas.

#[export] Hint Resolve mapM_Ok_length filterM_Ok_sublist : js.
