(* ===== verification/JsValue.v ===== *)
(** * JsValue: the JavaScript values the dashboard handles

    The component is typed ([FoodProps], index.tsx lines 20-27), but what it
    stores comes from the server through [response.data], which is untyped,
    and its own initial editing slot is [{} as FoodProps], an object with
    none of the declared fields.  So an item is modelled as what it is at
    run time: a primitive or an object whose properties may be missing.

    This file holds the part of the language the handlers use: truthiness
    (the test of [if (response.data)]), strict equality (the [!==] of
    [handleUpdateFood] and [handleDeleteFood]), access to the [id] property
    (a [TypeError] on [null] and [undefined]), object spread, and what
    the handlers and the render do with the list cell when it is not an
    array ([iterate], [as_array], [present]).

    Numbers are IEEE binary64 values, Rocq's primitive floats, so that
    [!==] is the comparison the engine performs: [NaN] differs from itself
    and [0] equals [-0].  Strict equality is therefore coarser than
    Leibniz equality and not reflexive; it is a partial equivalence, and
    the lemmas below give its [PER] and [Proper] instances.

    Not modelled: objects and arrays as property values (identity of
    references), the prototype chain, symbols, strings beyond sequences of
    code units. *)

From Stdlib Require Import Floats ZArith.
From stdpp Require Import strings gmap pretty.
From S2P Require Import Prelude.

(** ** Data *)

(** What a handler can catch (index.tsx lines 55 and 72, [catch (err)]):
    the [TypeError] the language raises on a property access, or the reason
    an api promise is rejected with ([status] is the HTTP status of the
    answer, [None] when no answer came). *)
Inductive exn :=
| TypeError
| AxiosError (status : option nat).

(** The primitive values of the language that JSON and the component's
    types ([number], [string], [boolean]) can produce. *)
Inductive prim :=
| undefined
| null
| boolean (b : bool)
| number (n : float)
| str (s : string).

(** An object: its own enumerable properties.  [FoodProps] (lines 20-27)
    is an object with the properties id, name, description, price,
    available and image; nothing checks that they are present. *)
Abbreviation object := (gmap string prim).

(** An element of [foods], the editing slot, the data of a response. *)
Inductive value :=
| Prim (p : prim)
| Obj (o : object).

(** What the cell [foods] holds.  It is declared [FoodProps[]] (line 32)
    and set to [response.data] of the GET (line 39), which is untyped: it
    is an array of values, or whatever else the server sent. *)
Inductive collection :=
| Array (l : list value)
| NotArray (v : value).

(** ** Operations *)

Definition is_NaN (p : prim) : bool :=
  match p with number n => is_nan n | _ => false end.

(** ToBoolean, the conversion [if (response.data)] applies (line 52). *)
Definition truthy (v : value) : bool :=
  match v with
  | Prim undefined | Prim null => false
  | Prim (boolean b) => b
  | Prim (number n) => negb (n =? 0)%float && negb (is_nan n)
  | Prim (str s) => negb (String.eqb s "")
  | Obj _ => true
  end.

(** [a === b] on primitives: same type and same value, numbers compared
    as IEEE values. *)
Definition strict_eq (a b : prim) : bool :=
  match a, b with
  | undefined, undefined => true
  | null, null => true
  | boolean x, boolean y => Bool.eqb x y
  | number x, number y => (x =? y)%float
  | str x, str y => String.eqb x y
  | _, _ => false
  end.

(** [a !== b] (lines 68 and 80). *)
Definition strict_neq (a b : prim) : bool := negb (strict_eq a b).

(** [v.id] (lines 62, 68 and 80): the property when [v] is an object that
    has it, [undefined] when it has not or when [v] is a boolean, a number
    or a string, a [TypeError] when [v] is [null] or [undefined]. *)
Definition get_id (v : value) : result exn prim :=
  match v with
  | Obj o => Ok (default undefined (o !! "id"))
  | Prim undefined | Prim null => Err TypeError
  | Prim _ => Ok undefined
  end.

(** The properties [{...v}] copies (lines 48 and 63-64): those of an
    object, the characters of a string under their indices, none for the
    other primitives. *)
Definition own_props (v : value) : object :=
  match v with
  | Obj o => o
  | Prim (str s) =>
      list_to_map (imap (λ i c, (pretty i, str (String c EmptyString)))
                        (String.list_ascii_of_string s))
  | Prim _ => ∅
  end.

(** [{...a, ...b}] (lines 62-65): the properties of [b] override. *)
Definition spread (a b : value) : object := own_props b ∪ own_props a.

(** [{...a, k: p}] (lines 47-50). *)
Definition spread_with (a : value) (k : string) (p : prim) : object :=
  <[k := p]> (own_props a).

(** The relation [a === b], as a proposition. *)
Definition same : relation prim := λ a b, strict_eq a b = true.

(** The characters of a string, which is what iterating a string yields. *)
Definition chars (s : string) : list value :=
  (λ a, Prim (str (String a EmptyString))) <$> Stdlib.Strings.String.list_ascii_of_string s.

(** [[...foods]] (line 53): the elements of an array, the characters of a
    string; nothing else is iterable. *)
Definition iterate (c : collection) : result exn (list value) :=
  match c with
  | Array l => Ok l
  | NotArray (Prim (str s)) => Ok (chars s)
  | NotArray _ => Err TypeError
  end.

(** The receiver of [foods.map(...)] and [foods.filter(...)] (lines 67 and
    80): on [null] and [undefined] the property access throws, on any
    other value that is not an array the property is not a function and
    the call throws. *)
Definition as_array (c : collection) : result exn (list value) :=
  match c with
  | Array l => Ok l
  | NotArray _ => Err TypeError
  end.

(** ToBoolean of the cell, the guard [foods &&] (line 114): arrays are
    truthy, the empty one too. *)
Definition present (c : collection) : bool :=
  match c with
  | Array _ => true
  | NotArray v => truthy v
  end.

Arguments iterate : simpl nomatch.
Arguments as_array : simpl nomatch.
Arguments present : simpl nomatch.

(** Every element of an array satisfies [P]. *)
Definition array_of (P : value → Prop) (c : collection) : Prop :=
  match c with
  | Array l => Forall P l
  | NotArray _ => False
  end.

(** ** Decidable equality *)

#[export] Instance float_eq_dec : EqDecision float.
Proof.
  intros x y. destruct (PrimFloat.Leibniz.eqb x y) eqn:H.
  - left. by apply FloatAxioms.Leibniz.eqb_spec.
  - right. intros ?%FloatAxioms.Leibniz.eqb_spec. congruence.
Defined.
#[export] Instance exn_eq_dec : EqDecision exn.
Proof. solve_decision. Defined.
#[export] Instance prim_eq_dec : EqDecision prim.
Proof. solve_decision. Defined.
#[export] Instance value_eq_dec : EqDecision value.
Proof. solve_decision. Defined.
#[export] Instance collection_eq_dec : EqDecision collection.
Proof. solve_decision. Defined.

(** ** IEEE equality is a partial equivalence *)

Definition SF_is_zero (f : spec_float) : bool :=
  match f with S754_zero _ => true | _ => false end.
Definition SF_is_nan (f : spec_float) : bool :=
  match f with S754_nan => true | _ => false end.

Lemma SFeqb_true_iff f1 f2 :
  SFeqb f1 f2 = true ↔
  (SF_is_zero f1 = true ∧ SF_is_zero f2 = true) ∨ (f1 = f2 ∧ SF_is_nan f1 = false).
Proof.
  unfold SFeqb, SFcompare.
  destruct f1 as [s1|s1| |s1 m1 e1], f2 as [s2|s2| |s2 m2 e2]; simpl;
    try change (PosDef.Pos.compare_cont Eq m1 m2) with (Pos.compare m1 m2);
    repeat match goal with s : bool |- _ => destruct s end; simpl;
    try destruct (Z.compare_spec e1 e2); try destruct (Pos.compare_spec m1 m2);
    simpl; (split;
     [ try done; intros _; first [by left | by right; simplify_eq]
     | intros [[? ?]|[? ?]]; simplify_eq/=; try done; lia ]).
Qed.

Lemma float_eqb_sym x y : (x =? y)%float = (y =? x)%float.
Proof.
  apply eq_true_iff_eq. rewrite !FloatAxioms.eqb_spec, !SFeqb_true_iff.
  split; (intros [[? ?]|[Heq ?]]; [by left | right; split; congruence]).
Qed.

Lemma float_eqb_trans x y z :
  (x =? y)%float = true → (y =? z)%float = true → (x =? z)%float = true.
Proof.
  rewrite !FloatAxioms.eqb_spec, !SFeqb_true_iff.
  intros [[? ?]|[-> ?]] [[? ?]|[<- ?]]; auto.
Qed.

Lemma float_eqb_refl x : is_nan x = false → (x =? x)%float = true.
Proof. unfold is_nan. by intros ->%negb_false_iff. Qed.

(** ** Strict equality *)

Lemma strict_eq_sym a b : strict_eq a b = strict_eq b a.
Proof.
  destruct a as [| |x|x|x], b as [| |y|y|y]; simpl; try done.
  - by destruct x, y.
  - apply float_eqb_sym.
  - apply String.eqb_sym.
Qed.

Lemma strict_eq_trans a b c :
  strict_eq a b = true → strict_eq b c = true → strict_eq a c = true.
Proof.
  destruct a as [| |x|x|x], b as [| |y|y|y], c as [| |z|z|z]; simpl; try done.
  - by intros ->%Bool.eqb_prop.
  - apply float_eqb_trans.
  - by intros ->%String.eqb_eq.
Qed.

Lemma strict_eq_refl a : is_NaN a = false → strict_eq a a = true.
Proof.
  destruct a as [| |x|x|x]; simpl; try done.
  - intros _. by destruct x.
  - apply float_eqb_refl.
  - intros _. apply String.eqb_refl.
Qed.

Lemma strict_eq_not_NaN a b : strict_eq a b = true → is_NaN a = false.
Proof.
  intros H. destruct a as [| |x|x|x]; try done. simpl.
  apply negb_false_iff. change (strict_eq (number x) (number x) = true).
  eapply strict_eq_trans; [exact H | by rewrite strict_eq_sym].
Qed.

(** Away from numbers, [===] is equality. *)
Lemma strict_eq_eq a b :
  (∀ n, a ≠ number n) → strict_eq a b = true ↔ a = b.
Proof.
  intros Ha. destruct a as [| |x|x|x], b as [| |y|y|y]; simpl; try done.
  - rewrite Bool.eqb_true_iff. split; congruence.
  - by destruct (Ha x).
  - rewrite String.eqb_eq. split; congruence.
Qed.

(** If [a === b], whatever differs from one differs from the other. *)
Lemma strict_eq_false_l a b c :
  strict_eq a b = true → strict_eq a c = false → strict_eq c b = false.
Proof.
  intros Hab Hac. apply not_true_is_false. intros Hcb.
  rewrite <-not_true_iff_false in Hac. apply Hac.
  eapply strict_eq_trans; [done|]. by rewrite strict_eq_sym.
Qed.

Lemma strict_eq_false_r a b c :
  strict_eq a b = true → strict_eq c a = false → strict_eq c b = false.
Proof. rewrite (strict_eq_sym c a). apply strict_eq_false_l. Qed.

(** [NaN] is [!==] to everything. *)
Lemma strict_eq_NaN a b : is_NaN b = true → strict_eq a b = false.
Proof.
  intros Hb. apply not_true_is_false. rewrite strict_eq_sym.
  intros Hab%strict_eq_not_NaN. congruence.
Qed.

Lemma strict_neq_sym a b : strict_neq a b = strict_neq b a.
Proof. unfold strict_neq. by rewrite strict_eq_sym. Qed.

#[export] Instance same_per : @RelationClasses.PER prim same.
Proof.
  split.
  - intros a b. unfold same. by rewrite strict_eq_sym.
  - intros a b c. apply strict_eq_trans.
Qed.

(** [===] and [!==] do not distinguish values that are [===]. *)
#[export] Instance strict_eq_proper : Proper (same ==> same ==> eq) strict_eq.
Proof.
  intros a a' Ha b b' Hb. apply eq_true_iff_eq.
  change (same a b ↔ same a' b'). split; intros H.
  - transitivity a; [by symmetry|]. by transitivity b.
  - transitivity a'; [done|]. transitivity b'; [done | by symmetry].
Qed.

#[export] Instance strict_neq_proper : Proper (same ==> same ==> eq) strict_neq.
Proof.
  intros a a' Ha b b' Hb. unfold strict_neq. f_equal.
  by apply strict_eq_proper.
Qed.

(** ** Truthiness, property access, spread *)

Lemma truthy_Obj o : truthy (Obj o) = true.
Proof. done. Qed.

Lemma get_id_Ok_truthy v : truthy v = true → is_ok (get_id v) = true.
Proof. by destruct v as [[]|]. Qed.

Lemma get_id_Err v e :
  get_id v = Err e ↔ e = TypeError ∧ (v = Prim undefined ∨ v = Prim null).
Proof.
  destruct v as [[]|]; simpl;
    (split; [intros [= <-]; auto | intros [-> [[=]|[=]]]; done]).
Qed.

Lemma own_props_Obj o : own_props (Obj o) = o.
Proof. done. Qed.

Lemma lookup_spread a b k :
  spread a b !! k =
  match own_props b !! k with Some p => Some p | None => own_props a !! k end.
Proof.
  unfold spread. rewrite lookup_union.
  destruct (own_props b !! k), (own_props a !! k); done.
Qed.

Lemma lookup_spread_with a k p k' :
  spread_with a k p !! k' = if decide (k = k') then Some p else own_props a !! k'.
Proof. unfold spread_with. apply lookup_insert. Qed.

Lemma spread_with_spread a k p :
  spread_with a k p = spread a (Obj {[k := p]}).
Proof. unfold spread_with, spread. simpl. by rewrite insert_union_singleton_l. Qed.

(** ** The list cell *)

Lemma as_array_Ok c l : as_array c = Ok l ↔ c = Array l.
Proof. destruct c; simpl; split; by intros [= ->]. Qed.

Lemma as_array_iterate c l : as_array c = Ok l → iterate c = Ok l.
Proof. by intros ->%as_array_Ok. Qed.

Lemma array_of_Array P c : array_of P c ↔ ∃ l, c = Array l ∧ Forall P l.
Proof. destruct c; simpl; naive_solver. Qed.

Lemma array_of_impl (P Q : value → Prop) c :
  array_of P c → (∀ v, P v → Q v) → array_of Q c.
Proof. destruct c; simpl; [|done]. intros. by eapply Forall_impl. Qed.

Lemma array_of_present P c : array_of P c → present c = true.
Proof. by destruct c. Qed.

#[export] Hint Rewrite lookup_spread_with lookup_spread : js.
#[export] Hint Resolve strict_eq_refl strict_eq_trans : js.
