(* ===== verification/Number.v ===== *)
(** * Number: the integers among the numbers

    An id is declared [number] (line 21) and the specification calls it an
    integer.  A number of JavaScript is an IEEE binary64 value; this file
    says which integer a number is, if any ([float_to_Z], read off the
    sign, mantissa and exponent that [Prim2SF] gives), and proves the
    facts about ids as numbers that the other files use:

    - two numbers that are the same integer are [===], and conversely
      ([float_to_Z_eqb], [eqb_float_to_Z]): a valid binary64 value has
      one representation ([valid_binary_unique]);
    - every integer below 2^53 in magnitude is a number
      ([float_to_Z_surj]);
    - a number that is an integer of 2^53 or more in magnitude is even
      ([float_to_Z_even]): the mantissa has 53 bits
      ([valid_binary_mantissa]);
    - [x + 1] is [NaN] only if [x] is ([succ_not_nan], from the
      definition of the sum in [SpecFloat]): a store that numbers its
      items from the largest id never makes an id that is not [===] to
      itself. *)

From Stdlib Require Import Floats ZArith.
From S2P Require Import Prelude JsValue.

(** ** Definitions *)

(** The integer a number is, when it is one: [(-1)^s * m * 2^e] with no
    fractional part. *)
Definition SF_to_Z (f : spec_float) : option Z :=
  match f with
  | S754_zero _ => Some 0%Z
  | S754_finite s m e =>
      let sign z := if s then (- z)%Z else z in
      if (0 <=? e)%Z then Some (sign (Z.pos m * 2 ^ e)%Z)
      else if (Z.pos m mod 2 ^ (- e) =? 0)%Z
           then Some (sign (Z.pos m / 2 ^ (- e))%Z)
           else None
  | _ => None
  end.

Definition float_to_Z (x : float) : option Z := SF_to_Z (Prim2SF x).

(** ** Lemmas *)

(** *** One representation *)

Lemma SF_to_Z_scaled s m e z k :
  SF_to_Z (S754_finite s m e) = Some z → (0 ≤ k)%Z → (0 ≤ e + k)%Z →
  (Z.pos m * 2 ^ (e + k) = Z.abs z * 2 ^ k)%Z ∧ s = (z <? 0)%Z.
Proof.
  unfold SF_to_Z. intros Hz Hk Hek.
  assert (Hsign : ∀ v, (0 < v)%Z →
    Z.abs (if s then (- v)%Z else v) = v ∧ s = ((if s then (- v)%Z else v) <? 0)%Z).
  { intros v Hv. destruct s; split; try lia. }
  destruct (Z.leb_spec 0 e) as [He|He].
  - injection Hz as <-. destruct (Hsign (Z.pos m * 2 ^ e)%Z) as [-> Hs]; [lia|].
    split; [|done]. rewrite Z.pow_add_r by lia. lia.
  - destruct (Z.eqb_spec (Z.pos m mod 2 ^ (- e)) 0) as [Hmod|]; [|done].
    injection Hz as <-.
    assert (Hm : (Z.pos m = 2 ^ (- e) * (Z.pos m / 2 ^ (- e)))%Z)
      by (apply Z.div_exact; [lia|done]).
    assert (0 < 2 ^ (- e))%Z by lia.
    destruct (Hsign (Z.pos m / 2 ^ (- e))%Z) as [-> Hs]; [nia|].
    split; [|done].
    assert (2 ^ k = 2 ^ (- e) * 2 ^ (e + k))%Z as ->
      by (rewrite <-Z.pow_add_r by lia; f_equal; lia).
    rewrite Hm at 1. lia.
Qed.

Lemma digits2_pos_shift (n : nat) m m' :
  (Z.pos m = Z.pos m' * 2 ^ Z.of_nat n)%Z →
  (Z.pos (digits2_pos m) = Z.pos (digits2_pos m') + Z.of_nat n)%Z.
Proof.
  revert m'. induction n as [|n IH]; intros m' Hm.
  - rewrite Z.pow_0_r, Z.mul_1_r in Hm. injection Hm as ->. lia.
  - rewrite (IH (m'~0)%positive); [simpl; lia|].
    rewrite Hm, Nat2Z.inj_succ, Z.pow_succ_r by lia. lia.
Qed.

(** A valid number has one representation. *)
Lemma valid_binary_unique_le s m e m' e' :
  valid_binary (S754_finite s m e) = true →
  valid_binary (S754_finite s m' e') = true →
  (e ≤ e')%Z → (Z.pos m = Z.pos m' * 2 ^ (e' - e))%Z →
  m = m' ∧ e = e'.
Proof.
  unfold valid_binary, SpecFloat.valid_binary, bounded, canonical_mantissa.
  intros [He _]%andb_true_iff [He' _]%andb_true_iff Hle Hm.
  apply Z.eqb_eq in He, He'.
  assert (Hd : (Z.pos (digits2_pos m) = Z.pos (digits2_pos m') + (e' - e))%Z).
  { rewrite <-(Z2Nat.id (e' - e)) in Hm |- * by lia. by apply digits2_pos_shift. }
  assert (e = e') as <- by (rewrite Hd in He; rewrite <-He, <-He'; f_equal; lia).
  rewrite Z.sub_diag, Z.pow_0_r, Z.mul_1_r in Hm. by injection Hm as ->.
Qed.

Lemma valid_binary_unique s m e m' e' k :
  valid_binary (S754_finite s m e) = true →
  valid_binary (S754_finite s m' e') = true →
  (0 ≤ e + k)%Z → (0 ≤ e' + k)%Z →
  (Z.pos m * 2 ^ (e + k) = Z.pos m' * 2 ^ (e' + k))%Z →
  m = m' ∧ e = e'.
Proof.
  intros Hv Hv' He He' Hm. destruct (Z.le_gt_cases e e') as [Hle|Hlt].
  - apply (valid_binary_unique_le s); [done..|].
    replace (e' + k)%Z with (e' - e + (e + k))%Z in Hm by lia.
    rewrite (Z.pow_add_r 2 (e' - e)) in Hm by lia.
    assert (0 < 2 ^ (e + k))%Z by lia. nia.
  - cut (m' = m ∧ e' = e); [by intros [-> ->]|].
    apply (valid_binary_unique_le s); [done..|lia|].
    replace (e + k)%Z with (e - e' + (e' + k))%Z in Hm by lia.
    rewrite (Z.pow_add_r 2 (e - e')) in Hm by lia.
    assert (0 < 2 ^ (e' + k))%Z by lia. nia.
Qed.

Lemma SF_to_Z_zero f : SF_to_Z f = Some 0%Z → SF_is_zero f = true.
Proof.
  destruct f as [s|s| |s m e]; try done. intros Hz.
  destruct (SF_to_Z_scaled s m e 0 (Z.abs e) Hz) as [Hm _]; [lia..|].
  assert (0 < 2 ^ (e + Z.abs e))%Z by lia. nia.
Qed.

(** Two numbers that are the same integer are [===]. *)
Lemma float_to_Z_eqb x y z :
  float_to_Z x = Some z → float_to_Z y = Some z → (x =? y)%float = true.
Proof.
  unfold float_to_Z. rewrite FloatAxioms.eqb_spec, SFeqb_true_iff.
  pose proof (FloatAxioms.Prim2SF_valid x) as Hvx.
  pose proof (FloatAxioms.Prim2SF_valid y) as Hvy.
  destruct (Prim2SF x) as [s|s| |s m e] eqn:Hx,
    (Prim2SF y) as [s'|s'| |s' m' e'] eqn:Hy; try done; intros Hzx Hzy.
  - by left.
  - injection Hzx as <-. by apply SF_to_Z_zero in Hzy.
  - injection Hzy as <-. by apply SF_to_Z_zero in Hzx.
  - right. split; [|done].
    set (k := (Z.abs e + Z.abs e')%Z).
    destruct (SF_to_Z_scaled s m e z k Hzx) as [Hm ->]; [lia..|].
    destruct (SF_to_Z_scaled s' m' e' z k Hzy) as [Hm' ->]; [lia..|].
    destruct (valid_binary_unique (z <? 0)%Z m e m' e' k) as [-> ->];
      [done|done|lia|lia|congruence|done].
Qed.

(** Numbers that are [===] are the same integer, if any. *)
Lemma eqb_float_to_Z x y :
  (x =? y)%float = true → float_to_Z x = float_to_Z y.
Proof.
  unfold float_to_Z. rewrite FloatAxioms.eqb_spec, SFeqb_true_iff.
  intros [[Hx Hy]|[-> _]]; [|done].
  by destruct (Prim2SF x), (Prim2SF y).
Qed.

(** *** 53 bits *)

Lemma digits2_pos_lt m : (Z.pos m < 2 ^ Z.pos (digits2_pos m))%Z.
Proof.
  induction m as [m IH|m IH|]; simpl; [| |done].
  all: rewrite Pos2Z.inj_succ, Z.pow_succ_r by lia; lia.
Qed.

Lemma valid_binary_mantissa s m e :
  valid_binary (S754_finite s m e) = true → (Z.pos m < 2 ^ 53)%Z.
Proof.
  unfold valid_binary, SpecFloat.valid_binary, bounded, canonical_mantissa, fexp.
  intros [He%Z.eqb_eq _]%andb_true_iff.
  assert (Z.pos (digits2_pos m) ≤ 53)%Z by (unfold prec in He; lia).
  eapply Z.lt_le_trans; [apply digits2_pos_lt|]. by apply Z.pow_le_mono_r.
Qed.

(** A number that is an integer of 2^53 or more is an even integer. *)
Lemma float_to_Z_even x z :
  float_to_Z x = Some z → (2 ^ 53 ≤ Z.abs z)%Z → Z.even z = true.
Proof.
  unfold float_to_Z. pose proof (FloatAxioms.Prim2SF_valid x) as Hv.
  destruct (Prim2SF x) as [s|s| |s m e]; simpl; [by intros [= <-]|done..|].
  apply valid_binary_mantissa in Hv.
  assert (Heven : ∀ v, Z.even (if s then (- v)%Z else v) = Z.even v).
  { intros v. destruct s; [apply Z.even_opp | done]. }
  assert (Habs : ∀ v, Z.abs (if s then (- v)%Z else v) = Z.abs v).
  { intros v. destruct s; [apply Z.abs_opp | done]. }
  destruct (Z.leb_spec 0 e) as [He|He].
  - intros [= <-]. rewrite Heven, Habs. intros Hz.
    assert (e ≠ 0)%Z by (intros ->; lia).
    rewrite Z.even_mul, Z.even_pow by lia. apply orb_true_r.
  - destruct (Z.pos m mod 2 ^ (- e) =? 0)%Z; [|done].
    intros [= <-]. rewrite Habs. intros Hz.
    assert (0 ≤ Z.pos m / 2 ^ (- e) ≤ Z.pos m)%Z; [|lia].
    assert (0 < 2 ^ (- e))%Z by lia. split; [apply Z.div_pos; lia|].
    apply Z.div_le_upper_bound; [lia|nia].
Qed.

Lemma digits2_pos_ge m : (2 ^ (Z.pos (digits2_pos m) - 1) ≤ Z.pos m)%Z.
Proof.
  induction m as [m IH|m IH|]; simpl; [| |done].
  all: rewrite Pos2Z.inj_succ, <-Z.add_1_r, Z.add_simpl_r.
  all: replace (Z.pos (digits2_pos m)) with (Z.succ (Z.pos (digits2_pos m) - 1)) by lia.
  all: rewrite Z.pow_succ_r by lia; lia.
Qed.

Lemma digits2_pos_le p : (Z.pos p < 2 ^ 53)%Z → (Z.pos (digits2_pos p) ≤ 53)%Z.
Proof.
  intros Hp. pose proof (digits2_pos_ge p) as Hd. apply Z.nlt_ge. intros Hlt.
  assert (2 ^ 53 ≤ 2 ^ (Z.pos (digits2_pos p) - 1))%Z by (apply Z.pow_le_mono_r; lia).
  lia.
Qed.

Lemma shiftl_nat_digits m n :
  Z.pos (digits2_pos (Pos.shiftl_nat m n)) = (Z.pos (digits2_pos m) + Z.of_nat n)%Z.
Proof. induction n as [|n IH]; simpl in *; lia. Qed.

Lemma shiftl_nat_Z m n : Z.pos (Pos.shiftl_nat m n) = (Z.pos m * 2 ^ Z.of_nat n)%Z.
Proof.
  induction n as [|n IH]; [simpl; lia|].
  rewrite Nat2Z.inj_succ, Z.pow_succ_r by lia. simpl in *. lia.
Qed.

Lemma SF_to_Z_shift s p k :
  SF_to_Z (S754_finite s (Pos.shiftl_nat p k) (- Z.of_nat k))
  = Some (if s then Z.neg p else Z.pos p).
Proof.
  unfold SF_to_Z. rewrite shiftl_nat_Z. destruct (Z.leb_spec 0 (- Z.of_nat k)).
  - replace (- Z.of_nat k)%Z with 0%Z by lia. replace (Z.of_nat k) with 0%Z by lia.
    rewrite Z.pow_0_r, !Z.mul_1_r. by destruct s.
  - rewrite Z.opp_involutive, Z.mod_mul, Z.div_mul by lia. by destruct s.
Qed.

(** Every integer of magnitude below 2^53 is a number. *)
Lemma float_to_Z_surj z : (Z.abs z < 2 ^ 53)%Z → ∃ x, float_to_Z x = Some z.
Proof.
  intros Hz. destruct z as [|p|p]; [by exists 0%float|..].
  all: pose proof (digits2_pos_le p Hz) as Hd.
  all: set (k := Z.to_nat (53 - Z.pos (digits2_pos p))).
  1: exists (SF2Prim (S754_finite false (Pos.shiftl_nat p k) (- Z.of_nat k))).
  2: exists (SF2Prim (S754_finite true (Pos.shiftl_nat p k) (- Z.of_nat k))).
  all: unfold float_to_Z; rewrite FloatAxioms.Prim2SF_SF2Prim; [apply SF_to_Z_shift|].
  all: unfold valid_binary, SpecFloat.valid_binary, bounded, canonical_mantissa.
  all: rewrite shiftl_nat_digits; unfold fexp, emin, emax, prec.
  all: apply andb_true_iff; split; [apply Z.eqb_eq | apply Z.leb_le]; lia.
Qed.

(** *** Sums are numbers *)

(** [Prim2SF] gives [NaN] for [NaN] only. *)
Lemma Prim2SF_nan x : Prim2SF x = S754_nan ↔ is_nan x = true.
Proof.
  unfold Prim2SF. destruct (is_nan x); [done|]. split; [|done].
  destruct (is_zero x); [done|]. destruct (is_infinity x); [done|].
  destruct (Z.frexp x) as [r ex]. destruct (shr_fexp _ _ _ _ _) as [mrs e'].
  by destruct (shr_m mrs).
Qed.

Lemma iter_pos_invariant {A} (P : A → Prop) (f : A → A) n x :
  (∀ y, P y → P (f y)) → P x → P (SpecFloat.iter_pos f n x).
Proof.
  intros Hf. revert x. induction n as [n IH|n IH|]; intros x Hx; simpl; auto.
Qed.

Lemma shr_1_nonneg mrs : (0 ≤ shr_m mrs)%Z → (0 ≤ shr_m (shr_1 mrs))%Z.
Proof. destruct mrs as [[|[p|p|]|p] r s]; simpl; lia. Qed.

Lemma shr_fexp_nonneg m e l :
  (0 ≤ m)%Z → (0 ≤ shr_m (shr_fexp prec emax m e l).1)%Z.
Proof.
  intros Hm. unfold shr_fexp, shr.
  assert (0 ≤ shr_m (shr_record_of_loc m l))%Z by (by destruct l as [|[]]).
  destruct (_ - e)%Z; simpl; [done| |done].
  by apply (iter_pos_invariant (λ mrs, 0 ≤ shr_m mrs)%Z); [apply shr_1_nonneg|].
Qed.

Lemma round_nearest_even_nonneg m l : (0 ≤ m)%Z → (0 ≤ round_nearest_even m l)%Z.
Proof. intros Hm. destruct l as [|[]]; simpl; [done| |done|lia]. destruct (Z.even m); lia. Qed.

(** Rounding a magnitude gives a zero, a finite number or an infinity. *)
Lemma binary_round_aux_not_nan s m e l :
  (0 ≤ m)%Z → binary_round_aux prec emax s m e l ≠ S754_nan.
Proof.
  intros Hm. unfold binary_round_aux.
  pose proof (shr_fexp_nonneg m e l Hm) as H1.
  destruct (shr_fexp prec emax m e l) as [mrs1 e1]. simpl in H1.
  pose proof (shr_fexp_nonneg _ e1 loc_Exact
                (round_nearest_even_nonneg _ (loc_of_shr_record mrs1) H1)) as H2.
  destruct (shr_fexp prec emax _ e1 loc_Exact) as [mrs2 e2]. simpl in H2.
  destruct (shr_m mrs2); [done| |lia]. by destruct (_ <=? _)%Z.
Qed.

Lemma binary_normalize_not_nan m e b : binary_normalize prec emax m e b ≠ S754_nan.
Proof.
  destruct m as [|p|p]; simpl; [done|..]; unfold binary_round;
    destruct (shl_align _ _ _) as [mz ez]; by apply binary_round_aux_not_nan.
Qed.

(** The sum of a number and a finite number is [NaN] only if the number
    is. *)
Lemma SFadd_finite_not_nan f s m e :
  f ≠ S754_nan → SFadd prec emax f (S754_finite s m e) ≠ S754_nan.
Proof.
  destruct f as [| | |s' m' e']; simpl; try done. intros _.
  apply binary_normalize_not_nan.
Qed.

(** [x + 1] is a number when [x] is: the ids a store numbers from the
    largest one are never [NaN]. *)
Lemma succ_not_nan x : is_nan x = false → is_nan (x + 1) = false.
Proof.
  intros Hx. apply not_true_is_false. intros Hs%Prim2SF_nan.
  rewrite FloatAxioms.add_spec in Hs. revert Hs.
  change (Prim2SF 1) with (S754_finite false 4503599627370496 (-52)).
  apply SFadd_finite_not_nan. rewrite Prim2SF_nan. congruence.
Qed.

(** What is greater than a number is a number. *)
Lemma ltb_not_nan x y : (x <? y)%float = true → is_nan y = false.
Proof.
  rewrite FloatAxioms.ltb_spec. intros Hlt. apply not_true_is_false.
  intros Hy%Prim2SF_nan. rewrite Hy in Hlt. unfold SFltb, SFcompare in Hlt.
  by destruct (Prim2SF x) as [| | |? ? ?]; try destruct s.
Qed.
