(* ===== verification/Counting.v ===== *)
(** * Counting: the integers from 0 to 2^53 among the numbers

    A store that numbers its items gives a new item the largest id plus
    one: a sum and comparisons of numbers.  From 0 to 2^53 they are the
    sum and the order of the integers:

    - [x + 1] is the next integer, but at 2^53, whose successor is 2^53
      again ([float_to_Z_succ]): the sum of [SpecFloat] aligns the
      mantissas, adds them and rounds to 53 bits, and an integer below
      2^53 written with a fractional part of zeros is rounded to itself
      ([binary_round_shiftl]);
    - [x < y] is the order of the integers ([float_to_Z_ltb]): among
      valid numbers the smaller exponent is the smaller magnitude
      ([valid_binary_lt]). *)

From Stdlib Require Import Floats ZArith.
From S2P Require Import Prelude JsValue Number.

(** ** Definitions *)

(** A mantissa with nothing shifted out of it. *)
Definition exact (m : positive) : shr_record :=
  {| shr_m := Z.pos m; shr_r := false; shr_s := false |}.

(** ** Lemmas *)

(** *** Shifts *)

Lemma iter_pos_nat {A} (f : A → A) n x :
  SpecFloat.iter_pos f n x = Nat.iter (Pos.to_nat n) f x.
Proof.
  revert x. induction n as [n IH|n IH|]; intros x; [| |done].
  - rewrite Pos2Nat.inj_xI. simpl. rewrite !IH, Nat.add_0_r, Nat.iter_add.
    by rewrite !Nat.iter_swap.
  - rewrite Pos2Nat.inj_xO. simpl. by rewrite !IH, Nat.add_0_r, Nat.iter_add.
Qed.

Lemma iter_shr_1_shiftl p n j :
  Nat.iter n shr_1 (exact (Pos.shiftl_nat p (n + j))) = exact (Pos.shiftl_nat p j).
Proof.
  revert j. induction n as [|n IH]; intros j; [done|].
  rewrite Nat.iter_succ. replace (S n + j)%nat with (n + S j)%nat by lia.
  by rewrite IH.
Qed.

Lemma shr_shiftl p (n j : nat) e :
  shr (exact (Pos.shiftl_nat p (n + j))) e (Z.of_nat n)
  = (exact (Pos.shiftl_nat p j), (e + Z.of_nat n)%Z).
Proof.
  destruct n as [|n]; [by rewrite Z.add_0_r|].
  change (Z.of_nat (S n)) with (Z.pos (Pos.of_succ_nat n)). unfold shr.
  by rewrite iter_pos_nat, SuccNat2Pos.id_succ, iter_shr_1_shiftl.
Qed.

Lemma shr_fexp_shiftl p (n j : nat) :
  (Z.pos (digits2_pos p) + Z.of_nat j = 53)%Z →
  shr_fexp prec emax (Z.pos (Pos.shiftl_nat p (n + j))) (- Z.of_nat (n + j)) loc_Exact
  = (exact (Pos.shiftl_nat p j), (- Z.of_nat j)%Z).
Proof.
  intros Hd. unfold shr_fexp. simpl Zdigits2. rewrite shiftl_nat_digits.
  replace (fexp _ _ _ - _)%Z with (Z.of_nat n)
    by (unfold fexp, emin, prec, emax; lia).
  change (shr_record_of_loc ?m loc_Exact) with (exact (Z.to_pos m)).
  simpl Z.to_pos. rewrite shr_shiftl. f_equal. lia.
Qed.

(** Rounding an integer of at most 53 bits, written with a fractional part
    of zeros, gives that integer. *)
Lemma binary_round_shiftl s p (n j : nat) :
  (Z.pos (digits2_pos p) + Z.of_nat j = 53)%Z →
  binary_round prec emax s (Pos.shiftl_nat p (n + j)) (- Z.of_nat (n + j))
  = S754_finite s (Pos.shiftl_nat p j) (- Z.of_nat j).
Proof.
  intros Hd. unfold binary_round, shl_align. rewrite shiftl_nat_digits.
  assert (Hsub : (0 ≤ fexp prec emax (Z.pos (digits2_pos p) + Z.of_nat (n + j)
                                 + - Z.of_nat (n + j)) - - Z.of_nat (n + j))%Z)
    by (unfold fexp, emin, prec, emax; lia).
  pose proof (shr_fexp_shiftl p 0 j Hd) as H0. change (0 + j)%nat with j in H0.
  destruct (_ - _)%Z; [| |lia].
  all: unfold binary_round_aux; rewrite shr_fexp_shiftl by done.
  all: simpl round_nearest_even; rewrite H0.
  all: simpl; destruct (Z.leb_spec (- Z.of_nat j) (emax - prec));
         [done | unfold emax, prec in *; lia].
Qed.

Lemma binary_round_Z s p k :
  (Z.pos p < 2 ^ 53)%Z → (52 ≤ k)%Z →
  SF_to_Z (binary_round prec emax s (Z.to_pos (Z.pos p * 2 ^ k)) (- k))
  = Some (if s then Z.neg p else Z.pos p).
Proof.
  intros Hp%digits2_pos_le Hk.
  set (j := Z.to_nat (53 - Z.pos (digits2_pos p))). set (n := (Z.to_nat k - j)%nat).
  assert (Hk' : k = Z.of_nat (n + j)) by lia.
  rewrite Hk', <-shiftl_nat_Z, Pos2Z.id, binary_round_shiftl by lia.
  apply SF_to_Z_shift.
Qed.

(** *** The successor *)

Lemma Pos_iter_xO m d : Z.pos (Pos.iter xO m d) = (Z.pos m * 2 ^ Z.pos d)%Z.
Proof.
  induction d as [|d IH] using Pos.peano_ind; [simpl; lia|].
  rewrite Pos.iter_succ, Pos2Z.inj_succ, Z.pow_succ_r, Pos2Z.inj_xO, IH by lia. lia.
Qed.

Lemma shl_align_Z m e e' :
  (e' ≤ e)%Z → Z.pos (shl_align m e e').1 = (Z.pos m * 2 ^ (e - e'))%Z.
Proof.
  intros He. unfold shl_align. destruct (e' - e)%Z as [|d|d] eqn:Hd; [|lia|]; simpl.
  - replace (e - e')%Z with 0%Z by lia. lia.
  - rewrite Pos_iter_xO. do 2 f_equal. lia.
Qed.

(** The sum of a positive integer and [1] is exact below 2^53. *)
Lemma SFadd_succ m e z :
  SF_to_Z (S754_finite false m e) = Some z → (z + 1 < 2 ^ 53)%Z →
  SF_to_Z (SFadd prec emax (S754_finite false m e)
             (S754_finite false 4503599627370496 (-52))) = Some (z + 1)%Z.
Proof.
  intros Hz Hlt. unfold SFadd. set (ez := Z.min e (-52)).
  destruct (SF_to_Z_scaled false m e z (- ez) Hz) as [Hm Hs]; [lia..|].
  symmetry in Hs. apply Z.ltb_ge in Hs.
  pose proof (shl_align_Z m e ez ltac:(lia)) as Hx.
  pose proof (shl_align_Z 4503599627370496 (-52) ez ltac:(lia)) as Hy.
  destruct (shl_align m e ez) as [mx ex], (shl_align _ (-52) ez) as [my ey].
  simpl in Hx, Hy |- *.
  replace (mx + my)%positive with (Z.to_pos (Z.pos (Z.to_pos (z + 1)) * 2 ^ (- ez))).
  - replace ez with (- - ez)%Z at 2 by lia. rewrite binary_round_Z; [f_equal| |]; lia.
  - apply Pos2Z.inj. rewrite Pos2Z.inj_add, Hx, Hy, !Z2Pos.id by lia.
    replace (e - ez)%Z with (e + - ez)%Z by lia. rewrite Hm, Z.abs_eq by done.
    change (Z.pos 4503599627370496) with (2 ^ 52)%Z.
    rewrite <-Z.pow_add_r by lia. replace (52 + (-52 - ez))%Z with (- ez)%Z; lia.
Qed.

(** Numbers that are the same integer, other than zero, are the same
    value. *)
Lemma float_to_Z_Prim2SF x y z :
  z ≠ 0%Z → float_to_Z x = Some z → float_to_Z y = Some z → Prim2SF x = Prim2SF y.
Proof.
  intros Hz Hx Hy. pose proof (float_to_Z_eqb x y z Hx Hy) as Heq.
  rewrite FloatAxioms.eqb_spec, SFeqb_true_iff in Heq.
  destruct Heq as [[Hzero _]|[Heq _]]; [|done]. unfold float_to_Z in Hx.
  destruct (Prim2SF x); try done. by injection Hx as <-.
Qed.

(** The successor of an integer from 0 to 2^53 is exact, but for 2^53
    whose successor is 2^53 again. *)
Lemma float_to_Z_succ x z :
  float_to_Z x = Some z → (0 ≤ z ≤ 2 ^ 53)%Z →
  float_to_Z (x + 1) = Some (Z.min (z + 1) (2 ^ 53)).
Proof.
  intros Hz Hr. unfold float_to_Z in *. rewrite FloatAxioms.add_spec.
  change (Prim2SF 1) with (S754_finite false 4503599627370496 (-52)).
  destruct (Z.lt_ge_cases (z + 1) (2 ^ 53)) as [Hlt|Hge].
  - rewrite Z.min_l by lia. destruct (Prim2SF x) as [s|s| |[] m e] eqn:Hx; try done.
    + by injection Hz as <-.
    + destruct (SF_to_Z_scaled _ _ _ _ (Z.abs e) Hz) as [_ Hs]; lia.
    + by apply SFadd_succ.
  - rewrite Z.min_r by lia. assert (z = 2 ^ 53 - 1 ∨ z = 2 ^ 53)%Z as [->| ->] by lia.
    + by rewrite (float_to_Z_Prim2SF x 9007199254740991 (2 ^ 53 - 1)).
    + by rewrite (float_to_Z_Prim2SF x 9007199254740992 (2 ^ 53)).
Qed.

(** *** Order *)

(** Among valid numbers of a sign, the smaller exponent is the smaller
    magnitude. *)
Lemma valid_binary_lt s m e m' e' k :
  valid_binary (S754_finite s m e) = true →
  valid_binary (S754_finite s m' e') = true →
  (e < e')%Z → (0 ≤ e + k)%Z →
  (Z.pos m * 2 ^ (e + k) < Z.pos m' * 2 ^ (e' + k))%Z.
Proof.
  unfold valid_binary, SpecFloat.valid_binary, bounded, canonical_mantissa.
  intros [He%Z.eqb_eq _]%andb_true_iff [He'%Z.eqb_eq _]%andb_true_iff Hlt Hk.
  pose proof (digits2_pos_lt m) as Hm. pose proof (digits2_pos_ge m') as Hm'.
  set (d := Z.pos (digits2_pos m)) in *. set (d' := Z.pos (digits2_pos m')) in *.
  assert (Hd : (d + (e + k) ≤ d' - 1 + (e' + k))%Z)
    by (unfold fexp, emin, prec, emax in He, He'; lia).
  apply (Z.pow_le_mono_r 2) in Hd; [|lia].
  rewrite (Z.pow_add_r 2 d), (Z.pow_add_r 2 (d' - 1)) in Hd by lia.
  assert (0 < 2 ^ (e + k))%Z by lia. assert (0 < 2 ^ (e' + k))%Z by lia. nia.
Qed.

(** The order of the numbers is the order of the integers, from 0 on. *)
Lemma SFltb_Z f f' a b :
  valid_binary f = true → valid_binary f' = true →
  SF_to_Z f = Some a → SF_to_Z f' = Some b → (0 ≤ a)%Z → (0 ≤ b)%Z →
  SFltb f f' = (a <? b)%Z.
Proof.
  intros Hv Hv' Ha Hb Ha0 Hb0. unfold SFltb, SFcompare.
  destruct f as [s|s| |s m e], f' as [s'|s'| |s' m' e']; try done.
  - injection Ha as <-. by injection Hb as <-.
  - injection Ha as <-.
    destruct (SF_to_Z_scaled _ _ _ _ (Z.abs e') Hb) as [Hm ->]; [lia..|].
    assert (0 < 2 ^ (e' + Z.abs e'))%Z by lia.
    rewrite (proj2 (Z.ltb_ge _ _) Hb0). symmetry. apply Z.ltb_lt. nia.
  - injection Hb as <-.
    destruct (SF_to_Z_scaled _ _ _ _ (Z.abs e) Ha) as [Hm ->]; [lia..|].
    by rewrite (proj2 (Z.ltb_ge _ _) Ha0).
  - set (k := (Z.abs e + Z.abs e')%Z).
    destruct (SF_to_Z_scaled _ _ _ _ k Ha) as [Hm ->]; [lia..|].
    destruct (SF_to_Z_scaled _ _ _ _ k Hb) as [Hm' ->]; [lia..|].
    rewrite !(proj2 (Z.ltb_ge _ _)) in * by done. rewrite Z.abs_eq in Hm, Hm' by done.
    assert (0 < 2 ^ k)%Z by lia. symmetry.
    destruct (Z.compare_spec e e') as [->|Hlt|Hgt].
    + change (PosDef.Pos.compare_cont Eq m m') with (Pos.compare m m').
      assert (0 < 2 ^ (e' + k))%Z by lia.
      destruct (Pos.compare_spec m m') as [->|Hmm|Hmm];
        [apply Z.ltb_ge|apply Z.ltb_lt|apply Z.ltb_ge]; nia.
    + apply Z.ltb_lt. pose proof (valid_binary_lt false m e m' e' k Hv Hv' Hlt). nia.
    + apply Z.ltb_ge. pose proof (valid_binary_lt false m' e' m e k Hv' Hv Hgt). nia.
Qed.

Lemma float_to_Z_ltb x y a b :
  float_to_Z x = Some a → float_to_Z y = Some b → (0 ≤ a)%Z → (0 ≤ b)%Z →
  (x <? y)%float = (a <? b)%Z.
Proof.
  rewrite FloatAxioms.ltb_spec. apply SFltb_Z; apply FloatAxioms.Prim2SF_valid.
Qed.
