(* ===== verification/Task.v ===== *)
(** * Task: the control flow of handlers

    A handler of the component is a JavaScript function, possibly [async]:
    it performs synchronous effects (calls of [useState] setters,
    [console.log]), suspends at each [await] until the awaited promise
    settles, may throw, and may catch what is thrown inside a [try] block.
    A [task] is the tree of these steps: the finite interaction tree of
    the function's body.  The types of thrown values [E], of awaitable
    calls [C] (indexed by the type of what they resolve to) and of
    synchronous effects [U] are parameters; [Dashboard] instantiates them.

    The trees are finite (the handlers have no loop), so [task] is an
    inductive type and every function on it is structurally recursive.

    Two tasks that differ only in how their continuations are written are
    not equal without functional extensionality; [task_equiv] is the
    equivalence that identifies them, with the monad laws and the
    [Proper] instances that let it be rewritten with. *)

From stdpp Require Import list.
From S2P Require Import Prelude.

(** ** Definitions *)

(** How an awaited promise settles. *)
Inductive outcome (E R : Type) : Type :=
| Fulfilled (r : R)
| Rejected (e : E).
Arguments Fulfilled {E R} r.
Arguments Rejected {E R} e.

Inductive task (E : Type) (C : Type → Type) (U A : Type) : Type :=
| Ret (a : A)                      (* return normally *)
| Throw (e : E)                    (* throw [e] *)
| Do (u : U) (k : task E C U A)    (* a synchronous effect, then [k] *)
| Await {R : Type} (c : C R) (k : outcome E R → task E C U A).
                                   (* suspend on [c], resume with [k] *)
Arguments Ret {E C U A} a.
Arguments Throw {E C U A} e.
Arguments Do {E C U A} u k.
Arguments Await {E C U A R} c k.

(** Sequencing: [t] then [f] on its result. *)
Fixpoint task_bind {E C U A B} (f : A → task E C U B) (t : task E C U A)
  : task E C U B :=
  match t with
  | Ret a => f a
  | Throw e => Throw e
  | Do u k => Do u (task_bind f k)
  | Await c k => Await c (λ o, task_bind f (k o))
  end.

#[export] Instance task_ret {E C U} : MRet (task E C U) := λ A, Ret.
#[export] Instance task_mbind {E C U} : MBind (task E C U) := λ A B, task_bind.

(** [try { t } catch (err) { h err }]: what [t] throws, at any point of
    its execution, is handed to [h]; what [h] throws is not caught. *)
Fixpoint try_catch {E C U A} (t : task E C U A) (h : E → task E C U A)
  : task E C U A :=
  match t with
  | Ret a => Ret a
  | Throw e => h e
  | Do u k => Do u (try_catch k h)
  | Await c k => Await c (λ o, try_catch (k o) h)
  end.

(** [await c]: the value the promise is fulfilled with, or a throw of the
    reason it is rejected with. *)
Definition await {E C U R} (c : C R) : task E C U R :=
  Await c (λ o, match o with Fulfilled r => Ret r | Rejected e => Throw e end).

(** One synchronous effect. *)
Definition perform {E C U} (u : U) : task E C U unit := Do u (Ret tt).

(** A pure computation that may throw, run inside a task. *)
Definition lift {E C U A} (r : result E A) : task E C U A :=
  match r with Ok a => Ret a | Err e => Throw e end.

(** [suspends n t]: no execution of [t] suspends more than [n] times. *)
Inductive suspends {E C U A} : nat → task E C U A → Prop :=
| suspends_Ret n a : suspends n (Ret a)
| suspends_Throw n e : suspends n (Throw e)
| suspends_Do n u k : suspends n k → suspends n (Do u k)
| suspends_Await n R (c : C R) k :
    (∀ o, suspends n (k o)) → suspends (S n) (Await c k).

(** [performs Q t]: every synchronous effect of [t], on every execution,
    satisfies [Q]. *)
Inductive performs {E C U A} (Q : U → Prop) : task E C U A → Prop :=
| performs_Ret a : performs Q (Ret a)
| performs_Throw e : performs Q (Throw e)
| performs_Do u k : Q u → performs Q k → performs Q (Do u k)
| performs_Await R (c : C R) k :
    (∀ o, performs Q (k o)) → performs Q (Await c k).

(** [resumes P t]: if [t] suspends, the continuation it parks satisfies
    [P] however the call settles. *)
Inductive resumes {E C U A} (P : task E C U A → Prop) : task E C U A → Prop :=
| resumes_Ret a : resumes P (Ret a)
| resumes_Throw e : resumes P (Throw e)
| resumes_Do u k : resumes P k → resumes P (Do u k)
| resumes_Await R (c : C R) k : (∀ o, P (k o)) → resumes P (Await c k).

(** Equality of tasks up to the extension of their continuations. *)
Inductive task_equiv {E C U A} : relation (task E C U A) :=
| equiv_Ret a : task_equiv (Ret a) (Ret a)
| equiv_Throw e : task_equiv (Throw e) (Throw e)
| equiv_Do u k k' : task_equiv k k' → task_equiv (Do u k) (Do u k')
| equiv_Await R (c : C R) k k' :
    (∀ o, task_equiv (k o) (k' o)) → task_equiv (Await c k) (Await c k').

#[export] Instance task_equiv_Equiv {E C U A} : Equiv (task E C U A) := task_equiv.

(** ** Lemmas *)

Section task_lemmas.
Context {E : Type} {C : Type → Type} {U : Type}.
#[local] Abbreviation task := (task E C U).
Implicit Types (e : E) (u : U).

#[export] Instance task_equiv_refl {A} : Reflexive (≡@{task A}).
Proof. intros t. induction t; constructor; auto. Qed.

#[export] Instance task_equiv_sym {A} : Symmetric (≡@{task A}).
Proof. intros t t' H. induction H; constructor; auto. Qed.

(** Inversion of [≡] by the shape of its left side, without axioms. *)
Lemma task_equiv_inv {A} (t t' : task A) :
  t ≡ t' →
  match t with
  | Ret a => t' = Ret a
  | Throw e => t' = Throw e
  | Do u k => ∃ k', t' = Do u k' ∧ k ≡ k'
  | Await c k => ∃ k', t' = Await c k' ∧ ∀ o, k o ≡ k' o
  end.
Proof. destruct 1; eauto. Qed.

#[export] Instance task_equiv_trans {A} : Transitive (≡@{task A}).
Proof.
  intros t1 t2 t3 H. revert t3.
  induction H as [a|e|u k k' _ IH|R c k k' _ IH]; intros t3 H'.
  - done.
  - done.
  - apply task_equiv_inv in H' as (k3 & -> & Hk). constructor. by apply IH.
  - apply task_equiv_inv in H' as (k3 & -> & Hk).
    constructor. intros o. by apply IH.
Qed.

#[export] Instance task_equiv_equivalence {A} : Equivalence (≡@{task A}).
Proof. split; apply _. Qed.

(** The monad laws. *)
Lemma bind_ret_l {A B} (a : A) (f : A → task B) : mret a ≫= f = f a.
Proof. done. Qed.

Lemma bind_ret_r {A} (t : task A) : t ≫= mret ≡ t.
Proof. induction t; constructor; auto. Qed.

Lemma bind_assoc {A B D} (t : task A) (f : A → task B) (g : B → task D) :
  (t ≫= f) ≫= g ≡ t ≫= (λ a, f a ≫= g).
Proof. induction t; simpl; try constructor; auto. Qed.

#[export] Instance task_bind_proper {A B} :
  Proper (pointwise_relation A (≡) ==> (≡) ==> (≡)) (@task_bind E C U A B).
Proof.
  intros f f' Hf t t' Ht. induction Ht; simpl; try constructor; auto.
Qed.

#[export] Instance try_catch_proper {A} :
  Proper ((≡) ==> pointwise_relation E (≡) ==> (≡)) (@try_catch E C U A).
Proof.
  intros t t' Ht h h' Hh. induction Ht; simpl; try constructor; auto.
Qed.

(** [try]/[catch]. *)
Lemma try_catch_bind_await {A R} (c : C R) (f : R → task A) h :
  try_catch (await c ≫= f) h
  ≡ Await c (λ o, match o with
                  | Fulfilled r => try_catch (f r) h
                  | Rejected e => h e
                  end).
Proof. constructor. intros []; reflexivity. Qed.

Lemma try_catch_rethrow {A} (t : task A) : try_catch t Throw ≡ t.
Proof. induction t; constructor; auto. Qed.

Lemma try_catch_lift_Ok {A B} (r : result E A) a (f : A → task B) h :
  r = Ok a → try_catch (lift r ≫= f) h = try_catch (f a) h.
Proof. by intros ->. Qed.

Lemma try_catch_lift_Err {A B} (r : result E A) e (f : A → task B) h :
  r = Err e → try_catch (lift r ≫= f) h = h e.
Proof. by intros ->. Qed.

(** Bounds on suspensions compose. *)
Lemma suspends_mono {A} n m (t : task A) : n ≤ m → suspends n t → suspends m t.
Proof.
  intros Hle H. revert m Hle. induction H; intros m Hle; try by constructor.
  - constructor. auto.
  - destruct m as [|m]; [lia|]. constructor. intros o. apply H0. lia.
Qed.

Lemma suspends_bind {A B} n m (t : task A) (f : A → task B) :
  suspends n t → (∀ a, suspends m (f a)) → suspends (n + m) (t ≫= f).
Proof.
  intros Ht Hf. induction Ht; simpl.
  - eapply suspends_mono; [|apply Hf]. lia.
  - constructor.
  - constructor. auto.
  - constructor. auto.
Qed.

Lemma suspends_try_catch {A} n m (t : task A) h :
  suspends n t → (∀ e, suspends m (h e)) → suspends (n + m) (try_catch t h).
Proof.
  intros Ht Hh. induction Ht; simpl.
  - constructor.
  - eapply suspends_mono; [|apply Hh]. lia.
  - constructor. auto.
  - constructor. auto.
Qed.

Lemma suspends_await {R} (c : C R) : suspends 1 (await c : task R).
Proof. constructor. intros []; constructor. Qed.

Lemma suspends_perform n u : suspends n (perform u : task unit).
Proof. repeat constructor. Qed.

Lemma suspends_lift {A} n (r : result E A) : suspends n (lift r : task A).
Proof. destruct r; constructor. Qed.

(** A task that does not suspend parks nothing. *)
Lemma suspends_0_resumes {A} (P : task A → Prop) (t : task A) :
  suspends 0 t → resumes P t.
Proof.
  remember 0 as n eqn:Hn. induction 1; subst; try by constructor.
  - constructor. auto.
Qed.

Lemma resumes_mono {A} (P Q : task A → Prop) (t : task A) :
  (∀ t, P t → Q t) → resumes P t → resumes Q t.
Proof. intros HPQ. induction 1; constructor; auto. Qed.

Lemma performs_mono {A} (P Q : U → Prop) (t : task A) :
  (∀ u, P u → Q u) → performs P t → performs Q t.
Proof. intros HPQ. induction 1; constructor; auto. Qed.

End task_lemmas.

#[export] Hint Resolve suspends_await suspends_perform suspends_lift : js.
#[export] Hint Constructors suspends performs resumes : js.
