(* ===== verification/EventLoop.v ===== *)
(** * EventLoop: handlers interleaved with the responses they wait for

    JavaScript runs one task at a time.  A handler runs until it returns,
    throws or reaches an [await]; at an [await] its continuation is parked
    with the call it waits for, and runs later, when the call settles.
    Between the two, other handlers and other continuations may run.

    A [config] is the state of that machine: the [world] the synchronous
    effects act on, the calls [inflight] with their continuations, and what
    was thrown and [uncaught].  The machine is generic in the effects, the
    calls and the events; [Dashboard] instantiates it.

    [run] executes a task up to its first suspension; [step] is the
    labelled transition relation of the machine ([Fire]: an event starts
    its handler; [Settle]: a call in flight settles and its continuation
    runs); [exec] is the same machine as a function, for running scripted
    scenarios; [finish] runs a task alone, each call answered at once.

    A call that is never answered stays where it was parked ([hang]).
    The machine does around it what it does without it ([execs_hang]):
    the moves are the same, the calls parked after it one place further
    ([pasts]). *)

From stdpp Require Import list.
From S2P Require Import Prelude Task.

(** ** Definitions *)

Section loop.
Context {E : Type} {C : Type → Type} {U W Ev : Type}.
(** What a synchronous effect does to the world. *)
Context (act : U → W → W).
(** The handler an event runs: a closure over the world at the time the
    handler was created, that is, at the time of the event. *)
Context (handler : W → Ev → task E C U unit).
(** Whether events can occur at all in a world. *)
Context (alive : W → bool).

(** A call in flight and the continuation that waits for it. *)
Record pending := Pending {
  p_type : Type;
  p_call : C p_type;
  p_resume : outcome E p_type → task E C U unit;
}.

Record config := Config {
  world : W;
  inflight : list pending;
  uncaught : list E;
}.

Definition set_world (f : W → W) (c : config) : config :=
  Config (f (world c)) (inflight c) (uncaught c).

Definition set_inflight (f : list pending → list pending) (c : config) : config :=
  Config (world c) (f (inflight c)) (uncaught c).

(** An exception nothing catches: the promise of the handler is rejected
    (or, in a synchronous handler, the exception reaches the caller). *)
Definition escape (e : E) (c : config) : config :=
  Config (world c) (inflight c) (uncaught c ++ [e]).

(** Run a task until it returns, throws or suspends. *)
Fixpoint run (t : task E C U unit) (c : config) : config :=
  match t with
  | Ret _ => c
  | Throw e => escape e c
  | Do u k => run k (set_world (act u) c)
  | Await call k => set_inflight (λ l, l ++ [Pending _ call k]) c
  end.

(** Run a task alone: every call it makes is answered at once by [ans]. *)
Fixpoint finish (ans : ∀ R, C R → outcome E R) (t : task E C U unit)
    (c : config) : config :=
  match t with
  | Ret _ => c
  | Throw e => escape e c
  | Do u k => finish ans k (set_world (act u) c)
  | Await call k => finish ans (k (ans _ call)) c
  end.

(** Run a task alone against a store: every call it makes is served at
    once, by [serve], which also changes the state of the store. *)
Fixpoint finish_with {S} (serve : ∀ R, C R → S → outcome E R * S)
    (t : task E C U unit) (c : config) (st : S) : config * S :=
  match t with
  | Ret _ => (c, st)
  | Throw e => (escape e c, st)
  | Do u k => finish_with serve k (set_world (act u) c) st
  | Await call k =>
      let '(o, st') := serve _ call st in finish_with serve (k o) c st'
  end.

(** The transitions of the machine. *)
Inductive label :=
| Fire (ev : Ev)
| Settle (i : nat) {R : Type} (o : outcome E R).

Inductive step : config → label → config → Prop :=
| step_Fire c ev :
    alive (world c) = true →
    step c (Fire ev) (run (handler (world c) ev) c)
| step_Settle c i R (call : C R) k o :
    inflight c !! i = Some (Pending R call k) →
    step c (Settle i o) (run (k o) (set_inflight (delete i) c)).

Inductive steps : config → list label → config → Prop :=
| steps_nil c : steps c [] c
| steps_cons c l c' ls c'' : step c l c' → steps c' ls c'' → steps c (l :: ls) c''.

(** The machine as a function.  A move either fires an event or settles
    the [i]-th call in flight with the answer [ans] gives to it. *)
Inductive move :=
| Click (ev : Ev)
| Answer (i : nat) (ans : ∀ R, C R → outcome E R).

Definition exec (m : move) (c : config) : option config :=
  match m with
  | Click ev =>
      if alive (world c) then Some (run (handler (world c) ev) c) else None
  | Answer i ans =>
      match inflight c !! i with
      | Some (Pending R call k) =>
          Some (run (k (ans R call)) (set_inflight (delete i) c))
      | None => None
      end
  end.

Fixpoint execs (ms : list move) (c : config) : option config :=
  match ms with
  | [] => Some c
  | m :: ms => c' ← exec m c; execs ms c'
  end.

(** The invariant scheme for what is in flight.  [parked P c]: every
    continuation in flight satisfies [P], however its call settles. *)
Definition parked (P : task E C U unit → Prop) (c : config) : Prop :=
  Forall (λ p, ∀ o, P (p_resume p o)) (inflight c).

(** [x] put at position [n] of a list. *)
Definition place {A} (n : nat) (x : A) (l : list A) : list A :=
  take n l ++ x :: drop n l.

(** A call that never settles, at position [n] of what is in flight. *)
Definition hang (n : nat) (p : pending) (c : config) : config :=
  set_inflight (place n p) c.

(** A move when a call hangs at position [n]: the calls parked after it
    are one place further. *)
Definition past (n : nat) (m : move) : move :=
  match m with
  | Click ev => Click ev
  | Answer i ans => Answer (if i <? n then i else S i) ans
  end.

(** The position of the hanging call after a move: one place nearer when
    a call parked before it has settled. *)
Definition sinks (n : nat) (m : move) : nat :=
  match m with
  | Click _ => n
  | Answer i _ => if i <? n then pred n else n
  end.

Fixpoint pasts (n : nat) (ms : list move) : list move :=
  match ms with
  | [] => []
  | m :: ms => past n m :: pasts (sinks n m) ms
  end.

Fixpoint sunk (n : nat) (ms : list move) : nat :=
  match ms with
  | [] => n
  | m :: ms => sunk (sinks n m) ms
  end.

(** ** Lemmas *)

Lemma steps_app c ls c' ls' c'' :
  steps c ls c' → steps c' ls' c'' → steps c (ls ++ ls') c''.
Proof. induction 1; simpl; [done|]. intros. econstructor; eauto. Qed.

Lemma steps_one c l c' : step c l c' → steps c [l] c'.
Proof. intros. econstructor; [done | constructor]. Qed.

(** Invariants of the machine: a property of configurations that every
    transition preserves holds along every execution. *)
Lemma steps_invariant (P : config → Prop) c ls c' :
  (∀ c l c', P c → step c l c' → P c') → P c → steps c ls c' → P c'.
Proof. intros Hstep Hc Hs. induction Hs; eauto. Qed.

(** The function follows the relation. *)
Lemma exec_step m c c' : exec m c = Some c' → ∃ l, step c l c'.
Proof.
  destruct m as [ev|i ans]; simpl.
  - destruct (alive (world c)) eqn:?; [|done].
    intros [= <-]. exists (Fire ev). by constructor.
  - destruct (inflight c !! i) as [[R call k]|] eqn:Hi; [|done].
    intros [= <-]. exists (Settle i (ans R call)). by econstructor.
Qed.

Lemma execs_steps ms c c' : execs ms c = Some c' → ∃ ls, steps c ls c'.
Proof.
  revert c. induction ms as [|m ms IH]; intros c; simpl.
  - intros [= <-]. exists []. constructor.
  - destruct (exec m c) as [c1|] eqn:Hm; [|done]. simpl. intros Hms.
    destruct (exec_step _ _ _ Hm) as [l Hl], (IH _ Hms) as [ls Hls].
    exists (l :: ls). econstructor; eauto.
Qed.

(** What [run] leaves alone. *)
Lemma run_inflight_prefix t c : inflight c `prefix_of` inflight (run t c).
Proof.
  revert c. induction t as [| |u k IH|R call k _]; intros c; simpl; try done.
  - apply (IH (set_world (act u) c)).
  - by apply prefix_app_r.
Qed.

Lemma run_inflight_length t c :
  length (inflight (run t c)) ≤ S (length (inflight c)).
Proof.
  revert c. induction t as [| |u k IH|R call k _]; intros c; simpl; try lia.
  - apply (IH (set_world (act u) c)).
  - rewrite length_app. simpl. lia.
Qed.

(** A task that cannot suspend leaves nothing in flight. *)
Lemma run_suspends_0 t c : suspends 0 t → inflight (run t c) = inflight c.
Proof.
  intros H. revert c. remember 0 as n eqn:Hn.
  induction H as [| |n u k _ IH|n R call k _ _]; intros c; simpl; try done.
  by rewrite IH.
Qed.

Lemma finish_suspends_0 ans t c : suspends 0 t → finish ans t c = run t c.
Proof.
  intros H. revert c. remember 0 as n eqn:Hn.
  induction H as [| |n u k _ IH|n R call k _ _]; intros c; simpl; try done.
  by rewrite IH.
Qed.

(** [finish] changes neither what is in flight nor what ran before. *)
Lemma finish_inflight ans t c : inflight (finish ans t c) = inflight c.
Proof.
  revert c. induction t as [| |u k IH|R call k IH]; intros c; simpl; try done.
  by rewrite IH.
Qed.

(** A task run alone is an execution of the machine: after [run] has
    parked the task at its first call, settling that call, then the next
    one, and so on, with the answers of the store, leads to what
    [finish_with] computes. *)
Lemma set_inflight_park_delete c p :
  set_inflight (delete (length (inflight c)))
    (set_inflight (λ l, l ++ [p]) c) = c.
Proof.
  destruct c as [w l u]. unfold set_inflight. simpl. f_equal.
  induction l as [|q l IH]; simpl; [done|]. by rewrite IH.
Qed.

Lemma finish_with_steps {S} (serve : ∀ R, C R → S → outcome E R * S) t c st :
  ∃ ls, steps (run t c) ls (finish_with serve t c st).1.
Proof.
  revert c st. induction t as [a|e|u k IH|R call k IH]; intros c st; simpl.
  - exists []. constructor.
  - exists []. constructor.
  - apply IH.
  - destruct (serve R call st) as [o st'] eqn:Hserve.
    destruct (IH o c st') as [ls Hls].
    exists (Settle (length (inflight c)) o :: ls).
    econstructor; [|done].
    pose proof (step_Settle (set_inflight (λ l, l ++ [Pending R call k]) c)
                  (length (inflight c)) R call k o) as Hstep.
    rewrite set_inflight_park_delete in Hstep. apply Hstep.
    simpl. by rewrite lookup_app_r, Nat.sub_diag.
Qed.

(** *** Invariants on what is in flight *)

Lemma parked_run P t c : resumes P t → parked P c → parked P (run t c).
Proof.
  intros Ht. revert c. induction Ht as [| |u k _ IH|R call k Hk]; intros c Hc;
    simpl; try done.
  - by apply IH.
  - apply Forall_app. split; [done|]. by repeat constructor.
Qed.

Lemma parked_delete P i c : parked P c → parked P (set_inflight (delete i) c).
Proof. unfold parked. simpl. apply Forall_delete. Qed.

Lemma parked_lookup P i R call k c :
  parked P c → inflight c !! i = Some (Pending R call k) → ∀ o, P (k o).
Proof.
  unfold parked. rewrite Forall_lookup. intros Hc Hi. apply (Hc _ _ Hi).
Qed.

(** If the handlers park only continuations that satisfy [P], and these
    park nothing that does not, [parked P] is an invariant. *)
Lemma parked_step P c l c' :
  (∀ w ev, resumes P (handler w ev)) → (∀ t, P t → resumes P t) →
  parked P c → step c l c' → parked P c'.
Proof.
  intros Hh HP Hc Hstep. destruct Hstep as [c ev _|c i R call k o Hi].
  - by apply parked_run.
  - apply parked_run; [|by apply parked_delete].
    apply HP. by eapply parked_lookup.
Qed.

Lemma execs_app ms ms' c : execs (ms ++ ms') c = execs ms c ≫= execs ms'.
Proof.
  revert c. induction ms as [|m ms IH]; intros c; simpl; [done|].
  destruct (exec m c); simpl; auto.
Qed.

(** Inversion of a step by its label. *)
Lemma step_inv c l c' :
  step c l c' →
  match l with
  | Fire ev => alive (world c) = true ∧ c' = run (handler (world c) ev) c
  | @Settle i R o =>
      ∃ call k, inflight c !! i = Some (Pending R call k)
                ∧ c' = run (k o) (set_inflight (delete i) c)
  end.
Proof. destruct 1; eauto. Qed.

(** When no continuation in flight can suspend again, settling one call
    leaves one call fewer in flight. *)
Lemma settle_length c i R (o : outcome E R) c' :
  parked (suspends 0) c → step c (Settle i o) c' →
  S (length (inflight c')) = length (inflight c).
Proof.
  intros Hc Hstep. inversion Hstep as [|? ? R' call k o' Hi]; subst.
  rewrite run_suspends_0 by (by eapply parked_lookup).
  simpl. rewrite length_delete by eauto. apply lookup_lt_Some in Hi. lia.
Qed.

(** What [run] does to the world when every effect of the task preserves
    an observation [f] of it. *)
Lemma run_world_preserved {X} (f : W → X) (Q : U → Prop) t c :
  (∀ u w, Q u → f (act u w) = f w) → performs Q t →
  f (world (run t c)) = f (world c).
Proof.
  intros HQ Ht. revert c. induction Ht as [| |u k Hu _ IH|R call k _ _]; intros c;
    simpl; try done.
  rewrite IH. simpl. by apply HQ.
Qed.

(** *** A task run alone, through [run] *)

(** *** A call that hangs *)

Lemma place_app {A} n (x : A) l k : n ≤ length l → place n x (l ++ k) = place n x l ++ k.
Proof.
  intros Hn. unfold place. rewrite take_app_le, drop_app_le by done.
  by rewrite <- app_assoc.
Qed.

Lemma place_lookup_lt {A} n (x : A) l i : i < n → n ≤ length l → place n x l !! i = l !! i.
Proof.
  intros Hi Hn. unfold place.
  rewrite lookup_app_l by (rewrite length_take; lia). by apply lookup_take_lt.
Qed.

Lemma place_lookup_ge {A} n (x : A) l i : n ≤ i → place n x l !! S i = l !! i.
Proof.
  revert n i. induction l as [|a l IH]; intros [|n] [|i] Hn; try done; try lia.
  apply (IH n i). lia.
Qed.

Lemma place_delete_lt {A} n (x : A) l i :
  i < n → n ≤ length l → delete i (place n x l) = place (pred n) x (delete i l).
Proof.
  revert n i. induction l as [|a l IH]; intros [|n] [|i] Hi Hn; simpl in *; try lia.
  - done.
  - destruct n as [|n]; [lia|]. unfold place in *. simpl. f_equal.
    apply (IH (S n) i); lia.
Qed.

Lemma place_delete_ge {A} n (x : A) l i : n ≤ i → delete (S i) (place n x l) = place n x (delete i l).
Proof.
  revert n i. induction l as [|a l IH]; intros [|n] [|i] Hn; try done; try lia.
  unfold place in *. simpl. f_equal. apply (IH n i). lia.
Qed.

Lemma place_length {A} (x : A) l : place (length l) x l = l ++ [x].
Proof. unfold place. by rewrite take_ge, drop_ge by done. Qed.

Lemma run_hang t n p c :
  n ≤ length (inflight c) → run t (hang n p c) = hang n p (run t c).
Proof.
  revert c. induction t as [a|e|u k IH|R call k _]; intros c Hn; simpl; try done.
  - by apply (IH (set_world (act u) c)).
  - unfold hang, set_inflight. simpl. by rewrite place_app.
Qed.

(** A move does the same around a hanging call. *)
Lemma exec_hang m n p c :
  n ≤ length (inflight c) →
  exec (past n m) (hang n p c)
  = hang (sinks n m) p <$> exec m c.
Proof.
  intros Hn. destruct m as [ev|i ans]; simpl.
  - destruct (alive (world c)); [|done]. simpl. by rewrite run_hang.
  - destruct (Nat.ltb_spec i n) as [Hi|Hi].
    + rewrite place_lookup_lt by done.
      destruct (inflight c !! i) as [[R call k]|] eqn:Hl; [|done]. simpl.
      rewrite <- run_hang.
      * unfold hang, set_inflight. simpl. by rewrite place_delete_lt.
      * simpl. rewrite length_delete by done. lia.
    + rewrite place_lookup_ge by done.
      destruct (inflight c !! i) as [[R call k]|] eqn:Hl; [|done]. simpl.
      rewrite <- run_hang.
      * unfold hang, set_inflight. simpl. by rewrite place_delete_ge.
      * simpl. rewrite length_delete by done.
        apply lookup_lt_Some in Hl. lia.
Qed.

Lemma exec_sinks m n c c' :
  n ≤ length (inflight c) → exec m c = Some c' →
  sinks n m ≤ length (inflight c').
Proof.
  intros Hn. destruct m as [ev|i ans]; simpl.
  - destruct (alive (world c)); [|done]. intros [= <-].
    pose proof (prefix_length _ _ (run_inflight_prefix (handler (world c) ev) c)). lia.
  - destruct (inflight c !! i) as [[R call k]|] eqn:Hl; [|done]. intros [= <-].
    pose proof (prefix_length _ _ (run_inflight_prefix (k (ans R call))
                                  (set_inflight (delete i) c))) as Hr.
    simpl in Hr. rewrite length_delete in Hr by done.
    apply lookup_lt_Some in Hl. destruct (i <? n) eqn:Hi; [lia|].
    apply Nat.ltb_ge in Hi. lia.
Qed.

(** So does a sequence of moves: what happens to the world and to the
    other calls does not depend on the call that hangs. *)
Lemma execs_hang ms n p c :
  n ≤ length (inflight c) →
  execs (pasts n ms) (hang n p c)
  = hang (sunk n ms) p <$> execs ms c.
Proof.
  revert n c. induction ms as [|m ms IH]; intros n c Hn; simpl; [done|].
  rewrite exec_hang by done.
  destruct (exec m c) as [c'|] eqn:Hc'; simpl; [|done].
  apply IH. by eapply exec_sinks.
Qed.

Section finish_with_run.
Context {S : Type} (serve : ∀ R, C R → S → outcome E R * S).

Lemma finish_with_suspends_0 t c st :
  suspends 0 t → finish_with serve t c st = (run t c, st).
Proof.
  intros Ht. revert c. remember 0 as n eqn:Hn.
  induction Ht as [| |n u k _ IH|n R call k _ _]; intros c; simpl; try done.
  by rewrite IH.
Qed.

(** A task that suspends once at most, run alone, is [run] followed by
    the settling of what it parked with the answer of the store. *)
Lemma finish_with_first t c st :
  resumes (suspends 0) t →
  finish_with serve t c st
  = match drop (length (inflight c)) (inflight (run t c)) with
    | Pending R call k :: _ =>
        let '(o, st') := serve R call st in
        (run (k o) (set_inflight (delete (length (inflight c))) (run t c)), st')
    | [] => (run t c, st)
    end.
Proof.
  intros Ht. revert c. induction Ht as [| |u k _ IH|R call k Hk]; intros c; simpl.
  - by rewrite drop_all.
  - by rewrite drop_all.
  - apply (IH (set_world (act u) c)).
  - rewrite drop_app_length. destruct (serve R call st) as [o st'].
    rewrite finish_with_suspends_0 by done.
    by rewrite (set_inflight_park_delete c (Pending R call k)).
Qed.

End finish_with_run.

End loop.

Arguments Pending {E C U} p_type p_call p_resume.
Arguments Config {E C U W} world inflight uncaught.
Arguments Fire {E Ev} ev.
Arguments Settle {E Ev} i {R} o.
Arguments Click {E C Ev} ev.
Arguments Answer {E C Ev} i ans.
