(* ===== verification/Dashboard.v ===== *)
(** * Dashboard: the component of src/src/pages/Dashboard/index.tsx

    The state of the component ([state], the four [useState] cells), the
    effects its handlers perform ([effect]), the calls they make on the
    remote store client ([api]), the handlers themselves, one definition
    for each function of the source with the source's name, the events the
    rendered tree lets the presentation components fire ([event],
    [dispatch]) and what it shows ([render]).

    The handlers are defined in a section whose variable [s] stands for
    the values of the four cells in the render that created them: a
    handler is a closure, it reads [s] however late it runs, while the
    setters it calls act on the state of the component at that later time.

    The lemmas give the behaviour of each handler on every branch, run
    alone ([finish]) or up to its suspension ([run], [issued]). *)

From Stdlib Require Import Floats.
From stdpp Require Import strings gmap.
From S2P Require Import Prelude JsValue Task EventLoop.

(** ** The remote store client *)

(** The two addresses the component calls: ['/foods'] (lines 37 and 47)
    and [`/foods/${id}`] (lines 62 and 78).  The address keeps the id as
    a value; its text is in [Http]. *)
Inductive url :=
| url_foods
| url_food (id : prim).

(** What a call resolves to; the component reads [response.data] only. *)
Record response (R : Type) := Response { data : R }.
Arguments Response {R} data.
Arguments data {R} r.

(** [api.get], [api.post], [api.put], [api.delete] (line 4 and the calls
    at lines 37, 47, 62 and 78).  No answer is typed: the [data] of a GET
    is a [collection], an array or not; the [data] of the other calls is
    a [value]. *)
Inductive api : Type → Type :=
| api_get (u : url) : api (response collection)
| api_post (u : url) (body : object) : api (response value)
| api_put (u : url) (body : object) : api (response value)
| api_delete (u : url) : api (response value).

(** A call without the type of its answer. *)
Inductive request :=
| GET (u : url)
| POST (u : url) (body : object)
| PUT (u : url) (body : object)
| DELETE (u : url).

Definition request_of {R} (c : api R) : request :=
  match c with
  | api_get u => GET u
  | api_post u b => POST u b
  | api_put u b => PUT u b
  | api_delete u => DELETE u
  end.

(** ** State and effects *)

(** Lines 30-33:
<<
  const [modalOpen, setModalOpen] = useState(false);
  const [editModalOpen, setEditModalOpen] = useState(false);
  const [foods, setFoods] = useState<FoodProps[]>([]);
  const [editingFood, setEditingFood] = useState<FoodProps>({} as FoodProps);
>> *)
Record state := State {
  modalOpen : bool;
  editModalOpen : bool;
  foods : collection;
  editingFood : value;
}.

Definition initial : state := State false false (Array []) (Obj ∅).

(** The synchronous effects of the handlers: the four setters and
    [console.log]. *)
Inductive effect :=
| setModalOpen (b : bool)
| setEditModalOpen (b : bool)
| setFoods (l : collection)
| setEditingFood (v : value)
| console_log (err : exn).

(** The page: the component and the console. *)
Record page := Page {
  ui : state;
  console : list exn;
}.

(** A setter replaces the value of its cell in the current state. *)
Definition act (u : effect) (w : page) : page :=
  let s := ui w in
  match u with
  | setModalOpen b =>
      Page (State b (editModalOpen s) (foods s) (editingFood s)) (console w)
  | setEditModalOpen b =>
      Page (State (modalOpen s) b (foods s) (editingFood s)) (console w)
  | setFoods l =>
      Page (State (modalOpen s) (editModalOpen s) l (editingFood s)) (console w)
  | setEditingFood v =>
      Page (State (modalOpen s) (editModalOpen s) (foods s) v) (console w)
  | console_log err => Page s (console w ++ [err])
  end.

Abbreviation js := (task exn api effect).

(** ** The handlers *)

(** Lines 36-40, the effect run once on mount:
<<
    async function getFoods() {
      const response = await api.get('/foods');
      setFoods(response.data);
    }
>> *)
Definition getFoods : js unit :=
  response ← await (api_get url_foods);
  perform (setFoods (data response)).

Section closure.
(** The values of the cells in the render that creates the handlers. *)
Context (s : state).

(** Lines 45-58:
<<
  async function handleAddFood(food: FoodProps) {
    try {
      const response = await api.post('/foods', { ...food, available: true });
      if (response.data) {
        setFoods([...foods, response.data]);
      }
    } catch (err) {
      console.log(err);
    }
  }
>> *)
Definition handleAddFood (food : value) : js unit :=
  try_catch
    (response ← await (api_post url_foods
                         (spread_with food "available" (boolean true)));
     if truthy (data response)
     then l ← lift (iterate (foods s));
          perform (setFoods (Array (l ++ [data response])))
     else mret tt)
    (λ err, perform (console_log err)).

(** The callback of line 67-69:
<<
      food => food.id !== foodUpdated.data.id ? food : foodUpdated.data
>> *)
Definition replace_updated (updated : value) (food : value) : result exn value :=
  fid ← get_id food;
  uid ← get_id updated;
  mret (if strict_neq fid uid then food else updated).

(** Lines 60-75:
<<
  async function handleUpdateFood(food: FoodProps) {
    try {
      const foodUpdated = await api.put(`/foods/${editingFood.id}`,
                                        { ...editingFood, ...food });
      const foodsUpdated = foods.map(food =>
        food.id !== foodUpdated.data.id ? food : foodUpdated.data);
      setFoods(foodsUpdated);
    } catch (err) {
      console.log(err);
    }
  }
>> *)
Definition handleUpdateFood (food : value) : js unit :=
  try_catch
    (id ← lift (get_id (editingFood s));
     foodUpdated ← await (api_put (url_food id) (spread (editingFood s) food));
     l ← lift (as_array (foods s));
     foodsUpdated ← lift (mapM (replace_updated (data foodUpdated)) l);
     perform (setFoods (Array foodsUpdated)))
    (λ err, perform (console_log err)).

(** The callback of line 80: [(food) => food.id !== id]. *)
Definition keep_other (id : prim) (food : value) : result exn bool :=
  fid ← get_id food;
  mret (strict_neq fid id).

(** Lines 77-83:
<<
  async function handleDeleteFood(id: number){
    await api.delete(`/foods/${id}`);
    const foodsFiltered = foods.filter((food) => food.id !== id);
    setFoods(foodsFiltered);
  }
>> *)
Definition handleDeleteFood (id : prim) : js unit :=
  _ ← await (api_delete (url_food id));
  l ← lift (as_array (foods s));
  foodsFiltered ← lift (filterM (keep_other id) l);
  perform (setFoods (Array foodsFiltered)).

(** Lines 85-87. *)
Definition toggleModal : js unit :=
  perform (setModalOpen (negb (modalOpen s))).

(** Lines 89-91. *)
Definition toggleEditModal : js unit :=
  perform (setEditModalOpen (negb (editModalOpen s))).

End closure.

(** Lines 93-96:
<<
  function handleEditFood(food: FoodProps) {
    setEditingFood(food)
    setEditModalOpen(true);
  }
>> *)
Definition handleEditFood (food : value) : js unit :=
  perform (setEditingFood food);; perform (setEditModalOpen true).

(** ** The rendered tree *)

(** What the presentation components can call (lines 100-121): each
    constructor is one function-valued prop of the returned tree. *)
Inductive event :=
| Header_openModal
| ModalAddFood_setIsOpen
| ModalAddFood_handleAddFood (food : value)
| ModalEditFood_setIsOpen
| ModalEditFood_handleUpdateFood (food : value)
| Food_handleDelete (id : prim)
| Food_handleEditFood (food : value).

(** The wiring of lines 100-121: which handler each prop is bound to. *)
Definition dispatch (s : state) (ev : event) : js unit :=
  match ev with
  | Header_openModal => toggleModal s
  | ModalAddFood_setIsOpen => toggleModal s
  | ModalAddFood_handleAddFood food => handleAddFood s food
  | ModalEditFood_setIsOpen => toggleEditModal s
  | ModalEditFood_handleUpdateFood food => handleUpdateFood s food
  | Food_handleDelete id => handleDeleteFood s id
  | Food_handleEditFood food => handleEditFood food
  end.

(** The data props of the returned tree (lines 98-125). *)
Record view := View {
  ModalAddFood_isOpen : bool;
  ModalEditFood_isOpen : bool;
  ModalEditFood_editingFood : value;
  Food_elements : list (prim * value);   (* [key] and [food] of each [Food] *)
}.

(** Lines 98-125.  [{foods && foods.map(food => <Food key={food.id} .../>)}]
    (lines 114-122): nothing is listed when [foods] is falsy; [foods.map]
    throws when [foods] is truthy and not an array; evaluating
    [key={food.id}] throws when an element of [foods] is [null] or
    [undefined].  The render then fails. *)
Definition render (s : state) : result exn view :=
  elements ← (if present (foods s)
              then l ← as_array (foods s);
                   mapM (λ food, key ← get_id food; mret (key, food)) l
              else mret []);
  mret (View (modalOpen s) (editModalOpen s) (editingFood s) elements).

(** ** The component on the event loop *)

(** Events come from the rendered tree: none when rendering failed. *)
Definition alive (w : page) : bool := is_ok (render (ui w)).

Definition handler (w : page) (ev : event) : js unit := dispatch (ui w) ev.

Abbreviation dconfig := (@EventLoop.config exn api effect page).

(** Lines 35-43: after the first render, [useEffect(..., [])] calls
    [getFoods] once. *)
Definition boot : dconfig := run act getFoods (Config (Page initial []) [] []).

(** The call a task suspends on first, if any. *)
Fixpoint issued {A} (t : js A) : option request :=
  match t with
  | Ret _ | Throw _ => None
  | Do _ k => issued k
  | Await c _ => Some (request_of c)
  end.

(** [foods.map(...)] of [handleUpdateFood] when no access to [id] throws. *)
Definition id_of (v : value) : prim :=
  match get_id v with Ok p => p | Err _ => undefined end.

Definition has_id (v : value) : bool := is_ok (get_id v).

(** [food => food.id !== updated.id ? food : updated] when no access to
    [id] throws. *)
Definition replace_id (updated food : value) : value :=
  if strict_neq (id_of food) (id_of updated) then food else updated.

(** No two elements of the list have ids that are [===]. *)
Fixpoint unique_ids (l : list value) : bool :=
  match l with
  | [] => true
  | x :: l => forallb (λ y, strict_neq (id_of x) (id_of y)) l && unique_ids l
  end.

(** ** Scripted answers and sample items *)

(** How the environment settles the calls of a task run alone. *)
Abbreviation answers := (∀ R, api R → outcome exn R).

(** The server answering every list request with [list] and every other
    request with [item]; with an array of [items]; the server refusing
    every request with [e]. *)
Definition answer_with (list : collection) (item : value) : answers :=
  λ R c, match c in api R return outcome exn R with
         | api_get _ => Fulfilled (Response list)
         | api_post _ _ | api_put _ _ | api_delete _ => Fulfilled (Response item)
         end.

Definition answer (items : list value) (item : value) : answers :=
  answer_with (Array items) item.

Definition refuse (e : exn) : answers := λ R c, Rejected e.

Definition food_form : value :=
  Obj (list_to_map [("name", str "Pizza"); ("price", number 20);
                    ("available", boolean false)]).
Definition food_1 : value :=
  Obj (list_to_map [("id", number 1); ("name", str "Pizza");
                    ("price", number 20); ("available", boolean true)]).
Definition food_1' : value :=
  Obj (list_to_map [("id", number 1); ("name", str "Pizza");
                    ("price", number 25); ("available", boolean true)]).
Definition food_2 : value :=
  Obj (list_to_map [("id", number 2); ("name", str "Salad");
                    ("price", number 12); ("available", boolean true)]).
Definition price_25 : value := Obj {["price" := number 25]}.

Definition idle (s : state) : dconfig := Config (Page s []) [] [].

(** ** Lemmas: pure parts *)

Lemma has_id_get_id v : has_id v = true → get_id v = Ok (id_of v).
Proof. unfold has_id, id_of. by destruct (get_id v). Qed.

Lemma has_id_false v : has_id v = false ↔ v = Prim undefined ∨ v = Prim null.
Proof.
  unfold has_id. destruct v as [[]|]; simpl; split; intros H;
    try done; auto; by destruct H.
Qed.

Lemma truthy_has_id v : truthy v = true → has_id v = true.
Proof. apply get_id_Ok_truthy. Qed.

Lemma replace_updated_pure d f :
  has_id d = true → has_id f = true → replace_updated d f = Ok (replace_id d f).
Proof.
  intros Hd Hf. unfold replace_updated, replace_id.
  by rewrite (has_id_get_id _ Hd), (has_id_get_id _ Hf).
Qed.

Lemma keep_other_pure id f :
  has_id f = true → keep_other id f = Ok (strict_neq (id_of f) id).
Proof. intros Hf. unfold keep_other. by rewrite (has_id_get_id _ Hf). Qed.

(** [foods.map(...)] of [handleUpdateFood], when every element has an id
    and so has the answer. *)
Lemma mapM_replace_updated d l :
  has_id d = true → Forall (λ f, has_id f = true) l →
  mapM (replace_updated d) l = Ok (replace_id d <$> l).
Proof.
  intros Hd Hl. apply mapM_pure. eapply Forall_impl; [done|].
  intros f Hf. by apply replace_updated_pure.
Qed.

(** When the answer is [null] or [undefined], the first callback throws. *)
(** The callback returns the element or the answer. *)
Lemma replace_updated_Ok d f y : replace_updated d f = Ok y → y = f ∨ y = d.
Proof.
  unfold replace_updated. destruct (get_id f), (get_id d); simpl; try done.
  intros [= <-]. destruct (strict_neq _ _); auto.
Qed.

Lemma mapM_replace_updated_Forall (P : value → Prop) d l l' :
  mapM (replace_updated d) l = Ok l' → P d → Forall P l → Forall P l'.
Proof.
  intros Hl%mapM_Ok_Forall2 Hd Hall.
  induction Hl as [|f y l l' Hy _ IH]; [done|].
  apply Forall_cons in Hall as [Hf Hall]. constructor; [|by apply IH].
  by destruct (replace_updated_Ok _ _ _ Hy) as [-> | ->].
Qed.

Lemma mapM_replace_updated_no_id d f l :
  has_id d = false → mapM (replace_updated d) (f :: l) = Err TypeError.
Proof.
  intros Hd. simpl. unfold replace_updated.
  apply has_id_false in Hd as [-> | ->]; by destruct f as [[]|].
Qed.

(** [foods.filter(...)] of [handleDeleteFood], when every element has an
    id. *)
Lemma filterM_keep_other id l :
  Forall (λ f, has_id f = true) l →
  filterM (keep_other id) l = Ok (List.filter (λ f, strict_neq (id_of f) id) l).
Proof.
  intros Hl. apply filterM_pure. eapply Forall_impl; [done|].
  intros f Hf. by apply keep_other_pure.
Qed.

(** The keys can be read when every element has an id; the only failure
    is the [TypeError] of [food.id]. *)
Lemma keys_is_ok (l : list value) :
  is_ok (mapM (λ food, key ← get_id food; mret (key, food)) l) = forallb has_id l.
Proof.
  rewrite mapM_is_ok. induction l as [|f l IH]; simpl; [done|].
  rewrite IH. unfold has_id. by destruct (get_id f).
Qed.

Lemma keys_Err (l : list value) e :
  mapM (λ food, key ← get_id food; mret (key, food)) l = Err e → e = TypeError.
Proof.
  intros (f & _ & Hf)%mapM_Err_inv.
  destruct (get_id f) as [|e'] eqn:Hid; simplify_eq/=.
  by apply get_id_Err in Hid as [-> _].
Qed.

(** A state renders when its list is an array in which every element has
    an id, or is falsy. *)
Lemma render_is_ok s :
  is_ok (render s)
  = match foods s with
    | Array l => forallb has_id l
    | NotArray v => negb (truthy v)
    end.
Proof.
  unfold render. destruct (foods s) as [l|v]; simpl; [|by destruct (truthy v)].
  rewrite <- keys_is_ok. by destruct (mapM _ _).
Qed.

Lemma alive_Forall w l :
  foods (ui w) = Array l →
  alive w = true ↔ Forall (λ f, has_id f = true) l.
Proof.
  intros Hl. unfold alive. rewrite render_is_ok, Hl, forallb_forall, Forall_forall.
  by setoid_rewrite list_elem_of_In.
Qed.

Lemma alive_array_of w :
  array_of (λ f, has_id f = true) (foods (ui w)) → alive w = true.
Proof. intros (l & Hl & Hall)%array_of_Array. by apply (alive_Forall w l). Qed.

(** *** Replacement by id *)

Lemma replace_id_other d f :
  strict_eq (id_of f) (id_of d) = false → replace_id d f = f.
Proof. unfold replace_id, strict_neq. by intros ->. Qed.

Lemma replace_id_same d f :
  strict_eq (id_of f) (id_of d) = true → replace_id d f = d.
Proof. unfold replace_id, strict_neq. by intros ->. Qed.

Lemma replace_id_fmap_none d l :
  Forall (λ f, strict_eq (id_of f) (id_of d) = false) l → replace_id d <$> l = l.
Proof.
  induction 1 as [|f l Hf _ IH]; csimpl; [done|].
  by rewrite replace_id_other, IH.
Qed.

Lemma unique_ids_cons f l :
  unique_ids (f :: l) = true ↔
  Forall (λ g, strict_eq (id_of f) (id_of g) = false) l ∧ unique_ids l = true.
Proof.
  simpl. rewrite andb_true_iff, forallb_forall, Forall_forall.
  unfold strict_neq. setoid_rewrite negb_true_iff.
  by setoid_rewrite list_elem_of_In.
Qed.

(** Ids that are [===] to the id of an element differ from the ids of the
    others: [===] is transitive. *)
Lemma Forall_strict_eq_false f d l :
  strict_eq (id_of f) (id_of d) = true →
  Forall (λ g, strict_eq (id_of f) (id_of g) = false) l →
  Forall (λ g, strict_eq (id_of g) (id_of d) = false) l.
Proof.
  intros Hfd H. eapply Forall_impl; [done|]. intros g Hfg.
  by eapply strict_eq_false_l.
Qed.

(** With unique ids, the update replaces the element whose id is [===] to
    the id of the answer and no other. *)
Lemma replace_id_fmap_one d l i f :
  unique_ids l = true → l !! i = Some f →
  strict_eq (id_of f) (id_of d) = true →
  replace_id d <$> l = <[i := d]> l.
Proof.
  revert i. induction l as [|g l IH]; intros i Hu Hi Hfd; [done|].
  apply unique_ids_cons in Hu as [Hg Hu]. destruct i as [|i]; simpl in Hi; simplify_eq; csimpl.
  - rewrite replace_id_same by done. f_equal.
    apply replace_id_fmap_none. by eapply Forall_strict_eq_false.
  - rewrite (IH i) by done. f_equal. apply replace_id_other.
    rewrite Forall_forall in Hg. apply list_elem_of_lookup_2 in Hi.
    eapply strict_eq_false_r; [exact Hfd | by apply Hg].
Qed.

(** ** Lemmas: each handler run alone, on every branch *)

Section alone.
Context (ans : answers) (s : state) (c : dconfig).

Lemma finish_handleAddFood food :
  finish act ans (handleAddFood s food) c =
  match ans _ (api_post url_foods (spread_with food "available" (boolean true))) with
  | Fulfilled r =>
      if truthy (data r)
      then match iterate (foods s) with
           | Ok l => set_world (act (setFoods (Array (l ++ [data r])))) c
           | Err e => set_world (act (console_log e)) c
           end
      else c
  | Rejected e => set_world (act (console_log e)) c
  end.
Proof.
  simpl. destruct (ans _ _) as [r|e]; simpl; [|done].
  destruct (truthy _); simpl; [|done]. by destruct (iterate _).
Qed.

Lemma finish_handleUpdateFood food :
  finish act ans (handleUpdateFood s food) c =
  match get_id (editingFood s) with
  | Err e => set_world (act (console_log e)) c
  | Ok id =>
      match ans _ (api_put (url_food id) (spread (editingFood s) food)) with
      | Rejected e => set_world (act (console_log e)) c
      | Fulfilled r =>
          match as_array (foods s) ≫= mapM (replace_updated (data r)) with
          | Ok l => set_world (act (setFoods (Array l))) c
          | Err e => set_world (act (console_log e)) c
          end
      end
  end.
Proof.
  unfold handleUpdateFood.
  destruct (get_id (editingFood s)) as [id|e]; simpl; [|done].
  destruct (ans _ _) as [r|e]; simpl; [|done].
  destruct (as_array _) as [l|e]; simpl; [|done]. by destruct (mapM _ _).
Qed.

Lemma finish_handleDeleteFood id :
  finish act ans (handleDeleteFood s id) c =
  match ans _ (api_delete (url_food id)) with
  | Rejected e => escape e c
  | Fulfilled _ =>
      match as_array (foods s) ≫= filterM (keep_other id) with
      | Ok l => set_world (act (setFoods (Array l))) c
      | Err e => escape e c
      end
  end.
Proof.
  simpl. destruct (ans _ _) as [r|e]; simpl; [|done].
  destruct (as_array _) as [l|e]; simpl; [|done]. by destruct (filterM _ _).
Qed.

End alone.

(** *** Adding *)

(** C1.  A successful add appends the item the server returned: when the
    POST is fulfilled with a truthy [data], [handleAddFood] sets [foods] to
    the elements of the list its closure holds followed by [data], and
    changes nothing else (no other cell, nothing logged, nothing
    uncaught). *)
Theorem handleAddFood_fulfilled (ans : answers) s food r c l :
  ans _ (api_post url_foods (spread_with food "available" (boolean true)))
    = Fulfilled r →
  truthy (data r) = true →
  iterate (foods s) = Ok l →
  finish act ans (handleAddFood s food) c
  = set_world (act (setFoods (Array (l ++ [data r])))) c.
Proof. intros Hans Hr Hl. by rewrite finish_handleAddFood, Hans, Hr, Hl. Qed.

Lemma handleAddFood_fulfilled_witness :
  finish act (answer [] food_1) (handleAddFood initial food_form) (idle initial)
  = set_world (act (setFoods (Array ([] ++ [food_1])))) (idle initial).
Proof.
  apply (handleAddFood_fulfilled (answer [] food_1) initial food_form
           (Response food_1)); reflexivity.
Defined.

(** C4.  [handleAddFood] posts to ['/foods'] a body whose [available] is
    [true], whatever the candidate says, and whose other properties are
    the candidate's. *)
Theorem handleAddFood_forces_available s food :
  ∃ body,
    issued (handleAddFood s food) = Some (POST url_foods body)
    ∧ body !! "available" = Some (boolean true)
    ∧ ∀ k, k ≠ "available" → body !! k = own_props food !! k.
Proof.
  eexists. split; [reflexivity|]. split.
  - by rewrite lookup_spread_with, decide_True.
  - intros k Hk. by rewrite lookup_spread_with, decide_False.
Qed.

(** C8.  An add that yields no item.  A rejected POST is logged and
    swallowed: the state of the component is as before, the reason is on
    the console, nothing is uncaught.  An answer whose [data] is falsy (an
    empty body, [null], [0]) is dropped without a trace: no cell changes,
    nothing is logged. *)
Theorem handleAddFood_nothing_added (ans : answers) s food c :
  match ans _ (api_post url_foods (spread_with food "available" (boolean true))) with
  | Rejected e =>
      finish act ans (handleAddFood s food) c
      = set_world (λ w, Page (ui w) (console w ++ [e])) c
  | Fulfilled r =>
      truthy (data r) = false → finish act ans (handleAddFood s food) c = c
  end.
Proof.
  rewrite finish_handleAddFood. destruct (ans _ _) as [r|e]; [|done].
  by intros ->.
Qed.

Example handleAddFood_refused :
  finish act (refuse (AxiosError (Some 500))) (handleAddFood initial food_form)
    (idle initial)
  = set_world (λ w, Page (ui w) (console w ++ [AxiosError (Some 500)]))
      (idle initial)
  ∧ finish act (answer [] (Prim (str ""))) (handleAddFood initial food_form)
      (idle initial) = idle initial.
Proof. split; reflexivity. Qed.

(** *** Updating *)

(** C5.  [handleUpdateFood] puts to the address of the editing slot's id a
    body that is the slot merged with the patch, property by property,
    the patch winning.  Nothing checks that an item is being edited: with
    the editing slot never set (it is [{}] initially) the id is
    [undefined], the body is the patch alone, and the request is sent. *)
Theorem handleUpdateFood_merges_patch s food id :
  get_id (editingFood s) = Ok id →
  ∃ body,
    issued (handleUpdateFood s food) = Some (PUT (url_food id) body)
    ∧ (∀ k, body !! k = match own_props food !! k with
                        | Some p => Some p
                        | None => own_props (editingFood s) !! k
                        end)
    ∧ (editingFood s = Obj ∅ → id = undefined ∧ body = own_props food).
Proof.
  intros Hid. eexists. split_and!.
  - unfold handleUpdateFood. by rewrite Hid.
  - intros k. apply lookup_spread.
  - intros Hs. rewrite Hs in Hid. injection Hid as <-. split; [done|].
    unfold spread. rewrite Hs. simpl. by rewrite (right_id_L ∅ (∪)).
Qed.

Lemma handleUpdateFood_merges_patch_witness :
  ∃ body,
    issued (handleUpdateFood (State false true (Array [food_1]) food_1) price_25)
    = Some (PUT (url_food (number 1)) body)
    ∧ (∀ k, body !! k = match own_props price_25 !! k with
                        | Some p => Some p
                        | None => own_props food_1 !! k
                        end)
    ∧ (editingFood (State false true (Array [food_1]) food_1) = Obj ∅ →
       number 1 = undefined ∧ body = own_props price_25).
Proof.
  apply (handleUpdateFood_merges_patch (State false true (Array [food_1]) food_1)
           price_25 (number 1)).
  reflexivity.
Defined.

(** C2.  A successful update maps the closure's list through the
    replacement: when the PUT is fulfilled with an item that has an id,
    [foods] becomes the list in which every element whose id is [===] to
    the answer's is the answer and every other element is itself, in the
    same order; nothing else changes. *)
Theorem handleUpdateFood_fulfilled (ans : answers) s food id r c l :
  get_id (editingFood s) = Ok id →
  ans _ (api_put (url_food id) (spread (editingFood s) food)) = Fulfilled r →
  has_id (data r) = true →
  foods s = Array l →
  Forall (λ f, has_id f = true) l →
  finish act ans (handleUpdateFood s food) c
  = set_world (act (setFoods (Array (replace_id (data r) <$> l)))) c.
Proof.
  intros Hid Hans Hr Hl Hs. rewrite finish_handleUpdateFood, Hid, Hans, Hl. simpl.
  by rewrite mapM_replace_updated.
Qed.

Lemma handleUpdateFood_fulfilled_witness :
  finish act (answer [] food_1')
    (handleUpdateFood (State false true (Array [food_1; food_2]) food_1) price_25)
    (idle (State false true (Array [food_1; food_2]) food_1))
  = set_world (act (setFoods (Array [food_1'; food_2])))
      (idle (State false true (Array [food_1; food_2]) food_1)).
Proof.
  apply (handleUpdateFood_fulfilled (answer [] food_1')
           (State false true (Array [food_1; food_2]) food_1) price_25 (number 1)
           (Response food_1') _ [food_1; food_2]); try reflexivity.
  repeat constructor.
Defined.

(** C6.  With unique ids, a successful update replaces exactly one
    element: if the element at position [i] is the one whose id is [===]
    to the answer's, [foods] becomes the closure's list with position [i]
    overwritten by the answer, every other position untouched. *)
Theorem handleUpdateFood_replaces_one (ans : answers) s food id r c l i f :
  get_id (editingFood s) = Ok id →
  ans _ (api_put (url_food id) (spread (editingFood s) food)) = Fulfilled r →
  has_id (data r) = true →
  foods s = Array l →
  Forall (λ f, has_id f = true) l →
  unique_ids l = true →
  l !! i = Some f →
  strict_eq (id_of f) (id_of (data r)) = true →
  finish act ans (handleUpdateFood s food) c
  = set_world (act (setFoods (Array (<[i := data r]> l)))) c.
Proof.
  intros Hid Hans Hr Hl Hs Hu Hi Hf.
  rewrite finish_handleUpdateFood, Hid, Hans, Hl. simpl.
  rewrite mapM_replace_updated by done. by erewrite replace_id_fmap_one.
Qed.

Lemma handleUpdateFood_replaces_one_witness :
  finish act (answer [] food_1')
    (handleUpdateFood (State false true (Array [food_2; food_1]) food_1) price_25)
    (idle (State false true (Array [food_2; food_1]) food_1))
  = set_world (act (setFoods (Array (<[1 := food_1']> [food_2; food_1]))))
      (idle (State false true (Array [food_2; food_1]) food_1)).
Proof.
  apply (handleUpdateFood_replaces_one (answer [] food_1')
           (State false true (Array [food_2; food_1]) food_1) price_25 (number 1)
           (Response food_1') _ [food_2; food_1] 1 food_1); try reflexivity.
  repeat constructor.
Defined.

(** C9.  An update that fails.  A rejected PUT is logged and swallowed:
    the state of the component is as before, the reason is on the console.
    A PUT fulfilled with [null] or [undefined] as [data] (an empty answer)
    makes the first callback of [foods.map] throw a [TypeError], which the
    handler logs: the server has updated the item, the list on the page
    has not changed. *)
Theorem handleUpdateFood_failed (ans : answers) s food id c :
  get_id (editingFood s) = Ok id →
  match ans _ (api_put (url_food id) (spread (editingFood s) food)) with
  | Rejected e =>
      finish act ans (handleUpdateFood s food) c
      = set_world (λ w, Page (ui w) (console w ++ [e])) c
  | Fulfilled r =>
      has_id (data r) = false → foods s ≠ Array [] →
      finish act ans (handleUpdateFood s food) c
      = set_world (λ w, Page (ui w) (console w ++ [TypeError])) c
  end.
Proof.
  intros Hid. rewrite finish_handleUpdateFood, Hid.
  destruct (ans _ _) as [r|e]; [|done]. intros Hr Hs.
  destruct (foods s) as [[|f l]|v]; [done| |done].
  change (as_array (Array (f :: l)) ≫= mapM (replace_updated (data r)))
    with (mapM (replace_updated (data r)) (f :: l)).
  by rewrite mapM_replace_updated_no_id.
Qed.

Lemma handleUpdateFood_failed_witness :
  finish act (refuse (AxiosError None))
    (handleUpdateFood (State false true (Array [food_1]) food_1) price_25)
    (idle (State false true (Array [food_1]) food_1))
  = set_world (λ w, Page (ui w) (console w ++ [AxiosError None]))
      (idle (State false true (Array [food_1]) food_1)).
Proof.
  apply (handleUpdateFood_failed (refuse (AxiosError None))
           (State false true (Array [food_1]) food_1) price_25 (number 1)).
  reflexivity.
Defined.

Example handleUpdateFood_empty_answer :
  finish act (answer [] (Prim null))
    (handleUpdateFood (State false true (Array [food_1]) food_1) price_25)
    (idle (State false true (Array [food_1]) food_1))
  = set_world (λ w, Page (ui w) (console w ++ [TypeError]))
      (idle (State false true (Array [food_1]) food_1)).
Proof. reflexivity. Qed.

(** The first update of a page on which no edit was requested. *)
Example handleUpdateFood_initial_slot :
  issued (handleUpdateFood initial price_25)
  = Some (PUT (url_food undefined) (own_props price_25)).
Proof. reflexivity. Qed.

(** *** Deleting *)

(** C3.  A successful delete filters the closure's list: [foods] becomes
    the elements whose id is [!==] to the given id, in their order;
    nothing else changes. *)
Theorem handleDeleteFood_fulfilled (ans : answers) s id r c l :
  ans _ (api_delete (url_food id)) = Fulfilled r →
  foods s = Array l →
  Forall (λ f, has_id f = true) l →
  finish act ans (handleDeleteFood s id) c
  = set_world
      (act (setFoods (Array (List.filter (λ f, strict_neq (id_of f) id) l)))) c.
Proof.
  intros Hans Hl Hs. rewrite finish_handleDeleteFood, Hans, Hl. simpl.
  by rewrite filterM_keep_other.
Qed.

Lemma handleDeleteFood_fulfilled_witness :
  finish act (answer [] (Obj ∅))
    (handleDeleteFood (State false false (Array [food_1; food_2]) (Obj ∅)) (number 1))
    (idle (State false false (Array [food_1; food_2]) (Obj ∅)))
  = set_world (act (setFoods (Array [food_2])))
      (idle (State false false (Array [food_1; food_2]) (Obj ∅))).
Proof.
  apply (handleDeleteFood_fulfilled (answer [] (Obj ∅))
           (State false false (Array [food_1; food_2]) (Obj ∅)) (number 1)
           (Response (Obj ∅)) _ [food_1; food_2]); [reflexivity..|].
  repeat constructor.
Defined.

(** C7.  What the filter of [handleDeleteFood] keeps: a sublist of the
    list (the order of the remaining elements is unchanged), in which no
    id is [===] to the deleted one, and from which no element with
    another id is missing. *)
Theorem keep_other_filter id l l' :
  filterM (keep_other id) l = Ok l' →
  sublist l' l
  ∧ Forall (λ f, strict_eq (id_of f) id = false) l'
  ∧ ∀ f, f ∈ l → strict_eq (id_of f) id = false → f ∈ l'.
Proof.
  intros Hl. split; [by eapply filterM_Ok_sublist|].
  assert (Hin : ∀ f, f ∈ l' ↔ f ∈ l ∧ keep_other id f = Ok true)
    by (intros f; by apply filterM_Ok_elem_of).
  assert (Hk : ∀ f, f ∈ l → keep_other id f = Ok (strict_neq (id_of f) id)).
  { intros f Hf. apply keep_other_pure.
    apply filterM_Ok_all in Hl. rewrite Forall_forall in Hl.
    specialize (Hl f Hf). unfold keep_other, has_id in *.
    by destruct (get_id f). }
  split.
  - apply Forall_forall. intros f [Hf Hkeep]%Hin.
    rewrite Hk in Hkeep by done. injection Hkeep as Hkeep.
    by apply negb_true_iff.
  - intros f Hf Hne. apply Hin. split; [done|].
    rewrite Hk by done. f_equal. by apply negb_true_iff.
Qed.

Lemma keep_other_filter_witness :
  sublist [food_2] [food_1; food_2]
  ∧ Forall (λ f, strict_eq (id_of f) (number 1) = false) [food_2]
  ∧ ∀ f, f ∈ [food_1; food_2] → strict_eq (id_of f) (number 1) = false →
         f ∈ [food_2].
Proof. apply (keep_other_filter (number 1) [food_1; food_2] [food_2]). reflexivity. Defined.

(** C34.  The two calls that nothing catches.  [handleDeleteFood] has no
    [try]: a rejected DELETE escapes the handler (an unhandled
    rejection), and so does the [TypeError] of [foods.filter] after a
    fulfilled one; nothing is logged and the state of the component is as
    before.  The policy differs from that of add and update, which log
    and swallow.  The fetch on mount replaces the whole list by what the
    server returned, an array or not; when the GET is rejected nothing
    catches the reason and the list stays as it was. *)
Theorem delete_and_fetch_uncaught (ans : answers) s id c :
  finish act ans (handleDeleteFood s id) c
  = match ans _ (api_delete (url_food id)) with
    | Rejected e => escape e c
    | Fulfilled _ =>
        match as_array (foods s) ≫= filterM (keep_other id) with
        | Ok l => set_world (act (setFoods (Array l))) c
        | Err e => escape e c
        end
    end
  ∧ finish act ans getFoods c
    = match ans _ (api_get url_foods) with
      | Fulfilled r => set_world (act (setFoods (data r))) c
      | Rejected e => escape e c
      end.
Proof. split; [apply finish_handleDeleteFood|]. simpl. by destruct (ans _ _). Qed.

Example handleDeleteFood_refused :
  finish act (refuse (AxiosError (Some 404)))
    (handleDeleteFood (State false false (Array [food_1]) (Obj ∅)) (number 1))
    (idle (State false false (Array [food_1]) (Obj ∅)))
  = escape (AxiosError (Some 404)) (idle (State false false (Array [food_1]) (Obj ∅))).
Proof. reflexivity. Qed.

(** A delete by an id that is [NaN] (the id of an item the server sent
    with a number it could not write) is sent, and removes nothing from
    the page: no id is [===] to [NaN]. *)
Lemma filter_strict_neq_NaN id l :
  is_NaN id = true → List.filter (λ f, strict_neq (id_of f) id) l = l.
Proof.
  intros Hid. induction l as [|f l IH]; simpl; [done|].
  unfold strict_neq at 1. rewrite strict_eq_NaN by done. simpl. by rewrite IH.
Qed.

Lemma handleDeleteFood_NaN (ans : answers) s id r c l :
  ans _ (api_delete (url_food id)) = Fulfilled r →
  foods s = Array l →
  Forall (λ f, has_id f = true) l →
  is_NaN id = true →
  finish act ans (handleDeleteFood s id) c = set_world (act (setFoods (Array l))) c.
Proof.
  intros Hans Hl Hs Hid. rewrite finish_handleDeleteFood, Hans, Hl. simpl.
  by rewrite filterM_keep_other, filter_strict_neq_NaN.
Qed.

(** *** When the list is not an array *)

(** C35.  A list that is not an array.  When the GET was answered with
    something else than an array, the cell [foods] holds it.  The render
    is guarded by [foods &&]: it lists nothing when the value is falsy
    and throws at [foods.map] when it is truthy.  The handlers are not
    guarded: after a fulfilled DELETE [foods.filter] throws a [TypeError]
    that nothing catches; after a fulfilled PUT [foods.map] throws a
    [TypeError] that is logged; after a POST fulfilled with an item the
    spread [[...foods, item]] throws a [TypeError] that is logged, unless
    the value is a string, whose characters become the list.  In each
    case the store has done what was asked. *)
Theorem foods_not_array (ans : answers) s v c :
  foods s = NotArray v →
  render s = (if truthy v then Err TypeError
              else Ok (View (modalOpen s) (editModalOpen s) (editingFood s) []))
  ∧ (∀ id r, ans _ (api_delete (url_food id)) = Fulfilled r →
       finish act ans (handleDeleteFood s id) c = escape TypeError c)
  ∧ (∀ food id r,
       get_id (editingFood s) = Ok id →
       ans _ (api_put (url_food id) (spread (editingFood s) food)) = Fulfilled r →
       finish act ans (handleUpdateFood s food) c
       = set_world (act (console_log TypeError)) c)
  ∧ (∀ food r,
       ans _ (api_post url_foods (spread_with food "available" (boolean true)))
         = Fulfilled r →
       truthy (data r) = true →
       finish act ans (handleAddFood s food) c
       = match v with
         | Prim (str t) => set_world (act (setFoods (Array (chars t ++ [data r])))) c
         | _ => set_world (act (console_log TypeError)) c
         end).
Proof.
  intros Hv. split_and!.
  - unfold render. rewrite Hv. simpl. by destruct (truthy v).
  - intros id r Hans. by rewrite finish_handleDeleteFood, Hans, Hv.
  - intros food id r Hid Hans. by rewrite finish_handleUpdateFood, Hid, Hans, Hv.
  - intros food r Hans Hr. rewrite finish_handleAddFood, Hans, Hr, Hv.
    by destruct v as [[]|].
Qed.

Lemma foods_not_array_witness :
  render (State false false (NotArray (Prim null)) (Obj ∅))
  = (if truthy (Prim null) then Err TypeError
     else Ok (View false false (Obj ∅) []))
  ∧ (∀ id r, answer [] food_1 _ (api_delete (url_food id)) = Fulfilled r →
       finish act (answer [] food_1)
         (handleDeleteFood (State false false (NotArray (Prim null)) (Obj ∅)) id)
         (idle (State false false (NotArray (Prim null)) (Obj ∅)))
       = escape TypeError (idle (State false false (NotArray (Prim null)) (Obj ∅))))
  ∧ (∀ food id r,
       get_id (Obj ∅) = Ok id →
       answer [] food_1 _ (api_put (url_food id) (spread (Obj ∅) food)) = Fulfilled r →
       finish act (answer [] food_1)
         (handleUpdateFood (State false false (NotArray (Prim null)) (Obj ∅)) food)
         (idle (State false false (NotArray (Prim null)) (Obj ∅)))
       = set_world (act (console_log TypeError))
           (idle (State false false (NotArray (Prim null)) (Obj ∅))))
  ∧ (∀ food r,
       answer [] food_1 _
         (api_post url_foods (spread_with food "available" (boolean true)))
         = Fulfilled r →
       truthy (data r) = true →
       finish act (answer [] food_1)
         (handleAddFood (State false false (NotArray (Prim null)) (Obj ∅)) food)
         (idle (State false false (NotArray (Prim null)) (Obj ∅)))
       = set_world (act (console_log TypeError))
           (idle (State false false (NotArray (Prim null)) (Obj ∅)))).
Proof.
  apply (foods_not_array (answer [] food_1)
           (State false false (NotArray (Prim null)) (Obj ∅)) (Prim null)).
  reflexivity.
Defined.

(** *** Rendering *)

(** C10.  What the component renders, and when.  With an array in the
    list cell, the render succeeds when every element has an [id] to
    read: [ModalAddFood] gets [modalOpen], [ModalEditFood] gets
    [editModalOpen] and the editing slot, and the list is one [Food] per
    element, in the order of the list, with the element as [food] and its
    id as [key].  When an element is [null] or [undefined], evaluating
    [key={food.id}] throws a [TypeError]: nothing is rendered, and no
    event can occur any more.  Otherwise every event runs its handler,
    closed over the state that was rendered. *)
Theorem render_view s l :
  foods s = Array l →
  render s
  = (if forallb has_id l
     then Ok (View (modalOpen s) (editModalOpen s) (editingFood s)
                ((λ f, (id_of f, f)) <$> l))
     else Err TypeError)
  ∧ ∀ (c : dconfig) ev, ui (world c) = s →
      exec act handler alive (Click ev) c
      = if forallb has_id l then Some (run act (dispatch s ev) c) else None.
Proof.
  intros Hl. split.
  - unfold render. rewrite Hl. simpl. rewrite <- keys_is_ok.
    destruct (mapM _ l) as [els|e] eqn:Hels; simpl; [|by rewrite (keys_Err l e)].
    pose proof (keys_is_ok l) as Hall. rewrite Hels in Hall.
    symmetry in Hall. simpl in Hall. rewrite forallb_forall in Hall.
    rewrite (mapM_pure _ (λ f, (id_of f, f))) in Hels; [by simplify_eq|].
    apply Forall_forall. intros f Hf%list_elem_of_In. simpl.
    by rewrite (has_id_get_id _ (Hall f Hf)).
  - intros c ev <-. simpl. unfold alive, handler. by rewrite render_is_ok, Hl.
Qed.

Lemma render_view_witness :
  render (State true false (Array [food_1; food_2]) food_1)
  = (if forallb has_id [food_1; food_2]
     then Ok (View (modalOpen (State true false (Array [food_1; food_2]) food_1))
                (editModalOpen (State true false (Array [food_1; food_2]) food_1))
                (editingFood (State true false (Array [food_1; food_2]) food_1))
                ((λ f, (id_of f, f)) <$> [food_1; food_2]))
     else Err TypeError)
  ∧ ∀ (c : dconfig) ev,
      ui (world c) = State true false (Array [food_1; food_2]) food_1 →
      exec act handler alive (Click ev) c
      = if forallb has_id [food_1; food_2]
        then Some (run act (dispatch (State true false (Array [food_1; food_2]) food_1)
                              ev) c)
        else None.
Proof.
  apply (render_view (State true false (Array [food_1; food_2]) food_1)
           [food_1; food_2]).
  reflexivity.
Defined.

(** A list that contains [null] stops the page. *)
Example render_null :
  render (State false false (Array [food_1; Prim null]) (Obj ∅)) = Err TypeError
  ∧ exec act handler alive (Click Header_openModal)
      (idle (State false false (Array [food_1; Prim null]) (Obj ∅))) = None.
Proof. split; reflexivity. Qed.
