(* ===== verification/Http.v ===== *)
(** * Http: the text of a request

    The handlers address an item by a template literal:
    [`/foods/${editingFood.id}`] (line 62) and [`/foods/${id}`] (line 78).
    The id leaves the page as text, and the remote store finds the item
    from that text.  [Dashboard] keeps the address as [url_food id], with
    the id as a value; this file gives its text ([path], [address]), and
    the reading of that text by the store ([route], from section 6 of the
    specification: [/foods] and [/foods/{id}] with an integer id).

    The theorems justify keeping the id as a value.  For the ids of the
    specification, integers, the text carries the id exactly: the store
    reads back the integer the page sent ([handlers_address]), and two
    numbers have the same address exactly when the page's [===] takes
    them for equal ([path_food_strict_eq]).  They also say where this stops:
    every integer below 2^53 in magnitude is a number of the page, and
    from 2^53 on the numbers of the page are even integers only
    ([ids_exact_below_2_53]); what is not a number still
    has a text, and an address, which the store may not route
    ([empty_slot_not_routed]).

    The text of a number is modelled for [NaN], the infinities and the
    integers of magnitude below 10^21, which JavaScript prints in decimal
    notation; for the other numbers [to_text] is [None]. *)

From Stdlib Require Import Floats ZArith DecimalString DecimalZ DecimalPos.
From stdpp Require Import strings.
From S2P Require Import Prelude JsValue Number Task EventLoop Dashboard.

(** ** Definitions *)

(** Decimal notation, with a minus sign for the negative integers. *)
Definition decimal (z : Z) : string := NilZero.string_of_int (Z.to_int z).

(** [`${p}`]: the text of a primitive in a template literal. *)
Definition to_text (p : prim) : option string :=
  match p with
  | undefined => Some "undefined"
  | null => Some "null"
  | boolean b => Some (if b then "true" else "false")
  | str s => Some s
  | number x =>
      match Prim2SF x with
      | S754_nan => Some "NaN"
      | S754_infinity s => Some (if s then "-Infinity" else "Infinity")
      | f => z ← SF_to_Z f;
             if (Z.abs z <? 10 ^ 21)%Z then Some (decimal z) else None
      end
  end.

(** ['/foods'] (lines 37 and 47) and [`/foods/${id}`] (lines 62 and 78). *)
Definition path (u : url) : option string :=
  match u with
  | url_foods => Some "/foods"
  | url_food id => String.append "/foods/" <$> to_text id
  end.

Definition request_url (r : request) : url :=
  match r with GET u | POST u _ | PUT u _ | DELETE u => u end.

(** *** The store's side *)

(** What an address names. *)
Inductive resource :=
| Collection
| Item (id : Z).

(** [strip p s]: [s] without its prefix [p]. *)
Fixpoint strip (p s : string) : option string :=
  match p, s with
  | EmptyString, _ => Some s
  | String a p, String b s => if Ascii.eqb a b then strip p s else None
  | String _ _, EmptyString => None
  end.

(** The integer written in decimal notation, and in no other way: no
    sign for zero, no leading zero, no plus sign. *)
Definition read_decimal (s : string) : option Z :=
  z ← Z.of_int <$> NilZero.int_of_string s;
  if String.eqb (decimal z) s then Some z else None.

(** The routes of the store: [/foods] and [/foods/{id}]. *)
Definition route (s : string) : option resource :=
  if String.eqb s "/foods" then Some Collection
  else t ← strip "/foods/" s; Item <$> read_decimal t.

(** *** The address of a handler's call *)

(** The text of the address of the call a task issues first. *)
Definition address {A} (t : js A) : option string :=
  r ← issued t; path (request_url r).

(** The items the store can be asked for by id: their [id] is a number
    that is an integer below 10^21 in magnitude (section 3 of the
    specification: an integer the store assigns; line 21, [id: number]). *)
Definition integer_id (f : value) : bool :=
  match get_id f with
  | Ok (number x) =>
      match float_to_Z x with
      | Some z => (Z.abs z <? 10 ^ 21)%Z
      | None => false
      end
  | _ => false
  end.

(** ** Lemmas *)

Lemma strip_app p s : strip p (String.append p s) = Some s.
Proof. induction p as [|a p IH]; simpl; [done|]. by rewrite Ascii.eqb_refl. Qed.

Lemma strip_Some p s t : strip p s = Some t → s = String.append p t.
Proof.
  revert s. induction p as [|a p IH]; intros [|b s]; simpl; try done.
  - by intros [= <-].
  - by intros [= <-].
  - destruct (Ascii.eqb_spec a b) as [->|]; [|done]. by intros ->%IH.
Qed.

Lemma to_int_proper z :
  Z.to_int z ≠ Decimal.Pos Decimal.Nil ∧ Z.to_int z ≠ Decimal.Neg Decimal.Nil.
Proof.
  destruct z as [|p|p]; simpl; split; try done.
  - intros [= Hp]. by apply (Unsigned.to_uint_nonnil p).
  - intros [= Hp]. by apply (Unsigned.to_uint_nonnil p).
Qed.

(** Reading is the inverse of writing. *)
Lemma read_decimal_decimal z : read_decimal (decimal z) = Some z.
Proof.
  unfold read_decimal, decimal. destruct (to_int_proper z) as [Hp Hn].
  rewrite NilZero.isi by done. simpl. rewrite DecimalZ.of_to.
  by rewrite String.eqb_refl.
Qed.

Lemma read_decimal_Some s z : read_decimal s = Some z → s = decimal z.
Proof.
  unfold read_decimal. destruct (NilZero.int_of_string s) as [d|]; simpl; [|done].
  destruct (String.eqb_spec (decimal (Z.of_int d)) s) as [<-|]; [|done].
  by intros [= ->].
Qed.

Lemma not_decimal t z : read_decimal t = None → t ≠ decimal z.
Proof. intros Ht ->. by rewrite read_decimal_decimal in Ht. Qed.

Lemma decimal_inj z z' : decimal z = decimal z' → z = z'.
Proof.
  intros Hz. apply (f_equal read_decimal) in Hz.
  rewrite !read_decimal_decimal in Hz. by simplify_eq.
Qed.

(** *** The text of a number *)

(** The text of an integer. *)
Lemma to_text_integer x z :
  float_to_Z x = Some z → (Z.abs z < 10 ^ 21)%Z →
  to_text (number x) = Some (decimal z).
Proof.
  unfold float_to_Z, to_text. intros Hz Hb%Z.ltb_lt.
  destruct (Prim2SF x); try done; rewrite Hz; simpl; by rewrite Hb.
Qed.

Lemma to_text_decimal x z :
  to_text (number x) = Some (decimal z) →
  float_to_Z x = Some z ∧ (Z.abs z < 10 ^ 21)%Z.
Proof.
  unfold float_to_Z, to_text.
  assert (Hint : ∀ f, (z' ← SF_to_Z f;
                       if (Z.abs z' <? 10 ^ 21)%Z then Some (decimal z') else None)
                      = Some (decimal z) →
                      SF_to_Z f = Some z ∧ (Z.abs z < 10 ^ 21)%Z).
  { intros f. destruct (SF_to_Z f) as [z'|]; simpl; [|done].
    destruct (Z.ltb_spec (Z.abs z') (10 ^ 21)); [|done].
    by intros [= ->%decimal_inj]. }
  destruct (Prim2SF x) as [s|[]| |s m e]; intros Ht; try by apply Hint.
  all: by injection Ht as ?%not_decimal.
Qed.

(** *** Addresses *)

Lemma route_item t : route (String.append "/foods/" t) = Item <$> read_decimal t.
Proof. unfold route. by rewrite strip_app. Qed.

Lemma route_path_food p :
  path (url_food p) ≫= route = Item <$> (to_text p ≫= read_decimal).
Proof.
  unfold path. destruct (to_text p) as [t|]; [apply route_item | done].
Qed.

(** The ids whose address names an item: the integers, as numbers or
    already as text. *)
Lemma route_path_Item p z :
  path (url_food p) ≫= route = Some (Item z) ↔
  (∃ x, p = number x ∧ float_to_Z x = Some z ∧ (Z.abs z < 10 ^ 21)%Z)
  ∨ p = str (decimal z).
Proof.
  rewrite route_path_food. split.
  - destruct (to_text p) as [t|] eqn:Ht; simpl; [|done].
    destruct (read_decimal t) as [z'|] eqn:Hz; simpl; [|done].
    intros [= ->]. apply read_decimal_Some in Hz as ->.
    destruct p as [| |[]|x|s]; [by injection Ht as ?%not_decimal..|idtac|idtac].
    + left. exists x. split; [done|]. by apply to_text_decimal.
    + right. by injection Ht as ->.
  - intros [(x & -> & Hz & Hb)| ->].
    + rewrite (to_text_integer x z) by done. simpl. by rewrite read_decimal_decimal.
    + simpl. by rewrite read_decimal_decimal.
Qed.

(** *** What the handlers send *)

Lemma address_handleDeleteFood s id :
  address (handleDeleteFood s id) = path (url_food id).
Proof. done. Qed.

Lemma address_handleUpdateFood s patch id :
  get_id (editingFood s) = Ok id →
  address (handleUpdateFood s patch) = path (url_food id).
Proof. unfold address, handleUpdateFood. by intros ->. Qed.

Lemma integer_id_inv f :
  integer_id f = true →
  ∃ x z, get_id f = Ok (number x) ∧ float_to_Z x = Some z ∧ (Z.abs z < 10 ^ 21)%Z.
Proof.
  unfold integer_id. destruct (get_id f) as [[| | |x|]|]; try done.
  destruct (float_to_Z x) as [z|] eqn:Hz; [|done]. intros Hb%Z.ltb_lt. by exists x, z.
Qed.

(** The address of an item with an integer id names an item. *)
Lemma integer_id_routed f :
  integer_id f = true →
  ∃ id z, get_id f = Ok id ∧ path (url_food id) ≫= route = Some (Item z).
Proof.
  intros (x & z & Hf & Hx & Hz)%integer_id_inv. exists (number x), z.
  split; [done|]. apply route_path_Item. left. by exists x.
Qed.

(** On integer ids the text tells apart what [===] tells apart. *)
Lemma integer_id_text f g :
  integer_id f = true → integer_id g = true →
  to_text (id_of f) = to_text (id_of g) ↔ strict_eq (id_of f) (id_of g) = true.
Proof.
  intros (x & z & Hf & Hx & Hz)%integer_id_inv (y & z' & Hg & Hy & Hz')%integer_id_inv.
  unfold id_of. rewrite Hf, Hg. cbv iota.
  rewrite (to_text_integer x z), (to_text_integer y z') by done. split.
  - intros [= <-%decimal_inj]. by apply (float_to_Z_eqb x y z).
  - intros Hxy%eqb_float_to_Z. congruence.
Qed.

Lemma path_food_inj p q :
  path (url_food p) = path (url_food q) → to_text p = to_text q.
Proof.
  intros Hpq. apply (f_equal (λ o, o ≫= strip "/foods/")) in Hpq. revert Hpq.
  unfold path. by destruct (to_text p) as [t|], (to_text q) as [u|].
Qed.

(** For integer ids the address tells apart what [===] tells apart. *)
Lemma path_food_strict_eq x y z :
  float_to_Z x = Some z → (Z.abs z < 10 ^ 21)%Z →
  path (url_food (number y)) = path (url_food (number x))
  ↔ strict_eq (number x) (number y) = true.
Proof.
  intros Hz Hb. pose proof (to_text_integer x z Hz Hb) as Hx. split.
  - intros Hy%path_food_inj. rewrite Hx in Hy.
    apply to_text_decimal in Hy as [Hy _]. by apply (float_to_Z_eqb x y z).
  - intros Hxy%eqb_float_to_Z. unfold path. rewrite Hx.
    by rewrite (to_text_integer y z) by congruence.
Qed.



(** C32.  Integer ids are exact on the page below 2^53 in magnitude, and
    not beyond.  Every integer below 2^53 in magnitude is a number; the
    address of that number names the item with that integer, and the
    numbers with that address are the numbers [===] to it.  From 2^53 on
    the numbers of the page skip integers: when the address of a number
    names the item with the integer [z] and [z] is 2^53 or more in
    magnitude, [z] is even, so no number of the page addresses the item
    with id 2^53 + 1. *)
Theorem ids_exact_below_2_53 z :
  ((Z.abs z < 2 ^ 53)%Z →
   ∃ x, float_to_Z x = Some z
        ∧ ∀ y, path (url_food (number y)) ≫= route = Some (Item z)
               ↔ strict_eq (number x) (number y) = true)
  ∧ ((2 ^ 53 ≤ Z.abs z)%Z →
     ∀ x, path (url_food (number x)) ≫= route = Some (Item z) → Z.even z = true).
Proof.
  split.
  - intros Hz. destruct (float_to_Z_surj z Hz) as [x Hx]. exists x. split; [done|].
    assert (Z.abs z < 10 ^ 21)%Z by lia.
    intros y. rewrite route_path_Item. split.
    + intros [(? & [= <-] & Hy & _)|[=]]. by apply (float_to_Z_eqb x y z).
    + intros Hxy%eqb_float_to_Z. left. exists y. split_and!; [done|congruence|done].
  - intros Hz x. rewrite route_path_Item.
    intros [(? & [= <-] & Hx & _)|[=]]. by apply (float_to_Z_even x).
Qed.

(** The largest safe integer is addressed exactly; 2^53 + 2 is a number
    and is even. *)
Example ids_exact_at_the_bound :
  (path (url_food (number 9007199254740991)) ≫= route
   = Some (Item 9007199254740991))
  ∧ float_to_Z 9007199254740994 = Some 9007199254740994%Z.
Proof. by vm_compute. Qed.

(** With the editing slot never set, the update is put to
    [/foods/undefined], which is no route of the store. *)
Example empty_slot_not_routed :
  address (handleUpdateFood initial price_25) = Some "/foods/undefined"
  ∧ address (handleUpdateFood initial price_25) ≫= route = None.
Proof. by vm_compute. Qed.

(** 2^53 + 1, computed on the page, is 2^53. *)
Example unsafe_integers_collide :
  strict_eq (number (9007199254740992 + 1)) (number 9007199254740992) = true
  ∧ path (url_food (number (9007199254740992 + 1))) = Some "/foods/9007199254740992".
Proof. by vm_compute. Qed.
