(* ===== verification/Machine.v ===== *)
(** * Machine: the dashboard on the event loop

    The component of [Dashboard] run by the machine of [EventLoop]: events
    fire handlers, handlers park continuations on the calls they await,
    calls settle in any order.  The executions start from [boot], the
    configuration after the first render, with the fetch of the list in
    flight.

    This file holds what is true of every execution (what each
    continuation in flight may still do, that settling a call always
    shrinks what is in flight, which events can change which cell), and
    what some executions do: the scenario of the specification, and the
    interleavings in which the list on the page parts from the answers
    the server gave.  A call that is never answered is part of no
    execution but as a call in flight: the page does around it what it
    does without it ([hung_call_invisible]). *)

From Stdlib Require Import Floats.
From stdpp Require Import strings gmap.
From S2P Require Import Prelude JsValue Task EventLoop Dashboard.

(** ** Definitions *)

Abbreviation dstep := (step act handler alive).
Abbreviation dsteps := (steps act handler alive).
Abbreviation play := (execs act handler alive).

(** The configurations the page can be in. *)
Definition reachable (c : dconfig) : Prop := ∃ ls, dsteps boot ls c.

(** The effects a continuation performs after its call has settled: it
    sets the list or logs. *)
Definition quiet (u : effect) : Prop :=
  match u with
  | setFoods _ | console_log _ => True
  | _ => False
  end.

(** What every continuation in flight is: it does not suspend again and
    its effects are [quiet]. *)
Definition final (t : js unit) : Prop := suspends 0 t ∧ performs quiet t.

(** The effects that leave the editing slot alone. *)
Definition keeps_slot (u : effect) : Prop :=
  match u with setEditingFood _ => False | _ => True end.

(** The effects that leave the two flags alone. *)
Definition keeps_flags (u : effect) : Prop :=
  match u with setModalOpen _ | setEditModalOpen _ => False | _ => True end.

(** What [getFoods] parks at its [await]. *)
Definition getFoods_resume (o : outcome exn (response collection)) : js unit :=
  match o with Fulfilled r => Ret r | Rejected e => Throw e end
  ≫= λ response, perform (setFoods (data response)).

(** The list a task leaves on the page when it runs without suspending:
    the argument of its last [setFoods], if it calls it. *)
Fixpoint written (t : js unit) : option collection :=
  match t with
  | Do (setFoods l) k => Some (default l (written k))
  | Do _ k => written k
  | _ => None
  end.

(** An add and its answer, with nothing in between. *)
Definition add_round (r : value * value) : list (move (E:=exn) (C:=api) (Ev:=event)) :=
  [Click (ModalAddFood_handleAddFood r.1); Answer 0 (answer [] r.2)].

(** ** Lemmas *)

Lemma quiet_keeps_slot u : quiet u → keeps_slot u.
Proof. by destruct u. Qed.

Lemma quiet_keeps_flags u : quiet u → keeps_flags u.
Proof. by destruct u. Qed.

Lemma final_resumes t : final t → resumes final t.
Proof. intros [H _]. by apply suspends_0_resumes. Qed.

(** Proves [final], [suspends], [performs] and [resumes] goals on the
    trees of the handlers, by cases on what the calls and the accesses to
    [id] return. *)
Ltac solve_shape :=
  repeat first
    [ progress (simpl; intros)
    | split
    | constructor
    | case_match
    | match goal with |- context [lift ?r] => destruct r end ];
  try done.

Lemma getFoods_resumes : resumes final getFoods.
Proof. unfold getFoods. solve_shape. Qed.

Lemma dispatch_resumes s ev : resumes final (dispatch s ev).
Proof.
  destruct ev; simpl;
    unfold toggleModal, toggleEditModal, handleAddFood, handleUpdateFood,
      handleDeleteFood, handleEditFood; solve_shape.
Qed.

(** *** What is in flight *)

Lemma boot_parked : parked final boot.
Proof. apply parked_run; [apply getFoods_resumes | constructor]. Qed.

Lemma step_parked c l c' : parked final c → dstep c l c' → parked final c'.
Proof.
  apply parked_step; [intros w ev; apply dispatch_resumes | apply final_resumes].
Qed.

Lemma reachable_parked c : reachable c → parked final c.
Proof.
  intros [ls Hls].
  eapply (steps_invariant act handler alive (parked final)); [|apply boot_parked|done].
  intros ????. by apply step_parked.
Qed.

Lemma parked_final_suspends (c : dconfig) : parked final c → parked (suspends 0) c.
Proof. intros H. eapply Forall_impl; [exact H|]. intros p Hp o. apply Hp. Qed.

Lemma reachable_step c l c' : reachable c → dstep c l c' → reachable c'.
Proof.
  intros [ls Hls] Hstep. exists (ls ++ [l]).
  eapply steps_app; [done|]. by apply steps_one.
Qed.

(** Every handler suspends at most once, and what it parks never
    suspends again: in every configuration the page can reach, settling
    a call leaves exactly one call fewer in flight. *)
Lemma settle_shrinks c i R (o : outcome exn R) c' :
  reachable c → dstep c (Settle i o) c' →
  S (length (inflight c')) = length (inflight c).
Proof.
  intros Hc. eapply settle_length.
  by apply parked_final_suspends, reachable_parked.
Qed.

Lemma boot_reachable : reachable boot.
Proof. exists []. constructor. Qed.

(** Answering the oldest call in flight. *)
Lemma exec_Answer_0 (ans : answers) c :
  parked final c → inflight c ≠ [] →
  ∃ c', exec act handler alive (Answer 0 ans) c = Some c'
        ∧ parked final c'
        ∧ S (length (inflight c')) = length (inflight c).
Proof.
  intros Hc Hne. destruct (inflight c) as [|[R call k] l] eqn:Hl; [done|].
  eexists. simpl. rewrite Hl. simpl. split; [done|].
  assert (Hk : final (k (ans R call))).
  { eapply (parked_lookup _ 0); [done|]. by rewrite Hl. }
  split.
  - apply parked_run; [by apply final_resumes|]. by apply parked_delete.
  - rewrite run_suspends_0 by apply Hk. simpl. by rewrite Hl.
Qed.

Lemma drain_parked (ans : answers) n c :
  parked final c → length (inflight c) = n →
  ∃ c', play (replicate n (Answer 0 ans)) c = Some c' ∧ inflight c' = [].
Proof.
  revert c. induction n as [|n IH]; intros c Hc Hn.
  - exists c. split; [done|]. by apply nil_length_inv.
  - destruct (exec_Answer_0 ans c Hc) as (c1 & Hc1 & Hp1 & Hl1).
    { intros Hnil. by rewrite Hnil in Hn. }
    destruct (IH c1 Hp1) as (c' & Hc' & Hnil); [lia|].
    exists c'. split; [|done].
    change (exec act handler alive (Answer 0 ans) c
            ≫= play (replicate n (Answer 0 ans)) = Some c').
    by rewrite Hc1.
Qed.

(** C37.  The page always comes to rest: from every configuration it can
    reach, with [n] calls in flight, answering the oldest call [n] times
    leaves nothing in flight, whatever the answers are.  No handler waits
    for a second call, loops or parks new work. *)
Theorem drains (ans : answers) c :
  reachable c →
  ∃ c', play (replicate (length (inflight c)) (Answer 0 ans)) c = Some c'
        ∧ inflight c' = [].
Proof. intros Hc. apply drain_parked; [by apply reachable_parked | done]. Qed.

Lemma drains_witness :
  ∃ c', play (replicate (length (inflight boot)) (Answer 0 (answer [food_1] food_1)))
          boot = Some c'
        ∧ inflight c' = [].
Proof. apply (drains (answer [food_1] food_1) boot). apply boot_reachable. Defined.


Lemma play_reachable ms c c' : reachable c → play ms c = Some c' → reachable c'.
Proof.
  intros [ls Hls] (ls' & Hls')%execs_steps. exists (ls ++ ls').
  by eapply steps_app.
Qed.

Lemma reachable_final c i R (call : api R) k o :
  reachable c → inflight c !! i = Some (Pending R call k) → final (k o).
Proof.
  intros Hc Hi. eapply (parked_lookup final); [by apply reachable_parked | done].
Qed.

(** *** Which step changes which cell *)

(** What the effects of a continuation in flight leave alone is as it
    was after the call has settled. *)
Lemma settle_preserved {A} (proj : page → A) (P : effect → Prop)
    c i R (call : api R) k o :
  reachable c → inflight c !! i = Some (Pending R call k) →
  (∀ u w, P u → proj (act u w) = proj w) → (∀ u, quiet u → P u) →
  proj (world (run act (k o) (set_inflight (delete i) c))) = proj (world c).
Proof.
  intros Hc Hi Hact HP.
  apply (run_world_preserved act proj P _ (set_inflight (delete i) c)); [done|].
  eapply performs_mono; [exact HP|]. by eapply reachable_final.
Qed.

Lemma dispatch_keeps_slot s ev :
  (∀ food, ev ≠ Food_handleEditFood food) → performs keeps_slot (dispatch s ev).
Proof.
  intros Hev. destruct ev; try (by destruct (Hev food)); simpl;
    unfold toggleModal, toggleEditModal, handleAddFood, handleUpdateFood,
      handleDeleteFood; solve_shape.
Qed.

Lemma boot_Settle_step :
  dstep boot (Settle 0 (Rejected (R:=response collection) TypeError))
    (run act (getFoods_resume (Rejected TypeError)) (set_inflight (delete 0) boot)).
Proof.
  apply (step_Settle act handler alive boot 0 _ (api_get url_foods)
           getFoods_resume).
  reflexivity.
Qed.

(** *** The synchronous handlers, as events *)

Lemma alive_foods w w' : foods (ui w) = foods (ui w') → alive w = alive w'.
Proof. intros H. unfold alive. by rewrite !render_is_ok, H. Qed.

Lemma exec_Click ev (c : dconfig) :
  alive (world c) = true →
  exec act handler alive (Click ev) c = Some (run act (dispatch (ui (world c)) ev) c).
Proof. intros H. simpl. by rewrite H. Qed.

(** C40.  The synchronous handlers.  Each toggle flips its own flag and
    nothing else (the toggle of the edit modal does not empty the editing
    slot), and two toggles of the same modal, from the header or from the
    modal, bring the page back to where it was.  The edit request of a
    [Food] puts the item in the editing slot and sets [editModalOpen] to
    [true], whether the modal was open or not; the add modal's flag and
    the list are as before. *)
Theorem synchronous_handlers (c : dconfig) food :
  alive (world c) = true →
  play [Click Header_openModal] c
  = Some (set_world (λ w, Page (State (negb (modalOpen (ui w)))
                                 (editModalOpen (ui w)) (foods (ui w))
                                 (editingFood (ui w))) (console w)) c)
  ∧ play [Click Header_openModal; Click ModalAddFood_setIsOpen] c = Some c
  ∧ play [Click ModalEditFood_setIsOpen] c
    = Some (set_world (λ w, Page (State (modalOpen (ui w))
                                   (negb (editModalOpen (ui w))) (foods (ui w))
                                   (editingFood (ui w))) (console w)) c)
  ∧ play [Click ModalEditFood_setIsOpen; Click ModalEditFood_setIsOpen] c = Some c
  ∧ play [Click (Food_handleEditFood food)] c
    = Some (set_world (λ w, Page (State (modalOpen (ui w)) true (foods (ui w)) food)
                              (console w)) c).
Proof.
  intros Hc. destruct c as [[[m e f ed] con] inf unc].
  split_and!; cbn [execs]; rewrite exec_Click by done; try done.
  all: cbn [mbind option_bind]; rewrite exec_Click by (by erewrite alive_foods).
  all: simpl; by rewrite negb_involutive.
Qed.

Lemma synchronous_handlers_witness :
  play [Click Header_openModal] (idle initial)
  = Some (set_world (λ w, Page (State (negb (modalOpen (ui w)))
                                 (editModalOpen (ui w)) (foods (ui w))
                                 (editingFood (ui w))) (console w)) (idle initial))
  ∧ play [Click Header_openModal; Click ModalAddFood_setIsOpen] (idle initial)
    = Some (idle initial)
  ∧ play [Click ModalEditFood_setIsOpen] (idle initial)
    = Some (set_world (λ w, Page (State (modalOpen (ui w))
                                   (negb (editModalOpen (ui w))) (foods (ui w))
                                   (editingFood (ui w))) (console w)) (idle initial))
  ∧ play [Click ModalEditFood_setIsOpen; Click ModalEditFood_setIsOpen] (idle initial)
    = Some (idle initial)
  ∧ play [Click (Food_handleEditFood food_1)] (idle initial)
    = Some (set_world (λ w, Page (State (modalOpen (ui w)) true (foods (ui w)) food_1)
                              (console w)) (idle initial)).
Proof. apply (synchronous_handlers (idle initial) food_1). reflexivity. Defined.

(** *** Executions *)

(** The scenario of the specification.  The fetch returns an empty
    list; a pizza is added and the server returns it with id 1; it is put
    in the editing slot and its price is updated to 25; it is deleted.
    The list on the page is [[]], then the created item, then the updated
    item, then [[]] again; nothing is logged, nothing is uncaught, nothing
    is left in flight.  At the end the edit modal is still flagged open
    and the deleted item is still in the editing slot. *)
Example scenario :
  play [Answer 0 (answer [] (Obj ∅))] boot = Some (idle initial)
  ∧ play [Click (ModalAddFood_handleAddFood food_form);
          Answer 0 (answer [] food_1)] (idle initial)
    = Some (idle (State false false (Array [food_1]) (Obj ∅)))
  ∧ play [Click (Food_handleEditFood food_1);
          Click (ModalEditFood_handleUpdateFood price_25);
          Answer 0 (answer [] food_1')] (idle (State false false (Array [food_1]) (Obj ∅)))
    = Some (idle (State false true (Array [food_1']) food_1))
  ∧ play [Click (Food_handleDelete (number 1));
          Answer 0 (answer [] (Obj ∅))] (idle (State false true (Array [food_1']) food_1))
    = Some (idle (State false true (Array []) food_1)).
Proof. by vm_compute. Qed.

(** C27.  Two adds that overlap lose the first item.  When a second add
    is submitted before the first is answered, both closures hold the
    same list; each answer sets [foods] to that list plus its own item,
    so after both answers the page shows the second item only, while the
    server has created both. *)
Theorem overlapping_adds_lose_update (c : dconfig) f1 f2 (ans1 ans2 : answers)
    r1 r2 l :
  alive (world c) = true →
  inflight c = [] →
  iterate (foods (ui (world c))) = Ok l →
  ans1 _ (api_post url_foods (spread_with f1 "available" (boolean true)))
    = Fulfilled r1 →
  truthy (data r1) = true →
  ans2 _ (api_post url_foods (spread_with f2 "available" (boolean true)))
    = Fulfilled r2 →
  truthy (data r2) = true →
  ∃ c', play [Click (ModalAddFood_handleAddFood f1);
              Click (ModalAddFood_handleAddFood f2);
              Answer 0 ans1; Answer 0 ans2] c = Some c'
        ∧ foods (ui (world c')) = Array (l ++ [data r2]).
Proof.
  intros Hc Hin Hl H1 Hr1 H2 Hr2. destruct c as [w inf unc].
  simpl in Hc, Hin, Hl. subst inf.
  eexists. split.
  - cbn [execs]. rewrite exec_Click by done. cbn [mbind option_bind].
    rewrite exec_Click by done. simpl. rewrite H1. simpl. rewrite Hr1, Hl. simpl.
    rewrite H2. simpl. rewrite Hr2. reflexivity.
  - done.
Qed.

Lemma overlapping_adds_lose_update_witness :
  ∃ c', play [Click (ModalAddFood_handleAddFood food_form);
              Click (ModalAddFood_handleAddFood food_form);
              Answer 0 (answer [] food_1); Answer 0 (answer [] food_2)]
          (idle initial) = Some c'
        ∧ foods (ui (world c')) = Array ([] ++ [food_2]).
Proof.
  apply (overlapping_adds_lose_update (idle initial) food_form food_form
           (answer [] food_1) (answer [] food_2) (Response food_1)
           (Response food_2) []); reflexivity.
Defined.

(** An empty answer to the fetch.  The GET is fulfilled with [null]: the
    cell [foods] holds [null], the page renders and lists nothing.  An
    add is then answered with the created item: the spread throws, the
    [TypeError] is logged, and the page still lists nothing. *)
Example fetch_not_array :
  play [Answer 0 (answer_with (NotArray (Prim null)) food_1);
        Click (ModalAddFood_handleAddFood food_form);
        Answer 0 (answer [] food_1)] boot
  = Some (Config (Page (State false false (NotArray (Prim null)) (Obj ∅)) [TypeError])
            [] [])
  ∧ alive (Page (State false false (NotArray (Prim null)) (Obj ∅)) [TypeError]) = true.
Proof. by vm_compute. Qed.

(** The two modals can be flagged open together: the page reaches
    a configuration in which both flags are [true]. *)
Example both_modals_open :
  ∃ c, reachable c
       ∧ modalOpen (ui (world c)) = true ∧ editModalOpen (ui (world c)) = true.
Proof.
  eexists. split.
  - eapply (play_reachable [Click Header_openModal;
                            Click (Food_handleEditFood food_1)]);
      [apply boot_reachable | reflexivity].
  - done.
Qed.

(** A list that contains [null] stops the page: rendering throws a
    [TypeError] at [key={food.id}], and no event can occur any more. *)
Lemma null_item_stops_page (c : dconfig) ev l :
  foods (ui (world c)) = Array l →
  Prim null ∈ l →
  render (ui (world c)) = Err TypeError
  ∧ exec act handler alive (Click ev) c = None.
Proof.
  intros Hfoods Hnull.
  assert (Hr : render (ui (world c)) = Err TypeError).
  { unfold render. rewrite Hfoods. simpl.
    destruct (mapM _ l) as [l'|e] eqn:Hl; simpl; [|by rewrite (keys_Err l e)].
    apply mapM_Ok_Forall2 in Hl. apply list_elem_of_lookup in Hnull as [i Hi].
    by destruct (Forall2_lookup_l _ _ _ _ _ Hl Hi) as (y & _ & Hy). }
  split; [done|]. simpl. unfold alive. by rewrite Hr.
Qed.

(** *** Answers overwrite; adds in sequence *)

Lemma run_written t (c : dconfig) :
  suspends 0 t →
  foods (ui (world (run act t c))) = default (foods (ui (world c))) (written t).
Proof.
  intros H. revert c. remember 0 as n eqn:Hn.
  induction H as [| |n u k _ IH|n R call k _ _]; intros c; simpl; try done.
  rewrite IH by done. by destruct u.
Qed.



(** An add answered at once is the handler run alone. *)
Lemma play_add_round (c : dconfig) r :
  inflight c = [] → alive (world c) = true →
  play (add_round r) c
  = Some (finish act (answer [] r.2) (handleAddFood (ui (world c)) r.1) c).
Proof.
  intros Hin Hc. destruct c as [w inf unc]. simpl in *. subst inf.
  rewrite Hc. simpl. destruct (truthy r.2); simpl; [|done].
  by destruct (iterate _).
Qed.

(** C28.  Sequences of successful adds.  From a page at rest, adds that
    are each answered before the next with an item (a truthy value) put
    these items at the end of the list, in the order of the adds: the
    list grows by one per add and its new element is the one the server
    returned. *)
Theorem sequential_adds_append (reqs : list (value * value)) (c : dconfig) l :
  inflight c = [] → alive (world c) = true →
  foods (ui (world c)) = Array l →
  Forall (λ r, truthy r.2 = true) reqs →
  ∃ c', play (reqs ≫= add_round) c = Some c'
        ∧ foods (ui (world c')) = Array (l ++ reqs.*2)
        ∧ inflight c' = [].
Proof.
  revert c l. induction reqs as [|r reqs IH]; intros c l Hin Hc Hl Hreqs.
  - exists c. by rewrite app_nil_r.
  - apply Forall_cons in Hreqs as [Hr Hreqs].
    assert (play (add_round r) c
            = Some (set_world (act (setFoods (Array (l ++ [r.2])))) c))
      as Hplay.
    { rewrite play_add_round, finish_handleAddFood by done. simpl.
      by rewrite Hr, Hl. }
    destruct (IH (set_world (act (setFoods (Array (l ++ [r.2])))) c) (l ++ [r.2]))
      as (c' & Hc' & Hf & Hin'); [done| |done|done|].
    { apply (alive_Forall _ (l ++ [r.2])); [done|]. apply Forall_app.
      split; [by apply (alive_Forall (world c))|].
      repeat constructor. by apply truthy_has_id. }
    exists c'. split_and!; [|by rewrite Hf, <-app_assoc|done].
    change (play (add_round r ++ (reqs ≫= add_round)) c = Some c').
    by rewrite execs_app, Hplay.
Qed.

Lemma sequential_adds_append_witness :
  ∃ c', play ([(food_form, food_1); (food_form, food_2)] ≫= add_round) (idle initial)
        = Some c'
        ∧ foods (ui (world c'))
          = Array ([] ++ [(food_form, food_1); (food_form, food_2)].*2)
        ∧ inflight c' = [].
Proof.
  apply (sequential_adds_append [(food_form, food_1); (food_form, food_2)]
           (idle initial) []);
    [reflexivity | reflexivity | reflexivity | by repeat constructor].
Defined.

(** *** Events and the list *)

Lemma run_dispatch_foods s ev (c : dconfig) :
  foods (ui (world (run act (dispatch s ev) c))) = foods (ui (world c)).
Proof.
  destruct ev; simpl; try done.
  unfold handleUpdateFood. by destruct (get_id (editingFood s)).
Qed.

(** The flags and the editing slot when a call settles. *)
Lemma settle_cells c i R (call : api R) k o :
  reachable c → inflight c !! i = Some (Pending R call k) →
  let s' := ui (world (run act (k o) (set_inflight (delete i) c))) in
  modalOpen s' = modalOpen (ui (world c))
  ∧ editModalOpen s' = editModalOpen (ui (world c))
  ∧ editingFood s' = editingFood (ui (world c)).
Proof.
  intros Hc Hi. split_and!.
  - by eapply (settle_preserved (modalOpen ∘ ui) keeps_flags);
      [| |intros [] w|apply quiet_keeps_flags].
  - by eapply (settle_preserved (editModalOpen ∘ ui) keeps_flags);
      [| |intros [] w|apply quiet_keeps_flags].
  - by eapply (settle_preserved (editingFood ∘ ui) keeps_slot);
      [| |intros [] w|apply quiet_keeps_slot].
Qed.

(** C38.  Which step changes which cell.  When an event fires, its handler
    runs up to its call and the list on the page is as before: the list
    changes only when a call settles, and while the call is pending, or
    if it never settles, the page shows nothing of the operation.  The
    editing slot is set by the edit request of a [Food] and by nothing
    else: no other event changes it, and in particular closing the edit
    modal does not empty it.  When a call settles, the two flags and the
    editing slot are as before: an answer changes the list at most, no
    modal is closed by the success of what it submitted, and the editing
    slot survives the update or the deletion of the item it holds. *)
Theorem step_keeps_cells c l c' :
  reachable c → dstep c l c' →
  match l with
  | Fire ev =>
      foods (ui (world c')) = foods (ui (world c))
      ∧ ((∀ food, ev ≠ Food_handleEditFood food) →
         editingFood (ui (world c')) = editingFood (ui (world c)))
  | Settle _ _ =>
      modalOpen (ui (world c')) = modalOpen (ui (world c))
      ∧ editModalOpen (ui (world c')) = editModalOpen (ui (world c))
      ∧ editingFood (ui (world c')) = editingFood (ui (world c))
  end.
Proof.
  intros Hc Hstep. destruct Hstep as [c ev _|c i R call k o Hi].
  - split; [apply run_dispatch_foods|]. intros Hev.
    apply (run_world_preserved act (editingFood ∘ ui) keeps_slot); [by intros [] w|].
    by apply dispatch_keeps_slot.
  - by eapply settle_cells.
Qed.

Lemma step_keeps_cells_witness :
  modalOpen (ui (world (run act (getFoods_resume (Rejected TypeError))
                          (set_inflight (delete 0) boot))))
  = modalOpen (ui (world boot))
  ∧ editModalOpen (ui (world (run act (getFoods_resume (Rejected TypeError))
                                (set_inflight (delete 0) boot))))
    = editModalOpen (ui (world boot))
  ∧ editingFood (ui (world (run act (getFoods_resume (Rejected TypeError))
                              (set_inflight (delete 0) boot))))
    = editingFood (ui (world boot)).
Proof.
  apply (step_keeps_cells boot (Settle 0 (Rejected TypeError)) _
           boot_reachable boot_Settle_step).
Defined.

(** *** The editing slot along scripted executions *)

Lemma exec_reachable m (c c' : dconfig) :
  reachable c → exec act handler alive m c = Some c' → reachable c'.
Proof. intros Hc [l Hl]%exec_step. by eapply reachable_step. Qed.

(** A move sets the editing slot to the item of an edit request, and
    leaves it alone otherwise. *)
Lemma exec_slot m (c c' : dconfig) :
  reachable c → exec act handler alive m c = Some c' →
  editingFood (ui (world c'))
  = match m with
    | Click (Food_handleEditFood food) => food
    | _ => editingFood (ui (world c))
    end.
Proof.
  intros Hc. destruct m as [ev|i ans]; simpl.
  - destruct (alive (world c)); [|done]. intros [= <-].
    destruct ev; try done;
      by apply (run_world_preserved act (editingFood ∘ ui) keeps_slot);
        [intros [] w|apply dispatch_keeps_slot].
  - destruct (inflight c !! i) as [[R call k]|] eqn:Hi; [|done]. intros [= <-].
    by eapply (settle_preserved (editingFood ∘ ui) keeps_slot);
      [| |intros [] w|apply quiet_keeps_slot].
Qed.

(** *** A call that hangs *)

(** A handler that sends a request does nothing before it: it is parked
    as it is. *)
Lemma issued_parks s ev r (c : dconfig) :
  issued (dispatch s ev) = Some r →
  ∃ p, request_of (p_call p) = r
       ∧ run act (dispatch s ev) c = hang (length (inflight c)) p c.
Proof.
  destruct ev; simpl; try done.
  2: unfold handleUpdateFood; destruct (get_id (editingFood s)); simpl; [|done].
  all: intros [= <-]; eexists (Pending _ _ _).
  all: split; [|unfold hang, set_inflight; simpl; by rewrite place_length]; done.
Qed.

(** C36.  A call that hangs is invisible.  When the call of an add, an
    update or a delete is never answered, the page goes on as if the
    event had not occurred: after any sequence of events and answers to
    the other calls, the cells, the console, what is uncaught and the
    other calls in flight are what they are without the event, and the
    hanging call is still parked among them.  The operation appears to
    do nothing, and nothing ever times out. *)
Theorem hung_call_invisible ev r ms (c : dconfig) :
  alive (world c) = true →
  issued (handler (world c) ev) = Some r →
  ∃ p, request_of (p_call p) = r
       ∧ play (Click ev :: pasts (length (inflight c)) ms) c
         = hang (sunk (length (inflight c)) ms) p <$> play ms c.
Proof.
  intros Hc Hr. destruct (issued_parks _ ev r c Hr) as (p & Hp & Hrun).
  exists p. split; [done|]. cbn [execs]. simpl. rewrite Hc. simpl.
  unfold handler in *. rewrite Hrun. by apply execs_hang.
Qed.

Lemma hung_call_invisible_witness :
  ∃ p, request_of (p_call p) = DELETE (url_food (number 1))
       ∧ play (Click (Food_handleDelete (number 1))
               :: pasts (length (inflight (idle (State false false (Array [food_1]) (Obj ∅)))))
                    [Click Header_openModal;
                     Click (ModalAddFood_handleAddFood food_form);
                     Answer 0 (answer [] food_2)])
           (idle (State false false (Array [food_1]) (Obj ∅)))
         = hang (sunk (length (inflight (idle (State false false (Array [food_1]) (Obj ∅)))))
                   [Click Header_openModal;
                    Click (ModalAddFood_handleAddFood food_form);
                    Answer 0 (answer [] food_2)]) p
           <$> play [Click Header_openModal;
                     Click (ModalAddFood_handleAddFood food_form);
                     Answer 0 (answer [] food_2)]
                 (idle (State false false (Array [food_1]) (Obj ∅))).
Proof.
  apply (hung_call_invisible (Food_handleDelete (number 1))); reflexivity.
Defined.

(** The add is answered while the delete hangs: its item is listed, the
    deleted item too, and the delete is still in flight. *)
Example hung_delete :
  ∃ c', play [Click (Food_handleDelete (number 1)); Click Header_openModal;
              Click (ModalAddFood_handleAddFood food_form); Answer 1 (answer [] food_2)]
          (idle (State false false (Array [food_1]) (Obj ∅))) = Some c'
        ∧ world c' = Page (State true false (Array [food_1; food_2]) (Obj ∅)) []
        ∧ (λ p, request_of (p_call p)) <$> inflight c' = [DELETE (url_food (number 1))]
        ∧ uncaught c' = [].
Proof. eexists. by split_and!. Qed.
