(* ===== verification/Reducer.v ===== *)
(** * Reducer: the component as transitions on first-order data

    In [Dashboard] a handler is a task, and what waits for an answer is a
    continuation, a function.  This file writes the same component as the
    reducer that section 9 of the specification recommends: a state that
    is data - the page, the requests in flight, the exceptions that
    escaped - and one pure transition per event and per answer.

    A request in flight is a [job]: what was asked, and the list the
    handler captured when it was called ([Adding body foods], ...).
    [settle] says what an answer makes of a job, on every branch of the
    handler: the list it sets, the exception it logs, the exception that
    escapes, or nothing.  It depends on the job and on the answer, and on
    nothing else: not on the list the page shows when the answer arrives.

    The theorem is that the machine of [Machine] and the reducer go
    through the same states, move for move, on every sequence of events
    and answers ([play_reduces]): every continuation a handler parks does
    what [settle] says of its job ([parks]). *)

From Stdlib Require Import Floats.
From stdpp Require Import strings gmap.
From S2P Require Import Prelude JsValue Task EventLoop Dashboard Machine.

(** ** Definitions *)

(** *** Requests in flight *)

(** A request in flight and the list that the handler waiting for its
    answer holds: the fetch of [getFoods] (lines 36-40), the POST of
    [handleAddFood] (lines 45-58), the PUT of [handleUpdateFood] (lines
    60-75), the DELETE of [handleDeleteFood] (lines 77-83). *)
Inductive job :=
| Fetching
| Adding (body : object) (foods : collection)
| Updating (id : prim) (body : object) (foods : collection)
| Deleting (id : prim) (foods : collection).

(** The type of the answer a job waits for, and its call. *)
Definition job_type (j : job) : Type :=
  match j with
  | Fetching => response collection
  | _ => response value
  end.

Definition job_call (j : job) : api (job_type j) :=
  match j with
  | Fetching => api_get url_foods
  | Adding body _ => api_post url_foods body
  | Updating id body _ => api_put (url_food id) body
  | Deleting id _ => api_delete (url_food id)
  end.

(** How a handler ends once its call has settled. *)
Inductive verdict :=
| Sets (l : collection)      (* [setFoods(l)] *)
| Logs (e : exn)             (* [console.log(e)] in a [catch] *)
| Escapes (e : exn)          (* an exception nothing catches *)
| Nothing.

(** What an answer makes of a job: the lines after the [await] of each
    handler. *)
Definition settle (j : job) : outcome exn (job_type j) → verdict :=
  match j with
  | Fetching => λ o,
      match o with
      | Fulfilled r => Sets (data r)
      | Rejected e => Escapes e
      end
  | Adding _ foods => λ o,
      match o with
      | Fulfilled r =>
          if truthy (data r)
          then match iterate foods with
               | Ok l => Sets (Array (l ++ [data r]))
               | Err e => Logs e
               end
          else Nothing
      | Rejected e => Logs e
      end
  | Updating _ _ foods => λ o,
      match o with
      | Fulfilled r =>
          match as_array foods ≫= mapM (replace_updated (data r)) with
          | Ok l => Sets (Array l)
          | Err e => Logs e
          end
      | Rejected e => Logs e
      end
  | Deleting id foods => λ o,
      match o with
      | Fulfilled _ =>
          match as_array foods ≫= filterM (keep_other id) with
          | Ok l => Sets (Array l)
          | Err e => Escapes e
          end
      | Rejected e => Escapes e
      end
  end.

(** *** The state and its transitions *)

Record reduced := Reduced {
  r_page : page;
  r_jobs : list job;
  r_uncaught : list exn;
}.

(** What an event does to the flags and the editing slot:
    [toggleModal] (lines 85-87), [toggleEditModal] (lines 89-91),
    [handleEditFood] (lines 93-96); the other handlers set none of them. *)
Definition pressed (ev : event) (s : state) : state :=
  match ev with
  | Header_openModal | ModalAddFood_setIsOpen =>
      State (negb (modalOpen s)) (editModalOpen s) (foods s) (editingFood s)
  | ModalEditFood_setIsOpen =>
      State (modalOpen s) (negb (editModalOpen s)) (foods s) (editingFood s)
  | Food_handleEditFood food => State (modalOpen s) true (foods s) food
  | _ => s
  end.

(** The job an event starts, with the list of the current render; an
    exception when the address of the update cannot be written; no job
    for the synchronous handlers. *)
Definition started (ev : event) (s : state) : result exn (option job) :=
  match ev with
  | ModalAddFood_handleAddFood food =>
      Ok (Some (Adding (spread_with food "available" (boolean true)) (foods s)))
  | ModalEditFood_handleUpdateFood food =>
      id ← get_id (editingFood s);
      Ok (Some (Updating id (spread (editingFood s) food) (foods s)))
  | Food_handleDelete id => Ok (Some (Deleting id (foods s)))
  | _ => Ok None
  end.

Definition press (ev : event) (a : reduced) : reduced :=
  let s := ui (r_page a) in
  match started ev s with
  | Ok j =>
      Reduced (Page (pressed ev s) (console (r_page a)))
        (r_jobs a ++ option_list j) (r_uncaught a)
  | Err e =>
      Reduced (Page s (console (r_page a) ++ [e])) (r_jobs a) (r_uncaught a)
  end.

Definition enact (v : verdict) (a : reduced) : reduced :=
  match v with
  | Sets l => Reduced (act (setFoods l) (r_page a)) (r_jobs a) (r_uncaught a)
  | Logs e => Reduced (act (console_log e) (r_page a)) (r_jobs a) (r_uncaught a)
  | Escapes e => Reduced (r_page a) (r_jobs a) (r_uncaught a ++ [e])
  | Nothing => a
  end.

Definition reduce (m : move (E:=exn) (C:=api) (Ev:=event)) (a : reduced)
    : option reduced :=
  match m with
  | Click ev => if alive (r_page a) then Some (press ev a) else None
  | Answer i ans =>
      j ← r_jobs a !! i;
      Some (enact (settle j (ans _ (job_call j)))
              (Reduced (r_page a) (delete i (r_jobs a)) (r_uncaught a)))
  end.

Fixpoint reduces (ms : list (move (E:=exn) (C:=api) (Ev:=event))) (a : reduced)
    : option reduced :=
  match ms with
  | [] => Some a
  | m :: ms => a' ← reduce m a; reduces ms a'
  end.

(** After the first render: the fetch is in flight. *)
Definition mounted : reduced := Reduced (Page initial []) [Fetching] [].

(** *** The two machines, side by side *)

(** The requests in flight, oldest first. *)
Definition sent (c : dconfig) : list request :=
  (λ p, request_of (p_call p)) <$> inflight c.

(** A verdict, on a configuration of the machine. *)
Definition carry_out (v : verdict) (c : dconfig) : dconfig :=
  match v with
  | Sets l => set_world (act (setFoods l)) c
  | Logs e => set_world (act (console_log e)) c
  | Escapes e => escape e c
  | Nothing => c
  end.

(** A call in flight is the call of the job, and its continuation does
    what [settle] says, however the call settles. *)
Definition parks (p : pending (E:=exn) (C:=api) (U:=effect)) (j : job) : Prop :=
  ∃ k, p = Pending (job_type j) (job_call j) k
       ∧ ∀ o (c : dconfig), run act (k o) c = carry_out (settle j o) c.

Definition refines (c : dconfig) (a : reduced) : Prop :=
  world c = r_page a
  ∧ uncaught c = r_uncaught a
  ∧ Forall2 parks (inflight c) (r_jobs a).

(** ** Lemmas *)

Lemma run_dispatch_pressed ev (c : dconfig) :
  ui (world (run act (dispatch (ui (world c)) ev) c))
  = pressed ev (ui (world c)).
Proof.
  destruct c as [[[m e f ed] con] inf unc].
  destruct ev; simpl; try done.
  unfold handleUpdateFood. simpl. by destruct (get_id ed).
Qed.

(** Running a task puts in flight the request it issues, if any. *)
Lemma run_sent (t : js unit) (c : dconfig) :
  sent (run act t c) = sent c ++ option_list (issued t).
Proof.
  revert c. induction t as [a|e|u k IH|R call k _]; intros c; simpl.
  - by rewrite app_nil_r.
  - by rewrite app_nil_r.
  - by rewrite IH.
  - unfold sent. simpl. by rewrite fmap_app.
Qed.

(** *** What the handlers park *)

Lemma getFoods_parks : parks (Pending _ (api_get url_foods) getFoods_resume) Fetching.
Proof. eexists. split; [done|]. by intros [r|e] c. Qed.

(** Each handler, run to its call, parks the job [started] names, and
    sets the cells [pressed] names. *)
Lemma dispatch_parks ev (c : dconfig) :
  match started ev (ui (world c)) with
  | Ok j =>
      world (run act (dispatch (ui (world c)) ev) c)
      = Page (pressed ev (ui (world c))) (console (world c))
      ∧ ∃ ps, inflight (run act (dispatch (ui (world c)) ev) c) = inflight c ++ ps
              ∧ Forall2 parks ps (option_list j)
  | Err e =>
      world (run act (dispatch (ui (world c)) ev) c)
      = Page (ui (world c)) (console (world c) ++ [e])
      ∧ inflight (run act (dispatch (ui (world c)) ev) c) = inflight c
  end
  ∧ uncaught (run act (dispatch (ui (world c)) ev) c) = uncaught c.
Proof.
  destruct c as [[s con] inf unc].
  assert (Hone : ∀ p j, parks p j → ∃ ps, inf ++ [p] = inf ++ ps ∧ Forall2 parks ps [j])
    by (intros p j Hp; exists [p]; split; [done|by repeat constructor]).
  destruct ev; simpl.
  1,2,4,7: destruct s; split; [split; [done|]; exists []; by rewrite app_nil_r|done].
  - split; [|done]. split; [by destruct s|]. apply Hone. eexists. split; [done|].
    intros [r|e] c; simpl; [|done].
    destruct (truthy (data r)); [|done]. by destruct (iterate (foods s)).
  - unfold handleUpdateFood. destruct (get_id (editingFood s)) as [id|e]; simpl; [|done].
    split; [|done]. split; [by destruct s|]. apply Hone. eexists. split; [done|].
    intros [r|e] c; simpl; [|done].
    destruct (as_array (foods s)) as [l|e]; simpl; [|done].
    by destruct (mapM _ l).
  - split; [|done]. split; [by destruct s|]. apply Hone. eexists. split; [done|].
    intros [r|e] c; simpl; [|done].
    destruct (as_array (foods s)) as [l|e]; simpl; [|done].
    by destruct (filterM _ l).
Qed.

(** *** The simulation *)

Lemma mounted_refines : refines boot mounted.
Proof. split_and!; [done..|]. constructor; [apply getFoods_parks | constructor]. Qed.

Lemma press_refines ev c a :
  refines c a → refines (run act (handler (world c) ev) c) (press ev a).
Proof.
  intros (Hw & Hu & Hj). unfold press, handler. rewrite <- Hw, <- Hu.
  destruct (dispatch_parks ev c) as [Hrun Hunc].
  destruct (started ev (ui (world c))) as [j|e]; unfold refines; simpl.
  - destruct Hrun as (Hpage & ps & -> & Hps). split_and!; [done..|].
    by apply Forall2_app.
  - destruct Hrun as (Hpage & ->). by split_and!.
Qed.

Lemma carry_out_refines v c a : refines c a → refines (carry_out v c) (enact v a).
Proof. intros (Hw & Hu & Hj). destruct v; simpl; by rewrite <- ?Hw, <- ?Hu. Qed.

Lemma reduce_refines m c a :
  refines c a → option_Forall2 refines (exec act handler alive m c) (reduce m a).
Proof.
  intros Hc. pose proof Hc as (Hw & Hu & Hj). destruct m as [ev|i ans]; simpl.
  - rewrite <- Hw. destruct (alive (world c)); constructor. by apply press_refines.
  - destruct (proj1 (Forall2_lookup _ _ _) Hj i) as [p j Hp|]; simpl; [|constructor].
    destruct Hp as (k & -> & Hk). constructor. rewrite Hk.
    apply carry_out_refines. split_and!; [done..|]. by apply Forall2_delete.
Qed.

Lemma reduces_refines ms c a :
  refines c a → option_Forall2 refines (play ms c) (reduces ms a).
Proof.
  revert c a. induction ms as [|m ms IH]; intros c a Hc; simpl; [by constructor|].
  destruct (reduce_refines m c a Hc) as [c' a' Hc'|]; simpl; [by apply IH | constructor].
Qed.

(** What is in flight is what the jobs ask. *)
Lemma refines_sent c a :
  refines c a →
  sent c = (λ j, request_of (job_call j)) <$> r_jobs a.
Proof.
  intros (_ & _ & Hj). unfold sent.
  induction Hj as [|p j ps js (k & -> & _) _ IH]; csimpl; [done|]. by rewrite IH.
Qed.

(** ** Theorems *)

(** C12.  The component is a reducer.  On every sequence of events and
    answers, from the first render, the machine that runs the handlers as
    tasks and the reducer either both refuse a move or reach states that
    agree: the same page (cells and console), the same uncaught
    exceptions, and in flight, request for request, calls whose
    continuations do to the page what [settle] says of the job - what a
    handler does after its [await] is a function of the answer and of the
    list captured when the handler was called, on every branch. *)
Theorem play_reduces ms : option_Forall2 refines (play ms boot) (reduces ms mounted).
Proof. apply reduces_refines, mounted_refines. Qed.

(** The scenario of section 8 of the specification, on the reducer. *)
Example reduces_scenario :
  reduces [Answer 0 (answer [] food_1);
           Click (ModalAddFood_handleAddFood food_form); Answer 0 (answer [] food_1);
           Click (Food_handleEditFood food_1);
           Click (ModalEditFood_handleUpdateFood price_25); Answer 0 (answer [] food_1');
           Click (Food_handleDelete (number 1)); Answer 0 (answer [] (Obj ∅))]
    mounted
  = Some (Reduced (Page (State false true (Array []) food_1) []) [] []).
Proof. reflexivity. Qed.

(** Two adds that overlap, on the reducer: both jobs hold the empty list
    of the render that started them, and the second answer sets the list
    to that list with its own item. *)
Example reduces_overlapping_adds :
  reduces [Answer 0 (answer [] food_1);
           Click (ModalAddFood_handleAddFood food_form);
           Click (ModalAddFood_handleAddFood food_form)] mounted
  = Some (Reduced (Page (State false false (Array []) (Obj ∅)) [])
            [Adding (spread_with food_form "available" (boolean true)) (Array []);
             Adding (spread_with food_form "available" (boolean true)) (Array [])] [])
  ∧ settle (Adding (spread_with food_form "available" (boolean true)) (Array []))
      (Fulfilled (Response food_2))
    = Sets (Array [food_2]).
Proof. split; reflexivity. Qed.
