(* ===== verification/Payload.v ===== *)
(** * Payload: the list holds what the answers carried

    No handler builds an item.  What [setFoods] receives is the array of a
    GET, or the list of the render that created the handler with the
    [data] of a POST appended, with the [data] of a PUT in the place of
    some elements, or with some elements removed.  So a property [P] of
    items that every answer has is a property of every element of the
    list, in every configuration the page can reach, however the handlers
    and the answers interleave.

    This file proves it once, for any [P], as an invariant of the machine
    ([carried]).  [Types] uses it with the type [FoodProps], [Interleave]
    with "is an object". *)

From stdpp Require Import list.
From S2P Require Import Prelude JsValue Task EventLoop Dashboard Machine.

(** ** Definitions *)

Section payload.
Context (P : value → Prop).

(** The answers whose items satisfy [P]: the elements of the array of a
    GET, the [data] of a POST or a PUT. *)
Definition answer_of {R} (call : api R) : outcome exn R → Prop :=
  match call in api R return outcome exn R → Prop with
  | api_get _ =>
      λ o, match o with
           | Fulfilled r => array_of P (data r)
           | Rejected _ => True
           end
  | api_post _ _ | api_put _ _ =>
      λ o, match o with
           | Fulfilled r => P (data r)
           | Rejected _ => True
           end
  | api_delete _ => λ _, True
  end.

(** A task that does not suspend and, if it sets the list, sets it to a
    list of items that satisfy [P]. *)
Definition writes (t : js unit) : Prop :=
  suspends 0 t ∧ ∀ l, written t = Some l → array_of P l.

(** A call in flight whose continuation writes such a list when it is
    answered with such items. *)
Inductive waits : pending (E:=exn) (C:=api) (U:=effect) → Prop :=
| waits_intro R (call : api R) k :
    (∀ o, answer_of call o → writes (k o)) → waits (Pending R call k).

(** The invariant: the list and what will be written to it. *)
Definition carried (c : dconfig) : Prop :=
  array_of P (foods (ui (world c))) ∧ Forall waits (inflight c).

(** The moves whose answers satisfy [P]. *)
Definition carries (m : move (E:=exn) (C:=api) (Ev:=event)) : Prop :=
  match m with
  | Click _ => True
  | Answer _ ans => ∀ R (call : api R), answer_of call (ans R call)
  end.

(** ** Lemmas *)

Lemma writes_Ret : writes (Ret tt).
Proof. split; [constructor | done]. Qed.

Lemma writes_Throw e : writes (Throw e).
Proof. split; [constructor | done]. Qed.

Lemma writes_log e : writes (perform (console_log e)).
Proof. split; [repeat constructor | done]. Qed.

Lemma writes_setFoods l : array_of P l → writes (perform (setFoods l)).
Proof. intros Hl. split; [repeat constructor | by intros ? [= <-]]. Qed.

Lemma waits_inv p : waits p → ∀ o, answer_of (p_call p) o → writes (p_resume p o).
Proof. by destruct 1. Qed.

(** What each handler parks. *)
Lemma dispatch_waits s ev (c : dconfig) :
  array_of P (foods s) →
  Forall waits (inflight c) →
  Forall waits (inflight (run act (dispatch s ev) c)).
Proof.
  intros (l & Hl & Hs)%array_of_Array Hc.
  assert (Hpark : ∀ R (call : api R) k,
    (∀ o, answer_of call o → writes (k o)) →
    Forall waits (inflight c ++ [Pending R call k])).
  { intros R call k Hk. apply Forall_app. split; [done|].
    apply Forall_singleton. by constructor. }
  destruct ev; simpl; try done.
  - apply Hpark. intros [r|e] Ho; simpl; [|apply writes_log].
    destruct (truthy (data r)); [|apply writes_Ret]. rewrite Hl. simpl.
    apply writes_setFoods, Forall_app. split; [done|]. by apply Forall_singleton.
  - unfold handleUpdateFood. destruct (get_id (editingFood s)); simpl; [|done].
    apply Hpark. intros [r|e] Ho; simpl; [|apply writes_log]. rewrite Hl. simpl.
    destruct (mapM _ _) as [l'|e'] eqn:Hmap; simpl; [|apply writes_log].
    by eapply writes_setFoods, mapM_replace_updated_Forall.
  - apply Hpark. intros [r|e] Ho; simpl; [|apply writes_Throw]. rewrite Hl. simpl.
    destruct (filterM _ _) as [l'|e'] eqn:Hfil; simpl; [|apply writes_Throw].
    by eapply writes_setFoods, filterM_Ok_Forall.
Qed.

Lemma boot_carried : carried boot.
Proof.
  split; [by constructor|]. apply Forall_singleton. constructor.
  intros [r|e] Ho; simpl; [by apply writes_setFoods | apply writes_Throw].
Qed.

(** An event keeps the invariant. *)
Lemma fire_carried ev (c : dconfig) :
  carried c → carried (run act (handler (world c) ev) c).
Proof.
  intros [Hf Hin]. split; [|by apply dispatch_waits].
  unfold handler. by rewrite run_dispatch_foods.
Qed.

(** So does the settling of a call with an answer that satisfies [P]. *)
Lemma settle_carried i R (call : api R) k o (c : dconfig) :
  carried c → inflight c !! i = Some (Pending R call k) → answer_of call o →
  carried (run act (k o) (set_inflight (delete i) c))
  ∧ inflight (run act (k o) (set_inflight (delete i) c)) = delete i (inflight c).
Proof.
  intros [Hf Hin] Hi Ho.
  destruct (waits_inv _ (Forall_lookup_1 _ _ _ _ Hin Hi) o Ho) as [Hsusp Hw'].
  simpl in Hsusp, Hw'. rewrite (run_suspends_0 act) by done.
  split; [|done]. split.
  - rewrite run_written by done. simpl.
    destruct (written (k o)) as [l|]; simpl; [by apply Hw' | done].
  - rewrite (run_suspends_0 act) by done. simpl. by apply Forall_delete.
Qed.

Lemma exec_carried m (c c' : dconfig) :
  carries m → carried c → exec act handler alive m c = Some c' → carried c'.
Proof.
  intros Hm Hc. destruct m as [ev|i ans]; simpl.
  - destruct (alive (world c)); [|done]. intros [= <-]. by apply fire_carried.
  - destruct (inflight c !! i) as [[R call k]|] eqn:Hi; [|done]. intros [= <-].
    by eapply settle_carried.
Qed.

Lemma play_carried ms (c c' : dconfig) :
  Forall carries ms → carried c → play ms c = Some c' → carried c'.
Proof.
  intros Hms. revert c. induction Hms as [|m ms Hm _ IH]; intros c Hc; simpl.
  - by intros [= <-].
  - destruct (exec act handler alive m c) as [c1|] eqn:Hc1; simpl; [|done].
    apply IH. by eapply exec_carried.
Qed.

End payload.
