(* ===== verification/Types.v ===== *)
(** * Types: the declarations of lines 10-27, and what they promise

    The source declares the shape of an item ([FoodProps], lines 20-27)
    and, in [DashboardProps] and its three aliases (lines 10-18), the
    types of the cells that are not lists.  TypeScript checks them at
    compile time and erases them; at run time the cells hold whatever the
    server answered.  This file gives the declarations a meaning on the
    values of the model ([has_type]) and proves what is true of them at
    run time.

    The declared type of the editing slot does not hold of its initial
    value: [{} as FoodProps] asserts a type that [{}] does not have
    ([initial_editingFood_untyped]).  The declared type of the list holds
    as long as the answers are items of type [FoodProps]: the component
    never breaks the type itself, on any interleaving, and the state as a
    whole is of its declared type from the first edit request on, not
    before ([play_typed]).  The lemmas on [has_type] (member by member,
    under a spread, under the setting of a property) are those
    [Declared] needs for the bodies of the requests. *)

From Stdlib Require Import Floats.
From stdpp Require Import strings gmap.
From S2P Require Import Prelude JsValue Task EventLoop Dashboard Machine Payload.

(** ** Definitions *)

(** The types the declarations are made of: the primitive types, the
    empty object type [{}], an interface with its members. *)
#[warnings="-register-all"] Inductive ts_type :=
| ts_number
| ts_string
| ts_boolean
| ts_empty
| ts_interface (members : list (string * ts_type)).

(** The indexed access type [T['k']]: the type of the member [k]. *)
Definition index (t : ts_type) (k : string) : option ts_type :=
  match t with
  | ts_interface members => list_to_map (M:=gmap string ts_type) members !! k
  | _ => None
  end.

(** Lines 10-14:
<<
interface DashboardProps {
    editingFood: {},
    modalOpen: boolean,
    editModalOpen: boolean,
}
>> *)
Definition DashboardProps : ts_type :=
  ts_interface [("editingFood", ts_empty); ("modalOpen", ts_boolean);
                ("editModalOpen", ts_boolean)].

(** Lines 16-18, the aliases (none is used by the component). *)
Definition EditingFood : option ts_type := index DashboardProps "editingFood".
Definition ModalOpen : option ts_type := index DashboardProps "modalOpen".
Definition EditModalOpen : option ts_type := index DashboardProps "editModalOpen".

(** Lines 20-27:
<<
export interface FoodProps {
  id: number;
  name: string;
  description: string;
  price: number;
  available: boolean;
  image: string;
}
>> *)
Definition FoodProps : ts_type :=
  ts_interface [("id", ts_number); ("name", ts_string); ("description", ts_string);
                ("price", ts_number); ("available", ts_boolean); ("image", ts_string)].

(** A primitive has a primitive type when it is of that kind; it has type
    [{}] unless it is [null] or [undefined]. *)
Definition prim_has_type (p : prim) (t : ts_type) : bool :=
  match t, p with
  | ts_number, number _ | ts_string, str _ | ts_boolean, boolean _ => true
  | ts_empty, (undefined | null) => false
  | ts_empty, _ => true
  | _, _ => false
  end.

(** An object has an interface type when it has every member, with a
    value of the member's type; it may have other properties. *)
Definition has_type (v : value) (t : ts_type) : bool :=
  match v with
  | Prim p => prim_has_type p t
  | Obj o =>
      match t with
      | ts_empty => true
      | ts_interface members =>
          forallb (λ m, match o !! m.1 with
                        | Some p => prim_has_type p m.2
                        | None => false
                        end) members
      | _ => false
      end
  end.

(** The array type [T[]]: an array whose elements have type [T]. *)
Definition has_array_type (c : collection) (t : ts_type) : bool :=
  match c with
  | Array l => forallb (λ f, has_type f t) l
  | NotArray _ => false
  end.

(** The cells with a declared type (lines 32-33):
    [useState<FoodProps[]>] and [useState<FoodProps>]. *)
Definition state_has_type (s : state) : bool :=
  has_array_type (foods s) FoodProps && has_type (editingFood s) FoodProps.

(** The moves of a typed environment: the answers carry items of type
    [FoodProps], and so do the edit requests. *)
Definition typed_move (m : move (E:=exn) (C:=api) (Ev:=event)) : Prop :=
  carries (λ f, has_type f FoodProps = true) m
  ∧ match m with
    | Click (Food_handleEditFood food) => has_type food FoodProps = true
    | _ => True
    end.

Definition is_edit (m : move (E:=exn) (C:=api) (Ev:=event)) : bool :=
  match m with Click (Food_handleEditFood _) => true | _ => false end.

(** A typed item, for the examples. *)
Definition pizza : value :=
  Obj (list_to_map [("id", number 1); ("name", str "Pizza");
                    ("description", str "Margherita"); ("price", number 20);
                    ("available", boolean true); ("image", str "pizza.png")]).

(** ** Lemmas *)

Lemma aliases :
  EditingFood = Some ts_empty ∧ ModalOpen = Some ts_boolean
  ∧ EditModalOpen = Some ts_boolean.
Proof. by vm_compute. Qed.

(** The type [{}] is the type of what [.id] can be read of. *)
Lemma has_type_empty v : has_type v ts_empty = is_ok (get_id v).
Proof. by destruct v as [[]|]. Qed.

Lemma has_type_interface_Obj v members :
  has_type v (ts_interface members) = true → ∃ o, v = Obj o.
Proof. destruct v as [p|o]; [by destruct p | eauto]. Qed.

(** What the type says of an object, member by member. *)
Lemma has_type_Obj o members :
  has_type (Obj o) (ts_interface members) = true
  ↔ ∀ k t, (k, t) ∈ members → ∃ p, o !! k = Some p ∧ prim_has_type p t = true.
Proof.
  simpl. rewrite forallb_forall. split.
  - intros Ho k t Hk%list_elem_of_In. specialize (Ho _ Hk). simpl in Ho.
    destruct (o !! k) as [p|]; [eauto | done].
  - intros Ho [k t] Hk%list_elem_of_In. simpl.
    destruct (Ho k t Hk) as (p & Hk' & Hp). by rewrite Hk'.
Qed.

(** Setting a property keeps the type when the value is of the type of
    the member of that name, if there is one. *)
Lemma has_type_insert o k p members :
  has_type (Obj o) (ts_interface members) = true →
  (∀ t, (k, t) ∈ members → prim_has_type p t = true) →
  has_type (Obj (<[k := p]> o)) (ts_interface members) = true.
Proof.
  rewrite !has_type_Obj. intros Ho Hp k' t Hk'.
  destruct (decide (k = k')) as [<-|Hne].
  - exists p. rewrite lookup_insert_eq. eauto.
  - rewrite lookup_insert_ne by done. eauto.
Qed.

(** A spread is of the type of its last operand. *)
Lemma has_type_spread a food members :
  has_type food (ts_interface members) = true →
  has_type (Obj (spread a food)) (ts_interface members) = true.
Proof.
  intros Hf. destruct (has_type_interface_Obj _ _ Hf) as [o ->].
  rewrite has_type_Obj in *. intros k t Hk. destruct (Hf k t Hk) as (p & Hp & Ht).
  exists p. split; [|done]. rewrite lookup_spread. simpl. by rewrite Hp.
Qed.

(** The members of [FoodProps], by name. *)
Lemma index_FoodProps k t :
  index FoodProps k = Some t →
  (k, t) ∈ [("id", ts_number); ("name", ts_string); ("description", ts_string);
            ("price", ts_number); ("available", ts_boolean); ("image", ts_string)].
Proof. apply elem_of_list_to_map_2. Qed.

(** The only member of [FoodProps] named [k] is of the type of [p]. *)
Lemma FoodProps_member k t p :
  (k, t) ∈ [("id", ts_number); ("name", ts_string); ("description", ts_string);
            ("price", ts_number); ("available", ts_boolean); ("image", ts_string)] →
  (k = "id" → prim_has_type p ts_number = true) →
  (k = "available" → prim_has_type p ts_boolean = true) →
  k ≠ "id" ∧ k ≠ "available" ∨ prim_has_type p t = true.
Proof.
  rewrite !elem_of_cons, elem_of_nil. intros Hk Hid Hav.
  destruct_or!; simplify_eq; auto.
Qed.

(** An item of type [FoodProps] has every member of the interface. *)
Lemma FoodProps_member_Some food k t :
  has_type food FoodProps = true → index FoodProps k = Some t →
  ∃ p, own_props food !! k = Some p ∧ prim_has_type p t = true.
Proof.
  intros Hf Hk%index_FoodProps. destruct (has_type_interface_Obj _ _ Hf) as [o ->].
  rewrite own_props_Obj. by apply (proj1 (has_type_Obj o _) Hf).
Qed.

(** [{...food, available: true}] is of type [FoodProps] when [food] is. *)
Lemma has_type_spread_with food :
  has_type food FoodProps = true →
  has_type (Obj (spread_with food "available" (boolean true))) FoodProps = true.
Proof.
  intros Hf. destruct (has_type_interface_Obj _ _ Hf) as [o ->].
  apply has_type_insert; [done|]. intros t Ht.
  by destruct (FoodProps_member "available" t (boolean true) Ht) as [[]|].
Qed.

(** An item of type [FoodProps] has a number as [id]. *)
Lemma FoodProps_id v :
  has_type v FoodProps = true → ∃ n, get_id v = Ok (number n).
Proof.
  intros Hv. destruct (has_type_interface_Obj _ _ Hv) as [o ->].
  simpl in Hv. apply andb_true_iff in Hv as [Hid _]. simpl.
  destruct (o !! "id") as [[]|]; try done. eauto.
Qed.

Lemma FoodProps_id_number f :
  has_type f FoodProps = true → prim_has_type (id_of f) ts_number = true.
Proof. intros [n Hn]%FoodProps_id. unfold id_of. by rewrite Hn. Qed.

Lemma FoodProps_has_id v : has_type v FoodProps = true → has_id v = true.
Proof. intros [n Hn]%FoodProps_id. unfold has_id. by rewrite Hn. Qed.

Lemma has_array_type_array_of c t :
  has_array_type c t = true ↔ array_of (λ f, has_type f t = true) c.
Proof.
  destruct c as [l|v]; simpl; [|done].
  rewrite forallb_forall, Forall_forall. by setoid_rewrite list_elem_of_In.
Qed.

(** The slot along a typed execution: of type [FoodProps] once an edit
    was requested (and from then on), untouched before. *)
Lemma play_slot ms (c c' : dconfig) :
  reachable c → Forall typed_move ms → play ms c = Some c' →
  (has_type (editingFood (ui (world c))) FoodProps = true →
   has_type (editingFood (ui (world c'))) FoodProps = true)
  ∧ (if existsb is_edit ms
     then has_type (editingFood (ui (world c'))) FoodProps = true
     else editingFood (ui (world c')) = editingFood (ui (world c))).
Proof.
  intros Hc Hms. revert c Hc.
  induction Hms as [|m ms [_ Hm] _ IH]; intros c Hc; simpl; [by intros [= <-]|].
  destruct (exec act handler alive m c) as [c1|] eqn:Hc1; simpl; [|done].
  intros Hplay. pose proof (exec_slot m c c1 Hc Hc1) as Hs1.
  destruct (IH c1 (exec_reachable m c c1 Hc Hc1) Hplay) as [Hkeep Hend].
  destruct (is_edit m) eqn:Hedit; simpl.
  - destruct m as [[]|]; try done. rewrite Hs1 in Hkeep.
    assert (has_type (editingFood (ui (world c'))) FoodProps = true)
      by (destruct (existsb is_edit ms); [done|by rewrite Hend, Hs1]).
    done.
  - assert (editingFood (ui (world c1)) = editingFood (ui (world c))) as Heq
      by (by destruct m as [[]|]).
    rewrite Heq in Hkeep, Hend. done.
Qed.

(** The type assertion of line 33 does not hold.  The editing slot
    is declared [FoodProps] and starts as [{} as FoodProps]: an object
    with none of the six members.  It has the type [{}] that
    [DashboardProps] gives to [editingFood], not the type of the cell: the
    initial state is not of the declared type. *)
Lemma initial_editingFood_untyped :
  has_type (editingFood initial) FoodProps = false
  ∧ Some ts_empty = EditingFood
  ∧ has_type (editingFood initial) ts_empty = true
  ∧ state_has_type initial = false.
Proof. by vm_compute. Qed.

(** ** Theorems *)

(** C23.  The component preserves the declared types.  In an environment
    whose answers carry items of type [FoodProps] and whose edit requests
    pass such items, after any sequence of events and answers, in any
    order: every element of the list is of type [FoodProps], the page can
    be rendered, and the editing slot is of type [FoodProps] as soon as
    an edit was requested.  Before, it is the [{}] of line 33, which
    [as FoodProps] does not make an item: until an edit is requested the
    state is not of the declared type. *)
Theorem play_typed ms (c : dconfig) :
  Forall typed_move ms →
  play ms boot = Some c →
  has_array_type (foods (ui (world c))) FoodProps = true
  ∧ alive (world c) = true
  ∧ (if existsb is_edit ms
     then state_has_type (ui (world c)) = true
     else editingFood (ui (world c)) = Obj ∅
          ∧ state_has_type (ui (world c)) = false).
Proof.
  intros Hms Hplay.
  assert (Hf : array_of (λ f, has_type f FoodProps = true) (foods (ui (world c)))).
  { eapply (play_carried _ ms boot c); [|apply boot_carried|done].
    eapply Forall_impl; [done|]. by intros m [Hm _]. }
  assert (Hty : has_array_type (foods (ui (world c))) FoodProps = true)
    by (by apply has_array_type_array_of).
  split_and!; [done| |].
  - eapply alive_array_of, array_of_impl; [done|]. apply FoodProps_has_id.
  - destruct (play_slot ms boot c boot_reachable Hms Hplay) as [_ Hslot].
    unfold state_has_type. destruct (existsb is_edit ms); [by apply andb_true_iff|].
    split; [done|]. rewrite Hslot. apply andb_false_r.
Qed.

Lemma play_typed_witness :
  has_array_type (foods (ui (world (idle (State false true (Array [pizza]) pizza)))))
    FoodProps = true
  ∧ alive (world (idle (State false true (Array [pizza]) pizza))) = true
  ∧ (if existsb is_edit [Answer 0 (answer [pizza] pizza);
                         Click (Food_handleEditFood pizza)]
     then state_has_type (ui (world (idle (State false true (Array [pizza]) pizza)))) = true
     else editingFood (ui (world (idle (State false true (Array [pizza]) pizza)))) = Obj ∅
          ∧ state_has_type (ui (world (idle (State false true (Array [pizza]) pizza))))
            = false).
Proof.
  apply (play_typed [Answer 0 (answer [pizza] pizza);
                     Click (Food_handleEditFood pizza)]).
  - repeat constructor; intros R []; simpl; by repeat constructor.
  - reflexivity.
Defined.
