(* ===== verification/Server.v ===== *)
(** * Server: the remote store

    The REST resource behind [api] is not part of the sources; the
    specification gives its contract (section 6): [GET /foods] returns the
    collection, [POST /foods] creates an item and assigns its id,
    [PUT /foods/{id}] replaces the item with that id, [DELETE /foods/{id}]
    removes it.

    [RemoteStore] is that contract as an interface: a type of store
    states, the collection a state holds, and how a state answers a call.
    [RemoteStoreLaws] is what the client's theorems assume of a store.
    [json_server] is an implementation (the collection as a list, ids
    numbered from the largest one, duplicates refused), for which the laws
    are proved; the theorems of [Sync] are proved against the interface.

    Of [json_server] the file also proves what the sessions of [Session]
    and [Quiet] need: it finds the items it holds ([find_id_elem],
    [json_serve_found]); the ids it assigns are [===] to themselves
    ([json_serve_self_eq]); on ids that are integers from 0 to 2^53
    ([natural_id]) its numbering is that of the integers - the largest
    id is the largest integer ([max_id_largest]), a creation is
    fulfilled with the next one below 2^53 ([json_serve_post_next]), the
    ids stay such integers ([json_serve_natural]) and the largest grows
    by one at most ([json_serve_largest]). *)

From Stdlib Require Import Floats ZArith.
From stdpp Require Import strings gmap.
From S2P Require Import Prelude JsValue Number Counting Task EventLoop Dashboard.

(** ** The interface *)

Class RemoteStore (S : Type) := {
  (** the collection, in the order [GET /foods] returns it *)
  items : S → list value;
  (** the answer to a call and the state after it *)
  serve : ∀ R, api R → S → outcome exn R * S;
}.

(** The item stored for a body under an id. *)
Definition stored (body : object) (id : prim) : value := Obj (<["id" := id]> body).

(** No item of the list has an id [===] to [id]. *)
Definition fresh (id : prim) (l : list value) : bool :=
  forallb (λ f, strict_neq (id_of f) id) l.

Definition is_obj (v : value) : bool :=
  match v with Obj _ => true | Prim _ => false end.

(** What a collection is: objects, with ids that are pairwise [!==]. *)
Definition store_ok (l : list value) : Prop :=
  unique_ids l = true ∧ Forall (λ f, is_obj f = true) l.

Class RemoteStoreLaws (S : Type) `{RemoteStore S} := {
  (** [GET /foods]: the collection; the store does not change. *)
  serve_get st :
    serve _ (api_get url_foods) st = (Fulfilled (Response (Array (items st))), st);
  (** [POST /foods]: a created item is the body under an id no item
      has, it is returned and is the last of the collection. *)
  serve_post body st :
    match serve _ (api_post url_foods body) st with
    | (Fulfilled r, st') =>
        ∃ id, fresh id (items st) = true ∧ data r = stored body id
              ∧ items st' = items st ++ [data r]
    | (Rejected _, st') => items st' = items st
    end;
  (** [PUT /foods/{id}]: an updated item is the body under the id it
      had, it is returned and takes the place of the old one. *)
  serve_put id body st :
    match serve _ (api_put (url_food id) body) st with
    | (Fulfilled r, st') =>
        ∃ i f, items st !! i = Some f ∧ strict_eq (id_of f) id = true
               ∧ data r = stored body (id_of f)
               ∧ items st' = <[i := data r]> (items st)
    | (Rejected _, st') => items st' = items st
    end;
  (** [DELETE /foods/{id}]: the items with that id are removed. *)
  serve_delete id st :
    match serve _ (api_delete (url_food id)) st with
    | (Fulfilled _, st') =>
        items st' = List.filter (λ f, strict_neq (id_of f) id) (items st)
    | (Rejected _, st') => items st' = items st
    end;
}.

(** ** An implementation *)

Record json_server := JsonServer { db : list value }.

(** The largest number among the ids, [0] when there is none. *)
Definition max_id (l : list value) : float :=
  foldr (λ f acc, match id_of f with
                  | number n => if (acc <? n)%float then n else acc
                  | _ => acc
                  end) 0%float l.

(** The position and the item of the first element whose id is [===] to
    [id]. *)
Fixpoint find_id (id : prim) (l : list value) : option (nat * value) :=
  match l with
  | [] => None
  | f :: l =>
      if strict_eq (id_of f) id then Some (0, f)
      else prod_map S (λ g, g) <$> find_id id l
  end.

Definition not_found {R} (st : json_server) : outcome exn R * json_server :=
  (Rejected (AxiosError (Some 404)), st).

(** The id of a created item: the body's own if it has one, else the
    largest id plus one. *)
Definition new_id (body : object) (l : list value) : prim :=
  match body !! "id" with
  | Some p => p
  | None => number (max_id l + 1)
  end.

Definition json_serve : ∀ R, api R → json_server → outcome exn R * json_server :=
  λ R c st,
    match c in api R return outcome exn R * json_server with
    | api_get url_foods => (Fulfilled (Response (Array (db st))), st)
    | api_post url_foods body =>
        let id := new_id body (db st) in
        if fresh id (db st)
        then (Fulfilled (Response (stored body id)),
              JsonServer (db st ++ [stored body id]))
        else (Rejected (AxiosError (Some 500)), st)
    | api_put (url_food id) body =>
        match find_id id (db st) with
        | Some (i, f) =>
            (Fulfilled (Response (stored body (id_of f))),
             JsonServer (<[i := stored body (id_of f)]> (db st)))
        | None => not_found st
        end
    | api_delete (url_food id) =>
        match find_id id (db st) with
        | Some _ =>
            (Fulfilled (Response (Obj ∅)),
             JsonServer (List.filter (λ f, strict_neq (id_of f) id) (db st)))
        | None => not_found st
        end
    | api_get (url_food _) | api_post (url_food _) _
    | api_put url_foods _ | api_delete url_foods => not_found st
    end.

(** An id that is [===] to itself: every id but [NaN]. *)
Definition self_eq (f : value) : bool := strict_eq (id_of f) (id_of f).

(** An id that [json_server] counts with: an integer from 0 to 2^53. *)
Definition natural (p : prim) : bool :=
  match p with
  | number x =>
      match float_to_Z x with
      | Some z => (0 <=? z)%Z && (z <=? 2 ^ 53)%Z
      | None => false
      end
  | _ => false
  end.

Definition natural_id (f : value) : bool := natural (id_of f).

(** The integer an id is, and the largest of a collection. *)
Definition prim_Z (p : prim) : Z :=
  match p with
  | number x => default 0%Z (float_to_Z x)
  | _ => 0%Z
  end.

Definition id_Z (f : value) : Z := prim_Z (id_of f).

Definition largest (l : list value) : Z := foldr (λ f acc, Z.max (id_Z f) acc) 0%Z l.

#[export] Instance json_server_store : RemoteStore json_server :=
  {| items := db; serve := json_serve |}.

(** ** Lemmas *)

Lemma id_of_stored body id : id_of (stored body id) = id.
Proof. unfold id_of, stored. simpl. by rewrite lookup_insert_eq. Qed.

Lemma is_obj_has_id v : is_obj v = true → has_id v = true.
Proof. by destruct v. Qed.

Lemma find_id_Some id l i f :
  find_id id l = Some (i, f) → l !! i = Some f ∧ strict_eq (id_of f) id = true.
Proof.
  revert i. induction l as [|g l IH]; intros i; simpl; [done|].
  destruct (strict_eq (id_of g) id) eqn:Hg.
  - by intros [= <- <-].
  - destruct (find_id id l) as [[j h]|]; simpl; [|done].
    intros [= <- <-]. by apply IH.
Qed.

#[export] Instance json_server_laws : RemoteStoreLaws json_server.
Proof.
  split; simpl.
  - done.
  - intros body st. destruct (fresh _ _) eqn:Hfresh; [|done].
    exists (new_id body (db st)). by split_and!.
  - intros id body st. destruct (find_id id (db st)) as [[i f]|] eqn:Hf; [|done].
    apply find_id_Some in Hf as [Hi Hf]. by exists i, f.
  - intros id st. by destruct (find_id id (db st)) as [[i f]|].
Qed.

(** *** Ids that are [===] to themselves *)

Lemma max_id_not_nan l : is_nan (max_id l) = false.
Proof.
  induction l as [|f l IH]; simpl; [done|].
  destruct (id_of f) as [| | |n|]; try done.
  destruct (max_id l <? n)%float eqn:Hlt; [by eapply ltb_not_nan | done].
Qed.

Lemma find_id_None id l :
  find_id id l = None ↔ Forall (λ f, strict_eq (id_of f) id = false) l.
Proof.
  induction l as [|f l IH]; simpl; [by split; [constructor|]|].
  rewrite Forall_cons, <- IH. destruct (strict_eq (id_of f) id); [naive_solver|].
  destruct (find_id id l) as [[]|]; naive_solver.
Qed.

(** [json_server] finds what it holds. *)
Lemma find_id_elem f l :
  f ∈ l → self_eq f = true → is_Some (find_id (id_of f) l).
Proof.
  intros Hf Hid. apply not_eq_None_Some. intros Hnone%find_id_None.
  rewrite Forall_forall in Hnone. specialize (Hnone f Hf). unfold self_eq in Hid.
  congruence.
Qed.

(** It deletes what it holds: the deletion of the id of an item of the
    collection is fulfilled, when that id is [===] to itself. *)
Lemma json_serve_delete_found f st :
  f ∈ db st → strict_eq (id_of f) (id_of f) = true →
  json_serve _ (api_delete (url_food (id_of f))) st
  = (Fulfilled (Response (Obj ∅)),
     JsonServer (List.filter (λ g, strict_neq (id_of g) (id_of f)) (db st))).
Proof.
  intros Hf Hid. simpl. by destruct (find_id_elem f (db st) Hf Hid) as [[i g] ->].
Qed.

(** What it finds it still finds after every call but a deletion. *)
Lemma json_serve_found R (call : api R) st id :
  match call with api_delete _ => False | _ => True end →
  is_Some (find_id id (db st)) → is_Some (find_id id (db (json_serve R call st).2)).
Proof.
  rewrite <- !not_eq_None_Some, !find_id_None. intros Hcall Hst Hst'. apply Hst.
  destruct call as [[|i]|[|i] body|[|i] body|[|i]]; simpl in *; try done.
  - destruct (fresh _ _); [|done]. by apply Forall_app in Hst' as [? _].
  - destruct (find_id i (db st)) as [[n f]|] eqn:Hf; [|done]. simpl in Hst'.
    apply find_id_Some in Hf as [Hn _]. apply Forall_lookup. intros m g Hm.
    destruct (decide (m = n)) as [->|Hne].
    + assert (g = f) as -> by congruence.
      rewrite <- (id_of_stored body (id_of f)).
      apply (Forall_lookup_1 _ _ n _ Hst'), list_lookup_insert_eq.
      by eapply lookup_lt_Some.
    + apply (Forall_lookup_1 _ _ m _ Hst'). by rewrite list_lookup_insert_ne.
Qed.

(** What [json_server] keeps of the ids: a property that the id after
    the largest one has, when the bodies it is asked to create carry no
    id of their own. *)
Lemma json_serve_ids (P Q : prim → Prop) R (call : api R) st :
  match call with api_post _ body => body !! "id" = None | _ => True end →
  (∀ p, P p → Q p) →
  (Forall (λ f, P (id_of f)) (db st) → Q (number (max_id (db st) + 1))) →
  Forall (λ f, P (id_of f)) (db st) →
  Forall (λ f, Q (id_of f)) (db (json_serve R call st).2).
Proof.
  intros Hcall HPQ Hnew Hst.
  assert (Hst' : Forall (λ f, Q (id_of f)) (db st))
    by (apply (Forall_impl _ _ _ Hst); auto).
  destruct call as [[|id]|[|id] body|[|id] body|[|id]]; simpl; try done.
  - destruct (fresh _ _); [|done]. simpl. apply Forall_app. split; [done|].
    apply Forall_singleton. rewrite id_of_stored. unfold new_id. rewrite Hcall. auto.
  - destruct (find_id id (db st)) as [[i f]|] eqn:Hf; [|done]. simpl.
    apply find_id_Some in Hf as [Hi _]. apply Forall_insert; [done|].
    rewrite id_of_stored. by apply (Forall_lookup_1 _ _ _ _ Hst' Hi).
  - destruct (find_id id (db st)) as [[i f]|]; [|done]. simpl.
    by apply Forall_List_filter.
Qed.

(** [json_server] keeps the ids [===] to themselves. *)
Lemma json_serve_self_eq R (call : api R) st :
  match call with api_post _ body => body !! "id" = None | _ => True end →
  Forall (λ f, self_eq f = true) (db st) →
  Forall (λ f, self_eq f = true) (db (json_serve R call st).2).
Proof.
  intros Hcall.
  apply (json_serve_ids (λ p, strict_eq p p = true) (λ p, strict_eq p p = true));
    [done..|].
  intros _. apply float_eqb_refl, succ_not_nan, max_id_not_nan.
Qed.

(** *** Numbering *)

Lemma natural_id_Z f :
  natural_id f = true →
  ∃ x, id_of f = number x ∧ float_to_Z x = Some (id_Z f) ∧ (0 ≤ id_Z f ≤ 2 ^ 53)%Z.
Proof.
  unfold natural_id, natural, id_Z, prim_Z. destruct (id_of f) as [| | |x|]; try done.
  destruct (float_to_Z x) as [z|] eqn:Hx; [|done].
  intros [?%Z.leb_le ?%Z.leb_le]%andb_true_iff. by exists x.
Qed.

Lemma largest_ge l f : f ∈ l → (id_Z f ≤ largest l)%Z.
Proof.
  induction 1 as [f l|f g l _ IH]; simpl; lia.
Qed.

(** The largest id is the largest integer among the ids. *)
Lemma max_id_largest l :
  Forall (λ f, natural_id f = true) l →
  float_to_Z (max_id l) = Some (largest l) ∧ (0 ≤ largest l ≤ 2 ^ 53)%Z.
Proof.
  induction 1 as [|f l (x & Hid & Hx & Hz)%natural_id_Z _ [IH Hl]]; simpl; [done|].
  rewrite Hid, (float_to_Z_ltb _ _ _ _ IH Hx) by lia.
  destruct (Z.ltb_spec (largest l) (id_Z f)).
  - rewrite Z.max_l by lia. by split.
  - rewrite Z.max_r by lia. by split.
Qed.

(** The id after the largest one: the next integer, and one that no item
    has, until 2^53. *)
Lemma new_id_next body l :
  body !! "id" = None → Forall (λ f, natural_id f = true) l →
  ∃ x, new_id body l = number x
       ∧ float_to_Z x = Some (Z.min (largest l + 1) (2 ^ 53))
       ∧ ((largest l < 2 ^ 53)%Z → fresh (number x) l = true).
Proof.
  intros Hb Hl. unfold new_id. rewrite Hb. exists (max_id l + 1)%float.
  destruct (max_id_largest l Hl) as [Hmax Hr].
  pose proof (float_to_Z_succ _ _ Hmax Hr) as Hs. split_and!; [done..|].
  intros Hlt. apply forallb_forall. intros f Hf%list_elem_of_In.
  pose proof (largest_ge l f Hf) as Hle. rewrite Forall_forall in Hl.
  destruct (natural_id_Z f (Hl f Hf)) as (y & Hid & Hy & _).
  rewrite Hid. apply negb_true_iff, not_true_is_false. intros Heq%eqb_float_to_Z.
  rewrite Hy, Hs in Heq. injection Heq. lia.
Qed.

(** [json_server] keeps the ids integers from 0 to 2^53. *)
Lemma json_serve_natural R (call : api R) st :
  match call with api_post _ body => body !! "id" = None | _ => True end →
  Forall (λ f, natural_id f = true) (db st) →
  Forall (λ f, natural_id f = true) (db (json_serve R call st).2).
Proof.
  intros Hcall.
  apply (json_serve_ids (λ p, natural p = true) (λ p, natural p = true)); [done..|].
  intros Hst.
  destruct (max_id_largest _ Hst) as [Hmax Hr]. unfold natural.
  rewrite (float_to_Z_succ _ _ Hmax Hr). apply andb_true_iff. split; apply Z.leb_le; lia.
Qed.

(** [json_server] numbers the items: a creation is fulfilled with the
    integer after the largest id, as long as that is below 2^53. *)
Lemma json_serve_post_next body st :
  body !! "id" = None → Forall (λ f, natural_id f = true) (db st) →
  (largest (db st) < 2 ^ 53)%Z →
  ∃ x, json_serve _ (api_post url_foods body) st
       = (Fulfilled (Response (stored body (number x))),
          JsonServer (db st ++ [stored body (number x)]))
       ∧ float_to_Z x = Some (largest (db st) + 1)%Z.
Proof.
  intros Hb Hst Hlt. destruct (new_id_next body (db st) Hb Hst) as (x & Hid & Hx & Hfresh).
  rewrite Z.min_l in Hx by lia. exists x. simpl. by rewrite Hid, Hfresh.
Qed.

Lemma largest_nonneg l : (0 ≤ largest l)%Z.
Proof. induction l; simpl; lia. Qed.

Lemma largest_le l B :
  (0 ≤ B)%Z → (largest l ≤ B)%Z ↔ Forall (λ f, (prim_Z (id_of f) ≤ B)%Z) l.
Proof.
  intros HB. induction l as [|f l IH]; simpl; [by split; [constructor|]|].
  rewrite Forall_cons, <- IH. unfold id_Z. lia.
Qed.

(** A call raises the largest id by one at most. *)
Lemma json_serve_largest R (call : api R) st :
  match call with api_post _ body => body !! "id" = None | _ => True end →
  Forall (λ f, natural_id f = true) (db st) →
  (largest (db (json_serve R call st).2) ≤ largest (db st) + 1)%Z.
Proof.
  intros Hcall Hst. pose proof (largest_nonneg (db st)) as H0.
  apply largest_le; [lia|].
  apply (json_serve_ids (λ p, prim_Z p ≤ largest (db st))%Z
           (λ p, prim_Z p ≤ largest (db st) + 1)%Z); [done|intros; lia| |].
  - intros _. destruct (max_id_largest _ Hst) as [Hmax Hr].
    simpl. rewrite (float_to_Z_succ _ _ Hmax Hr). simpl. lia.
  - by apply largest_le.
Qed.

(** Where the numbering stops.  Ids are numbers, and 2^53 + 1 is not one:
    when the largest id is 2^53 the next id computed is 2^53 again, which
    is taken, and every creation is refused from then on. *)
Example new_id_saturates :
  new_id ∅ [stored ∅ (number 9007199254740992)] = number 9007199254740992
  ∧ (json_serve _ (api_post url_foods ∅)
       (JsonServer [stored ∅ (number 9007199254740992)])).1
    = Rejected (AxiosError (Some 500)).
Proof. by vm_compute. Qed.
