(* ===== verification/Sync.v ===== *)
(** * Sync: the page and the store, one operation at a time

    The component on one side, a store that satisfies [RemoteStoreLaws] on
    the other.  An operation is an event whose handler runs alone: the
    call it makes is served before anything else happens ([operate]).

    The page and the store are [in_sync] when the list on the page is the
    collection of the store, nothing is in flight, and the collection is
    made of objects with unique ids.  The theorems: the fetch on mount
    establishes [in_sync], every operation can be performed and preserves
    it, whatever the event and its argument; an operation is an execution
    of the machine of [EventLoop].  With the abstraction function that
    maps a configuration to its list, this is the refinement of the
    store's collection by the page. *)

From Stdlib Require Import Floats.
From stdpp Require Import strings gmap.
From S2P Require Import Prelude JsValue Task EventLoop Dashboard Machine Server.

(** ** Definitions *)

Section sync.
Context {S : Type} `{RemoteStoreLaws S}.

(** The page shows the collection of the store, and is at rest. *)
Definition in_sync (c : dconfig) (st : S) : Prop :=
  foods (ui (world c)) = Array (items st) ∧ inflight c = [] ∧ store_ok (items st).

(** The page before the fetch, and after it has been served. *)
Definition start (st : S) : dconfig * S :=
  finish_with act serve getFoods (Config (Page initial []) [] []) st.

(** One operation: the event fires its handler, which runs alone. *)
Definition operate (ev : event) (c : dconfig) (st : S) : option (dconfig * S) :=
  if alive (world c)
  then Some (finish_with act serve (handler (world c) ev) c st)
  else None.

Fixpoint operates (evs : list event) (c : dconfig) (st : S) : option (dconfig * S) :=
  match evs with
  | [] => Some (c, st)
  | ev :: evs => '(c', st') ← operate ev c st; operates evs c' st'
  end.

(** The configuration with another list. *)
Definition with_foods (l : list value) (c : dconfig) : dconfig :=
  set_world (act (setFoods (Array l))) c.

(** ** Lemmas: collections *)

Lemma unique_ids_snoc l f :
  unique_ids l = true → fresh (id_of f) l = true → unique_ids (l ++ [f]) = true.
Proof.
  induction l as [|g l IH]; [done|]. simpl.
  rewrite !andb_true_iff, forallb_app. simpl. rewrite !andb_true_iff.
  intros [Hg Hl] [Hgf Hf]. auto.
Qed.

Lemma unique_ids_filter (p : value → bool) l :
  unique_ids l = true → unique_ids (List.filter p l) = true.
Proof.
  induction l as [|g l IH]; [done|]. simpl. rewrite andb_true_iff.
  intros [Hg Hl]. destruct (p g); simpl; [|by auto].
  rewrite andb_true_iff. split; [|by auto].
  rewrite forallb_forall in Hg |- *. intros x [Hx _]%filter_In. auto.
Qed.

(** Replacing an item by one with the same id keeps the ids unique. *)
Lemma unique_ids_insert l i f g :
  unique_ids l = true → l !! i = Some f → id_of g = id_of f →
  unique_ids (<[i := g]> l) = true.
Proof.
  revert i. induction l as [|h l IH]; intros i; [done|].
  intros [Hh Hl]%unique_ids_cons Hi Hg. destruct i as [|i]; simpl in *.
  - simplify_eq. apply unique_ids_cons. by rewrite Hg.
  - apply unique_ids_cons. split; [|by eapply IH].
    apply Forall_insert; [done|]. rewrite Hg.
    rewrite Forall_forall in Hh. apply Hh. by eapply list_elem_of_lookup_2.
Qed.

(** ** Lemmas: the page follows the store *)

Lemma store_ok_has_id l : store_ok l → Forall (λ f, has_id f = true) l.
Proof.
  intros [_ Hl]. eapply Forall_impl; [done|]. intros f. apply is_obj_has_id.
Qed.

Lemma in_sync_alive c st : in_sync c st → alive (world c) = true.
Proof.
  intros (Hf & _ & Hok). apply (alive_Forall _ (items st)); [done|].
  by apply store_ok_has_id.
Qed.

Lemma store_ok_snoc l body id :
  store_ok l → fresh id l = true → store_ok (l ++ [stored body id]).
Proof.
  intros [Hu Hl] Hid. split.
  - apply unique_ids_snoc; [done|]. by rewrite id_of_stored.
  - apply Forall_app. split; [done|]. by repeat constructor.
Qed.

Lemma store_ok_insert l i f body :
  store_ok l → l !! i = Some f → store_ok (<[i := stored body (id_of f)]> l).
Proof.
  intros [Hu Hl] Hi. split.
  - eapply unique_ids_insert; [done..|]. apply id_of_stored.
  - by apply Forall_insert.
Qed.

Lemma store_ok_filter (p : value → bool) l : store_ok l → store_ok (List.filter p l).
Proof.
  intros [Hu Hl]. split; [by apply unique_ids_filter | by apply Forall_List_filter].
Qed.

Lemma in_sync_with_foods c st st' :
  in_sync c st → store_ok (items st') → in_sync (with_foods (items st') c) st'.
Proof. intros (_ & Hin & _) Hok. by split_and!. Qed.

Lemma in_sync_same_items c c' st st' :
  in_sync c st → items st' = items st →
  foods (ui (world c')) = foods (ui (world c)) → inflight c' = inflight c →
  in_sync c' st'.
Proof. intros (Hf & Hin & Hok) Hi Hf' Hin'. split_and!; congruence. Qed.

(** Each asynchronous handler, run alone against the store from a page
    in sync, leaves the page in sync. *)
Lemma handleAddFood_in_sync c st food :
  in_sync c st →
  in_sync (finish_with act serve (handleAddFood (ui (world c)) food) c st).1
          (finish_with act serve (handleAddFood (ui (world c)) food) c st).2.
Proof.
  intros Hs. pose proof Hs as (Hf & Hin & Hok). simpl.
  pose proof (serve_post (spread_with food "available" (boolean true)) st) as Hlaw.
  destruct (serve _ _ st) as [[r|e] st']; simpl.
  - destruct Hlaw as (id & Hid & Hr & Hst'). rewrite Hr, Hf. simpl.
    rewrite <-Hr, <-Hst'. apply (in_sync_with_foods c st); [done|].
    rewrite Hst', Hr. by apply store_ok_snoc.
  - by apply (in_sync_same_items c _ st).
Qed.

Lemma handleUpdateFood_in_sync c st food :
  in_sync c st →
  in_sync (finish_with act serve (handleUpdateFood (ui (world c)) food) c st).1
          (finish_with act serve (handleUpdateFood (ui (world c)) food) c st).2.
Proof.
  intros Hs. pose proof Hs as (Hf & Hin & Hok). unfold handleUpdateFood.
  destruct (get_id (editingFood (ui (world c)))) as [id|e]; simpl;
    [|by apply (in_sync_same_items c _ st)].
  pose proof (serve_put id (spread (editingFood (ui (world c))) food) st) as Hlaw.
  destruct (serve _ _ st) as [[r|e] st']; simpl;
    [|by apply (in_sync_same_items c _ st)].
  destruct Hlaw as (i & f & Hi & Hid & Hr & Hst'). rewrite Hf. simpl.
  rewrite mapM_replace_updated; first last.
  { by apply store_ok_has_id. }
  { by rewrite Hr. }
  simpl. rewrite (replace_id_fmap_one _ _ i f), <-Hst'; [|apply Hok|done|].
  - apply (in_sync_with_foods c st); [done|]. rewrite Hst', Hr. by apply store_ok_insert.
  - rewrite Hr, id_of_stored. eapply strict_eq_refl, strict_eq_not_NaN, Hid.
Qed.

Lemma handleDeleteFood_in_sync c st id :
  in_sync c st →
  in_sync (finish_with act serve (handleDeleteFood (ui (world c)) id) c st).1
          (finish_with act serve (handleDeleteFood (ui (world c)) id) c st).2.
Proof.
  intros Hs. pose proof Hs as (Hf & Hin & Hok). simpl.
  pose proof (serve_delete id st) as Hlaw.
  destruct (serve _ _ st) as [[r|e] st']; simpl;
    [|by apply (in_sync_same_items c _ st)].
  rewrite Hf. simpl. rewrite filterM_keep_other by (by apply store_ok_has_id).
  simpl. rewrite <-Hlaw. apply (in_sync_with_foods c st); [done|].
  rewrite Hlaw. by apply store_ok_filter.
Qed.

(** The fetch on mount puts the page in sync with a store whose
    collection is well formed: the list is the collection, nothing is in
    flight. *)
Lemma start_in_sync st :
  store_ok (items st) → in_sync (start st).1 (start st).2.
Proof.
  intros Hok. unfold start. simpl. rewrite serve_get. simpl. by split_and!.
Qed.

(** Every operation keeps the page in sync with the store: whatever the
    event and its argument, the operation can be performed, and after it
    the list on the page is again the collection of the store (with the
    created item last, the updated item in its place, the deleted item
    gone, or unchanged when the store refused). *)
Lemma in_sync_operate ev c st :
  in_sync c st →
  ∃ c' st', operate ev c st = Some (c', st') ∧ in_sync c' st'.
Proof.
  intros Hs. unfold operate. rewrite (in_sync_alive _ _ Hs).
  destruct (finish_with _ _ _ _ _) as [c' st'] eqn:Hfin.
  exists c', st'. split; [done|].
  change c' with (c', st').1. change st' with (c', st').2 at 2. rewrite <-Hfin.
  destruct ev; unfold handler; simpl dispatch.
  1,2,4,7: by apply (in_sync_same_items c _ st).
  - by apply handleAddFood_in_sync.
  - by apply handleUpdateFood_in_sync.
  - by apply handleDeleteFood_in_sync.
Qed.

(** C13.  Every sequence of operations, each answered by the store before
    the next event, can be performed from a page in sync with a lawful
    store and ends with the page in sync: the list on the page is the
    store's collection, nothing is in flight, the ids are unique. *)
Theorem operates_in_sync evs c st :
  in_sync c st →
  ∃ c' st', operates evs c st = Some (c', st') ∧ in_sync c' st'.
Proof.
  revert c st. induction evs as [|ev evs IH]; intros c st Hs; [by eauto|].
  destruct (in_sync_operate ev c st Hs) as (c1 & st1 & Hop & Hs1).
  destruct (IH c1 st1 Hs1) as (c' & st' & Hops & Hs').
  exists c', st'. split; [|done]. simpl. by rewrite Hop.
Qed.

(** An operation is an execution of the machine: the event fires,
    then the call the handler makes, if any, settles with the answer of
    the store.  What holds of every execution holds of operations. *)
Lemma operate_steps ev c st c' st' :
  operate ev c st = Some (c', st') → ∃ ls, dsteps c (Fire ev :: ls) c'.
Proof.
  unfold operate. destruct (alive (world c)) eqn:Hc; [|done]. intros [= Hfin].
  destruct (finish_with_steps act handler alive serve (handler (world c) ev) c st)
    as [ls Hls].
  rewrite Hfin in Hls. exists ls. econstructor; [|done]. by constructor.
Qed.

Lemma filter_fresh_snoc id l g :
  fresh id l = true → strict_eq (id_of g) id = true →
  List.filter (λ f, strict_neq (id_of f) id) (l ++ [g]) = l.
Proof.
  intros Hl Hg. rewrite List.filter_app. simpl. unfold strict_neq at 2. rewrite Hg. simpl.
  rewrite app_nil_r. induction l as [|h l IH]; [done|]. simpl in *.
  apply andb_true_iff in Hl as [-> Hl]. by rewrite IH.
Qed.

(** What a successful add does to a page in sync and to the store. *)
Lemma operate_add_inv food c st c1 st1 f :
  in_sync c st →
  operate (ModalAddFood_handleAddFood food) c st = Some (c1, st1) →
  foods (ui (world c1)) = Array (items st ++ [f]) →
  in_sync c1 st1 ∧ items st1 = items st ++ [f] ∧ fresh (id_of f) (items st) = true
  ∧ uncaught c1 = uncaught c.
Proof.
  intros Hs Hop Hf. pose proof Hs as (Hfoods & _ & _).
  destruct (in_sync_operate (ModalAddFood_handleAddFood food) c st Hs)
    as (? & ? & Hop' & Hs1).
  rewrite Hop in Hop'. injection Hop' as <- <-. split; [done|].
  revert Hop Hf. unfold operate. rewrite (in_sync_alive _ _ Hs). simpl.
  pose proof (serve_post (spread_with food "available" (boolean true)) st) as Hlaw.
  destruct (serve _ _ st) as [[r|e] st']; simpl.
  - destruct Hlaw as (id & Hid & Hr & Hst'). rewrite Hr, Hfoods. simpl.
    intros [= <- <-]. simpl. intros [= [_ [= <-]]%app_inj_1]; [|done].
    by rewrite id_of_stored, Hst', Hr.
  - intros [= <- <-]. simpl. rewrite Hfoods. intros [= Hf%(f_equal length)].
    rewrite length_app in Hf. simpl in Hf. lia.
Qed.

(** What a successful delete does to a page in sync and to the store. *)
Lemma operate_delete_inv id c st c2 st2 :
  in_sync c st →
  operate (Food_handleDelete id) c st = Some (c2, st2) →
  uncaught c2 = uncaught c →
  foods (ui (world c2))
  = Array (List.filter (λ f, strict_neq (id_of f) id) (items st))
  ∧ items st2 = List.filter (λ f, strict_neq (id_of f) id) (items st).
Proof.
  intros Hs. pose proof Hs as (Hf & _ & Hok).
  unfold operate. rewrite (in_sync_alive _ _ Hs). simpl.
  pose proof (serve_delete id st) as Hlaw.
  destruct (serve _ _ st) as [[r|e] st']; simpl.
  - rewrite Hf. simpl. rewrite filterM_keep_other by (by apply store_ok_has_id).
    simpl. intros [= <- <-] _. simpl. by rewrite Hlaw.
  - intros [= <- <-]. simpl. intros Hu%(f_equal length).
    rewrite length_app in Hu. simpl in Hu. lia.
Qed.

(** C31.  Deleting what was just added restores the page and the store.
    From a page in sync with a lawful store, when an add succeeds (the
    page lists the collection and one more item, [f]) and the deletion of [f]'s id succeeds
    (nothing escapes the handler), the list on the page and the collection
    of the store are what they were before the add, provided the id the
    store assigned is not [NaN]. *)
Theorem add_delete_restores food c st c1 st1 f c2 st2 :
  in_sync c st →
  operate (ModalAddFood_handleAddFood food) c st = Some (c1, st1) →
  foods (ui (world c1)) = Array (items st ++ [f]) →
  is_NaN (id_of f) = false →
  operate (Food_handleDelete (id_of f)) c1 st1 = Some (c2, st2) →
  uncaught c2 = uncaught c1 →
  foods (ui (world c2)) = foods (ui (world c)) ∧ items st2 = items st.
Proof.
  intros Hs Hadd Hf Hnan Hdel Hun.
  destruct (operate_add_inv _ _ _ _ _ _ Hs Hadd Hf) as (Hs1 & Hst1 & Hfresh & _).
  destruct (operate_delete_inv _ _ _ _ _ Hs1 Hdel Hun) as [-> ->].
  destruct Hs as (Hfoods & _ & _). rewrite Hst1, Hfoods.
  by rewrite !filter_fresh_snoc by (done || by apply strict_eq_refl).
Qed.

End sync.

(** ** Witnesses and executions with [json_server] *)

Lemma store_ok_nil : store_ok [].
Proof. by split. Qed.

Lemma in_sync_idle_initial : in_sync (idle initial) (JsonServer []).
Proof. split_and!; [done..|]. apply store_ok_nil. Qed.

Lemma operates_in_sync_witness :
  ∃ c' st',
    operates [ModalAddFood_handleAddFood food_form; Food_handleEditFood food_1;
              ModalEditFood_handleUpdateFood price_25; Food_handleDelete (number 1)]
      (idle initial) (JsonServer [])
    = Some (c', st') ∧ in_sync c' st'.
Proof.
  apply (operates_in_sync
           [ModalAddFood_handleAddFood food_form; Food_handleEditFood food_1;
            ModalEditFood_handleUpdateFood price_25; Food_handleDelete (number 1)]
           (idle initial) (JsonServer [])).
  apply in_sync_idle_initial.
Defined.

Lemma add_delete_restores_witness :
  foods (ui (world (idle initial))) = foods (ui (world (idle initial)))
  ∧ items (JsonServer []) = items (JsonServer []).
Proof.
  apply (add_delete_restores food_form (idle initial) (JsonServer [])
           (idle (State false false (Array [food_1]) (Obj ∅))) (JsonServer [food_1]) food_1
           (idle initial) (JsonServer []));
    [apply in_sync_idle_initial | reflexivity..].
Defined.

(** With [json_server], the scenario of the specification, one
    operation at a time: the store numbers the created item 1, forces
    nothing itself ([available] is set by the page), keeps the id on
    update; the page and the store hold the same list after each
    operation. *)
Example json_server_scenario :
  operates [ModalAddFood_handleAddFood food_form] (start (JsonServer [])).1
    (start (JsonServer [])).2
  = Some (idle (State false false (Array [food_1]) (Obj ∅)), JsonServer [food_1])
  ∧ operates [Food_handleEditFood food_1; ModalEditFood_handleUpdateFood price_25]
      (idle (State false false (Array [food_1]) (Obj ∅))) (JsonServer [food_1])
    = Some (idle (State false true (Array [food_1']) food_1), JsonServer [food_1'])
  ∧ operates [Food_handleDelete (number 1)]
      (idle (State false true (Array [food_1']) food_1)) (JsonServer [food_1'])
    = Some (idle (State false true (Array []) food_1), JsonServer []).
Proof. by vm_compute. Qed.
