(* ===== verification/Interleave.v ===== *)
(** * Interleave: the page and the store when operations overlap

    Nothing in the component prevents a user from submitting an operation
    while others are in flight.  Here the page runs against a store that
    satisfies [RemoteStoreLaws] with no restriction on the order: an event
    fires whenever the page can be rendered ([click]); the store serves a
    call in flight and its answer arrives ([deliver]), in any order.

    What survives every interleaving is the shape of the data: the store's
    collection stays well formed, the list on the page is made of objects,
    so the page can always be rendered and every event can fire
    ([interleave_sound]).  The invariant is [carried] of [Payload], for
    the property of being an object, together with the well-formedness of
    the store.  It also gives progress: whatever is in flight can be
    answered, in any order, and once it is nothing is left in flight
    ([deliveries_settle]).  What does not survive is the agreement of the
    page with the store: with [json_server], two adds that overlap leave
    the page one item short, a delete and an add that overlap leave it
    with the same id twice. *)

From Stdlib Require Import Floats.
From stdpp Require Import strings gmap.
From S2P Require Import Prelude JsValue Task EventLoop Dashboard Machine Payload.
From S2P Require Import Server Sync.

(** ** Definitions *)

(** A valid order of arrival for [n] calls in flight: each index is
    within what is still in flight when its turn comes. *)
Fixpoint in_range (n : nat) (l : list nat) : bool :=
  match l, n with
  | [], _ => true
  | i :: l, S n => (i <? S n) && in_range n l
  | _ :: _, 0 => false
  end.

Section overlapping.
Context {S : Type} `{RemoteStoreLaws S}.

(** The steps of the page and the store together, when operations may
    overlap: an event fires; the store serves the [i]-th call in flight
    and its answer arrives. *)
Definition click (ev : event) (c : dconfig) (st : S) : option (dconfig * S) :=
  c' ← exec act handler alive (Click ev) c; Some (c', st).

Definition deliver (i : nat) (c : dconfig) (st : S) : option (dconfig * S) :=
  match inflight c !! i with
  | Some (Pending R call k) =>
      let '(o, st') := serve R call st in
      Some (run act (k o) (set_inflight (delete i) c), st')
  | None => None
  end.

(** What happens, in order: the user acts, an answer arrives. *)
Inductive input :=
| Press (ev : event)
| Deliver (i : nat).

Definition react (a : input) (c : dconfig) (st : S) : option (dconfig * S) :=
  match a with
  | Press ev => click ev c st
  | Deliver i => deliver i c st
  end.

Fixpoint interleave (l : list input) (c : dconfig) (st : S) : option (dconfig * S) :=
  match l with
  | [] => Some (c, st)
  | a :: l => '(c', st') ← react a c st; interleave l c' st'
  end.

(** The calls of the contract: the four the component makes. *)
Definition contract_call {R} (call : api R) : Prop :=
  match call with
  | api_get url_foods | api_post url_foods _
  | api_put (url_food _) _ | api_delete (url_food _) => True
  | _ => False
  end.

(** The invariant of all interleavings: the collection of the store is
    well formed, the list on the page and what will be written to it are
    objects ([carried], from [Payload]), the calls in flight are calls of
    the contract. *)
Definition sound (c : dconfig) (st : S) : Prop :=
  store_ok (items st)
  ∧ carried (λ f, is_obj f = true) c
  ∧ Forall (λ p, contract_call (p_call p)) (inflight c).

(** ** Lemmas *)

(** A store that satisfies the contract answers with objects and stays
    well formed. *)
Lemma serve_objects {R} (call : api R) st :
  contract_call call → store_ok (items st) →
  answer_of (λ f, is_obj f = true) call (serve R call st).1
  ∧ store_ok (items (serve R call st).2).
Proof.
  intros Hcall Hok. destruct call as [[|id]|[|id] body|[|id] body|[|id]]; try done; simpl.
  - rewrite serve_get. split; [apply Hok | done].
  - pose proof (serve_post body st) as Hlaw.
    destruct (serve _ _ st) as [[r|e] st']; simpl; [|by rewrite Hlaw].
    destruct Hlaw as (i & Hi & Hr & ->). rewrite Hr. split; [done|].
    by apply store_ok_snoc.
  - pose proof (serve_put id body st) as Hlaw.
    destruct (serve _ _ st) as [[r|e] st']; simpl; [|by rewrite Hlaw].
    destruct Hlaw as (i & f & Hi & _ & Hr & ->). rewrite Hr. split; [done|].
    by apply store_ok_insert.
  - pose proof (serve_delete id st) as Hlaw.
    destruct (serve _ _ st) as [[r|e] st']; simpl; rewrite Hlaw; [|done].
    split; [done|]. by apply store_ok_filter.
Qed.

Lemma sound_alive c st : sound c st → alive (world c) = true.
Proof.
  intros (_ & [Hf _] & _). eapply alive_array_of, array_of_impl; [done|].
  intros f. apply is_obj_has_id.
Qed.

(** The handlers make calls of the contract only. *)
Lemma dispatch_contract s ev (c : dconfig) :
  Forall (λ p, contract_call (p_call p)) (inflight c) →
  Forall (λ p, contract_call (p_call p)) (inflight (run act (dispatch s ev) c)).
Proof.
  intros Hc. destruct ev; simpl; try done.
  2: unfold handleUpdateFood; destruct (get_id (editingFood s)); simpl; [|done].
  all: apply Forall_app; split; [done|]; by apply Forall_singleton.
Qed.

Lemma click_sound ev c st :
  sound c st → ∃ c', click ev c st = Some (c', st) ∧ sound c' st.
Proof.
  intros Hs. pose proof Hs as (Hok & Hf & Hin). unfold click. simpl.
  rewrite (sound_alive c st Hs). simpl. eexists. split; [done|].
  split_and!; [done|by apply fire_carried|by apply dispatch_contract].
Qed.

(** A call in flight can always be delivered; what is in flight then is
    what was, without it. *)
Lemma deliver_sound i c st :
  sound c st → i < length (inflight c) →
  ∃ c' st', deliver i c st = Some (c', st') ∧ sound c' st'
            ∧ inflight c' = delete i (inflight c).
Proof.
  intros (Hok & Hf & Hin) [[R call k] Hi]%lookup_lt_is_Some_2. unfold deliver.
  rewrite Hi. pose proof (Forall_lookup_1 _ _ _ _ Hin Hi) as Hcall.
  destruct (serve_objects call st Hcall Hok) as [Ho Hok'].
  destruct (serve R call st) as [o st1]. eexists _, _. split; [done|].
  destruct (settle_carried _ i R call k o c Hf Hi Ho) as [Hc' Hin'].
  split; [|done]. split_and!; [done..|]. rewrite Hin'. by apply Forall_delete.
Qed.

Lemma react_sound a c st c' st' :
  sound c st → react a c st = Some (c', st') → sound c' st'.
Proof.
  intros Hs. destruct a as [ev|i]; simpl.
  - destruct (click_sound ev c st Hs) as (c1 & Hc1 & Hs1). by intros; simplify_eq.
  - destruct (decide (i < length (inflight c))) as [Hi|Hi].
    + destruct (deliver_sound i c st Hs Hi) as (c1 & st1 & Hc1 & Hs1 & _).
      by intros; simplify_eq.
    + unfold deliver. by rewrite lookup_ge_None_2 by lia.
Qed.

Lemma interleave_preserves l c st c' st' :
  sound c st → interleave l c st = Some (c', st') → sound c' st'.
Proof.
  revert c st. induction l as [|a l IH]; intros c st Hs; simpl; [by intros [= <- <-]|].
  destruct (react a c st) as [[c1 st1]|] eqn:Ha; simpl; [|done].
  apply IH. by eapply react_sound.
Qed.

Lemma boot_sound st : store_ok (items st) → sound boot st.
Proof.
  intros Hok. split_and!; [done|apply boot_carried|]. by apply Forall_singleton.
Qed.

(** Deliveries in a valid order leave nothing in flight. *)
Lemma deliveries_drain l c st :
  sound c st → length l = length (inflight c) →
  in_range (length (inflight c)) l = true →
  ∃ c' st', interleave (Deliver <$> l) c st = Some (c', st')
            ∧ inflight c' = [] ∧ sound c' st'.
Proof.
  revert c st. induction l as [|i l IH]; intros c st Hs Hlen Hl.
  - exists c, st. split_and!; [done| |done]. by apply nil_length_inv.
  - simpl in Hlen. destruct (length (inflight c)) as [|n] eqn:Hn; [done|].
    simpl in Hl. apply andb_true_iff in Hl as [Hi%Nat.ltb_lt Hl].
    destruct (deliver_sound i c st Hs) as (c1 & st1 & Hc1 & Hs1 & Hin1); [lia|].
    assert (length (inflight c1) = n) as Hn1.
    { rewrite Hin1, length_delete; [lia|]. apply lookup_lt_is_Some_2. lia. }
    destruct (IH c1 st1 Hs1) as (c' & st' & Hc' & Hnil & Hs'); [lia|by rewrite Hn1|].
    exists c', st'. split_and!; [|done..]. csimpl. by rewrite Hc1.
Qed.

(** ** Theorems *)

(** C14.  The page never stops when the store keeps its contract.  From
    the first render, with a store whose collection is well formed,
    after any sequence of events and arrivals of answers, in any order and
    with any number of calls in flight: the list on the page is an array
    of objects, the page can be rendered, every event can fire, and the
    collection of the store is well formed. *)
Theorem interleave_sound l st c' st' :
  store_ok (items st) →
  interleave l boot st = Some (c', st') →
  array_of (λ f, is_obj f = true) (foods (ui (world c')))
  ∧ alive (world c') = true
  ∧ (∀ ev, ∃ c'', click ev c' st' = Some (c'', st'))
  ∧ store_ok (items st').
Proof.
  intros Hok Hl.
  assert (Hs : sound c' st') by (eapply interleave_preserves; [by apply boot_sound|done]).
  split_and!; [apply Hs|by eapply sound_alive| |apply Hs].
  intros ev. destruct (click_sound ev c' st' Hs) as (c'' & Hc'' & _). eauto.
Qed.

(** C15.  Every operation completes once its answer arrives, whatever the
    order of arrival.  With a store that satisfies the contract, from any
    configuration the page has reached with [n] calls in flight, every
    sequence of [n] arrivals in which each index is within what is still
    in flight can take place, and leaves nothing in flight: no
    continuation waits for another call, none is lost, and none blocks
    another. *)
Theorem deliveries_settle l acts st c st' :
  store_ok (items st) →
  interleave acts boot st = Some (c, st') →
  length l = length (inflight c) →
  in_range (length (inflight c)) l = true →
  ∃ c' st'', interleave (Deliver <$> l) c st' = Some (c', st'')
             ∧ inflight c' = [] ∧ alive (world c') = true.
Proof.
  intros Hok Hacts Hlen Hl.
  assert (Hs : sound c st') by (eapply interleave_preserves; [by apply boot_sound|done]).
  destruct (deliveries_drain l c st' Hs Hlen Hl) as (c' & st'' & Hc' & Hnil & Hs').
  exists c', st''. split_and!; [done..|]. by eapply sound_alive.
Qed.

End overlapping.

(** ** Executions with [json_server] *)

Lemma interleave_sound_witness :
  array_of (λ f, is_obj f = true)
    (foods (ui (world (idle (State false false (Array [food_1; food_1]) (Obj ∅))))))
  ∧ alive (world (idle (State false false (Array [food_1; food_1]) (Obj ∅)))) = true
  ∧ (∀ ev, ∃ c'',
       click ev (idle (State false false (Array [food_1; food_1]) (Obj ∅)))
         (JsonServer [food_1])
       = Some (c'', JsonServer [food_1]))
  ∧ store_ok (items (JsonServer [food_1])).
Proof.
  apply (interleave_sound
           [Deliver 0; Press (Food_handleDelete (number 1));
            Press (ModalAddFood_handleAddFood food_form); Deliver 0; Deliver 0]
           (JsonServer [food_1])).
  - split; [reflexivity | repeat constructor].
  - by vm_compute.
Defined.

Lemma deliveries_settle_witness :
  ∃ c' st'',
    interleave (Deliver <$> [1; 0])
      (Config (Page (State false false (Array [food_1]) (Obj ∅)) [])
         (inflight (run act (handleAddFood (State false false (Array [food_1]) (Obj ∅)) food_form)
                      (run act (handleDeleteFood (State false false (Array [food_1]) (Obj ∅))
                                  (number 1))
                         (idle (State false false (Array [food_1]) (Obj ∅))))))
         [])
      (JsonServer [food_1])
    = Some (c', st'')
    ∧ inflight c' = [] ∧ alive (world c') = true.
Proof.
  apply (deliveries_settle [1; 0]
           [Deliver 0; Press (Food_handleDelete (number 1));
            Press (ModalAddFood_handleAddFood food_form)]
           (JsonServer [food_1])).
  - split; [reflexivity | repeat constructor].
  - reflexivity.
  - reflexivity.
  - reflexivity.
Defined.

(** When two adds overlap the page and the store part: both items
    are created in the store, the page lists the second only. *)
Example overlapping_adds_part :
  ∃ c st,
    (click (ModalAddFood_handleAddFood food_form) (idle initial) (JsonServer [])
     ≫= λ '(c1, st1), click (ModalAddFood_handleAddFood food_form) c1 st1
     ≫= λ '(c2, st2), deliver 0 c2 st2
     ≫= λ '(c3, st3), deliver 0 c3 st3) = Some (c, st)
    ∧ (∃ f, foods (ui (world c)) = Array [f])
    ∧ length (items st) = 2
    ∧ inflight c = [].
Proof. eexists _, _. split; [by vm_compute | by eauto]. Qed.

