(* ===== verification/Serial.v ===== *)
(** * Serial: one call in flight at a time

    [Interleave] shows that overlapping operations make the page and the
    store part.  The specification leaves open whether overlapping
    operations are intended, and recommends that a reimplementation track
    what is in flight (sections 5 and 9).  This file proves that tracking
    is enough: if the events whose handler calls the store are accepted
    only when nothing is in flight ([admitted]) - the toggles and the edit
    request at any time, answers whenever they arrive - then the page
    cannot part from the store.  At every moment either nothing is in
    flight and the list on the page is the collection of the store, or
    one call is in flight and its answer will make it so ([serial_inv]).

    More: such a session is its operations one after the other.  The
    toggles and the edit request that are pressed while a call is in
    flight commute with the end of the handler that waits
    ([carry_out_flip]: one sets the flags and the editing slot, the
    other the list and the console), so the session ends where its
    events end when each is run alone and answered before the next one
    ([operates] of [Sync]), in the order they were pressed
    ([serially_sequential]); [Spec] states it of the operations of the
    specification.

    The handlers of [Dashboard] are unchanged: the discipline is on the
    environment, and the theorem says what the closures of the handlers
    need for their captured list to be the current one. *)

From Stdlib Require Import Floats.
From stdpp Require Import strings gmap.
From S2P Require Import Prelude JsValue Task EventLoop Dashboard Machine Reducer Payload.
From S2P Require Import Server Sync Interleave.

(** ** Definitions *)

(** The events whose handler makes no call: the toggles (lines 85-91) and
    the edit request (lines 93-96). *)
Definition is_sync (ev : event) : bool :=
  match ev with
  | ModalAddFood_handleAddFood _ | ModalEditFood_handleUpdateFood _
  | Food_handleDelete _ => false
  | _ => true
  end.

(** In-flight tracking: an event whose handler calls the store is
    accepted only when nothing is in flight. *)
Definition admitted (a : input) (c : dconfig) : bool :=
  match a with
  | Press ev => is_sync ev || bool_decide (length (inflight c) = 0)
  | Deliver _ => true
  end.

(** The events of a session, in the order they were pressed. *)
Definition presses (l : list input) : list event :=
  omap (λ a, match a with Press ev => Some ev | Deliver _ => None end) l.

(** What a synchronous event does to a configuration. *)
Definition flip (ev : event) (c : dconfig) : dconfig :=
  set_world (λ w, Page (pressed ev (ui w)) (console w)) c.

Section serial.
Context {S : Type} `{RemoteStoreLaws S}.

Fixpoint serially (l : list input) (c : dconfig) (st : S) : option (dconfig * S) :=
  match l with
  | [] => Some (c, st)
  | a :: l =>
      if admitted a c then '(c', st') ← react a c st; serially l c' st' else None
  end.

(** A call in flight whose answer, whatever the store makes it, leaves
    the list [l] equal to the collection of the store. *)
Definition answered (l : collection) (st : S) (p : pending) : Prop :=
  contract_call (p_call p)
  ∧ ∀ o st', serve _ (p_call p) st = (o, st') →
      suspends 0 (p_resume p o)
      ∧ default l (written (p_resume p o)) = Array (items st').

(** The invariant: nothing in flight and the page shows the collection,
    or one call in flight whose answer will make it so. *)
Definition serial_inv (c : dconfig) (st : S) : Prop :=
  store_ok (items st)
  ∧ match inflight c with
    | [] => foods (ui (world c)) = Array (items st)
    | [p] => answered (foods (ui (world c))) st p
    | _ => False
    end.

(** What the operations of a session, one at a time, have made of the
    page and the store: where the session is when nothing is in flight,
    where the answer of the call in flight takes it when one is. *)
Definition caught_up (c : dconfig) (st : S) (r : dconfig * S) : Prop :=
  match inflight c with
  | [] => r = (c, st)
  | _ => deliver 0 c st = Some r
  end.

(** Every call in flight is the call of a job. *)
Definition jobs (c : dconfig) : Prop := Forall (λ p, ∃ j, parks p j) (inflight c).

(** ** Lemmas *)

Lemma serial_inv_in_sync c st : inflight c = [] → serial_inv c st ↔ in_sync c st.
Proof.
  intros Hin. unfold serial_inv, in_sync. rewrite Hin. naive_solver.
Qed.

(** The invariant sees the list and what is in flight only. *)
Lemma serial_inv_same c c' st :
  inflight c' = inflight c → foods (ui (world c')) = foods (ui (world c)) →
  serial_inv c st → serial_inv c' st.
Proof. unfold serial_inv. by intros -> ->. Qed.

Lemma dispatch_resumes_0 s ev : resumes (suspends 0) (dispatch s ev).
Proof. eapply resumes_mono; [|apply dispatch_resumes]. by intros t [? _]. Qed.

(** A synchronous event changes neither the list nor what is in flight. *)
Lemma click_sync ev c st :
  is_sync ev = true → serial_inv c st →
  serial_inv (run act (handler (world c) ev) c) st.
Proof.
  intros Hev. apply serial_inv_same; [|unfold handler; apply run_dispatch_foods].
  by destruct ev.
Qed.

(** An event at rest: its handler parks at most one call, whose answer
    brings the page in sync. *)
Lemma click_at_rest ev c st :
  in_sync c st → serial_inv (run act (handler (world c) ev) c) st.
Proof.
  intros Hs. pose proof Hs as (Hf & Hin & Hok).
  destruct (in_sync_operate ev c st Hs) as (c' & st' & Hop & Hs').
  revert Hop. unfold operate. rewrite (in_sync_alive _ _ Hs).
  rewrite (finish_with_first act) by apply dispatch_resumes_0. rewrite Hin. simpl.
  pose proof (run_inflight_length act (handler (world c) ev) c) as Hlen.
  assert (Hcall : Forall (λ p, contract_call (p_call p))
                    (inflight (run act (handler (world c) ev) c)))
    by (apply dispatch_contract; rewrite Hin; constructor).
  assert (Hpark : parked (suspends 0) (run act (handler (world c) ev) c))
    by (apply parked_run; [apply dispatch_resumes_0 | unfold parked; by rewrite Hin]).
  rewrite Hin in Hlen. unfold parked in Hpark.
  set (c1 := run act (handler (world c) ev) c) in *.
  assert (Hf1 : foods (ui (world c1)) = foods (ui (world c)))
    by apply run_dispatch_foods.
  intros Hop. split; [done|]. revert Hop.
  destruct (inflight c1) as [|[R call k] [|? ?]] eqn:Hin1.
  - intros [= <- <-]. by destruct Hs' as (-> & _).
  - intros Hop. split; [by apply (Forall_inv Hcall)|].
    intros o st1 Hserve. simpl in *. rewrite Hserve in Hop. injection Hop as <- <-.
    pose proof (Forall_inv Hpark o) as Hk. split; [done|].
    destruct Hs' as (Hf' & _). by rewrite run_written in Hf' by done.
  - simpl in Hlen. lia.
Qed.

(** The answer of the one call in flight brings the page in sync. *)
Lemma deliver_serial i c st c' st' :
  serial_inv c st → deliver i c st = Some (c', st') → in_sync c' st'.
Proof.
  intros [Hok Hc]. unfold deliver.
  destruct (inflight c) as [|[R call k] [|? ?]] eqn:Hin; [done| |done].
  destruct i as [|i]; [|done]. simpl.
  destruct Hc as [Hcall Hans]. pose proof (serve_objects call st Hcall Hok) as [_ Hok'].
  destruct (serve R call st) as [o st1] eqn:Hserve. intros [= <- <-].
  destruct (Hans o st1 Hserve) as [Hk Hw]. simpl in *.
  split_and!; [|rewrite run_suspends_0 by done; simpl; by rewrite Hin|done].
  by rewrite run_written.
Qed.

Lemma react_serial a c st c' st' :
  serial_inv c st → admitted a c = true → react a c st = Some (c', st') →
  serial_inv c' st'.
Proof.
  intros Hc Ha. destruct a as [ev|i]; simpl.
  - unfold click. simpl. destruct (alive (world c)); simpl; [|done].
    intros [= <- <-].
    simpl in Ha. apply orb_true_iff in Ha as [Hev|Hin%bool_decide_eq_true].
    + by apply click_sync.
    + apply nil_length_inv in Hin. by apply click_at_rest, serial_inv_in_sync.
  - intros Hd. pose proof (deliver_serial i c st c' st' Hc Hd) as Hs.
    apply serial_inv_in_sync; [apply Hs | done].
Qed.

Lemma serially_inv l c st c' st' :
  serial_inv c st → serially l c st = Some (c', st') → serial_inv c' st'.
Proof.
  revert c st. induction l as [|a l IH]; intros c st Hc; simpl; [by intros [= <- <-]|].
  destruct (admitted a c) eqn:Ha; [|done].
  destruct (react a c st) as [[c1 st1]|] eqn:Hr; simpl; [|done].
  apply IH. by eapply react_serial.
Qed.

Lemma boot_serial st : store_ok (items st) → serial_inv boot st.
Proof.
  intros Hok. split; [done|]. split; [done|]. simpl. intros o st'.
  rewrite serve_get. intros [= <- <-]. split; [repeat constructor | done].
Qed.


(** *** One operation at a time *)

Lemma run_sync ev (c : dconfig) :
  is_sync ev = true → run act (handler (world c) ev) c = flip ev c.
Proof. by destruct ev, c as [[[] ?] ? ?]. Qed.

(** A synchronous event and the end of a job commute. *)
Lemma carry_out_flip v ev i (c : dconfig) :
  is_sync ev = true →
  carry_out v (set_inflight (delete i) (flip ev c))
  = flip ev (carry_out v (set_inflight (delete i) c)).
Proof. by destruct ev, v, c as [[[] ?] ? ?]. Qed.

Lemma operate_sync ev c st :
  is_sync ev = true → alive (world c) = true →
  operate ev c st = Some (flip ev c, st).
Proof.
  intros Hev Hc. unfold operate. rewrite Hc, <- (run_sync ev c Hev). by destruct ev.
Qed.

(** A synchronous event, in the session and one operation at a time. *)
Lemma caught_up_sync ev c st r :
  is_sync ev = true → serial_inv c st → jobs c → caught_up c st r →
  caught_up (flip ev c) st (flip ev r.1, r.2)
  ∧ (alive (world c) = true → operate ev r.1 r.2 = Some (flip ev r.1, r.2)).
Proof.
  intros Hev Hser Hjobs. destruct r as [cs sts]. unfold caught_up. simpl.
  destruct (inflight c) as [|p l] eqn:Hin.
  - intros [= -> ->]. split; [done|]. by apply operate_sync.
  - intros Hd. pose proof (deliver_serial 0 c st _ _ Hser Hd) as Hs%in_sync_alive.
    split; [|intros _; by apply operate_sync]. revert Hd. unfold deliver. simpl.
    unfold jobs in Hjobs. rewrite Hin in Hjobs |- *. simpl.
    destruct (Forall_inv Hjobs) as (j & k & -> & Hk).
    destruct (serve _ (job_call j) st) as [o st1]. intros [= <- <-]. simpl.
    by rewrite !Hk, carry_out_flip.
Qed.

(** An event at rest: the operation is the event followed by the answer
    of the call it makes, if it makes one. *)
Lemma caught_up_rest ev c st :
  in_sync c st →
  ∃ r, operate ev c st = Some r ∧ caught_up (run act (handler (world c) ev) c) st r.
Proof.
  intros Hs. pose proof Hs as (_ & Hin & _). unfold operate, caught_up, deliver.
  rewrite (in_sync_alive _ _ Hs), (finish_with_first act) by apply dispatch_resumes_0.
  rewrite Hin. simpl. destruct (inflight (run act _ c)) as [|[R call k] l]; simpl; [eauto|].
  destruct (serve R call st) as [o st1]. eauto.
Qed.

(** The answer of the call in flight: the session catches up. *)
Lemma caught_up_deliver i c st c' st' r :
  serial_inv c st → caught_up c st r → deliver i c st = Some (c', st') →
  caught_up c' st' r.
Proof.
  intros Hser Hr Hd. destruct (deliver_serial i c st c' st' Hser Hd) as (_ & Hin' & _).
  unfold caught_up in *. rewrite Hin'. destruct Hser as [_ Hc].
  destruct (inflight c) as [|p [|? ?]] eqn:Hin; [by unfold deliver in Hd; rewrite Hin in Hd| |done].
  destruct i as [|i]; [congruence|]. unfold deliver in Hd. by rewrite Hin in Hd.
Qed.

Lemma boot_jobs : jobs boot.
Proof. apply Forall_singleton. exists Fetching. apply getFoods_parks. Qed.

Lemma press_jobs ev c : jobs c → jobs (run act (handler (world c) ev) c).
Proof.
  intros Hc. unfold jobs, handler. destruct (dispatch_parks ev c) as [Hrun _].
  destruct (started ev (ui (world c))) as [j|e]; [|by destruct Hrun as [_ ->]].
  destruct Hrun as (_ & ps & -> & Hps). apply Forall_app. split; [done|].
  clear Hc. induction Hps; constructor; eauto.
Qed.

(** A session is its operations one at a time. *)
Lemma serially_operates l c st r c' st' :
  serial_inv c st → jobs c → caught_up c st r →
  serially l c st = Some (c', st') →
  ∃ r', operates (presses l) r.1 r.2 = Some r' ∧ caught_up c' st' r'.
Proof.
  revert c st r. induction l as [|a l IH]; intros c st r Hser Hjobs Hr.
  - intros [= <- <-]. exists r. by destruct r.
  - cbn [serially]. destruct (admitted a c) eqn:Ha; [|done].
    destruct (react a c st) as [[c1 st1]|] eqn:Hreact; simpl; [|done].
    pose proof (react_serial a c st c1 st1 Hser Ha Hreact) as Hser1.
    destruct a as [ev|i]; simpl.
    + simpl in Hreact. unfold click in Hreact. simpl in Hreact.
      destruct (alive (world c)) eqn:Halive; simpl in Hreact; [|done].
      injection Hreact as <- <-. pose proof (press_jobs ev c Hjobs) as Hjobs1.
      simpl in Ha. apply orb_true_iff in Ha as [Hev|Hrest%bool_decide_eq_true].
      * destruct (caught_up_sync ev c st r Hev Hser Hjobs Hr) as [Hr1 Hop].
        rewrite Hop by done. simpl. rewrite run_sync in * by done.
        by apply (IH (flip ev c) st (flip ev r.1, r.2)).
      * apply nil_length_inv in Hrest. unfold caught_up in Hr. rewrite Hrest in Hr.
        subst r. simpl.
        destruct (caught_up_rest ev c st) as (r1 & -> & Hr1);
          [by apply serial_inv_in_sync|]. simpl. destruct r1 as [cs sts].
        by apply (IH _ st (cs, sts)).
    + apply (IH c1 st1 r); [done| |by apply (caught_up_deliver i c st)].
      destruct (deliver_serial i c st c1 st1 Hser Hreact) as (_ & Hin1 & _).
      unfold jobs. rewrite Hin1. constructor.
Qed.

Lemma boot_caught_up st : caught_up boot st (start st).
Proof.
  unfold caught_up, deliver, start. simpl. by destruct (serve _ _ st) as [[r|e] st1].
Qed.

(** One call at a time: the session is its operations one after the
    other.  The events of the session, each run alone and answered before
    the next one in the order they were pressed, can be performed from
    the fetch on mount and end with the page in sync with the store; when
    nothing is in flight the page and the store of the session are the
    ones they end with; when a call is in flight, which is then the only
    one, they are once its answer is delivered. *)
Lemma serially_sequential l st c st' :
  store_ok (items st) → serially l boot st = Some (c, st') →
  ∃ r, operates (presses l) (start st).1 (start st).2 = Some r
       ∧ in_sync r.1 r.2
       ∧ match inflight c with
         | [] => r = (c, st')
         | _ => deliver 0 c st' = Some r
         end.
Proof.
  intros Hok Hl. pose proof (serially_inv l boot st c st' (boot_serial st Hok) Hl) as Hc.
  destruct (serially_operates l boot st (start st) c st'
              (boot_serial st Hok) boot_jobs (boot_caught_up st) Hl) as ([cs sts] & Hops & Hr).
  exists (cs, sts). split_and!; [done| |done]. unfold caught_up in Hr.
  destruct (inflight c) eqn:Hin; [|by eapply deliver_serial].
  injection Hr as -> ->. by apply serial_inv_in_sync.
Qed.

End serial.

(** ** Examples *)

(** Without the tracking the same events part the page from the store:
    the second add is pressed while the first is in flight, and is not
    admitted. *)
Example overlapping_not_admitted :
  serially [Deliver 0; Press (ModalAddFood_handleAddFood food_form);
            Press (ModalAddFood_handleAddFood food_form)]
    boot (JsonServer [])
  = None.
Proof. reflexivity. Qed.

(** An edit request pressed while the add is in flight: the session ends
    where the add followed by the edit request ends. *)
Example serially_reordered :
  serially [Deliver 0; Press (ModalAddFood_handleAddFood food_form);
            Press (Food_handleEditFood food_2); Deliver 0]
    boot (JsonServer [])
  = operates [ModalAddFood_handleAddFood food_form; Food_handleEditFood food_2]
      (start (JsonServer [])).1 (start (JsonServer [])).2.
Proof. reflexivity. Qed.
