(* ===== verification/Presentation.v ===== *)
(** * Presentation: the page behind its presentation components

    The handlers of [Dashboard] are called by [Header], [ModalAddFood],
    [ModalEditFood] and [Food], which are not part of the sources.  The
    other files let any event fire at any time, with any argument; the
    component is then exposed to calls no presentation layer would make
    (an update with the editing slot never set, the deletion of an id that
    is not listed).

    This file states what the presentation components do with the props
    of lines 100-121, from the contract of section 6 of the specification
    ([offered]): [Header] calls [openModal]; a modal calls its callbacks
    while its [isOpen] is [true]; a [Food] deletes by the id of its own
    item and requests the edit of its own item.  It is an assumption on
    the collaborators, kept apart from the model of the component: the
    theorems of the other files hold for any collaborators, the theorems
    here for those that keep the contract.

    The executions through such a layer ([browse]) are executions of the
    machine, so everything proved of [play] holds of them.  More holds:
    the edit modal is open only on an item that was listed
    ([browse_carried]), and when the store issues integer ids every
    address the page sends names a resource of the store
    ([browse_routed]).  When moreover an open modal takes the events
    ([modal]), the two flags and the editing slot implement the tagged
    variant that section 9 of the specification recommends ([Mode],
    [modal_refines]). *)

From Stdlib Require Import Floats ZArith.
From stdpp Require Import strings gmap.
From S2P Require Import Prelude JsValue Number Task EventLoop Dashboard Machine.
From S2P Require Import Reducer Payload Http Types.

(** ** Definitions *)

(** *** The components *)

(** [<Header openModal={toggleModal} />] (line 100): the button of the
    header calls [openModal]. *)
Definition Header (ev : event) : bool :=
  match ev with Header_openModal => true | _ => false end.

(** [ModalAddFood] (lines 101-105) gets the open flag, the toggle and the
    add callback; it calls them while it is open. *)
Definition ModalAddFood (isOpen : bool) (ev : event) : bool :=
  isOpen && match ev with
            | ModalAddFood_setIsOpen | ModalAddFood_handleAddFood _ => true
            | _ => false
            end.

(** [ModalEditFood] (lines 106-111) gets the open flag, the toggle, the
    item being edited and the update callback; it calls the callbacks
    while it is open. *)
Definition ModalEditFood (isOpen : bool) (editingFood : value) (ev : event) : bool :=
  isOpen && match ev with
            | ModalEditFood_setIsOpen | ModalEditFood_handleUpdateFood _ => true
            | _ => false
            end.

(** [Food] (lines 116-121) gets its item, the delete-by-id callback and
    the edit-request callback; it calls [handleDelete(food.id)] and
    [handleEditFood(food)]. *)
Definition Food (food : value) (ev : event) : bool :=
  match ev with
  | Food_handleDelete id => bool_decide (get_id food = Ok id)
  | Food_handleEditFood f => bool_decide (f = food)
  | _ => false
  end.

(** The events the rendered tree offers: those of its components. *)
Definition offered (v : view) (ev : event) : bool :=
  Header ev
  || ModalAddFood (ModalAddFood_isOpen v) ev
  || ModalEditFood (ModalEditFood_isOpen v) (ModalEditFood_editingFood v) ev
  || existsb (λ e, Food e.2 ev) (Food_elements v).

(** A presentation layer whose open modal takes the events: while a
    modal is open only its own callbacks are called. *)
Definition modal (v : view) (ev : event) : bool :=
  offered v ev
  && (if ModalAddFood_isOpen v then ModalAddFood true ev
      else if ModalEditFood_isOpen v
           then ModalEditFood true (ModalEditFood_editingFood v) ev
           else true).

(** *** Executions through a presentation layer *)

Section layer.
Context (L : view → event → bool).

(** A move the layer [L] allows: an event that the tree on the screen
    offers, or the arrival of an answer. *)
Definition shown (m : move (E:=exn) (C:=api) (Ev:=event)) (c : dconfig) : bool :=
  match m with
  | Click ev =>
      match render (ui (world c)) with
      | Ok v => L v ev
      | Err _ => false
      end
  | Answer _ _ => true
  end.

Fixpoint browse (ms : list (move (E:=exn) (C:=api) (Ev:=event))) (c : dconfig)
    : option dconfig :=
  match ms with
  | [] => Some c
  | m :: ms =>
      if shown m c then c' ← exec act handler alive m c; browse ms c' else None
  end.

End layer.

(** *** The recommended state of the modals *)

(** Section 9 of the specification: the two flags and the editing slot
    as one tagged variant, in which two open modals and a stale editing
    slot cannot be written. *)
Inductive Mode :=
| Closed
| AddOpen
| EditOpen (item : value).

(** The variant a state stands for; none when both modals are open. *)
Definition mode (s : state) : option Mode :=
  match modalOpen s, editModalOpen s with
  | false, false => Some Closed
  | true, false => Some AddOpen
  | false, true => Some (EditOpen (editingFood s))
  | true, true => None
  end.

(** Its transitions, as a reducer. *)
Definition mode_step (md : Mode) (m : move (E:=exn) (C:=api) (Ev:=event)) : Mode :=
  match md, m with
  | Closed, Click Header_openModal => AddOpen
  | Closed, Click (Food_handleEditFood food) => EditOpen food
  | AddOpen, Click ModalAddFood_setIsOpen => Closed
  | EditOpen _, Click ModalEditFood_setIsOpen => Closed
  | _, _ => md
  end.

(** *** What the contract gives *)

(** The invariant of the executions through [offered], for a property
    [P] of items: the list and what will be written to it satisfy [P]
    ([carried], from [Payload]), and the edit modal is open on an item
    that satisfies [P]. *)
Definition presented (P : value → Prop) (c : dconfig) : Prop :=
  reachable c ∧ carried P c
  ∧ (editModalOpen (ui (world c)) = true → P (editingFood (ui (world c)))).

(** What an event passes to its handler, and what the handler reads of
    the editing slot. *)
Definition passes (P : value → Prop) (s : state) (ev : event) : Prop :=
  match ev with
  | Food_handleEditFood food => P food
  | Food_handleDelete id => ∃ f, P f ∧ get_id f = Ok id
  | ModalEditFood_handleUpdateFood _ => P (editingFood s)
  | _ => True
  end.

(** The resource a request names, as the store reads its address. *)
Definition names (r : request) : option resource :=
  path (request_url r) ≫= route.

(** A request on the resource its method is for: the collection for
    GET and POST, an item for PUT and DELETE. *)
Definition addressed (r : request) : Prop :=
  match r with
  | GET _ | POST _ _ => names r = Some Collection
  | PUT _ _ | DELETE _ => ∃ z, names r = Some (Item z)
  end.

(** The keys of the [Food] elements as React compares them, as text
    ([key={food.id}], line 117). *)
Definition keys (v : view) : list (option string) :=
  (λ e, to_text e.1) <$> Food_elements v.

(** ** Lemmas *)

(** *** The contract, event by event *)

Lemma existsb_never {A} (l : list A) : existsb (λ _, false) l = false.
Proof. by induction l. Qed.

Lemma offered_spec v ev :
  offered v ev = true ↔
  match ev with
  | Header_openModal => True
  | ModalAddFood_setIsOpen | ModalAddFood_handleAddFood _ =>
      ModalAddFood_isOpen v = true
  | ModalEditFood_setIsOpen | ModalEditFood_handleUpdateFood _ =>
      ModalEditFood_isOpen v = true
  | Food_handleDelete id => ∃ e, e ∈ Food_elements v ∧ get_id e.2 = Ok id
  | Food_handleEditFood food => ∃ e, e ∈ Food_elements v ∧ e.2 = food
  end.
Proof.
  unfold offered, ModalAddFood, ModalEditFood.
  destruct ev; simpl;
    rewrite ?andb_true_r, ?andb_false_r, ?existsb_never, ?orb_false_r; simpl;
    try done.
  - rewrite existsb_exists. setoid_rewrite <- list_elem_of_In.
    by setoid_rewrite bool_decide_eq_true.
  - rewrite existsb_exists. setoid_rewrite <- list_elem_of_In.
    setoid_rewrite bool_decide_eq_true. naive_solver.
Qed.

Lemma modal_offered v ev : modal v ev = true → offered v ev = true.
Proof. by intros [? _]%andb_true_iff. Qed.

(** *** What the tree shows *)

Lemma render_Ok s v :
  render s = Ok v →
  v = View (modalOpen s) (editModalOpen s) (editingFood s) (Food_elements v).
Proof.
  unfold render. destruct (if present (foods s) then _ else _); simpl; [|done].
  by intros [= <-].
Qed.

(** Each [Food] shows an element of the list, under its id. *)
Lemma render_elements (P : value → Prop) s v :
  array_of P (foods s) → render s = Ok v →
  Forall (λ e, P e.2 ∧ get_id e.2 = Ok e.1) (Food_elements v).
Proof.
  intros (l & Hl & Hall)%array_of_Array. unfold render. rewrite Hl. simpl.
  destruct (mapM _ l) as [els|] eqn:Hels; simpl; [|done]. intros [= <-]. simpl.
  apply mapM_Ok_Forall2 in Hels. clear Hl.
  induction Hels as [|f e l els Hf _ IH]; [done|].
  apply Forall_cons in Hall as [Hx Hall]. constructor; [|by apply IH].
  destruct (get_id f) as [k|] eqn:Hk; simpl in Hf; [|done]. by injection Hf as <-.
Qed.

(** *** The invariant *)

Section contract.
Context (P : value → Prop).

Lemma shown_alive L m (c : dconfig) :
  shown L m c = true → match m with Click _ => alive (world c) = true | _ => True end.
Proof. destruct m; simpl; [|done]. unfold alive. by destruct (render _). Qed.

(** What the offered events pass satisfies [P]. *)
Lemma shown_passes ev c :
  presented P c → shown offered (Click ev) c = true → passes P (ui (world c)) ev.
Proof.
  intros (_ & [Hf _] & Hslot). simpl.
  destruct (render (ui (world c))) as [v|] eqn:Hv; [|done].
  pose proof (render_elements P _ _ Hf Hv) as Hels. apply render_Ok in Hv.
  rewrite Forall_forall in Hels.
  rewrite offered_spec, Hv. destruct ev; simpl; try done.
  - intros (e & [He Hid]%Hels & Hk). eauto.
  - by intros (e & [He Hid]%Hels & <-).
Qed.

Lemma fire_presented ev c :
  presented P c → shown offered (Click ev) c = true →
  presented P (run act (handler (world c) ev) c).
Proof.
  intros Hc Hev. pose proof (shown_passes ev c Hc Hev) as Hpass.
  pose proof (shown_alive _ _ _ Hev) as Halive.
  destruct Hc as (Hreach & Hcar & Hslot). split_and!.
  - eapply reachable_step; [done|]. by apply step_Fire.
  - by apply fire_carried.
  - unfold handler. rewrite run_dispatch_pressed.
    revert Hev. simpl. destruct (render _) as [v|] eqn:Hv; [|done].
    apply render_Ok in Hv. rewrite offered_spec, Hv.
    destruct ev; simpl; try done. by intros ->.
Qed.

Lemma settle_presented i R (call : api R) k o c :
  presented P c → inflight c !! i = Some (Pending R call k) → answer_of P call o →
  presented P (run act (k o) (set_inflight (delete i) c)).
Proof.
  intros (Hreach & Hcar & Hslot) Hi Ho.
  destruct (settle_cells c i R call k o Hreach Hi) as (_ & Hopen & Hed).
  split_and!.
  - eapply reachable_step; [done|]. by apply (step_Settle act handler alive c i R call k).
  - by eapply settle_carried.
  - by rewrite Hopen, Hed.
Qed.

Lemma exec_presented m c c' :
  carries P m → presented P c → shown offered m c = true →
  exec act handler alive m c = Some c' → presented P c'.
Proof.
  intros Hm Hc Hshown. pose proof (shown_alive _ _ _ Hshown) as Halive.
  destruct m as [ev|i ans]; simpl.
  - rewrite Halive. intros [= <-]. by apply fire_presented.
  - destruct (inflight c !! i) as [[R call k]|] eqn:Hi; [|done]. intros [= <-].
    by eapply settle_presented.
Qed.

Lemma browse_presented ms c c' :
  Forall (carries P) ms → presented P c → browse offered ms c = Some c' →
  presented P c'.
Proof.
  intros Hms. revert c. induction Hms as [|m ms Hm _ IH]; intros c Hc; simpl.
  - by intros [= <-].
  - destruct (shown offered m c) eqn:Hshown; [|done].
    destruct (exec act handler alive m c) as [c1|] eqn:Hc1; simpl; [|done].
    apply IH. by eapply exec_presented.
Qed.

Lemma boot_presented : presented P boot.
Proof. split_and!; [apply boot_reachable | apply boot_carried | done]. Qed.

End contract.

(** *** Layers *)

(** An execution through a layer is an execution of the machine, and of
    every layer that offers more. *)
Lemma browse_play L ms c c' : browse L ms c = Some c' → play ms c = Some c'.
Proof.
  revert c. induction ms as [|m ms IH]; intros c; simpl; [done|].
  destruct (shown L m c); [|done].
  destruct (exec act handler alive m c) as [c1|]; simpl; [apply IH | done].
Qed.

Lemma shown_mono (L L' : view → event → bool) m c :
  (∀ v ev, L v ev = true → L' v ev = true) →
  shown L m c = true → shown L' m c = true.
Proof.
  intros HL. destruct m; simpl; [|done]. destruct (render _); [apply HL | done].
Qed.

Lemma browse_mono (L L' : view → event → bool) ms c c' :
  (∀ v ev, L v ev = true → L' v ev = true) →
  browse L ms c = Some c' → browse L' ms c = Some c'.
Proof.
  intros HL. revert c. induction ms as [|m ms IH]; intros c; simpl; [done|].
  destruct (shown L m c) eqn:Hm; [|done].
  rewrite (shown_mono L L' m c HL Hm).
  destruct (exec act handler alive m c) as [c1|]; simpl; [apply IH | done].
Qed.

(** *** Addresses *)

(** With integer ids, what an offered event passes makes its handler
    address the resource its request is for. *)
Lemma passes_addressed s ev r :
  passes (λ f, integer_id f = true) s ev →
  issued (dispatch s ev) = Some r → addressed r.
Proof.
  destruct ev; simpl; try done.
  - intros _ [= <-]. reflexivity.
  - intros (id & z & Hid & Hz)%integer_id_routed. unfold handleUpdateFood.
    rewrite Hid. simpl. intros [= <-]. exists z. exact Hz.
  - intros (f & (id' & z & Hid & Hz)%integer_id_routed & Hf) [= <-].
    exists z. rewrite Hf in Hid. injection Hid as <-. exact Hz.
Qed.

Lemma fire_addressed ev c :
  presented (λ f, integer_id f = true) c → shown offered (Click ev) c = true →
  Forall addressed (sent c) →
  Forall addressed (sent (run act (handler (world c) ev) c)).
Proof.
  intros Hc Hev Hsent. rewrite run_sent. apply Forall_app. split; [done|].
  destruct (issued _) as [r|] eqn:Hr; simpl; [|done]. apply Forall_singleton.
  eapply passes_addressed; [by apply shown_passes | done].
Qed.

Lemma exec_addressed m c c' :
  carries (λ f, integer_id f = true) m →
  presented (λ f, integer_id f = true) c → shown offered m c = true →
  Forall addressed (sent c) →
  exec act handler alive m c = Some c' → Forall addressed (sent c').
Proof.
  intros Hm Hc Hshown Hsent. pose proof (shown_alive _ _ _ Hshown) as Halive.
  destruct m as [ev|i ans]; simpl.
  - rewrite Halive. intros [= <-]. by apply fire_addressed.
  - destruct (inflight c !! i) as [[R call k]|] eqn:Hi; [|done]. intros [= <-].
    destruct Hc as (_ & Hcar & _).
    destruct (settle_carried _ i R call k (ans R call) c Hcar Hi (Hm R call))
      as [_ Hin].
    unfold sent in *. rewrite Hin. apply Forall_fmap, Forall_delete.
    by apply Forall_fmap.
Qed.

Lemma browse_addressed ms c c' :
  Forall (carries (λ f, integer_id f = true)) ms →
  presented (λ f, integer_id f = true) c → Forall addressed (sent c) →
  browse offered ms c = Some c' → Forall addressed (sent c').
Proof.
  intros Hms. revert c. induction Hms as [|m ms Hm _ IH]; intros c Hc Hsent; simpl.
  - by intros [= <-].
  - destruct (shown offered m c) eqn:Hshown; [|done].
    destruct (exec act handler alive m c) as [c1|] eqn:Hc1; simpl; [|done].
    apply IH; [by eapply exec_presented | by eapply exec_addressed].
Qed.

(** *** The state of the modals *)

Lemma exec_mode m c c' md :
  reachable c → shown modal m c = true →
  exec act handler alive m c = Some c' →
  mode (ui (world c)) = Some md → mode (ui (world c')) = Some (mode_step md m).
Proof.
  intros Hc Hshown. pose proof (shown_alive _ _ _ Hshown) as Halive.
  destruct m as [ev|i ans]; simpl.
  - rewrite Halive. intros [= <-]. unfold handler. rewrite run_dispatch_pressed.
    revert Hshown. simpl. destruct (render _) as [v|] eqn:Hv; [|done].
    apply render_Ok in Hv. unfold modal. rewrite Hv. simpl.
    intros [Hoff%offered_spec Hev]%andb_true_iff. revert Hoff Hev. unfold mode.
    generalize (ui (world c)). intros [[] [] fo ed]; destruct ev; simpl; try done;
      by intros _ _ [= <-].
  - destruct (inflight c !! i) as [[R call k]|] eqn:Hi; [|done]. intros [= <-].
    destruct (settle_cells c i R call k (ans R call) Hc Hi) as (Hm & He & Hed).
    unfold mode. rewrite Hm, He, Hed. intros ->. by destruct md.
Qed.

Lemma browse_mode ms c c' md :
  reachable c → browse modal ms c = Some c' →
  mode (ui (world c)) = Some md → mode (ui (world c')) = Some (foldl mode_step md ms).
Proof.
  revert c md. induction ms as [|m ms IH]; intros c md Hc; simpl.
  - by intros [= <-].
  - destruct (shown modal m c) eqn:Hshown; [|done].
    destruct (exec act handler alive m c) as [c1|] eqn:Hc1; simpl; [|done].
    intros Hms Hmd. eapply IH; [by eapply exec_reachable | done |].
    by eapply exec_mode.
Qed.

(** *** Keys *)

Lemma render_Array s l v :
  foods s = Array l → render s = Ok v →
  Food_elements v = (λ f, (id_of f, f)) <$> l.
Proof.
  intros Hl. unfold render. rewrite Hl. simpl.
  destruct (mapM _ l) as [els|] eqn:Hels; simpl; [|done]. intros [= <-]. simpl.
  apply mapM_Ok_Forall2 in Hels. clear Hl.
  induction Hels as [|f e l els Hf _ IH]; simpl; [done|]. rewrite IH. f_equal.
  simpl in Hf. destruct (get_id f) as [k|] eqn:Hk; [|done]. injection Hf as <-.
  unfold id_of. by rewrite Hk.
Qed.

(** With integer ids, no id of the list is [===] to the id of [f]
    exactly when the text of no id is the text of the id of [f]. *)
Lemma fresh_text f l :
  integer_id f = true → Forall (λ g, integer_id g = true) l →
  forallb (λ g, strict_neq (id_of f) (id_of g)) l = true
  ↔ to_text (id_of f) ∉ (λ g, to_text (id_of g)) <$> l.
Proof.
  intros Hf Hl. rewrite forallb_forall, list_elem_of_fmap.
  setoid_rewrite <- list_elem_of_In. rewrite Forall_forall in Hl. split.
  - intros Hall (g & Hg & Hin). specialize (Hall g Hin).
    apply (integer_id_text f g Hf (Hl g Hin)) in Hg.
    unfold strict_neq in Hall. by rewrite Hg in Hall.
  - intros Hno g Hin. unfold strict_neq. apply negb_true_iff, not_true_is_false.
    intros Hg%(integer_id_text f g Hf (Hl g Hin)). apply Hno. by exists g.
Qed.

Lemma unique_ids_text l :
  Forall (λ f, integer_id f = true) l →
  unique_ids l = true ↔ NoDup ((λ f, to_text (id_of f)) <$> l).
Proof.
  induction 1 as [|f l Hf Hl IH]; simpl; [by rewrite NoDup_nil|].
  by rewrite NoDup_cons, andb_true_iff, IH, fresh_text.
Qed.

(** ** Theorems *)

(** C20.  Through its presentation components the page edits listed items
    only.  Let [P] be a property of items that every answer has.  From
    the first render, after any sequence of offered events and arrivals
    of answers, in any order: every element of the list satisfies [P];
    when the edit modal is open the editing slot holds an item that
    satisfies [P] (it was listed when its edit was requested, and is not
    the [{}] the slot starts with unless that satisfies [P]); and what the
    next offered event passes satisfies [P]: the item of an edit request,
    the item whose id a deletion carries, the editing slot an update
    reads. *)
Theorem browse_carried (P : value → Prop) ms c :
  Forall (carries P) ms →
  browse offered ms boot = Some c →
  array_of P (foods (ui (world c)))
  ∧ (editModalOpen (ui (world c)) = true → P (editingFood (ui (world c))))
  ∧ ∀ ev, shown offered (Click ev) c = true → passes P (ui (world c)) ev.
Proof.
  intros Hms Hc.
  pose proof (browse_presented P ms boot c Hms (boot_presented P) Hc) as Hinv.
  split_and!; [apply Hinv | apply Hinv |]. intros ev. by apply shown_passes.
Qed.

Lemma browse_carried_witness :
  array_of (λ f, integer_id f = true)
    (foods (ui (world (idle (State false true (Array [food_1]) food_1)))))
  ∧ (editModalOpen (ui (world (idle (State false true (Array [food_1]) food_1)))) = true →
     integer_id (editingFood (ui (world (idle (State false true (Array [food_1]) food_1)))))
     = true)
  ∧ ∀ ev, shown offered (Click ev) (idle (State false true (Array [food_1]) food_1)) = true →
      passes (λ f, integer_id f = true)
        (ui (world (idle (State false true (Array [food_1]) food_1)))) ev.
Proof.
  apply (browse_carried (λ f, integer_id f = true)
           [Answer 0 (answer [food_1] food_1); Click (Food_handleEditFood food_1)]).
  - repeat constructor; intros R []; simpl; by repeat constructor.
  - reflexivity.
Defined.

(** C21.  Through its presentation components the page sends routed
    requests only.  When the items the answers carry have integer ids
    (below 10^21 in magnitude), from the first render, after any sequence
    of offered events and arrivals of answers: every request in flight
    names the resource its method is for - the collection for GET and
    POST, an item with an integer id for PUT and DELETE - and so does the
    request of every event that is offered next.  No update is put to
    [/foods/undefined]. *)
Theorem browse_routed ms c :
  Forall (carries (λ f, integer_id f = true)) ms →
  browse offered ms boot = Some c →
  Forall addressed (sent c)
  ∧ ∀ ev r, shown offered (Click ev) c = true →
      issued (handler (world c) ev) = Some r → addressed r.
Proof.
  intros Hms Hc.
  pose proof (browse_presented _ ms boot c Hms (boot_presented _) Hc) as Hinv.
  split.
  - eapply browse_addressed; [done|apply boot_presented| |done].
    by apply Forall_singleton.
  - intros ev r Hev. apply passes_addressed. by apply shown_passes.
Qed.

Lemma browse_routed_witness :
  Forall addressed
    (sent (run act (handleUpdateFood (State false true (Array [food_1]) food_1) price_25)
             (idle (State false true (Array [food_1]) food_1))))
  ∧ ∀ ev r,
      shown offered (Click ev)
        (run act (handleUpdateFood (State false true (Array [food_1]) food_1) price_25)
           (idle (State false true (Array [food_1]) food_1))) = true →
      issued (handler
                (world (run act (handleUpdateFood (State false true (Array [food_1]) food_1)
                                   price_25)
                          (idle (State false true (Array [food_1]) food_1)))) ev)
      = Some r →
      addressed r.
Proof.
  apply (browse_routed
           [Answer 0 (answer [food_1] food_1); Click (Food_handleEditFood food_1);
            Click (ModalEditFood_handleUpdateFood price_25)]).
  - repeat constructor; intros R []; simpl; by repeat constructor.
  - reflexivity.
Defined.

(** C22.  Behind modals that take the events, the flags and the editing
    slot are the tagged variant of section 9 of the specification.  When
    the presentation layer calls, while a modal is open, the callbacks of
    that modal only, then from the first render, after any sequence of
    events and arrivals of answers, whatever the answers are: the two
    modals are never both open, and the state of the modals is the one
    the reducer [mode_step] computes from [Closed] - [AddOpen] after the
    button of the header, [EditOpen item] after the edit request of a
    [Food], [Closed] after a toggle.  The item that stays in the editing
    slot after the edit modal has closed is not part of that state. *)
Theorem modal_refines ms c :
  browse modal ms boot = Some c →
  mode (ui (world c)) = Some (foldl mode_step Closed ms).
Proof. intros Hc. by eapply browse_mode; [apply boot_reachable|..]. Qed.

Lemma modal_refines_witness :
  mode (ui (world (idle (State true false (Array [food_1]) food_1))))
  = Some (foldl mode_step Closed
            [Answer 0 (answer [food_1] food_1); Click (Food_handleEditFood food_1);
             Click ModalEditFood_setIsOpen; Click Header_openModal]).
Proof.
  apply (modal_refines
           [Answer 0 (answer [food_1] food_1); Click (Food_handleEditFood food_1);
            Click ModalEditFood_setIsOpen; Click Header_openModal]).
  reflexivity.
Defined.

(** With typed answers the contract gives the declared types: the list
    is a [FoodProps[]], and whenever the edit modal is open the editing
    slot is a [FoodProps] - without assuming, as [play_typed] of [Types]
    must, that the edit requests pass typed items. *)
Corollary browse_typed ms c :
  Forall (carries (λ f, has_type f FoodProps = true)) ms →
  browse offered ms boot = Some c →
  has_array_type (foods (ui (world c))) FoodProps = true
  ∧ (editModalOpen (ui (world c)) = true → state_has_type (ui (world c)) = true).
Proof.
  intros Hms Hc.
  destruct (browse_presented _ ms boot c Hms (boot_presented _) Hc)
    as (_ & [Hf%has_array_type_array_of _] & Hslot).
  split; [done|]. intros Hopen. unfold state_has_type. rewrite Hf. by apply Hslot.
Qed.

(** The update with the editing slot never set is an execution of the
    machine, and not one through the presentation components. *)
Example empty_slot_not_offered :
  is_Some (play [Click (ModalEditFood_handleUpdateFood price_25)] boot)
  ∧ browse offered [Click (ModalEditFood_handleUpdateFood price_25)] boot = None.
Proof. split; [by eexists | reflexivity]. Qed.

(** The contract of the components alone lets both modals open: the
    header stays in reach while the edit modal is open. *)
Example offered_both_open :
  ∃ c, browse offered [Answer 0 (answer [food_1] food_1);
                       Click (Food_handleEditFood food_1); Click Header_openModal] boot
       = Some c
       ∧ mode (ui (world c)) = None
       ∧ browse modal [Answer 0 (answer [food_1] food_1);
                       Click (Food_handleEditFood food_1); Click Header_openModal] boot
         = None.
Proof. eexists. split; [reflexivity|]. split; reflexivity. Qed.

(** What no presentation layer prevents: the edit of an item is requested
    while its deletion is in flight; when the deletion has been answered
    the edit modal is open on an item that is not listed any more, and
    the update is put to its address. *)
Example modal_stale_target :
  ∃ c, browse modal [Answer 0 (answer [food_1] food_1);
                     Click (Food_handleDelete (number 1));
                     Click (Food_handleEditFood food_1);
                     Answer 0 (answer [] (Obj ∅));
                     Click (ModalEditFood_handleUpdateFood price_25)] boot
       = Some c
       ∧ foods (ui (world c)) = Array []
       ∧ mode (ui (world c)) = Some (EditOpen food_1)
       ∧ (path ∘ request_url) <$> sent c = [Some "/foods/1"].
Proof. eexists. split; [reflexivity|]. by vm_compute. Qed.

(** C33.  The keys of the list are distinct exactly when the ids are.
    React tells the [Food] elements apart by the text of [key={food.id}]
    (line 117).  When the ids of the list are integers (below 10^21 in
    magnitude), no two elements have the same key if and only if no two
    ids of the list are [===]: the invariant of the specification, ids
    unique within the collection, is what React needs of the rendered
    list. *)
Theorem keys_distinct s l v :
  foods s = Array l → Forall (λ f, integer_id f = true) l → render s = Ok v →
  NoDup (keys v) ↔ unique_ids l = true.
Proof.
  intros Hl Hint Hv. unfold keys. rewrite (render_Array s l v Hl Hv).
  rewrite <- list_fmap_compose. symmetry. by apply unique_ids_text.
Qed.

Lemma keys_distinct_witness :
  NoDup (keys (View false false (Obj ∅) [(number 1, food_1); (number 2, food_2)]))
  ↔ unique_ids [food_1; food_2] = true.
Proof.
  apply (keys_distinct (State false false (Array [food_1; food_2]) (Obj ∅))
           [food_1; food_2]);
    [reflexivity | by repeat constructor | reflexivity].
Defined.

(** Ids that are not integers may be distinct for [===] and have the
    same key: the number [1] and the string ["1"]. *)
Example keys_collide :
  unique_ids [food_1; Obj {["id" := str "1"]}] = true
  ∧ (keys <$> render (State false false (Array [food_1; Obj {["id" := str "1"]}]) (Obj ∅)))
    = Ok [Some "1"; Some "1"].
Proof. by vm_compute. Qed.
