(* ===== verification/Session.v ===== *)
(** * Session: a user, the page and the store

    The components together.  A user acts on the page through the
    presentation components ([Presentation]); the add form passes an
    item without id, as section 4.1 of the specification says ([form]);
    the events whose handler calls the store are accepted while nothing
    is in flight ([Serial]); the store is [json_server] ([Server]).

    [handleDeleteFood] has no [catch]: an exception in it is an unhandled
    rejection.  In such a session there is none ([session_calm]): the
    fetch on mount is fulfilled; a deletion is asked for the id of a
    listed item, the list is the collection of the store when it is
    asked, so the store finds the item, and [foods.filter] runs on an
    array of objects.  Each assumption is needed: without the tracking a
    second click on the same delete button is refused by the store
    ([double_delete_uncaught]); with an add form that passes an id of its
    own, an id that is not [===] to itself is listed and cannot be
    deleted ([nan_id_delete_uncaught]).

    The store numbers the items it creates: the largest id plus one, a
    sum of binary64 numbers.  From a collection whose ids are integers
    from 0 to 2^53 the ids stay such integers ([Counting]), so the ids on
    the page are integers and every request of the session names the
    collection or an item ([session_numbered]); at 2^53 the sum is 2^53
    again and the creation is refused ([session_saturated]). *)

From Stdlib Require Import Floats ZArith.
From stdpp Require Import strings gmap.
From S2P Require Import Prelude JsValue Number Task EventLoop Dashboard Machine.
From S2P Require Import Reducer Payload Http Server Sync Interleave Serial Presentation.

(** ** Definitions *)

(** The presentation components, with an add form that passes an item
    without id ([AddItem(candidate: ItemWithoutId)], section 4.1). *)
Definition form (v : view) (ev : event) : bool :=
  offered v ev
  && match ev with
     | ModalAddFood_handleAddFood food => bool_decide (own_props food !! "id" = None)
     | _ => true
     end.

(** What a session accepts: an event that the components offer, while
    nothing is in flight if its handler calls the store; the arrival of
    an answer. *)
Definition allowed (a : input) (c : dconfig) : bool :=
  admitted a c
  && match a with
     | Press ev => shown form (Click ev) c
     | Deliver _ => true
     end.

Fixpoint session (l : list input) (c : dconfig) (st : json_server)
    : option (dconfig * json_server) :=
  match l with
  | [] => Some (c, st)
  | a :: l =>
      if allowed a c then '(c', st') ← react a c st; session l c' st' else None
  end.

(** A task that, run up to its first suspension, throws nothing. *)
Fixpoint returns (t : js unit) : bool :=
  match t with
  | Ret _ | Await _ _ => true
  | Throw _ => false
  | Do _ k => returns k
  end.

(** A call in flight that the store answers so that its continuation
    throws nothing, and that leaves the ids of the store [===] to
    themselves. *)
Definition served (st : json_server) (p : pending (E:=exn) (C:=api) (U:=effect)) : Prop :=
  returns (p_resume p (json_serve _ (p_call p) st).1) = true
  ∧ Forall (λ f, self_eq f = true) (db (json_serve _ (p_call p) st).2).

(** The invariant of a session. *)
Definition calm (c : dconfig) (st : json_server) : Prop :=
  serial_inv c st
  ∧ Forall (λ f, self_eq f = true) (db st)
  ∧ uncaught c = []
  ∧ Forall (served st) (inflight c).

(** A call in flight that the store answers with items whose ids are
    integers, and that leaves the ids of the store integers from 0 to
    2^53, the largest raised by one at most. *)
Definition counted (st : json_server) (p : pending (E:=exn) (C:=api) (U:=effect)) : Prop :=
  answer_of (λ f, integer_id f = true) (p_call p) (json_serve _ (p_call p) st).1
  ∧ Forall (λ f, natural_id f = true) (db (json_serve _ (p_call p) st).2)
  ∧ (largest (db (json_serve _ (p_call p) st).2) ≤ largest (db st) + 1)%Z.

(** The invariant of a session on a store with such ids. *)
Definition numbered (c : dconfig) (st : json_server) : Prop :=
  calm c st
  ∧ Forall (λ f, natural_id f = true) (db st)
  ∧ presented (λ f, integer_id f = true) c
  ∧ Forall addressed (sent c)
  ∧ Forall (counted st) (inflight c).

(** ** Lemmas *)

(** *** Tasks that throw nothing *)

Lemma run_returns t (c : dconfig) :
  returns t = true → uncaught (run act t c) = uncaught c.
Proof.
  revert c. induction t as [a|e|u k IH|R call k _]; intros c; simpl; try done.
  intros Hk. by rewrite IH.
Qed.

(** What is in a [try] whose [catch] logs throws nothing. *)
Lemma returns_try_catch (t : js unit) :
  returns (try_catch t (λ err, perform (console_log err))) = true.
Proof. induction t; simpl; auto. Qed.

(** No handler throws before its call. *)
Lemma dispatch_returns s ev : returns (dispatch s ev) = true.
Proof.
  destruct ev; try done; apply returns_try_catch.
Qed.

(** *** Events *)

(** An event whose handler makes no call leaves what is in flight. *)
Lemma press_sync ev (c : dconfig) :
  is_sync ev = true → inflight (run act (handler (world c) ev) c) = inflight c.
Proof. by destruct ev. Qed.

(** At rest, the call an offered event makes is one the store answers
    without a failure that nothing catches. *)
Lemma press_served ev c st :
  in_sync c st → Forall (λ f, self_eq f = true) (db st) →
  shown form (Click ev) c = true →
  Forall (served st) (inflight (run act (handler (world c) ev) c)).
Proof.
  intros (Hf & Hin & Hok) Hself. simpl.
  destruct (render (ui (world c))) as [v|] eqn:Hv; [|done].
  pose proof (render_Array _ _ _ Hf Hv) as Hels.
  intros [Hoff%offered_spec Hform]%andb_true_iff. unfold handler.
  destruct ev; simpl; rewrite ?Hin; try done.
  - apply Forall_singleton. split; [apply returns_try_catch|].
    apply json_serve_self_eq; [|done]. apply bool_decide_eq_true in Hform.
    simpl. unfold spread_with. by rewrite lookup_insert_ne.
  - unfold handleUpdateFood. destruct (get_id _); simpl; rewrite Hin; [|done].
    apply Forall_singleton. split; [apply returns_try_catch|].
    by apply json_serve_self_eq.
  - apply Forall_singleton. destruct Hoff as (e & He & Hid).
    rewrite Hels in He. apply list_elem_of_fmap in He as (f & -> & Hfin).
    simpl in Hid. assert (id_of f = id) as <- by (unfold id_of; by rewrite Hid).
    pose proof (proj1 (Forall_forall _ _) Hself f Hfin) as Hff.
    split; [|by apply json_serve_self_eq].
    unfold p_call, p_resume. rewrite json_serve_delete_found by done. simpl.
    rewrite Hf. simpl. by rewrite filterM_keep_other by (by apply store_ok_has_id).
Qed.

(** *** The invariant *)

Lemma boot_calm st :
  store_ok (db st) → Forall (λ f, self_eq f = true) (db st) → calm boot st.
Proof.
  intros Hok Hself. split_and!; [by apply boot_serial|done..|].
  apply Forall_singleton. by split.
Qed.

Lemma press_calm ev c st :
  calm c st → allowed (Press ev) c = true →
  calm (run act (handler (world c) ev) c) st.
Proof.
  intros (Hser & Hself & Hunc & Hin) [Hadm Hshown]%andb_true_iff.
  assert (Halive : alive (world c) = true) by apply (shown_alive _ _ _ Hshown).
  split_and!; [|done| |].
  - eapply (react_serial (Press ev)); [done..|]. simpl. unfold click. simpl.
    by rewrite Halive.
  - unfold handler. by rewrite run_returns by apply dispatch_returns.
  - simpl in Hadm. apply orb_true_iff in Hadm as [Hev|Hrest%bool_decide_eq_true].
    + by rewrite press_sync.
    + apply nil_length_inv in Hrest. apply press_served; [|done..].
      by apply serial_inv_in_sync.
Qed.

Lemma deliver_calm i c st c' st' :
  calm c st → deliver i c st = Some (c', st') → calm c' st'.
Proof.
  intros (Hser & Hself & Hunc & Hin) Hd.
  pose proof (deliver_serial i c st c' st' Hser Hd) as Hsync.
  revert Hd. unfold deliver.
  destruct (inflight c !! i) as [[R call k]|] eqn:Hi; [|done].
  destruct (Forall_lookup_1 _ _ _ _ Hin Hi) as [Hret Hself']. simpl in Hret, Hself'.
  change (serve R call st) with (json_serve R call st).
  destruct (json_serve R call st) as [o st1]. intros [= <- <-].
  split_and!; [by apply serial_inv_in_sync; [apply Hsync|]|done| |].
  - by rewrite run_returns.
  - destruct Hsync as (_ & -> & _). constructor.
Qed.

Lemma react_calm a c st c' st' :
  calm c st → allowed a c = true → react a c st = Some (c', st') → calm c' st'.
Proof.
  intros Hc Ha. destruct a as [ev|i]; simpl; [|by apply deliver_calm].
  unfold click. simpl. destruct (alive (world c)); simpl; [|done].
  intros [= <- <-]. by apply press_calm.
Qed.

Lemma session_inv l c st c' st' :
  calm c st → session l c st = Some (c', st') → calm c' st'.
Proof.
  revert c st. induction l as [|a l IH]; intros c st Hc; simpl; [by intros [= <- <-]|].
  destruct (allowed a c) eqn:Ha; [|done].
  destruct (react a c st) as [[c1 st1]|] eqn:Hr; simpl; [|done].
  apply IH. by eapply react_calm.
Qed.

(** A session is a run of [serially], and so of [interleave]. *)
Lemma session_serially l c st r : session l c st = Some r → serially l c st = Some r.
Proof.
  revert c st. induction l as [|a l IH]; intros c st; simpl; [done|].
  destruct (allowed a c) eqn:Ha; [|done]. apply andb_true_iff in Ha as [-> _].
  destruct (react a c st) as [[c1 st1]|]; simpl; [apply IH | done].
Qed.

(** *** Ids that are integers *)

Lemma natural_integer_id f : natural_id f = true → integer_id f = true.
Proof.
  unfold natural_id, natural, integer_id, id_of.
  destruct (get_id f) as [[| | |x|]|]; try done.
  destruct (float_to_Z x) as [z|]; [|done].
  intros [?%Z.leb_le ?%Z.leb_le]%andb_true_iff. apply Z.ltb_lt. lia.
Qed.

Lemma natural_self_eq f : natural_id f = true → self_eq f = true.
Proof.
  intros (x & Hid & Hx & _)%natural_id_Z. unfold self_eq. rewrite Hid.
  by apply (float_to_Z_eqb x x (id_Z f)).
Qed.

(** What [json_server] answers carries integer ids, and leaves the ids
    of the store integers from 0 to 2^53. *)
Lemma json_serve_counted R (call : api R) k st :
  match call with api_post _ body => body !! "id" = None | _ => True end →
  Forall (λ f, natural_id f = true) (db st) →
  counted st (Pending R call k).
Proof.
  intros Hcall Hst.
  split; [|by split; [apply json_serve_natural | apply json_serve_largest]]. simpl.
  pose proof (json_serve_natural R call st Hcall Hst) as Hst'. revert Hst'.
  destruct call as [[|id]|[|id] body|[|id] body|[|id]]; simpl; try done.
  - intros _. apply (Forall_impl _ _ _ Hst), natural_integer_id.
  - destruct (fresh _ _); [|done]. simpl. intros [_ Hf%Forall_inv]%Forall_app.
    by apply natural_integer_id.
  - destruct (find_id id (db st)) as [[i f]|] eqn:Hf; [|done]. simpl. intros Hst'.
    apply find_id_Some in Hf as [Hi%lookup_lt_Some _].
    apply natural_integer_id, (Forall_lookup_1 _ _ i _ Hst'). by apply list_lookup_insert_eq.
Qed.

Lemma shown_form_offered m c : shown form m c = true → shown offered m c = true.
Proof. apply shown_mono. by intros v ev [? _]%andb_true_iff. Qed.

(** The call an event of the form starts is one [json_server] numbers. *)
Lemma started_no_id ev c j :
  shown form (Click ev) c = true → started ev (ui (world c)) = Ok (Some j) →
  match job_call j with api_post _ body => body !! "id" = None | _ => True end.
Proof.
  simpl. destruct (render _) as [v|]; [|done]. intros [_ Hform]%andb_true_iff.
  destruct ev; simpl; try done.
  - intros [= <-]. apply bool_decide_eq_true in Hform. simpl.
    unfold spread_with. by rewrite lookup_insert_ne.
  - destruct (get_id _); simpl; [|done]. by intros [= <-].
  - by intros [= <-].
Qed.

Lemma press_counted ev c st :
  Forall (λ f, natural_id f = true) (db st) → shown form (Click ev) c = true →
  Forall (counted st) (inflight c) →
  Forall (counted st) (inflight (run act (handler (world c) ev) c)).
Proof.
  intros Hst Hform Hin. unfold handler. destruct (dispatch_parks ev c) as [Hrun _].
  pose proof (started_no_id ev c) as Hno.
  destruct (started ev (ui (world c))) as [[j|]|e].
  - destruct Hrun as (_ & ps & -> & Hps). apply Forall_app. split; [done|].
    apply Forall2_cons_inv_r in Hps as (p & ps' & (k & -> & _) & ->%Forall2_nil_inv_r & ->).
    apply Forall_singleton, json_serve_counted; [by apply Hno | done].
  - destruct Hrun as (_ & ps & -> & ->%Forall2_nil_inv_r). by rewrite app_nil_r.
  - by destruct Hrun as [_ ->].
Qed.

(** *** The invariant of a numbered session *)

Lemma boot_numbered st :
  store_ok (db st) → Forall (λ f, natural_id f = true) (db st) → numbered boot st.
Proof.
  intros Hok Hst. split_and!; [|done|apply boot_presented| |].
  - apply boot_calm; [done|]. apply (Forall_impl _ _ _ Hst), natural_self_eq.
  - by apply Forall_singleton.
  - by apply Forall_singleton, json_serve_counted.
Qed.

Lemma press_numbered ev c st :
  numbered c st → allowed (Press ev) c = true →
  numbered (run act (handler (world c) ev) c) st.
Proof.
  intros (Hcalm & Hst & Hpres & Hsent & Hin) Ha.
  pose proof Ha as [_ Hform]%andb_true_iff.
  pose proof (shown_form_offered _ _ Hform) as Hoff.
  split_and!; [by apply press_calm|done|by apply fire_presented| |].
  - by apply fire_addressed.
  - by apply press_counted.
Qed.

Lemma deliver_numbered i c st c' st' :
  numbered c st → deliver i c st = Some (c', st') →
  numbered c' st' ∧ (largest (db st') ≤ largest (db st) + 1)%Z.
Proof.
  intros (Hcalm & Hst & Hpres & Hsent & Hin) Hd.
  pose proof (deliver_calm i c st c' st' Hcalm Hd) as Hcalm'.
  destruct Hcalm as (Hser & _). pose proof (deliver_serial i c st c' st' Hser Hd) as Hsync.
  revert Hd. unfold deliver.
  destruct (inflight c !! i) as [[R call k]|] eqn:Hi; [|done].
  destruct (Forall_lookup_1 _ _ _ _ Hin Hi) as (Hans & Hst' & Hle).
  simpl in Hans, Hst', Hle. change (serve R call st) with (json_serve R call st).
  destruct (json_serve R call st) as [o st1]. intros [= <- <-].
  split; [|done]. split_and!; [done|done|by eapply settle_presented| |].
  all: destruct Hsync as (_ & Hrest & _); unfold sent; rewrite Hrest; constructor.
Qed.

Lemma react_numbered a c st c' st' :
  numbered c st → allowed a c = true → react a c st = Some (c', st') →
  numbered c' st' ∧ (largest (db st') ≤ largest (db st) + 1)%Z.
Proof.
  intros Hc Ha. destruct a as [ev|i]; simpl; [|by apply deliver_numbered].
  unfold click. simpl. destruct (alive (world c)); simpl; [|done].
  intros [= <- <-]. split; [by apply press_numbered | lia].
Qed.

Lemma session_numbered_inv l c st c' st' :
  numbered c st → session l c st = Some (c', st') →
  numbered c' st' ∧ (largest (db st') ≤ largest (db st) + Z.of_nat (length l))%Z.
Proof.
  revert c st. induction l as [|a l IH]; intros c st Hc.
  - intros [= <- <-]. split; [done|simpl; lia].
  - cbn [session length]. destruct (allowed a c) eqn:Ha; [|done].
    destruct (react a c st) as [[c1 st1]|] eqn:Hr; simpl; [|done]. intros Hl.
    destruct (react_numbered a c st c1 st1 Hc Ha Hr) as [Hc1 Hle].
    destruct (IH c1 st1 Hc1 Hl) as [Hc' Hle']. split; [done|lia].
Qed.

(** ** Theorems *)

(** C17.  A session never ends in an unhandled rejection.  With
    [json_server], started on a collection of objects whose ids are
    unique and [===] to themselves, when the user acts through the
    presentation components with an add form that passes no id, and the
    events whose handler calls the store are accepted only while nothing
    is in flight: after any such sequence of events and arrivals of
    answers from the first render, no exception has escaped a handler -
    the deletion, which has no [catch], is always of an item the store
    holds - the ids of the store are still [===] to themselves, and
    whenever nothing is in flight the list on the page is the collection
    of the store. *)
Theorem session_calm l st c st' :
  store_ok (db st) → Forall (λ f, self_eq f = true) (db st) →
  session l boot st = Some (c, st') →
  uncaught c = []
  ∧ Forall (λ f, self_eq f = true) (db st')
  ∧ (inflight c = [] → in_sync c st').
Proof.
  intros Hok Hself Hl.
  destruct (session_inv l boot st c st' (boot_calm st Hok Hself) Hl)
    as (Hser & Hself' & Hunc & _).
  split_and!; [done..|]. intros Hin. by apply serial_inv_in_sync.
Qed.

Lemma session_calm_witness :
  uncaught (idle (State true false (Array []) (Obj ∅))) = []
  ∧ Forall (λ f, self_eq f = true) (db (JsonServer []))
  ∧ (inflight (idle (State true false (Array []) (Obj ∅))) = [] →
     in_sync (idle (State true false (Array []) (Obj ∅))) (JsonServer [])).
Proof.
  apply (session_calm [Deliver 0; Press Header_openModal;
                       Press (ModalAddFood_handleAddFood food_form); Deliver 0;
                       Press (Food_handleDelete (number 1)); Deliver 0]
           (JsonServer [])).
  - apply store_ok_nil.
  - constructor.
  - reflexivity.
Defined.

(** C18.  A session counts.  With [json_server], started on a collection
    whose ids are integers from 0 to 2^53, in a session as above: the ids
    of the store stay integers from 0 to 2^53 - the id given to a new
    item is the largest id plus one, a sum of numbers that is exact up to
    2^53 - and the largest grows by one for each event or answer at
    most; the ids listed on the page are integers, and every request the
    page has sent or can send names the collection or an item of the
    store by its integer id. *)
Theorem session_numbered l st c st' :
  store_ok (db st) → Forall (λ f, natural_id f = true) (db st) →
  session l boot st = Some (c, st') →
  Forall (λ f, natural_id f = true) (db st')
  ∧ (largest (db st') ≤ largest (db st) + Z.of_nat (length l))%Z
  ∧ array_of (λ f, integer_id f = true) (foods (ui (world c)))
  ∧ Forall addressed (sent c)
  ∧ ∀ ev r, shown form (Click ev) c = true →
      issued (handler (world c) ev) = Some r → addressed r.
Proof.
  intros Hok Hst Hl.
  destruct (session_numbered_inv l boot st c st' (boot_numbered st Hok Hst) Hl)
    as ((_ & Hst' & Hpres & Hsent & _) & Hle).
  split_and!; [done|done|apply Hpres|done|].
  intros ev r Hev%shown_form_offered. apply passes_addressed. by apply shown_passes.
Qed.

Lemma session_numbered_witness :
  Forall (λ f, natural_id f = true) (db (JsonServer [food_1]))
  ∧ (largest (db (JsonServer [food_1]))
     ≤ largest (db (JsonServer []))
       + Z.of_nat (length [Deliver 0; Press Header_openModal;
                           Press (ModalAddFood_handleAddFood food_form); Deliver 0]))%Z
  ∧ array_of (λ f, integer_id f = true)
      (foods (ui (world (idle (State true false (Array [food_1]) (Obj ∅))))))
  ∧ Forall addressed (sent (idle (State true false (Array [food_1]) (Obj ∅))))
  ∧ ∀ ev r, shown form (Click ev) (idle (State true false (Array [food_1]) (Obj ∅))) = true →
      issued (handler (world (idle (State true false (Array [food_1]) (Obj ∅)))) ev) = Some r →
      addressed r.
Proof.
  apply (session_numbered [Deliver 0; Press Header_openModal;
                           Press (ModalAddFood_handleAddFood food_form); Deliver 0]
           (JsonServer [])).
  - apply store_ok_nil.
  - constructor.
  - reflexivity.
Defined.

(** Where the numbering stops: with 2^53 as the largest id, the creation
    is refused, the refusal is logged, and the ids are as before. *)
Example session_saturated :
  ∃ c, session [Deliver 0; Press Header_openModal;
                Press (ModalAddFood_handleAddFood food_form); Deliver 0]
         boot (JsonServer [stored ∅ (number 9007199254740992)])
       = Some (c, JsonServer [stored ∅ (number 9007199254740992)])
       ∧ console (world c) = [AxiosError (Some 500)].
Proof. eexists. split; reflexivity. Qed.

(** Without the tracking: a second click on the delete button of an
    item, before the first is answered, is offered (the item is still
    listed) and refused by the store, which has deleted the item; the
    rejection escapes [handleDeleteFood]. *)
Example double_delete_uncaught :
  ∃ c st, interleave [Deliver 0; Press (Food_handleDelete (number 1));
                      Press (Food_handleDelete (number 1)); Deliver 0; Deliver 0]
            boot (JsonServer [food_1]) = Some (c, st)
          ∧ uncaught c = [AxiosError (Some 404)]
          ∧ session [Deliver 0; Press (Food_handleDelete (number 1));
                     Press (Food_handleDelete (number 1))]
              boot (JsonServer [food_1]) = None.
Proof. eexists _, _. split; [reflexivity|]. split; reflexivity. Qed.

(** With an add form that passes an id: the id [NaN] is stored and
    listed, and the deletion of the item, asked for by its own [Food],
    names an id that the store does not find.  (A body reaches the store
    as the value it is: the JSON text of a body, which has no [NaN], is
    not modelled.) *)
Example nan_id_delete_uncaught :
  let item := Obj {["id" := number nan]} in
  ∃ c st, serially [Deliver 0; Press Header_openModal;
                    Press (ModalAddFood_handleAddFood item); Deliver 0;
                    Press (Food_handleDelete (number nan)); Deliver 0]
            boot (JsonServer []) = Some (c, st)
          ∧ uncaught c = [AxiosError (Some 404)]
          ∧ shown offered (Click (ModalAddFood_handleAddFood item))
              (idle (State true false (Array []) (Obj ∅))) = true
          ∧ shown form (Click (ModalAddFood_handleAddFood item))
              (idle (State true false (Array []) (Obj ∅))) = false.
Proof. eexists _, _. split; [reflexivity|]. by vm_compute. Qed.
