(* ===== verification/Quiet.v ===== *)
(** * Quiet: when nothing goes wrong

    [handleAddFood] and [handleUpdateFood] log the failures of their
    call.  This file says when there is none.  A user acts through
    presentation components whose open modal takes the events and whose
    add form passes no id ([dialog]); every event but the toggles waits
    until nothing is in flight ([turn]); the store is [json_server], with
    ids that are integers from 0 to 2^53 and room for the items the
    session can add.  Then every call of the session is fulfilled and
    its answer sets the list: nothing is logged, nothing escapes
    ([careful_quiet]).

    The answers are read off the reducer: what is in flight is a [job]
    ([parks]), and [settle] says what each answer of the store makes of
    it ([ready_succeeds]).  Each assumption is needed: an edit requested
    while a deletion is in flight, or a deletion asked while the edit
    modal is open, ends in an update the store refuses
    ([edit_during_delete_logged], [delete_behind_modal_logged]). *)

From Stdlib Require Import Floats ZArith.
From stdpp Require Import strings gmap.
From S2P Require Import Prelude JsValue Number Task EventLoop Dashboard Machine.
From S2P Require Import Reducer Payload Http Server Sync Interleave Serial.
From S2P Require Import Presentation Session.

(** ** Definitions *)

(** The events that only flip a flag. *)
Definition is_toggle (ev : event) : bool :=
  match ev with
  | Header_openModal | ModalAddFood_setIsOpen | ModalEditFood_setIsOpen => true
  | _ => false
  end.

(** Presentation components whose open modal takes the events, with an
    add form that passes an item without id. *)
Definition dialog (v : view) (ev : event) : bool := modal v ev && form v ev.

(** What a careful session accepts: an event that the components offer,
    while nothing is in flight unless it is a toggle; the arrival of an
    answer. *)
Definition turn (a : input) (c : dconfig) : bool :=
  match a with
  | Press ev =>
      (is_toggle ev || bool_decide (length (inflight c) = 0))
      && shown dialog (Click ev) c
  | Deliver _ => true
  end.

Fixpoint careful (l : list input) (c : dconfig) (st : json_server)
    : option (dconfig * json_server) :=
  match l with
  | [] => Some (c, st)
  | a :: l =>
      if turn a c then '(c', st') ← react a c st; careful l c' st' else None
  end.

(** A job that the store is in a state to carry out. *)
Definition ready (st : json_server) (j : job) : Prop :=
  match j with
  | Fetching => True
  | Adding body foods =>
      body !! "id" = None ∧ Forall (λ f, natural_id f = true) (db st)
      ∧ (largest (db st) < 2 ^ 53)%Z ∧ ∃ l, foods = Array l
  | Updating id _ foods | Deleting id foods =>
      is_Some (find_id id (db st))
      ∧ ∃ l, foods = Array l ∧ Forall (λ f, has_id f = true) l
  end.

(** A call in flight whose answer from the store sets the list. *)
Definition hushed (st : json_server) (p : pending (E:=exn) (C:=api) (U:=effect)) : Prop :=
  ∃ j, parks p j ∧ ∃ l, settle j (json_serve _ (job_call j) st).1 = Sets l.

(** The item being edited is one the store holds, now and when the
    calls in flight are served. *)
Definition editing (c : dconfig) (st : json_server) : Prop :=
  editModalOpen (ui (world c)) = true →
  is_Some (find_id (id_of (editingFood (ui (world c)))) (db st))
  ∧ Forall (λ p, is_Some (find_id (id_of (editingFood (ui (world c))))
                            (db (json_serve _ (p_call p) st).2)))
      (inflight c).

(** The invariant of a careful session. *)
Definition quiet (c : dconfig) (st : json_server) : Prop :=
  numbered c st
  ∧ console (world c) = []
  ∧ Forall (hushed st) (inflight c)
  ∧ editing c st.

(** ** Lemmas *)

(** *** Jobs the store carries out *)

Lemma ready_succeeds st j :
  ready st j → ∃ l, settle j (json_serve _ (job_call j) st).1 = Sets l.
Proof.
  destruct j as [|body foods|id body foods|id foods]; simpl.
  - by eexists.
  - intros (Hb & Hst & Hlt & l & ->).
    destruct (json_serve_post_next body st Hb Hst Hlt) as (x & Hf & _).
    simpl in Hf. rewrite Hf. simpl. by eexists.
  - intros ([[i f] Hf] & l & -> & Hl). rewrite Hf. simpl.
    rewrite mapM_replace_updated; [by eexists|done..].
  - intros ([[i f] Hf] & l & -> & Hl). rewrite Hf. simpl.
    rewrite filterM_keep_other by done. by eexists.
Qed.

(** *** What a careful session accepts *)

Lemma shown_dialog m c :
  shown dialog m c = true → shown modal m c = true ∧ shown form m c = true.
Proof.
  intros Hm. split; revert Hm; apply shown_mono; by intros v ev [? ?]%andb_true_iff.
Qed.

Lemma turn_allowed a c : turn a c = true → allowed a c = true.
Proof.
  destruct a as [ev|i]; [|done]. unfold turn, allowed.
  intros [Hev [_ ->]%shown_dialog]%andb_true_iff. rewrite andb_true_r. simpl.
  apply orb_true_iff in Hev as [Hev| ->]; [|apply orb_true_r]. by destruct ev.
Qed.

(** A careful session is a session. *)
Lemma careful_session l c st r : careful l c st = Some r → session l c st = Some r.
Proof.
  revert c st. induction l as [|a l IH]; intros c st; simpl; [done|].
  destruct (turn a c) eqn:Ha; [|done]. rewrite (turn_allowed _ _ Ha).
  destruct (react a c st) as [[c1 st1]|]; simpl; [apply IH | done].
Qed.

(** What the components offer, read off the state. *)
Lemma shown_offered_spec ev c :
  shown offered (Click ev) c = true →
  ∃ v, render (ui (world c)) = Ok v ∧
  match ev with
  | Header_openModal => True
  | ModalAddFood_setIsOpen | ModalAddFood_handleAddFood _ =>
      modalOpen (ui (world c)) = true
  | ModalEditFood_setIsOpen | ModalEditFood_handleUpdateFood _ =>
      editModalOpen (ui (world c)) = true
  | Food_handleDelete id => ∃ e, e ∈ Food_elements v ∧ get_id e.2 = Ok id
  | Food_handleEditFood food => ∃ e, e ∈ Food_elements v ∧ e.2 = food
  end.
Proof.
  simpl. destruct (render _) as [v|] eqn:Hv; [|done]. intros Hoff%offered_spec.
  exists v. split; [done|]. apply render_Ok in Hv. rewrite Hv in Hoff.
  by destruct ev.
Qed.

(** Behind [modal], a [Food] is reached when no modal is open. *)
Lemma shown_modal_Food ev c :
  shown modal (Click ev) c = true →
  match ev with
  | Food_handleDelete _ | Food_handleEditFood _ =>
      modalOpen (ui (world c)) = false ∧ editModalOpen (ui (world c)) = false
  | _ => True
  end.
Proof.
  simpl. destruct (render _) as [v|] eqn:Hv; [|done]. apply render_Ok in Hv.
  rewrite Hv. unfold modal. simpl. intros [_ Hm]%andb_true_iff. revert Hm.
  destruct ev; try done; by destruct (modalOpen _), (editModalOpen _).
Qed.

(** An offered event starts its job, or none: no handler stops before
    its call. *)
Lemma started_Ok ev c :
  presented (λ f, integer_id f = true) c → shown offered (Click ev) c = true →
  ∃ j, started ev (ui (world c)) = Ok j.
Proof.
  intros (_ & _ & Hslot) (v & _ & Hev)%shown_offered_spec.
  destruct ev; simpl; eauto.
  destruct (integer_id_inv _ (Hslot Hev)) as (x & z & -> & _). simpl. eauto.
Qed.

Lemma started_toggle ev s : is_toggle ev = true → started ev s = Ok None.
Proof. by destruct ev. Qed.

(** A listed item is one the store holds, when the page is in sync. *)
Lemma listed_found c st v e :
  in_sync c st → Forall (λ f, natural_id f = true) (db st) →
  render (ui (world c)) = Ok v → e ∈ Food_elements v →
  is_Some (find_id (id_of e.2) (db st)).
Proof.
  intros (Hf & _ & _) Hst Hv He. rewrite (render_Array _ _ _ Hf Hv) in He.
  apply list_elem_of_fmap in He as (f & -> & Hfin). simpl.
  apply find_id_elem; [done|]. rewrite Forall_forall in Hst.
  by apply natural_self_eq, Hst.
Qed.

(** At rest, the job an offered event starts is one the store carries
    out. *)
Lemma started_ready ev c st j :
  in_sync c st → Forall (λ f, natural_id f = true) (db st) →
  (largest (db st) < 2 ^ 53)%Z → editing c st →
  shown dialog (Click ev) c = true →
  started ev (ui (world c)) = Ok (Some j) → ready st j.
Proof.
  intros Hsync Hst Hlt Hed [_ Hform]%shown_dialog Hj.
  pose proof (started_no_id ev c j Hform Hj) as Hno.
  destruct (shown_offered_spec ev c (shown_form_offered _ _ Hform)) as (v & Hv & Hev).
  pose proof Hsync as (Hf & _ & Hok%store_ok_has_id).
  destruct ev; simpl in Hj; try done.
  - injection Hj as <-. simpl. eauto 6.
  - destruct (get_id _) as [id|] eqn:Hid; simpl in Hj; [|done]. injection Hj as <-.
    split; [|eauto]. destruct (Hed Hev) as [Hfound _].
    unfold id_of in Hfound. by rewrite Hid in Hfound.
  - injection Hj as <-. split; [|eauto]. destruct Hev as (e & He & Hid).
    pose proof (listed_found c st v e Hsync Hst Hv He) as Hfound.
    unfold id_of in Hfound. by rewrite Hid in Hfound.
Qed.

(** *** Events *)

Lemma press_hushed ev c st :
  quiet c st → (largest (db st) < 2 ^ 53)%Z → turn (Press ev) c = true →
  Forall (hushed st) (inflight (run act (handler (world c) ev) c)).
Proof.
  intros ((Hcalm & Hst & _) & _ & Hin & Hed) Hlt [Hev Hshown]%andb_true_iff.
  unfold handler. destruct (dispatch_parks ev c) as [Hrun _].
  pose proof (started_ready ev c st) as Hready.
  pose proof (started_toggle ev (ui (world c))) as Htoggle.
  destruct (started ev (ui (world c))) as [[j|]|e].
  - destruct Hrun as (_ & ps & -> & Hps). apply Forall_app. split; [done|].
    apply Forall2_cons_inv_r in Hps as (p & ps' & Hp & ->%Forall2_nil_inv_r & ->).
    apply Forall_singleton. exists j. split; [done|]. apply ready_succeeds.
    apply orb_true_iff in Hev as [Hev|Hrest%bool_decide_eq_true];
      [by specialize (Htoggle Hev)|].
    apply nil_length_inv in Hrest. apply Hready; try done.
    apply serial_inv_in_sync; [done|apply Hcalm].
  - destruct Hrun as (_ & ps & -> & ->%Forall2_nil_inv_r). by rewrite app_nil_r.
  - by destruct Hrun as [_ ->].
Qed.

Lemma press_console ev c st :
  quiet c st → turn (Press ev) c = true →
  console (world (run act (handler (world c) ev) c)) = [].
Proof.
  intros ((_ & _ & Hpres & _) & Hcon & _) [_ [_ Hform]%shown_dialog]%andb_true_iff.
  unfold handler. destruct (dispatch_parks ev c) as [Hrun _].
  destruct (started_Ok ev c Hpres (shown_form_offered _ _ Hform)) as [j Hj].
  rewrite Hj in Hrun. destruct Hrun as [-> _]. done.
Qed.

(** What a job that is no deletion leaves in the store. *)
Lemma parks_found p j st id :
  parks p j → match j with Deleting _ _ => False | _ => True end →
  is_Some (find_id id (db st)) →
  is_Some (find_id id (db (json_serve _ (p_call p) st).2)).
Proof.
  intros (k & -> & _) Hj. apply json_serve_found. by destruct j.
Qed.

Lemma press_editing ev c st :
  quiet c st → turn (Press ev) c = true →
  editing (run act (handler (world c) ev) c) st.
Proof.
  intros ((Hcalm & Hst & Hpres & _) & _ & _ & Hed) [Hev Hshown]%andb_true_iff.
  pose proof Hshown as [Hmodal%shown_modal_Food Hform%shown_form_offered]%shown_dialog.
  destruct (shown_offered_spec ev c Hform) as (v & Hv & Hoff).
  destruct (started_Ok ev c Hpres Hform) as [j Hj].
  unfold editing, handler. rewrite run_dispatch_pressed.
  destruct (dispatch_parks ev c) as [Hrun _]. rewrite Hj in Hrun.
  destruct Hrun as (_ & ps & -> & Hps).
  assert (Hjob : ∀ j', j = Some j' → match j' with Deleting _ _ => False | _ => True end →
            editModalOpen (ui (world c)) = true →
            is_Some (find_id (id_of (editingFood (ui (world c)))) (db st))
            ∧ Forall (λ p, is_Some (find_id (id_of (editingFood (ui (world c))))
                                      (db (json_serve _ (p_call p) st).2)))
                (inflight c ++ ps)).
  { intros j' -> Hj' [Hfound Hin]%Hed. split; [done|]. apply Forall_app. split; [done|].
    apply Forall2_cons_inv_r in Hps as (p & ? & Hp & ->%Forall2_nil_inv_r & ->).
    apply Forall_singleton. by eapply parks_found. }
  destruct ev; simpl in *.
  1,2: injection Hj as <-; apply Forall2_nil_inv_r in Hps as ->;
       rewrite app_nil_r; apply Hed.
  - injection Hj as <-. by eapply Hjob.
  - by rewrite Hoff.
  - destruct (get_id _); simpl in Hj; [|done]. injection Hj as <-. by eapply Hjob.
  - destruct Hmodal as [_ ->]. done.
  - intros _. injection Hj as <-. apply Forall2_nil_inv_r in Hps as ->.
    apply bool_decide_eq_true, nil_length_inv in Hev. rewrite Hev. split; [|done].
    destruct Hoff as (e & He & <-). apply (listed_found c st v); try done.
    apply serial_inv_in_sync; [done|apply Hcalm].
Qed.

Lemma press_quiet ev c st :
  quiet c st → (largest (db st) < 2 ^ 53)%Z → turn (Press ev) c = true →
  quiet (run act (handler (world c) ev) c) st.
Proof.
  intros Hq Hlt Hturn. split_and!.
  - apply press_numbered; [apply Hq | by apply turn_allowed].
  - by eapply press_console.
  - by apply press_hushed.
  - by apply press_editing.
Qed.

(** *** Answers *)

Lemma deliver_quiet i c st c' st' :
  quiet c st → deliver i c st = Some (c', st') → quiet c' st'.
Proof.
  intros (Hnum & Hcon & Hin & Hed) Hd.
  destruct (deliver_numbered i c st c' st' Hnum Hd) as [Hnum' _].
  destruct Hnum as ((Hser & _) & _).
  destruct (deliver_serial i c st c' st' Hser Hd) as (_ & Hrest & _).
  revert Hd. unfold deliver. destruct (inflight c !! i) as [p|] eqn:Hi; [|done].
  destruct (Forall_lookup_1 _ _ _ _ Hin Hi) as (j & (k & -> & Hk) & l & Hl).
  change (serve _ (job_call j) st) with (json_serve _ (job_call j) st).
  destruct (json_serve _ (job_call j) st) as [o st1] eqn:Hserve. simpl in Hl.
  intros [= <- <-]. rewrite Hk, Hl in *. simpl in Hrest.
  split_and!; [done|done| |].
  - simpl. rewrite Hrest. constructor.
  - unfold editing. simpl. rewrite Hrest. intros [_ Hfound]%Hed. split; [|done].
    apply (Forall_lookup_1 _ _ _ _ Hfound) in Hi. simpl in Hi. by rewrite Hserve in Hi.
Qed.

(** *** The invariant *)

Lemma boot_quiet st :
  store_ok (db st) → Forall (λ f, natural_id f = true) (db st) → quiet boot st.
Proof.
  intros Hok Hst. split_and!; [by apply boot_numbered|done| |done].
  apply Forall_singleton. exists Fetching. split; [apply getFoods_parks|]. by eexists.
Qed.

Lemma react_quiet a c st c' st' :
  quiet c st → (largest (db st) < 2 ^ 53)%Z → turn a c = true →
  react a c st = Some (c', st') →
  quiet c' st' ∧ (largest (db st') ≤ largest (db st) + 1)%Z.
Proof.
  intros Hq Hlt Ha Hr.
  destruct (react_numbered a c st c' st' (proj1 Hq) (turn_allowed _ _ Ha) Hr) as [_ Hle].
  split; [|done]. destruct a as [ev|i]; [|by eapply deliver_quiet].
  revert Hr. simpl. unfold click. simpl. destruct (alive (world c)); simpl; [|done].
  intros [= <- <-]. by apply press_quiet.
Qed.

(** With room for one more id for each input still to come. *)
Lemma careful_inv l c st c' st' :
  quiet c st → (largest (db st) + Z.of_nat (length l) ≤ 2 ^ 53)%Z →
  careful l c st = Some (c', st') → quiet c' st'.
Proof.
  revert c st. induction l as [|a l IH]; intros c st Hq Hroom.
  - by intros [= <- <-].
  - cbn [careful length] in *. destruct (turn a c) eqn:Ha; [|done].
    destruct (react a c st) as [[c1 st1]|] eqn:Hr; simpl; [|done].
    destruct (react_quiet a c st c1 st1 Hq) as [Hq1 Hle]; [lia|done..|].
    apply IH; [done|lia].
Qed.

(** ** Theorems *)

(** C19.  When nothing goes wrong.  With [json_server], started on a
    collection whose ids are integers from 0 to 2^53 with room for one
    more id for each event and answer to come, when the user acts through
    presentation components whose open modal takes the events and whose
    add form passes no id, and every event but the toggles waits until
    nothing is in flight: every call is fulfilled and its answer sets the
    list.  After any such sequence of events and answers from the first
    render, nothing has been logged and no exception has escaped, and
    whenever nothing is in flight the list on the page is the collection
    of the store. *)
Theorem careful_quiet l st c st' :
  store_ok (db st) → Forall (λ f, natural_id f = true) (db st) →
  (largest (db st) + Z.of_nat (length l) ≤ 2 ^ 53)%Z →
  careful l boot st = Some (c, st') →
  console (world c) = [] ∧ uncaught c = []
  ∧ (inflight c = [] → in_sync c st').
Proof.
  intros Hok Hst Hroom Hl.
  destruct (careful_inv l boot st c st' (boot_quiet st Hok Hst) Hroom Hl)
    as (((Hser & _ & Hunc & _) & _) & Hcon & _).
  split_and!; [done..|]. intros Hin. by apply serial_inv_in_sync.
Qed.

Lemma careful_quiet_witness :
  console (world (idle (State false false (Array []) food_1))) = []
  ∧ uncaught (idle (State false false (Array []) food_1)) = []
  ∧ (inflight (idle (State false false (Array []) food_1)) = [] →
     in_sync (idle (State false false (Array []) food_1)) (JsonServer [])).
Proof.
  apply (careful_quiet [Deliver 0; Press Header_openModal;
                        Press (ModalAddFood_handleAddFood food_form); Deliver 0;
                        Press ModalAddFood_setIsOpen;
                        Press (Food_handleEditFood food_1);
                        Press (ModalEditFood_handleUpdateFood price_25); Deliver 0;
                        Press ModalEditFood_setIsOpen;
                        Press (Food_handleDelete (number 1)); Deliver 0]
           (JsonServer [])).
  - apply store_ok_nil.
  - constructor.
  - by vm_compute.
  - reflexivity.
Defined.

(** An edit requested while a deletion is in flight: the item is gone
    when the update is sent, the store refuses it and the refusal is
    logged.  A careful session does not accept the edit request. *)
Example edit_during_delete_logged :
  ∃ c st, session [Deliver 0; Press (Food_handleDelete (number 1));
                   Press (Food_handleEditFood food_1); Deliver 0;
                   Press (ModalEditFood_handleUpdateFood price_25); Deliver 0]
            boot (JsonServer [food_1]) = Some (c, st)
          ∧ console (world c) = [AxiosError (Some 404)]
          ∧ careful [Deliver 0; Press (Food_handleDelete (number 1));
                     Press (Food_handleEditFood food_1)]
              boot (JsonServer [food_1]) = None.
Proof. eexists _, _. split; [reflexivity|]. split; reflexivity. Qed.

(** A deletion asked behind the open edit modal, of the item being
    edited: the update that follows is refused and logged.  Components
    whose open modal takes the events do not offer the deletion. *)
Example delete_behind_modal_logged :
  ∃ c st, session [Deliver 0; Press (Food_handleEditFood food_1);
                   Press (Food_handleDelete (number 1)); Deliver 0;
                   Press (ModalEditFood_handleUpdateFood price_25); Deliver 0]
            boot (JsonServer [food_1]) = Some (c, st)
          ∧ console (world c) = [AxiosError (Some 404)]
          ∧ careful [Deliver 0; Press (Food_handleEditFood food_1);
                     Press (Food_handleDelete (number 1))]
              boot (JsonServer [food_1]) = None.
Proof. eexists _, _. split; [reflexivity|]. split; reflexivity. Qed.
