(* ===== verification/Declared.v ===== *)
(** * Declared: the parameter types of the handlers

    The four handlers that take an argument declare its type: [food:
    FoodProps] for [handleAddFood], [handleUpdateFood] and
    [handleEditFood] (lines 45, 60 and 93), [id: number] for
    [handleDeleteFood] (line 77).  TypeScript checks the callers against
    them and erases them.  This file gives them the meaning of [Types] on
    the events of the model ([declared]) and proves what they buy.

    With arguments of the declared types every request is typed: the
    body of a POST or of a PUT is of type [FoodProps], a DELETE names an
    item by a number ([declared_requests]).  With [json_server] this
    closes the loop that [Types.play_typed] leaves open: the store
    answers typed requests on typed items with typed items, so the types
    hold of the page and of the store together on every interleaving, with
    no assumption on the answers ([declared_typed]).

    The declarations are not those of the specification.  Its add takes
    an item without id, which the store numbers; an item without id is
    not of type [FoodProps] ([form_not_declared]), and with a candidate
    that is, the id of the created item is the candidate's
    ([json_serve_declared_add], [declared_add_chooses_id]) or the
    creation is refused ([declared_add_refused]).  Its update takes a
    partial item, merged into the editing slot; a patch of type
    [FoodProps] overrides every member the interface declares
    ([spread_declared]). *)

From Stdlib Require Import Floats.
From stdpp Require Import strings gmap.
From S2P Require Import Prelude JsValue Task EventLoop Dashboard Machine Payload Types.
From S2P Require Import Server Sync Interleave Presentation Session.

(** ** Definitions *)

(** Line 45: [async function handleAddFood(food: FoodProps)]. *)
Definition handleAddFood_food : ts_type := FoodProps.

(** Line 60: [async function handleUpdateFood(food: FoodProps)]. *)
Definition handleUpdateFood_food : ts_type := FoodProps.

(** Line 77: [async function handleDeleteFood(id: number)]. *)
Definition handleDeleteFood_id : ts_type := ts_number.

(** Line 93: [function handleEditFood(food: FoodProps)]. *)
Definition handleEditFood_food : ts_type := FoodProps.

(** An event whose argument has the type its handler declares. *)
Definition declared (ev : event) : bool :=
  match ev with
  | ModalAddFood_handleAddFood food => has_type food handleAddFood_food
  | ModalEditFood_handleUpdateFood food => has_type food handleUpdateFood_food
  | Food_handleDelete id => prim_has_type id handleDeleteFood_id
  | Food_handleEditFood food => has_type food handleEditFood_food
  | Header_openModal | ModalAddFood_setIsOpen | ModalEditFood_setIsOpen => true
  end.

Definition declared_input (a : input) : bool :=
  match a with
  | Press ev => declared ev
  | Deliver _ => true
  end.

(** A call whose body, if it has one, is of type [FoodProps]. *)
Definition typed_body {R} (call : api R) : bool :=
  match call with
  | api_post _ body | api_put _ body => has_type (Obj body) FoodProps
  | api_get _ | api_delete _ => true
  end.

(** The editing slot is of its declared type, or the [{}] it starts as. *)
Definition slot_typed (s : state) : Prop :=
  has_type (editingFood s) FoodProps = true ∨ editingFood s = Obj ∅.

(** The invariant of the page with [json_server] when the arguments are
    of the declared types: the items of the store, the list on the page
    and what will be written to it are of type [FoodProps]
    ([carried]), and so are the bodies in flight. *)
Definition typed (c : dconfig) (st : json_server) : Prop :=
  reachable c
  ∧ Forall (λ f, has_type f FoodProps = true) (db st)
  ∧ carried (λ f, has_type f FoodProps = true) c
  ∧ Forall (λ p, typed_body (p_call p) = true) (inflight c)
  ∧ slot_typed (ui (world c)).

(** An item of the declared type, for the examples. *)
Definition pasta (id : float) : value :=
  Obj (list_to_map [("id", number id); ("name", str "Pasta");
                    ("description", str "Carbonara"); ("price", number 15);
                    ("available", boolean true); ("image", str "pasta.png")]).

(** ** Lemmas *)


(** A stored item is of type [FoodProps] when its body is and its id is
    a number. *)
Lemma has_type_stored body id :
  has_type (Obj body) FoodProps = true → prim_has_type id ts_number = true →
  has_type (stored body id) FoodProps = true.
Proof.
  intros Hb Hid. apply has_type_insert; [done|]. intros t Ht.
  by destruct (FoodProps_member "id" t id Ht) as [[]|].
Qed.


Abbreviation is_food := (λ f, has_type f FoodProps = true).

(** The created item is the body itself when the body is of type
    [FoodProps]: its id is the one the caller gave. *)
Lemma new_id_typed body l :
  has_type (Obj body) FoodProps = true →
  new_id body l = id_of (Obj body) ∧ stored body (new_id body l) = Obj body.
Proof.
  intros [n Hn]%FoodProps_id. simpl in Hn. unfold new_id, stored, id_of. simpl.
  destruct (body !! "id") as [p|] eqn:Hp; simplify_eq/=.
  split; [done|]. by rewrite insert_id.
Qed.

(** [json_server] answers typed calls on typed items with typed items,
    and its items stay typed. *)
Lemma json_serve_typed {R} (call : api R) st :
  typed_body call = true → Forall is_food (db st) →
  answer_of is_food call (json_serve R call st).1
  ∧ Forall is_food (db (json_serve R call st).2).
Proof.
  intros Hcall Hst. destruct call as [[|id]|[|id] body|[|id] body|[|id]]; try done; simpl.
  - destruct (new_id_typed body (db st) Hcall) as [_ ->].
    destruct (fresh _ _); simpl; [|done].
    split; [done|]. apply Forall_app. split; [done|]. by apply Forall_singleton.
  - destruct (find_id id (db st)) as [[i f]|] eqn:Hf; simpl; [|done].
    apply find_id_Some in Hf as [Hf _].
    assert (is_food (stored body (id_of f))) as Hs.
    { apply has_type_stored; [done|]. apply FoodProps_id_number.
      apply (Forall_lookup_1 _ _ _ _ Hst Hf). }
    split; [done|]. by apply Forall_insert.
  - destruct (find_id id (db st)) as [[i f]|] eqn:Hf; simpl; [|done].
    split; [done|]. by apply Forall_List_filter.
Qed.

(** The body a handler sends for an argument of the declared type. *)
Lemma dispatch_typed_body s ev (c : dconfig) :
  declared ev = true →
  Forall (λ p, typed_body (p_call p) = true) (inflight c) →
  Forall (λ p, typed_body (p_call p) = true) (inflight (run act (dispatch s ev) c)).
Proof.
  intros Hev Hc. destruct ev; simpl; try done.
  2: unfold handleUpdateFood; destruct (get_id (editingFood s)); simpl; [|done].
  all: apply Forall_app; split; [done|]; apply Forall_singleton.
  - exact (has_type_spread_with _ Hev).
  - exact (has_type_spread _ _ _ Hev).
  - done.
Qed.

Lemma dispatch_slot_typed s ev (c : dconfig) :
  declared ev = true → ui (world c) = s → slot_typed s →
  slot_typed (ui (world (run act (dispatch s ev) c))).
Proof.
  intros Hev <- Hs. destruct c as [[[m e f ed] con] inf unc].
  destruct ev; simpl in *; try done.
  - unfold handleUpdateFood. simpl. by destruct (get_id ed).
  - by left.
Qed.

Lemma typed_alive c st : typed c st → alive (world c) = true.
Proof.
  intros (_ & _ & [Hf _] & _). eapply alive_array_of, array_of_impl; [done|].
  apply FoodProps_has_id.
Qed.

Lemma click_typed ev c st :
  declared ev = true → typed c st →
  ∃ c', click ev c st = Some (c', st) ∧ typed c' st.
Proof.
  intros Hev Hc. pose proof (typed_alive c st Hc) as Halive.
  destruct Hc as (Hreach & Hst & Hc & Hin & Hs).
  unfold click. simpl. rewrite Halive. eexists. split; [done|]. split_and!.
  - eapply reachable_step; [done|]. by apply step_Fire.
  - done.
  - by apply fire_carried.
  - by apply dispatch_typed_body.
  - by apply dispatch_slot_typed.
Qed.

Lemma deliver_typed i c st c' st' :
  typed c st → deliver i c st = Some (c', st') → typed c' st'.
Proof.
  intros (Hreach & Hst & Hc & Hin & Hs). unfold deliver.
  destruct (inflight c !! i) as [[R call k]|] eqn:Hi; [|done].
  pose proof (Forall_lookup_1 _ _ _ _ Hin Hi) as Hcall.
  destruct (json_serve_typed call st Hcall Hst) as [Ho Hst'].
  change (serve R call st) with (json_serve R call st).
  destruct (json_serve R call st) as [o st1]. intros [= <- <-].
  destruct (settle_carried _ i R call k o c Hc Hi Ho) as [Hc' Hin'].
  destruct (settle_cells c i R call k o Hreach Hi) as (_ & _ & Hed).
  split_and!; [|done..| |].
  - eapply reachable_step; [done|]. by apply (step_Settle act handler alive c i R call k).
  - rewrite Hin'. by apply Forall_delete.
  - unfold slot_typed. by rewrite Hed.
Qed.

Lemma boot_typed st : Forall (λ f, has_type f FoodProps = true) (db st) → typed boot st.
Proof.
  intros Hst. split_and!; [apply boot_reachable|done|apply boot_carried| |by right].
  by apply Forall_singleton.
Qed.

Lemma interleave_typed l c st c' st' :
  forallb declared_input l = true → typed c st →
  interleave l c st = Some (c', st') → typed c' st'.
Proof.
  revert c st. induction l as [|a l IH]; intros c st Hl Hc; simpl; [by intros [= <- <-]|].
  apply andb_true_iff in Hl as [Ha Hl].
  destruct (react a c st) as [[c1 st1]|] eqn:Hr; simpl; [|done].
  apply IH; [done|]. destruct a as [ev|i]; simpl in Hr.
  - destruct (click_typed ev c st Ha Hc) as (c2 & Hc2 & Ht). by simplify_eq.
  - by eapply deliver_typed.
Qed.

(** The patch of a declared update overrides every member. *)
Lemma spread_declared s food k t :
  has_type food FoodProps = true → index FoodProps k = Some t →
  spread s food !! k = own_props food !! k.
Proof.
  intros Hf Hk. destruct (FoodProps_member_Some food k t Hf Hk) as (p & Hp & _).
  by rewrite lookup_spread, Hp.
Qed.

(** The candidate the specification describes, an item without id, is
    not of the type the handler declares. *)
Lemma form_not_declared v food :
  form v (ModalAddFood_handleAddFood food) = true →
  declared (ModalAddFood_handleAddFood food) = false.
Proof.
  intros [_ Hid%bool_decide_eq_true]%andb_true_iff.
  apply not_true_is_false. intros [n Hn]%FoodProps_id.
  destruct food as [[]|o]; simplify_eq/=. by rewrite Hid in Hn.
Qed.

(** With a candidate of the declared type the id of the created item is
    the candidate's: [json_server] does not number it, and refuses it
    when an item has this id. *)
Lemma json_serve_declared_add food st :
  has_type food FoodProps = true →
  json_serve _ (api_post url_foods (spread_with food "available" (boolean true))) st
  = if fresh (id_of food) (db st)
    then (Fulfilled (Response (Obj (spread_with food "available" (boolean true)))),
          JsonServer (db st ++ [Obj (spread_with food "available" (boolean true))]))
    else (Rejected (AxiosError (Some 500)), st).
Proof.
  intros Hf. simpl.
  destruct (new_id_typed _ (db st) (has_type_spread_with food Hf)) as [Hid ->].
  rewrite Hid. destruct (has_type_interface_Obj _ _ Hf) as [o ->].
  unfold id_of, spread_with. simpl. by rewrite lookup_insert_ne.
Qed.

(** ** Theorems *)

(** C25.  What the handlers send for arguments of the declared types.  An
    add posts a body of type [FoodProps] whose id is the candidate's: the
    request names the id of the item to create.  An update puts a body of
    type [FoodProps] in which every member of the interface is the
    patch's, the id included: of the editing slot the body keeps what the
    interface does not declare, and the address, which names an item by
    a number once the slot is of its type.  A delete names an item by a
    number.  No other event sends a request. *)
Theorem declared_requests s ev r :
  declared ev = true →
  issued (dispatch s ev) = Some r →
  match r with
  | GET _ => False
  | POST u body =>
      u = url_foods ∧ has_type (Obj body) FoodProps = true
      ∧ ∃ food, ev = ModalAddFood_handleAddFood food
                ∧ body !! "id" = own_props food !! "id"
  | PUT u body =>
      has_type (Obj body) FoodProps = true
      ∧ (has_type (editingFood s) FoodProps = true → ∃ n, u = url_food (number n))
      ∧ ∃ food, ev = ModalEditFood_handleUpdateFood food
                ∧ ∀ k t, index FoodProps k = Some t → body !! k = own_props food !! k
  | DELETE u => ∃ n, u = url_food (number n)
  end.
Proof.
  intros Hev. destruct ev as [| |food| |food|id|food]; simpl; try done.
  - intros [= <-]. split_and!; [done|by apply has_type_spread_with|].
    exists food. split; [done|]. by rewrite lookup_spread_with.
  - unfold handleUpdateFood.
    destruct (get_id (editingFood s)) as [id|] eqn:Hid; simpl; [|done].
    intros [= <-]. split_and!; [exact (has_type_spread _ _ _ Hev)| |].
    + intros [n Hn]%FoodProps_id. exists n. congruence.
    + exists food. split; [done|]. intros k t. by apply spread_declared.
  - intros [= <-]. destruct id; try done. eauto.
Qed.

Lemma declared_requests_witness :
  has_type (Obj (spread pizza pizza)) FoodProps = true
  ∧ (has_type (editingFood (State false true (Array [pizza]) pizza)) FoodProps = true →
     ∃ n, url_food (number 1) = url_food (number n))
  ∧ ∃ food, ModalEditFood_handleUpdateFood pizza = ModalEditFood_handleUpdateFood food
            ∧ ∀ k t, index FoodProps k = Some t →
                     spread pizza pizza !! k = own_props food !! k.
Proof.
  apply (declared_requests (State false true (Array [pizza]) pizza)
           (ModalEditFood_handleUpdateFood pizza)
           (PUT (url_food (number 1)) (spread pizza pizza))); reflexivity.
Defined.

(** C24.  The declared types hold of the page and of the store together.
    With [json_server] holding items of type [FoodProps], after any
    sequence of events whose arguments are of the declared types and of
    arrivals of answers, in any order: the items of the store and the
    elements of the list on the page are of type [FoodProps], so is the
    body of every request in flight, the editing slot is of type
    [FoodProps] or still the [{}] it started as, and every event with
    arguments of the declared types can fire. *)
Theorem declared_typed l st c st' :
  Forall (λ f, has_type f FoodProps = true) (db st) →
  forallb declared_input l = true →
  interleave l boot st = Some (c, st') →
  Forall (λ f, has_type f FoodProps = true) (db st')
  ∧ has_array_type (foods (ui (world c))) FoodProps = true
  ∧ Forall (λ p, typed_body (p_call p) = true) (inflight c)
  ∧ slot_typed (ui (world c))
  ∧ ∀ ev, declared ev = true → ∃ c', click ev c st' = Some (c', st').
Proof.
  intros Hst Hl Hc.
  assert (Ht : typed c st') by (eapply interleave_typed; [done|by apply boot_typed|done]).
  pose proof Ht as (_ & Hst' & [Hf _] & Hin & Hs).
  split_and!; [done|by apply has_array_type_array_of|done..|].
  intros ev Hev. destruct (click_typed ev c st' Hev Ht) as (c' & Hc' & _). eauto.
Qed.

Lemma declared_typed_witness :
  Forall (λ f, has_type f FoodProps = true) (db (JsonServer [pizza]))
  ∧ has_array_type
      (foods (ui (world (idle (State false true (Array [pizza]) pizza)))))
      FoodProps = true
  ∧ Forall (λ p, typed_body (p_call p) = true)
      (inflight (idle (State false true (Array [pizza]) pizza)))
  ∧ slot_typed (ui (world (idle (State false true (Array [pizza]) pizza))))
  ∧ ∀ ev, declared ev = true →
      ∃ c', click ev (idle (State false true (Array [pizza]) pizza)) (JsonServer [pizza])
            = Some (c', JsonServer [pizza]).
Proof.
  apply (declared_typed [Deliver 0; Press (Food_handleEditFood pizza)]
           (JsonServer [pizza])).
  - by repeat constructor.
  - reflexivity.
  - reflexivity.
Defined.

(** A candidate of the declared type whose id is taken: the creation is
    refused and logged, the page and the store are as before. *)
Example declared_add_refused :
  interleave [Deliver 0; Press (ModalAddFood_handleAddFood (pasta 1)); Deliver 0]
    boot (JsonServer [pizza])
  = Some (set_world (λ w, Page (ui w) [AxiosError (Some 500)])
            (idle (State false false (Array [pizza]) (Obj ∅))),
          JsonServer [pizza]).
Proof. reflexivity. Qed.

(** A candidate of the declared type whose id is free: the item is
    created under the candidate's id, 7, not under the next id, 2. *)
Example declared_add_chooses_id :
  interleave [Deliver 0; Press (ModalAddFood_handleAddFood (pasta 7)); Deliver 0]
    boot (JsonServer [pizza])
  = Some (idle (State false false (Array [pizza; pasta 7]) (Obj ∅)),
          JsonServer [pizza; pasta 7])
  ∧ new_id (own_props food_form) [pizza] = number 2.
Proof. split; reflexivity. Qed.
