(* ===== verification/Spec.v ===== *)
(** * Spec: the controller of the specification, and its implementation

    Section 4.1 of the specification describes the controller operation by
    operation: what it sends, what it does to the collection on success,
    what happens on failure.  This file writes these operations down as
    functions on the state of the controller and a remote store, with no
    task, no continuation and no event loop, and proves that the component
    implements them: an event whose handler runs alone against a store
    that satisfies the contract ([operate]) does to the page and to the
    store what the operation of the specification does ([controlled]),
    whenever the page can be rendered ([operate_controller]).  With
    in-flight tracking ([Serial]) a whole session is the operations of
    the specification, one after the other in the order the events were
    pressed ([serially_controller]).

    The operations carry the names of the specification. *)

From Stdlib Require Import Floats.
From stdpp Require Import strings gmap.
From S2P Require Import Prelude JsValue Task EventLoop Dashboard Machine Server Sync.
From S2P Require Import Interleave Serial.

(** ** Definitions *)

Section spec.
Context {S : Type} `{RemoteStoreLaws S}.

(** How an operation ends (section 4.1, failure semantics): it succeeds,
    its failure is caught and logged, or its failure is not caught. *)
Inductive report :=
| Done
| Logged (e : exn)
| Unhandled (e : exn).

(** The collection of the specification is a sequence of items: the
    elements of the list cell. *)
Definition sequence (s : state) : list value :=
  match foods s with Array l => l | NotArray _ => [] end.

Definition with_collection (l : list value) (s : state) : state :=
  State (modalOpen s) (editModalOpen s) (Array l) (editingFood s).

(** Initialize(): fetch all; on success replace the collection. *)
Definition Initialize (s : state) (st : S) : state * report * S :=
  match serve _ (api_get url_foods) st with
  | (Fulfilled r, st') =>
      (State (modalOpen s) (editModalOpen s) (data r) (editingFood s), Done, st')
  | (Rejected e, st') => (s, Unhandled e, st')
  end.

(** AddItem(candidate): create with [available] forced to [true]; on
    success append the returned item; on failure log. *)
Definition AddItem (candidate : value) (s : state) (st : S) : state * report * S :=
  match serve _ (api_post url_foods
                   (spread_with candidate "available" (boolean true))) st with
  | (Fulfilled r, st') => (with_collection (sequence s ++ [data r]) s, Done, st')
  | (Rejected e, st') => (s, Logged e, st')
  end.

(** UpdateItem(patch): update at the id of the editing slot with the slot
    merged with the patch; on success replace the item with the returned
    id; on failure log.  An editing slot that is [null] or [undefined] is
    a failure before any request. *)
Definition UpdateItem (patch : value) (s : state) (st : S) : state * report * S :=
  if has_id (editingFood s)
  then
    match serve _ (api_put (url_food (id_of (editingFood s)))
                     (spread (editingFood s) patch)) st with
    | (Fulfilled r, st') =>
        (with_collection (replace_id (data r) <$> sequence s) s, Done, st')
    | (Rejected e, st') => (s, Logged e, st')
    end
  else (s, Logged TypeError, st).

(** DeleteItem(id): delete, then remove the items with that id; a failure
    is not caught. *)
Definition DeleteItem (id : prim) (s : state) (st : S) : state * report * S :=
  match serve _ (api_delete (url_food id)) st with
  | (Fulfilled _, st') =>
      (with_collection (List.filter (λ f, strict_neq (id_of f) id) (sequence s)) s,
       Done, st')
  | (Rejected e, st') => (s, Unhandled e, st')
  end.

Definition ToggleAddModalVisibility (s : state) (st : S) : state * report * S :=
  (State (negb (modalOpen s)) (editModalOpen s) (foods s) (editingFood s), Done, st).

Definition ToggleEditModalVisibility (s : state) (st : S) : state * report * S :=
  (State (modalOpen s) (negb (editModalOpen s)) (foods s) (editingFood s), Done, st).

Definition BeginEdit (item : value) (s : state) (st : S) : state * report * S :=
  (State (modalOpen s) true (foods s) item, Done, st).

(** The presentation-layer contract (section 6): which operation each
    callback of the rendered tree is. *)
Definition controller (ev : event) : state → S → state * report * S :=
  match ev with
  | Header_openModal | ModalAddFood_setIsOpen => ToggleAddModalVisibility
  | ModalAddFood_handleAddFood candidate => AddItem candidate
  | ModalEditFood_setIsOpen => ToggleEditModalVisibility
  | ModalEditFood_handleUpdateFood patch => UpdateItem patch
  | Food_handleDelete id => DeleteItem id
  | Food_handleEditFood item => BeginEdit item
  end.

(** A configuration after an operation of the controller: its state, and
    the failure where failures go. *)
Definition conclude (s : state) (rep : report) (c : dconfig) : dconfig :=
  match rep with
  | Done => Config (Page s (console (world c))) (inflight c) (uncaught c)
  | Logged e => Config (Page s (console (world c) ++ [e])) (inflight c) (uncaught c)
  | Unhandled e => Config (Page s (console (world c))) (inflight c) (uncaught c ++ [e])
  end.

Definition controlled (op : state → S → state * report * S)
    (c : dconfig) (st : S) : dconfig * S :=
  let '(s, rep, st') := op (ui (world c)) st in (conclude s rep c, st').

(** A sequence of events as operations of the controller, from
    [Initialize()] on the initial state. *)
Fixpoint controls (evs : list event) (c : dconfig) (st : S) : dconfig * S :=
  match evs with
  | [] => (c, st)
  | ev :: evs => let '(c', st') := controlled (controller ev) c st in controls evs c' st'
  end.

Definition initialized (st : S) : dconfig * S :=
  controlled Initialize (Config (Page initial []) [] []) st.

(** ** Lemmas *)

Lemma AddItem_implemented food c st l :
  foods (ui (world c)) = Array l →
  finish_with act serve (handleAddFood (ui (world c)) food) c st
  = controlled (AddItem food) c st.
Proof.
  intros Hl. unfold controlled, AddItem, sequence. simpl.
  pose proof (serve_post (spread_with food "available" (boolean true)) st) as Hlaw.
  destruct (serve _ _ st) as [[r|e] st']; simpl; [|done].
  destruct Hlaw as (id & _ & -> & _). by rewrite Hl.
Qed.

Lemma UpdateItem_implemented food c st l :
  foods (ui (world c)) = Array l →
  alive (world c) = true →
  finish_with act serve (handleUpdateFood (ui (world c)) food) c st
  = controlled (UpdateItem food) c st.
Proof.
  intros Hl Hc%(alive_Forall _ l); [|done].
  unfold controlled, UpdateItem, sequence, handleUpdateFood, id_of, has_id.
  destruct (get_id (editingFood (ui (world c)))) as [id|[]] eqn:Hid; simpl.
  - pose proof (serve_put id (spread (editingFood (ui (world c))) food) st) as Hlaw.
    destruct (serve _ _ st) as [[r|e] st']; simpl; [|done].
    destruct Hlaw as (i & f & _ & _ & Hr & _). rewrite Hl. simpl.
    rewrite mapM_replace_updated; [reflexivity|by rewrite Hr|done].
  - done.
  - apply get_id_Err in Hid as [[=] _].
Qed.

Lemma DeleteItem_implemented id c st l :
  foods (ui (world c)) = Array l →
  alive (world c) = true →
  finish_with act serve (handleDeleteFood (ui (world c)) id) c st
  = controlled (DeleteItem id) c st.
Proof.
  intros Hl Hc%(alive_Forall _ l); [|done]. unfold controlled, DeleteItem, sequence.
  destruct c as [[s con] inf unc]. simpl in *.
  destruct (serve _ _ st) as [[r|e] st']; simpl; [|done].
  rewrite Hl. simpl. by rewrite filterM_keep_other.
Qed.

(** Each event is its operation. *)
Lemma operate_controlled ev c st l :
  foods (ui (world c)) = Array l →
  alive (world c) = true →
  operate ev c st = Some (controlled (controller ev) c st).
Proof.
  intros Hl Hc. unfold operate. rewrite Hc. f_equal.
  destruct ev; unfold handler; simpl dispatch; simpl controller.
  1,2,4,7: by destruct c as [[[] ?] ? ?].
  - by eapply AddItem_implemented.
  - by eapply UpdateItem_implemented.
  - by eapply DeleteItem_implemented.
Qed.

(** The fetch on mount is Initialize() of the specification, from the
    initial state. *)
Lemma start_Initialize st : start st = initialized st.
Proof.
  unfold start, initialized, controlled, Initialize. simpl.
  by destruct (serve _ _ st) as [[r|e] st'].
Qed.

(** Operations one after the other, from a page in sync, are the
    operations of the controller. *)
Lemma operates_controls evs c st :
  in_sync c st → operates evs c st = Some (controls evs c st).
Proof.
  revert c st. induction evs as [|ev evs IH]; intros c st Hs; [done|].
  destruct (in_sync_operate ev c st Hs) as (c1 & st1 & Hop & Hs1).
  pose proof Hs as (Hf & _). cbn [operates controls].
  rewrite (operate_controlled ev c st _ Hf (in_sync_alive _ _ Hs)) in Hop |- *.
  injection Hop as ->. simpl. by apply IH.
Qed.

(** ** Theorems *)

(** C11.  The component implements the controller of the specification.
    On a page whose list is an array and that can be rendered, with a
    store that satisfies the contract, every event whose handler runs
    alone does to the state, the console, the uncaught failures and the
    store what the operation of section 4.1 bound to it does. *)
Theorem operate_controller ev c st l :
  foods (ui (world c)) = Array l →
  alive (world c) = true →
  operate ev c st = Some (controlled (controller ev) c st).
Proof. apply operate_controlled. Qed.

(** C16.  With in-flight tracking the component is the controller of the
    specification.  From the first render, with a store that satisfies
    the contract, when the events whose handler calls the store are
    accepted only while nothing is in flight (the toggles, the edit
    request and the answers at any time): the operations of section 4.1
    bound to the events of the session, performed one after the other
    from [Initialize()] in the order the events were pressed, end with
    the page in sync with the store; when nothing is in flight the page
    and the store of the session are the ones they end with, and when a
    call is in flight, which is then the only one, they are once its
    answer is delivered. *)
Theorem serially_controller l st c st' :
  store_ok (items st) → serially l boot st = Some (c, st') →
  in_sync (controls (presses l) (initialized st).1 (initialized st).2).1
    (controls (presses l) (initialized st).1 (initialized st).2).2
  ∧ match inflight c with
    | [] => controls (presses l) (initialized st).1 (initialized st).2 = (c, st')
    | _ => deliver 0 c st'
           = Some (controls (presses l) (initialized st).1 (initialized st).2)
    end.
Proof.
  intros Hok Hl. destruct (serially_sequential l st c st' Hok Hl) as (r & Hops & Hs & Hr).
  rewrite start_Initialize, operates_controls in Hops
    by (rewrite <- start_Initialize; by apply start_in_sync).
  by injection Hops as ->.
Qed.

End spec.

Lemma operate_controller_witness :
  operate (ModalAddFood_handleAddFood food_form) (idle initial) (JsonServer [])
  = Some (controlled (controller (ModalAddFood_handleAddFood food_form))
            (idle initial) (JsonServer [])).
Proof.
  apply (operate_controller (ModalAddFood_handleAddFood food_form) (idle initial)
           (JsonServer []) []); reflexivity.
Defined.

Lemma serially_controller_witness :
  in_sync (controls (presses [Press Header_openModal; Deliver 0;
                              Press (ModalAddFood_handleAddFood food_form);
                              Press (Food_handleEditFood food_1); Deliver 0])
             (initialized (JsonServer [])).1 (initialized (JsonServer [])).2).1
    (controls (presses [Press Header_openModal; Deliver 0;
                        Press (ModalAddFood_handleAddFood food_form);
                        Press (Food_handleEditFood food_1); Deliver 0])
       (initialized (JsonServer [])).1 (initialized (JsonServer [])).2).2
  ∧ match inflight (idle (State true true (Array [food_1]) food_1)) with
    | [] => controls (presses [Press Header_openModal; Deliver 0;
                               Press (ModalAddFood_handleAddFood food_form);
                               Press (Food_handleEditFood food_1); Deliver 0])
              (initialized (JsonServer [])).1 (initialized (JsonServer [])).2
            = (idle (State true true (Array [food_1]) food_1), JsonServer [food_1])
    | _ => deliver 0 (idle (State true true (Array [food_1]) food_1))
             (JsonServer [food_1])
           = Some (controls (presses [Press Header_openModal; Deliver 0;
                                      Press (ModalAddFood_handleAddFood food_form);
                                      Press (Food_handleEditFood food_1); Deliver 0])
                     (initialized (JsonServer [])).1 (initialized (JsonServer [])).2)
    end.
Proof.
  apply (serially_controller
           [Press Header_openModal; Deliver 0;
            Press (ModalAddFood_handleAddFood food_form);
            Press (Food_handleEditFood food_1); Deliver 0]
           (JsonServer []) (idle (State true true (Array [food_1]) food_1))
           (JsonServer [food_1]));
    [apply store_ok_nil | reflexivity].
Defined.
