(* ===== verification/Legacy.v ===== *)
(** * Legacy: the class component the function component replaced

    Lines 129-242 of the source keep, commented out, the class component
    that [Dashboard] was before it was rewritten with hooks.  This file
    models it as it is written and compares the two.

    The class keeps the four cells in one object, [this.state], that
    [this.setState] updates by merging a partial state into it.  Its
    methods read [this.state] when they are called, before their [await],
    as the handlers of the function component read the cells of their
    render.  The two differ in one place: [handleAddFood] of the class
    appends [response.data] whatever it is, the function component only
    when it is truthy (line 52).

    The theorems: on the event loop the two components go through the same
    pages, move for move, as long as no POST is fulfilled with a falsy
    [data] ([class_component_equivalent]); and when one is, the class puts
    it in the list, and stops at the next render when it is [null] or
    [undefined]. *)

From Stdlib Require Import Floats.
From stdpp Require Import strings gmap.
From S2P Require Import Prelude JsValue Task EventLoop Dashboard Machine.

(** ** Definitions *)

(** The argument of [this.setState]: the cells it names. *)
Record partial := Partial {
  set_foods : option collection;
  set_editingFood : option value;
  set_modalOpen : option bool;
  set_editModalOpen : option bool;
}.

(** The synchronous effects of the methods. *)
Inductive class_effect :=
| setState (p : partial)
| class_console_log (err : exn).

(** Lines 132-140, the constructor:
<<
    this.state = {
     foods: [],
      editingFood: {},
      modalOpen: false,
      editModalOpen: false,
    }
>> *)
Definition this_state : state := State false false (Array []) (Obj ∅).

(** [this.setState(p)] replaces the cells [p] names and keeps the others. *)
Definition merge (p : partial) (s : state) : state :=
  State (default (modalOpen s) (set_modalOpen p))
        (default (editModalOpen s) (set_editModalOpen p))
        (default (foods s) (set_foods p))
        (default (editingFood s) (set_editingFood p)).

Definition class_act (u : class_effect) (w : page) : page :=
  match u with
  | setState p => Page (merge p (ui w)) (console w)
  | class_console_log err => Page (ui w) (console w ++ [err])
  end.

Abbreviation cjs := (task exn api class_effect).

(** [{ foods: l }]. *)
Definition only_foods (l : collection) : partial := Partial (Some l) None None None.

(** Lines 142-146:
<<
  async componentDidMount() {
    const response = await api.get('/foods');
    this.setState({ foods: response.data });
  }
>> *)
Definition componentDidMount : cjs unit :=
  response ← await (api_get url_foods);
  perform (setState (only_foods (data response))).

Section this.
(** [this.state] when the method is called. *)
Context (s : state).

(** Lines 148-161:
<<
  handleAddFood = async food => {
    const { foods } = this.state;
    try {
      const response = await api.post('/foods', { ...food, available: true });
      this.setState({ foods: [...foods, response.data] });
    } catch (err) {
      console.log(err);
    }
  }
>> *)
Definition this_handleAddFood (food : value) : cjs unit :=
  try_catch
    (response ← await (api_post url_foods
                         (spread_with food "available" (boolean true)));
     l ← lift (iterate (foods s));
     perform (setState (only_foods (Array (l ++ [data response])))))
    (λ err, perform (class_console_log err)).

(** Lines 163-180:
<<
  handleUpdateFood = async food => {
    const { foods, editingFood } = this.state;
    try {
      const foodUpdated = await api.put(`/foods/${editingFood.id}`,
                                        { ...editingFood, ...food });
      const foodsUpdated = foods.map(f =>
        f.id !== foodUpdated.data.id ? f : foodUpdated.data);
      this.setState({ foods: foodsUpdated });
    } catch (err) {
      console.log(err);
    }
  }
>> *)
Definition this_handleUpdateFood (food : value) : cjs unit :=
  try_catch
    (id ← lift (get_id (editingFood s));
     foodUpdated ← await (api_put (url_food id) (spread (editingFood s) food));
     l ← lift (as_array (foods s));
     foodsUpdated ← lift (mapM (replace_updated (data foodUpdated)) l);
     perform (setState (only_foods (Array foodsUpdated))))
    (λ err, perform (class_console_log err)).

(** Lines 182-190:
<<
  handleDeleteFood = async id => {
    const { foods } = this.state;
    await api.delete(`/foods/${id}`);
    const foodsFiltered = foods.filter(food => food.id !== id);
    this.setState({ foods: foodsFiltered });
  }
>> *)
Definition this_handleDeleteFood (id : prim) : cjs unit :=
  _ ← await (api_delete (url_food id));
  l ← lift (as_array (foods s));
  foodsFiltered ← lift (filterM (keep_other id) l);
  perform (setState (only_foods (Array foodsFiltered))).

(** Lines 192-196: [this.setState({ modalOpen: !modalOpen })]. *)
Definition this_toggleModal : cjs unit :=
  perform (setState (Partial None None (Some (negb (modalOpen s))) None)).

(** Lines 198-202: [this.setState({ editModalOpen: !editModalOpen })]. *)
Definition this_toggleEditModal : cjs unit :=
  perform (setState (Partial None None None (Some (negb (editModalOpen s))))).

End this.

(** Lines 204-206:
    [this.setState({ editingFood: food, editModalOpen: true })]. *)
Definition this_handleEditFood (food : value) : cjs unit :=
  perform (setState (Partial None (Some food) None (Some true))).

(** The wiring of lines 213-234: the props are bound to the methods as
    lines 100-121 bind them to the handlers. *)
Definition class_dispatch (s : state) (ev : event) : cjs unit :=
  match ev with
  | Header_openModal => this_toggleModal s
  | ModalAddFood_setIsOpen => this_toggleModal s
  | ModalAddFood_handleAddFood food => this_handleAddFood s food
  | ModalEditFood_setIsOpen => this_toggleEditModal s
  | ModalEditFood_handleUpdateFood food => this_handleUpdateFood s food
  | Food_handleDelete id => this_handleDeleteFood s id
  | Food_handleEditFood food => this_handleEditFood food
  end.

(** Lines 208-239, [render()], with the guard [foods &&] of line 227. *)
Definition class_render (s : state) : result exn view :=
  elements ← (if present (foods s)
              then l ← as_array (foods s);
                   mapM (λ food, key ← get_id food; mret (key, food)) l
              else mret []);
  mret (View (modalOpen s) (editModalOpen s) (editingFood s) elements).

(** The class component on the event loop. *)
Definition class_alive (w : page) : bool := is_ok (class_render (ui w)).

Definition class_handler (w : page) (ev : event) : cjs unit :=
  class_dispatch (ui w) ev.

Abbreviation cconfig := (@EventLoop.config exn api class_effect page).
Abbreviation class_play := (execs class_act class_handler class_alive).

Definition class_boot : cconfig :=
  run class_act componentDidMount (Config (Page this_state []) [] []).

(** *** Comparing the two components *)

(** The setter calls that do what one [setState] does. *)
Definition expand (u : class_effect) : list effect :=
  match u with
  | setState p =>
      option_list (setFoods <$> set_foods p)
      ++ option_list (setEditingFood <$> set_editingFood p)
      ++ option_list (setModalOpen <$> set_modalOpen p)
      ++ option_list (setEditModalOpen <$> set_editModalOpen p)
  | class_console_log err => [console_log err]
  end.

(** The answers on which the two components agree: a created item is not
    falsy. *)
Definition good {R} (call : api R) : outcome exn R → Prop :=
  match call in api R return outcome exn R → Prop with
  | api_post _ _ => λ o, match o with
                         | Fulfilled r => truthy (data r) = true
                         | Rejected _ => True
                         end
  | _ => λ _, True
  end.

Definition good_move (m : move (E:=exn) (C:=api) (Ev:=event)) : Prop :=
  match m with
  | Click _ => True
  | Answer _ ans => ∀ R (call : api R), good call (ans R call)
  end.

(** A task of the class and a task of the function component that do the
    same: the same calls, the same exceptions, effects that change the
    page in the same way, on every good answer. *)
Inductive matches : cjs unit → js unit → Prop :=
| matches_Ret a : matches (Ret a) (Ret a)
| matches_Throw e : matches (Throw e) (Throw e)
| matches_Do u k' k :
    matches k' k → matches (Do u k') (foldr Do k (expand u))
| matches_Await R (call : api R) k' k :
    (∀ o, good call o → matches (k' o) (k o)) →
    matches (Await call k') (Await call k).

(** Calls in flight that wait with matching continuations. *)
Inductive pending_matches :
  pending (E:=exn) (C:=api) (U:=class_effect) →
  pending (E:=exn) (C:=api) (U:=effect) → Prop :=
| pending_matches_intro R (call : api R) k' k :
    (∀ o, good call o → matches (k' o) (k o)) →
    pending_matches (Pending R call k') (Pending R call k).

(** Configurations of the two components that show the same page. *)
Definition sim (c' : cconfig) (c : dconfig) : Prop :=
  world c' = world c ∧ uncaught c' = uncaught c
  ∧ Forall2 pending_matches (inflight c') (inflight c).

(** ** Lemmas *)

Lemma class_render_render s : class_render s = render s.
Proof. done. Qed.

Lemma act_expand u w : foldl (flip act) w (expand u) = class_act u w.
Proof.
  destruct u as [[[l|] [v|] [b|] [b'|]]|err], w as [[]]; reflexivity.
Qed.

Lemma run_foldr_Do us (t : js unit) (c : dconfig) :
  run act (foldr Do t us) c = run act t (set_world (λ w, foldl (flip act) w us) c).
Proof.
  revert c. induction us as [|u us IH]; intros c; simpl; [by destruct c|].
  by rewrite IH.
Qed.

Lemma sim_set_world u c' c :
  sim c' c →
  sim (set_world (class_act u) c')
      (set_world (λ w, foldl (flip act) w (expand u)) c).
Proof.
  intros (Hw & Hu & Hin). split_and!; [|done..]. simpl.
  by rewrite act_expand, Hw.
Qed.

(** Matching tasks take matching configurations to matching
    configurations. *)
Lemma sim_run t' t c' c :
  matches t' t → sim c' c → sim (run class_act t' c') (run act t c).
Proof.
  intros Ht. revert c' c.
  induction Ht as [a|e|u k' k _ IH|R call k' k Hk _]; intros c' c Hc.
  - done.
  - destruct Hc as (Hw & Hu & Hin). split_and!; simpl; [done| |done].
    by rewrite Hu.
  - rewrite run_foldr_Do. simpl. by apply IH, sim_set_world.
  - destruct Hc as (Hw & Hu & Hin). split_and!; simpl; [done..|].
    apply Forall2_app; [done|]. by repeat constructor.
Qed.

Lemma sim_delete i c' c :
  sim c' c → sim (set_inflight (delete i) c') (set_inflight (delete i) c).
Proof.
  intros (Hw & Hu & Hin). split_and!; [done..|]. by apply Forall2_delete.
Qed.

(** Proves that a method matches a handler, by cases on what the
    accesses to [id] and the calls return. *)
Ltac solve_matches :=
  repeat first
    [ progress (simpl; intros)
    | match goal with
      | |- matches (perform ?u) _ =>
          exact (matches_Do u (Ret tt) (Ret tt) (matches_Ret tt))
      | |- matches (Do ?u (Ret tt)) _ =>
          exact (matches_Do u (Ret tt) (Ret tt) (matches_Ret tt))
      | |- context [lift ?r] => destruct r
      | H : truthy ?v = true |- context [truthy ?v] => rewrite H
      | o : outcome _ _ |- _ => destruct o
      end
    | constructor ];
  try done.

Lemma componentDidMount_matches : matches componentDidMount getFoods.
Proof. unfold componentDidMount, getFoods. solve_matches. Qed.

Lemma class_dispatch_matches s ev : matches (class_dispatch s ev) (dispatch s ev).
Proof.
  destruct ev; simpl;
    unfold this_toggleModal, toggleModal, this_toggleEditModal, toggleEditModal,
      this_handleAddFood, handleAddFood, this_handleUpdateFood, handleUpdateFood,
      this_handleDeleteFood, handleDeleteFood, this_handleEditFood, handleEditFood.
  all: solve_matches.
Qed.

Lemma class_boot_sim : sim class_boot boot.
Proof.
  apply sim_run; [apply componentDidMount_matches|]. by split_and!.
Qed.

(** One move of the two components. *)
Lemma sim_exec m c' c :
  sim c' c → good_move m →
  option_Forall2 sim (exec class_act class_handler class_alive m c')
                     (exec act handler alive m c).
Proof.
  intros Hc Hm. pose proof Hc as (Hw & Hu & Hin). destruct m as [ev|i ans]; simpl.
  - unfold class_alive, class_handler, alive, handler.
    rewrite class_render_render, Hw.
    destruct (is_ok (render (ui (world c)))); constructor.
    apply sim_run; [apply class_dispatch_matches | done].
  - destruct (proj1 (Forall2_lookup _ _ _) Hin i) as [p' p [R call k' k Hk]|];
      constructor.
    apply sim_run; [apply Hk, Hm | by apply sim_delete].
Qed.

Lemma sim_execs ms c' c :
  sim c' c → Forall good_move ms →
  option_Forall2 sim (class_play ms c') (play ms c).
Proof.
  intros Hc Hms. revert c' c Hc.
  induction Hms as [|m ms Hm _ IH]; intros c' c Hc; simpl; [by constructor|].
  destruct (sim_exec m c' c Hc Hm) as [c1' c1 Hc1|]; simpl; [by apply IH|constructor].
Qed.

(** ** Theorems *)

(** C29.  The class component and the function component are equivalent
    as long as no POST is fulfilled with a falsy [data].  For every
    sequence of events and answers in which created items are truthy,
    played from the first render with the fetch in flight, either both
    components cannot make one of the moves, or both can make them all and
    end with the same state, the same console, the same uncaught
    exceptions and as many calls in flight. *)
Theorem class_component_equivalent ms :
  Forall good_move ms →
  option_Forall2
    (λ c' c, world c' = world c ∧ uncaught c' = uncaught c
             ∧ length (inflight c') = length (inflight c))
    (class_play ms class_boot) (play ms boot).
Proof.
  intros Hms.
  destruct (sim_execs ms class_boot boot class_boot_sim Hms)
    as [c' c (Hw & Hu & Hin)|]; constructor.
  split_and!; [done..|]. by eapply Forall2_length.
Qed.

Lemma class_component_equivalent_witness :
  option_Forall2
    (λ c' c, world c' = world c ∧ uncaught c' = uncaught c
             ∧ length (inflight c') = length (inflight c))
    (class_play [Answer 0 (answer [] food_1);
                 Click (ModalAddFood_handleAddFood food_form);
                 Answer 0 (answer [] food_1)] class_boot)
    (play [Answer 0 (answer [] food_1);
           Click (ModalAddFood_handleAddFood food_form);
           Answer 0 (answer [] food_1)] boot).
Proof.
  apply (class_component_equivalent
           [Answer 0 (answer [] food_1);
            Click (ModalAddFood_handleAddFood food_form);
            Answer 0 (answer [] food_1)]).
  repeat constructor; intros R []; simpl; done.
Defined.

(** Without the test of line 52, [handleAddFood] of the class
    appends whatever the POST is fulfilled with: the list grows by one on
    every fulfilled add, by a falsy [data] too. *)
Lemma this_handleAddFood_fulfilled (ans : answers) s food r (c : cconfig) l :
  ans _ (api_post url_foods (spread_with food "available" (boolean true)))
    = Fulfilled r →
  iterate (foods s) = Ok l →
  finish class_act ans (this_handleAddFood s food) c
  = set_world (class_act (setState (only_foods (Array (l ++ [data r]))))) c.
Proof. intros Hans Hl. simpl. by rewrite Hans, Hl. Qed.

(** Where the two components part.  An add fulfilled with [null]
    leaves the function component as it was, with an empty list and a
    page that still answers events; the class component lists [null],
    its next render throws at [key={food.id}], and no event can occur
    any more. *)
Example class_add_null_stops_page :
  let ms := [Answer 0 (answer [] (Prim null));
             Click (ModalAddFood_handleAddFood food_form);
             Answer 0 (answer [] (Prim null))] in
  (∃ c, play ms boot = Some c
        ∧ foods (ui (world c)) = Array [] ∧ alive (world c) = true)
  ∧ (∃ c', class_play ms class_boot = Some c'
           ∧ foods (ui (world c')) = Array [Prim null]
           ∧ class_alive (world c') = false
           ∧ class_play [Click Header_openModal] c' = None).
Proof. split; eexists; by vm_compute. Qed.
